(* ===== verification/_CoqProject ===== *)
-Q . S2P
Prelude.v
Interfaces.v
WrappingIntegers.v
ByteStream.v
Reassembler.v
Timer.v
TCPMessages.v
TCPReceiver.v
TCPSender.v
TCPPeer.v
Connection.v
Ref.v
Parser.v
Wire.v
Checksum.v
Ethernet.v
IPv4.v
TCPSegment.v
ARPMessage.v
Address.v
TCPOverIP.v
WireSize.v
ARPTable.v
ARPMessageQueue.v
NetworkInterface.v
Router.v
ObjectPool.v
WorkerPool.v
Protocol.v
Effects.v
Errors.v
FileDescriptor.v
EventRules.v
EventLoop.v
EventInvariant.v
EpollEventLoop.v
EpollInvariant.v
Socket.v
Pipe.v
StreamCopy.v
Adapter.v
PeerStreams.v
MinnowSocket.v
SocketOwner.v
SocketLoop.v
SocketCopy.v
EpollServer.v
Client.v
Server.v
Endtoend.v
EndtoendSocket.v
Webget.v
Text.v
IPTest.v
CLibrary.v
CommandLine.v
TcpNative.v
TcpIPv4.v
EndtoendMain.v
