(* ===== verification/Prelude.v ===== *)
(** * A verification of the Minnow TCP/IP stack

    The program is a user-space TCP/IP stack with its applications: byte
    streams, reassembly, the two halves of a TCP connection, IPv4, ARP,
    Ethernet and a router, over file descriptors, sockets and two event loops;
    and a demo server with its own protocol, worker pool and clients.  Paths
    are relative to the repository as it stands under src/ (its own
    directories are src/src, src/util, src/apps and src/demo).

    ** How the code is represented

    - Integers keep their width: a [uint16_t], [uint32_t] or [uint64_t] is a [Z]
      with its wrap-around written out ([u16], [u32], [u64] below); a [bytes] is
      a list of [Byte.byte].
    - A call that may throw returns [result]: [Throw] is a C++ exception,
      [Undefined] what the language leaves undefined (the front of an empty
      container, an unchecked index), [OutOfFuel] a loop of the model that has
      used up its fuel.  Theorems show where the last two cannot happen, and
      examples and [epoll_server_use_after_free] where undefined behaviour can;
      fuel is computed from the input inside the definition wherever a loop that
      is not structural ends by itself, and is an argument where the loop waits
      for the outside.
    - Objects are records with the names of the code's fields, operations are
      functions on them; the code's callbacks and observers are the outputs an
      operation returns, in order, or codes that the program interprets.
    - Code that runs against the operating system is in the [eff] monad of
      Effects.v, state passing with exceptions that keep the state; what a
      system call answers is an argument of type [syscall].
    - Threads are program points of a step relation (WorkerPool.v, Server.v); the network
      is a bag of everything ever sent (Connection.v).

    ** The files and the code

    Prelude (this file): outcomes, integers, bytes, lists, tactics.
    Interfaces: [StreamWriter], the class of streams a Reassembler may own.

    Transport:
    - WrappingIntegers: src/src/wrapping_integers.hh and .cc.
    - ByteStream: src/src/byte_stream.hh, .cc and _helpers.cc.  [AbstractStream]
      is the specification; [byte_stream_refinement] and [byte_stream_fifo] say
      what a stream promises, and an instance of [StreamWriter] passes it on.
    - Reassembler: src/src/reassembler.hh and .cc, over any [StreamWriter].
    - Timer: src/src/timer.hh.  TCPMessages: the messages and tcp_config.hh of
      src/util.
    - TCPReceiver, TCPSender: the two halves, src/src/tcp_receiver.* and
      tcp_sender.*; TCPPeer: src/util/tcp_peer.hh, their composition.
    - Connection: a sender, a receiver and a network that loses, repeats, delays
      and reorders.  [connection_safety] and [connection_complete] are the main
      theorems of the transport half.

    Formats:
    - Ref, Parser: src/util/ref.hh, parser.hh, parser.cc; Wire: the helpers of
      src/util/helpers.hh and [WireFormat], the class of types that go over the
      wire with the law a format promises however its bytes are cut into
      buffers.  Checksum: src/util/checksum.hh.
    - Ethernet, IPv4, TCPSegment, ARPMessage, Address: the files of those names
      in src/util, each with its parse, its serialize and their round trip.
    - TCPOverIP: src/util/fd_adapter.hh and tcp_over_ip.*, between messages and
      datagrams.

    Network layer:
    - ARPTable, ARPMessageQueue, NetworkInterface, Router: src/src/arp_table.*,
      arp_message_queue.*, network_interface.*, router.*.  [interface_conserves]
      and [router_route] are the main theorems, by induction on executions.

    Operating system and concurrency:
    - ObjectPool: src/util/object_pool.hh.  WorkerPool: src/demo/bounded_queue.hh
      and worker_pool.hh, every interleaving of their threads.
    - Protocol: src/demo/protocol.hh, server_handler.hh, server.cpp (the blocking
      server's loop over a connection).
    - Effects: the monad, and the part of src/util/exception.hh that the other
      files use.  FileDescriptor:
      src/util/file_descriptor.*.
    - EventRules: what src/util/eventloop.* and epoll_eventloop.* have in common,
      namely rules, handles and the service of the rules without a descriptor.
      EventLoop: the loop on poll(2).
    - EpollEventLoop: src/util/epoll_eventloop.*, with the map of descriptor
      states next to the interest list of the kernel;
      [registration_exact] says that they agree whenever the loop waits, if the
      callbacks keep what it relies on.  A number used again by one callback
      breaks it ([reused_number]).
    - Socket: src/util/socket.*, the calls on a socket and their checks.
    - Adapter: src/util/tun.*, tuntap_adapter.* and lossy_fd_adapter.hh behind
      the class [TCPDatagramAdapter]; [tun_roundtrip] puts TCP, IPv4, the
      descriptor and the device together.
    - EpollInvariant: an invariant kept by callbacks under the interest of their
      rule is kept by the loop.
    - WireSize: what is parsed has its fields in range and is no longer than
      what it was parsed from.  PeerStreams: a peer with its two streams, and
      the laws that carry a claim about the inbound one.
    - MinnowSocket: src/util/tcp_minnow_socket.hh and _impl.hh, a peer, an
      adapter and a pipe to the owner on the epoll loop; [minnow_socket_delivers]
      holds at every turn and wherever the thread stops.  The system answers each
      call as a function of its time.
    - SocketLoop: that socket and its loop.  [minnow_socket_streams] says what
      its streams carry and when they are ended, [minnow_registration] that the
      kernel watches what its rules want, at every turn of a connection.
    - EventInvariant: the same for the poll loop, which asks for the interests
      before it calls a rule; when it says Exit, no rule was interested.
    - Pipe: byte streams behind descriptors, as seen by a program that copies
      them.
    - StreamCopy: src/apps/bidirectional_stream_copy.cc, two byte streams and four
      rules on the poll loop; [stream_copy_streams] holds however the copying
      ends, [stream_copy_complete] says that all of it arrives when no hangup is
      reported.
    - SocketOwner: the thread of a connection leaves the owner's end of the pair
      alone.  SocketCopy: such a socket and the copying over it in one process,
      and how the bytes of both meet in the pair of local sockets.
    - EpollServer: src/demo/epoll_server.cpp, connections as objects that the
      rules of the epoll loop refer to; [epoll_server_replies] holds in every
      run, [epoll_server_capacity] and [epoll_server_use_after_free] say how it
      ends.  Several reads of one callback are bounded by a parameter.
    - Client: src/demo/client.cpp; [client_conversation] puts it in front of the
      server's answers, a read for each byte being enough fuel.
    - Server: main of src/demo/server.cpp with the listener, the pool and its
      workers as a step relation; [server_serves] says where every connection
      is and when the program stands still, [flood_jams] that it can.
    - Endtoend: src/apps/endtoend.cc, an adapter with a network interface of its
      own and a thread with a router between it and the Internet;
      [endtoend_delivers] takes a TCP message through both ends, over IPv4,
      Ethernet, the interfaces and the routers.
    - EndtoendSocket: that adapter behind [WireAdapter], so that what is proved of
      TCPMinnowSocket holds of the application's socket
      ([endtoend_socket_streams]).
    - Webget: src/apps/webget.cc, a request and the response to the end;
      [webget_prints] says that all of it is printed.
    - Text: src/util/helpers.cc and the to_string of addresses, headers, segments
      and ARP messages; [pretty_print_bounds], [summary_describes].
    - IPTest: src/apps/iptest.cc, whose packet a receiver rejects.
    - CLibrary: strncmp, strtol and strtof, with binary32 floats, as far as
      command lines use them.  CommandLine: the arguments of
      src/apps/tcp_ipv4.cc; [command_line] says what every line means.
    - TcpNative: src/apps/tcp_native.cc, a socket of the kernel, accepted or
      connected, with the copy over it; [native_copies].
    - TcpIPv4: main of src/apps/tcp_ipv4.cc, from the command line to the end of
      its threads; [tcp_ipv4_streams] and [tcp_ipv4_status].  EndtoendMain: main
      of src/apps/endtoend.cc with its three threads; [endtoend_streams].  Both
      end in a run of the whole program.
    - Errors: src/util/exception.hh in full, debug.hh and debug.cc.

    A packet that is read may end in buffers without bytes, as readv(2) leaves
    them: the theorems on parsing ask for [packed] buffers, where only the last
    ones may be empty.
    ** What the groups of theorems show

    Refinement: the byte stream, the ARP cache.  Functional behaviour on every
    branch: the calls of sender, receiver, peer, interface, router, descriptors.
    Equivalence: the order in which pieces reach the Reassembler does not matter.
    Safety and liveness of compositions: connections, ARP resolution, the
    server's replies, the worker pool.  Round trips: every wire format.
    Termination: pushing, routing, waiting for events, shutting a pool down.
    Errors: the outcomes of writes, the busy-wait checks of the loops, the use of
    a connection that is gone.  Bounds: what a copy holds and has in order, the
    clients of a server.

    ** Fuel

    Loops whose recursion is not structural carry fuel.  Where the bound is
    known from the input it is inside the definition (the segments of a stream,
    the pending map of the Reassembler, the send window, the buffers of a
    parser, the carries of a checksum), and the theorems show it is never used
    up.  The loop of TCPMinnowSocket runs as long as its connection, so its turns
    are an argument and its theorems hold for any number of them.
    [wait_next_event] takes its fuel as an argument, because callbacks may
    add rules while it runs: the theorem of totality says how much is enough
    (more than the rules there are), the others hold for any fuel.

    ** What is assumed

    System calls, getaddrinfo(3) and the random choices are parameters.  Their
    hypotheses are the documented ones: poll(2) fills in one [revents] per
    entry, read(2) stores at most what was asked for, a hash map is iterated in
    some order.  Each theorem with such a hypothesis has a witness that
    instantiates it.  Memory allocation does not fail.

    ** Not modelled
    The destructor of TCPMinnowSocket sets a flag, which is a parameter of the
    model, and joins.  What the programs print to the terminal is left out, and
    ip_raw.cc does nothing.  The threads of an application meet only in what
    the kernel answers them, so each is run by itself, with what it is answered
    as a parameter, and the theorems on whole programs assume of the local
    sockets between them that what is read at one end is the beginning of what
    was written at the other.  What an interface
    of the end-to-end application transmits during one call is written to its
    socket when the call is over; this differs only in what is left behind by a
    write that throws, which ends the thread.

    The texts of exceptions are shortened to what was attempted; Errors.v relates
    them to the whole. *)

From stdpp Require Export base tactics list list_numbers gmap strings sorting.
From Stdlib Require Export ZArith Lia.
From Stdlib Require Export Strings.Byte.

#[export] Set Warnings "-clear-no-such-hyp".
Open Scope Z_scope.

(** * Outcomes *)

(** What a C++ call can end in besides returning: an exception that leaves the
    call, undefined behaviour of the language (reading [front()] of an empty
    container, an out-of-range [operator[]]), or a loop of the model that used
    up its fuel.  The theorems show where the last two can happen and
  where they cannot. *)
Inductive exn : Type :=
  | Throw (what : string)
  | Undefined (what : string)
  | OutOfFuel.

Inductive result (A : Type) : Type :=
  | Ok (a : A)
  | Err (e : exn).
Arguments Ok {A} a.
Arguments Err {A} e.

#[export] Instance result_ret : MRet result := fun A a => Ok a.
#[export] Instance result_bind : MBind result :=
  fun A B f m => match m with Ok a => f a | Err e => Err e end.
#[export] Instance result_fmap : FMap result :=
  fun A B f m => match m with Ok a => Ok (f a) | Err e => Err e end.

Lemma bind_Ok_l {A B} (a : A) (f : A → result B) : (Ok a ≫= f) = f a.
Proof. done. Qed.
Lemma bind_Ok {A B} (m : result A) (f : A → result B) b :
  (m ≫= f) = Ok b → ∃ a, m = Ok a ∧ f a = Ok b.
Proof. destruct m; simpl; naive_solver. Qed.

(** * Machine integers *)

(** [uN x] is the value the N-bit unsigned conversion of [x] has. *)
Definition u8 (x : Z) : Z := x `mod` 2 ^ 8.
Definition u16 (x : Z) : Z := x `mod` 2 ^ 16.
Definition u32 (x : Z) : Z := x `mod` 2 ^ 32.
Definition u64 (x : Z) : Z := x `mod` 2 ^ 64.

Definition UINT16_MAX : Z := 2 ^ 16 - 1.
Definition UINT32_MAX : Z := 2 ^ 32 - 1.

Definition is_u8 (x : Z) : Prop := 0 ≤ x < 2 ^ 8.
Definition is_u16 (x : Z) : Prop := 0 ≤ x < 2 ^ 16.
Definition is_u32 (x : Z) : Prop := 0 ≤ x < 2 ^ 32.
Definition is_u64 (x : Z) : Prop := 0 ≤ x < 2 ^ 64.

(** Decides linear goals over machine integers, unfolding the conversions into
    quotient and remainder equations. *)
Ltac word_unfold :=
  unfold u8, u16, u32, u64, is_u8, is_u16, is_u32, is_u64, UINT16_MAX, UINT32_MAX in *;
  change (2 ^ 8) with 256 in *; change (2 ^ 16) with 65536 in *;
  change (2 ^ 31) with 2147483648 in *; change (2 ^ 32) with 4294967296 in *;
  change (2 ^ 64) with 18446744073709551616 in *.
Ltac word := word_unfold; Z.div_mod_to_equations; lia.

Lemma u64_range x : is_u64 (u64 x).
Proof. apply Z.mod_pos_bound. lia. Qed.
Lemma u32_range x : is_u32 (u32 x).
Proof. apply Z.mod_pos_bound. lia. Qed.
Lemma u16_range x : is_u16 (u16 x).
Proof. apply Z.mod_pos_bound. lia. Qed.
Lemma u8_range x : is_u8 (u8 x).
Proof. apply Z.mod_pos_bound. lia. Qed.

Lemma u64_small x : is_u64 x → u64 x = x.
Proof. intros. by apply Z.mod_small. Qed.
Lemma u32_small x : is_u32 x → u32 x = x.
Proof. intros. by apply Z.mod_small. Qed.
Lemma u16_small x : is_u16 x → u16 x = x.
Proof. intros. by apply Z.mod_small. Qed.
Lemma u8_small x : is_u8 x → u8 x = x.
Proof. intros. by apply Z.mod_small. Qed.

Lemma u64_u64 x : u64 (u64 x) = u64 x.
Proof. apply u64_small, u64_range. Qed.
Lemma u64_add_l x y : u64 (u64 x + y) = u64 (x + y).
Proof. apply Zplus_mod_idemp_l. Qed.
Lemma u64_add_r x y : u64 (x + u64 y) = u64 (x + y).
Proof. apply Zplus_mod_idemp_r. Qed.
Lemma u64_sub_l x y : u64 (u64 x - y) = u64 (x - y).
Proof. apply Zminus_mod_idemp_l. Qed.
Lemma u64_sub_r x y : u64 (x - u64 y) = u64 (x - y).
Proof. apply Zminus_mod_idemp_r. Qed.
Lemma u32_add_l x y : u32 (u32 x + y) = u32 (x + y).
Proof. apply Zplus_mod_idemp_l. Qed.
Lemma u32_add_r x y : u32 (x + u32 y) = u32 (x + y).
Proof. apply Zplus_mod_idemp_r. Qed.
Lemma u32_sub_l x y : u32 (u32 x - y) = u32 (x - y).
Proof. apply Zminus_mod_idemp_l. Qed.
Lemma u32_u64 x : u32 (u64 x) = u32 x.
Proof. unfold u32, u64. rewrite Z.mod_mod_divide; [done|]. by exists (2 ^ 32). Qed.

Create HintDb word discriminated.
Create Rewrite HintDb word.
#[export] Hint Resolve u64_range u32_range u16_range u8_range : word.
#[export] Hint Rewrite u64_u64 u64_add_l u64_add_r u64_sub_l u64_sub_r
  u32_add_l u32_add_r u32_sub_l u32_u64 : word.

(** ** Bit operations as arithmetic *)

Lemma testbit_above n x i : 0 ≤ n ≤ i → 0 ≤ x < 2 ^ n → Z.testbit x i = false.
Proof.
  intros Hi Hx. destruct (decide (x = 0)) as [->|]; [by rewrite Z.bits_0|].
  apply Z.bits_above_log2; [lia|]. apply Z.log2_lt_pow2; [lia|].
  apply Z.lt_le_trans with (2 ^ n); [lia|]. apply Z.pow_le_mono_r; lia.
Qed.

(** Or-ing a small value under a shifted one is an addition. *)
Lemma lor_shiftl_add n a b :
  0 ≤ n → 0 ≤ b < 2 ^ n → Z.lor (Z.shiftl a n) b = 2 ^ n * a + b.
Proof.
  intros Hn Hb. rewrite <- Z.add_nocarry_lor.
  { rewrite Z.shiftl_mul_pow2 by lia. lia. }
  apply Z.bits_inj'; intros i Hi. rewrite Z.land_spec, Z.bits_0.
  destruct (decide (i < n)).
  - by rewrite Z.shiftl_spec_low.
  - by rewrite (testbit_above n b i), andb_false_r by lia.
Qed.

(** Masking off the low [n] bits of an [m]-bit value. *)
Lemma land_high_mask n m a :
  0 ≤ n ≤ m → 0 ≤ a < 2 ^ m →
  Z.land a (Z.shiftl (Z.ones (m - n)) n) = Z.shiftl (a / 2 ^ n) n.
Proof.
  intros Hn Ha. rewrite <- Z.shiftr_div_pow2 by lia.
  apply Z.bits_inj'; intros i Hi. rewrite Z.land_spec.
  destruct (decide (i < n)).
  { rewrite !Z.shiftl_spec_low by done. by rewrite andb_false_r. }
  rewrite !Z.shiftl_spec, Z.shiftr_spec by lia. replace (i - n + n) with i by lia.
  destruct (decide (i < m)).
  - rewrite Z.ones_spec_low by lia. by rewrite andb_true_r.
  - by rewrite (testbit_above m a i) by lia.
Qed.

(** * Bytes and strings *)

Abbreviation byte := Byte.byte.
Abbreviation bytes := (list byte).

#[export] Instance byte_eq_dec : EqDecision byte := Byte.byte_eq_dec.

(** [static_cast<uint8_t>( c )] and its inverse. *)
Definition byte_to_Z (b : byte) : Z := Z.of_N (Byte.to_N b).
Definition byte_of_Z (z : Z) : byte := default Byte.x00 (Byte.of_N (Z.to_N (u8 z))).

Lemma byte_to_Z_range b : is_u8 (byte_to_Z b).
Proof.
  unfold byte_to_Z, is_u8. pose proof (Byte.to_N_bounded b). lia.
Qed.

Lemma byte_of_to_Z b : byte_of_Z (byte_to_Z b) = b.
Proof.
  unfold byte_of_Z. rewrite u8_small by apply byte_to_Z_range.
  unfold byte_to_Z. by rewrite N2Z.id, Byte.of_to_N.
Qed.

Lemma byte_to_of_Z z : byte_to_Z (byte_of_Z z) = u8 z.
Proof.
  unfold byte_of_Z, byte_to_Z. pose proof (u8_range z) as Hr.
  destruct (Byte.of_N (Z.to_N (u8 z))) as [b|] eqn:E; simpl.
  - apply Byte.to_of_N in E. rewrite E. unfold is_u8 in Hr. lia.
  - apply Byte.of_N_None_iff in E. unfold is_u8 in Hr. lia.
Qed.

(** [std::string::size] and friends, with sizes in Z. *)
Definition zlen {A} (l : list A) : Z := Z.of_nat (length l).
Definition ztake {A} (n : Z) (l : list A) : list A := take (Z.to_nat n) l.
Definition zdrop {A} (n : Z) (l : list A) : list A := drop (Z.to_nat n) l.

(** [resize( n )]: truncates, or pads with value-initialised characters. *)
Definition resize (n : Z) (s : bytes) : bytes :=
  ztake n s ++ replicate (Z.to_nat (n - zlen s)) Byte.x00.

(** [substr( pos, n )] and [substr( pos )], which throw past the end. *)
Definition substr (pos n : Z) (s : bytes) : result bytes :=
  if bool_decide (zlen s < pos) then Err (Throw "out_of_range")
  else Ok (ztake n (zdrop pos s)).
Definition substr_from (pos : Z) (s : bytes) : result bytes :=
  if bool_decide (zlen s < pos) then Err (Throw "out_of_range")
  else Ok (zdrop pos s).

(** * Lists measured in Z *)

Section zlist.
Context {A : Type}.
Implicit Types l k : list A.

Lemma zlen_nil : zlen (@nil A) = 0.
Proof. done. Qed.
Lemma zlen_cons x l : zlen (x :: l) = 1 + zlen l.
Proof. unfold zlen. simpl. lia. Qed.
Lemma zlen_app l k : zlen (l ++ k) = zlen l + zlen k.
Proof. unfold zlen. rewrite length_app. lia. Qed.
Lemma zlen_nonneg l : 0 ≤ zlen l.
Proof. unfold zlen. lia. Qed.
Lemma zlen_0 l : zlen l = 0 → l = [].
Proof. unfold zlen. destruct l; simpl; [done|lia]. Qed.
Lemma zlen_ztake n l : zlen (ztake n l) = Z.max 0 (Z.min n (zlen l)).
Proof. unfold zlen, ztake. rewrite length_take. lia. Qed.
Lemma zlen_zdrop n l : zlen (zdrop n l) = Z.max 0 (zlen l - Z.max 0 n).
Proof. unfold zlen, zdrop. rewrite length_drop. lia. Qed.
Lemma zlen_replicate n (x : A) : zlen (replicate n x) = Z.of_nat n.
Proof. unfold zlen. by rewrite length_replicate. Qed.
Lemma zlen_rev l : zlen (rev l) = zlen l.
Proof. unfold zlen. by rewrite length_rev. Qed.
Lemma zlen_fmap {B} (f : A → B) l : zlen (f <$> l) = zlen l.
Proof. unfold zlen. by rewrite length_fmap. Qed.

Lemma ztake_ge n l : zlen l ≤ n → ztake n l = l.
Proof. unfold zlen, ztake. intros. apply take_ge. lia. Qed.
Lemma ztake_0 n l : n ≤ 0 → ztake n l = [].
Proof. unfold ztake. intros. by replace (Z.to_nat n) with 0%nat by lia. Qed.
Lemma zdrop_0 n l : n ≤ 0 → zdrop n l = l.
Proof. unfold zdrop. intros. by replace (Z.to_nat n) with 0%nat by lia. Qed.
Lemma zdrop_ge n l : zlen l ≤ n → zdrop n l = [].
Proof. unfold zlen, zdrop. intros. apply drop_ge. lia. Qed.
Lemma ztake_zdrop n l : ztake n l ++ zdrop n l = l.
Proof. apply take_drop. Qed.
Lemma ztake_app_le n l k : n ≤ zlen l → ztake n (l ++ k) = ztake n l.
Proof. unfold zlen, ztake. intros. apply take_app_le. lia. Qed.
Lemma ztake_app_ge n l k : zlen l ≤ n → ztake n (l ++ k) = l ++ ztake (n - zlen l) k.
Proof.
  unfold zlen, ztake. intros. rewrite take_app_ge by lia. do 2 f_equal. lia.
Qed.
Lemma zdrop_app_le n l k : n ≤ zlen l → zdrop n (l ++ k) = zdrop n l ++ k.
Proof. unfold zlen, zdrop. intros. apply drop_app_le. lia. Qed.
Lemma zdrop_app_ge n l k : zlen l ≤ n → zdrop n (l ++ k) = zdrop (n - zlen l) k.
Proof. unfold zlen, zdrop. intros. rewrite drop_app_ge by lia. f_equal. lia. Qed.
Lemma zdrop_zdrop n m l : 0 ≤ n → 0 ≤ m → zdrop n (zdrop m l) = zdrop (m + n) l.
Proof. unfold zdrop. intros. rewrite drop_drop. f_equal. lia. Qed.
Lemma ztake_ztake n m l : ztake n (ztake m l) = ztake (Z.min n m) l.
Proof. unfold ztake. rewrite take_take. f_equal. lia. Qed.
Lemma ztake_add n m l :
  0 ≤ n → 0 ≤ m → ztake (n + m) l = ztake n l ++ ztake m (zdrop n l).
Proof.
  unfold ztake, zdrop. intros. rewrite take_take_drop. f_equal. lia.
Qed.
Lemma zdrop_ztake n m l :
  0 ≤ n → zdrop n (ztake m l) = ztake (m - n) (zdrop n l).
Proof.
  unfold ztake, zdrop. intros Hn.
  destruct (decide (n ≤ m)).
  - rewrite take_drop_commute. do 2 f_equal. lia.
  - rewrite drop_ge by (rewrite length_take; lia).
    by replace (Z.to_nat (m - n)) with 0%nat by lia.
Qed.
Lemma ztake_app_zlen l k : ztake (zlen l) (l ++ k) = l.
Proof. rewrite ztake_app_le by done. by apply ztake_ge. Qed.
Lemma zdrop_app_zlen l k : zdrop (zlen l) (l ++ k) = k.
Proof. rewrite zdrop_app_ge by done. apply zdrop_0. lia. Qed.
End zlist.

Lemma zlen_resize n s : 0 ≤ n → zlen (resize n s) = n.
Proof.
  intros. unfold resize. rewrite zlen_app, zlen_ztake, zlen_replicate.
  pose proof (zlen_nonneg s). lia.
Qed.

(** [zlen_saturate] adds the length equation of every list expression whose
    length is mentioned; [zlen] and [zword] then decide the goal.
    [zlen_hook l] is extended by the files that add list operations. *)
Ltac zlen_hook l := idtac.
Ltac zlen_equation l :=
  lazymatch l with
  | @nil ?B => pose proof (@zlen_nil B)
  | ?x :: ?k => pose proof (zlen_cons x k)
  | ?k1 ++ ?k2 => pose proof (zlen_app k1 k2)
  | ztake ?n ?k => pose proof (zlen_ztake n k)
  | zdrop ?n ?k => pose proof (zlen_zdrop n k)
  | replicate ?n ?x => pose proof (zlen_replicate n x)
  | rev ?k => pose proof (zlen_rev k)
  | ?f <$> ?k => pose proof (zlen_fmap f k)
  | _ => zlen_hook l
  end.
Ltac zlen_saturate :=
  repeat match goal with
  | |- context [zlen ?l] =>
      lazymatch goal with
      | _ : 0 ≤ zlen l |- _ => fail
      | _ => zlen_equation l; pose proof (zlen_nonneg l)
      end
  | _ : context [zlen ?l] |- _ =>
      lazymatch goal with
      | _ : 0 ≤ zlen l |- _ => fail
      | _ => zlen_equation l; pose proof (zlen_nonneg l)
      end
  end.
Ltac zlen := zlen_saturate; lia.
Ltac zword := zlen_saturate; word.

(** Case analysis on the boolean tests the code makes. *)
Ltac case_bool :=
  match goal with
  | |- context [bool_decide ?P] => case_bool_decide
  | H : context [bool_decide ?P] |- _ => case_bool_decide
  end.

(** Tests for the empty list compute on the list. *)
Lemma bool_decide_ne_nil {A} (l : list A) `{!Decision (l ≠ [])} :
  bool_decide (l ≠ []) = match l with [] => false | _ => true end.
Proof. destruct l; [apply bool_decide_eq_false_2; by intros []|by apply bool_decide_eq_true_2]. Qed.
Lemma bool_decide_nil {A} (l : list A) `{!Decision (l = [])} :
  bool_decide (l = []) = match l with [] => true | _ => false end.
Proof. destruct l; [by apply bool_decide_eq_true_2|by apply bool_decide_eq_false_2]. Qed.

Lemma resize_le n s : n ≤ zlen s → resize n s = ztake n s.
Proof.
  intros. unfold resize. replace (Z.to_nat (n - zlen s)) with 0%nat by lia.
  apply app_nil_r.
Qed.

Lemma substr_ok pos n s : pos ≤ zlen s → substr pos n s = Ok (ztake n (zdrop pos s)).
Proof. intros. unfold substr. by rewrite bool_decide_false by lia. Qed.
Lemma substr_from_ok pos s : pos ≤ zlen s → substr_from pos s = Ok (zdrop pos s).
Proof. intros. unfold substr_from. by rewrite bool_decide_false by lia. Qed.

(** * Slices of an unbounded stream *)

(** [slice f k n] is the string of [n] bytes of the stream [f] from index [k]. *)
Definition slice {A} (f : Z → A) (k n : Z) : list A := f <$> seqZ k n.

Section slice.
Context {A : Type} (f : Z → A).

Lemma zlen_slice k n : zlen (slice f k n) = Z.max 0 n.
Proof. unfold slice. rewrite zlen_fmap. unfold zlen. rewrite length_seqZ. lia. Qed.

Lemma slice_nil k n : n ≤ 0 → slice f k n = [].
Proof. intros. unfold slice. by rewrite seqZ_nil. Qed.

Lemma slice_app k n m :
  0 ≤ n → 0 ≤ m → slice f k (n + m) = slice f k n ++ slice f (k + n) m.
Proof. intros. unfold slice. by rewrite seqZ_app, fmap_app. Qed.

Lemma slice_app' k n m p :
  0 ≤ n → 0 ≤ m → p = k + n → slice f k n ++ slice f p m = slice f k (n + m).
Proof. intros ?? ->. by rewrite slice_app. Qed.

Lemma ztake_slice j k n : ztake j (slice f k n) = slice f k (Z.min j n).
Proof.
  destruct (decide (j ≤ 0)).
  { rewrite ztake_0, slice_nil by lia. done. }
  destruct (decide (n ≤ j)).
  { rewrite ztake_ge by (rewrite zlen_slice; lia). by rewrite Z.min_r by lia. }
  rewrite Z.min_l by lia.
  replace n with (j + (n - j)) by lia. rewrite slice_app by lia.
  rewrite ztake_app_le by (rewrite zlen_slice; lia).
  apply ztake_ge. rewrite zlen_slice. lia.
Qed.

Lemma zdrop_slice j k n : 0 ≤ j → zdrop j (slice f k n) = slice f (k + j) (n - j).
Proof.
  intros. destruct (decide (n ≤ j)).
  { rewrite zdrop_ge, slice_nil by (rewrite ?zlen_slice; lia). done. }
  replace n with (j + (n - j)) at 1 by lia. rewrite slice_app by lia.
  rewrite zdrop_app_ge by (rewrite zlen_slice; lia).
  apply zdrop_0. rewrite zlen_slice. lia.
Qed.
End slice.

Ltac zlen_hook l ::=
  lazymatch l with
  | slice ?f ?k ?n => pose proof (zlen_slice f k n)
  | _ => idtac
  end.

(** * Chains of strings *)

(** The shape of a chain of strings read from the front: no empty or
    unaddressable string, and [skip] characters of the front one are gone. *)
Definition chain_ok (segs : list bytes) (skip : Z) : Prop :=
  Forall (λ d, 0 < zlen d < 2 ^ 64) segs ∧ 0 ≤ skip ∧
  match segs with [] => skip = 0 | front :: _ => skip < zlen front end.

Lemma chain_ok_nil : chain_ok [] 0.
Proof. done. Qed.

Lemma chain_content_cons front rest skip :
  chain_ok (front :: rest) skip →
  zdrop skip (concat (front :: rest)) = zdrop skip front ++ concat rest.
Proof. intros (_&?&?). simpl. apply zdrop_app_le. lia. Qed.

Lemma chain_ok_tail front rest skip : chain_ok (front :: rest) skip → chain_ok rest 0.
Proof.
  intros (Hf&?&?). apply Forall_cons in Hf as [_ Hf]. split_and!; [done..|].
  destruct rest as [|d rest]; [done|]. apply Forall_cons in Hf. lia.
Qed.

Lemma chain_ok_app segs skip d :
  chain_ok segs skip → 0 < zlen d < 2 ^ 64 → chain_ok (segs ++ [d]) skip.
Proof.
  intros (Hf&?&?) Hd. split_and!; [|done|].
  - apply Forall_app. split; [done|]. by apply Forall_singleton.
  - destruct segs; simpl; lia.
Qed.

Lemma chain_content_app segs skip d :
  chain_ok segs skip → zdrop skip (concat (segs ++ [d])) = zdrop skip (concat segs) ++ d.
Proof.
  intros Hc. rewrite concat_app. simpl. rewrite app_nil_r.
  apply zdrop_app_le. destruct Hc as (_&?&Hs), segs; simpl; zlen.
Qed.

Lemma chain_empty segs skip :
  chain_ok segs skip → zlen (zdrop skip (concat segs)) = 0 → segs = [].
Proof.
  destruct segs as [|front rest]; [done|]. intros Hc.
  rewrite chain_content_cons by done. destruct Hc as (_&?&?). intros. zlen.
Qed.

(** The stream [abcdef...] that the examples use. *)
Definition demo_stream (i : Z) : byte := byte_of_Z (97 + i).
