(* ===== verification/Interfaces.v ===== *)
(** Interfaces between components, as type classes: what a component may call
    on another, and the laws its correctness rests on. *)

From S2P Require Import Prelude.

(** * The output stream of the Reassembler *)

(** The calls [Reassembler] makes on the stream it owns. *)
Class StreamWriter (S : Type) : Type := {
  sw_push : bytes → S → S;
  sw_close : S → S;
  sw_set_error : S → S;
  sw_has_error : S → bool;
  sw_is_closed : S → bool;
  sw_bytes_pushed : S → Z;
  sw_available_capacity : S → Z;
}.

(** What the writer side of a stream has accepted so far, how much it still
    takes, and its flags. *)
Record sink : Type := mkSink {
  sink_written : bytes;
  sink_room : Z;
  sink_error : bool;
  sink_closed : bool;
}.

Definition sink_push (d : bytes) (k : sink) : sink :=
  mkSink (sink_written k ++ ztake (sink_room k) d)
    (sink_room k - zlen (ztake (sink_room k) d)) (sink_error k) (sink_closed k).
Definition sink_close (k : sink) : sink :=
  mkSink (sink_written k) (sink_room k) (sink_error k) true.
Definition sink_set_error (k : sink) : sink :=
  mkSink (sink_written k) (sink_room k) true (sink_closed k).

(** The promise: [sw_models s k] says [s] behaves as the sink [k]. *)
Class StreamWriterSpec (S : Type) `{StreamWriter S} : Type := {
  sw_models : S → sink → Prop;
  sw_room_range s k : sw_models s k → 0 ≤ sink_room k < 2 ^ 64;
  sw_bytes_pushed_law s k :
    sw_models s k → sw_bytes_pushed s = u64 (zlen (sink_written k));
  sw_available_law s k : sw_models s k → sw_available_capacity s = sink_room k;
  sw_is_closed_law s k : sw_models s k → sw_is_closed s = sink_closed k;
  sw_has_error_law s k : sw_models s k → sw_has_error s = sink_error k;
  sw_push_law d s k : sw_models s k → sw_models (sw_push d s) (sink_push d k);
  sw_close_law s k : sw_models s k → sw_models (sw_close s) (sink_close k);
  sw_set_error_law s k :
    sw_models s k → sw_models (sw_set_error s) (sink_set_error k);
}.
