(* ===== verification/WrappingIntegers.v ===== *)
(** [Wrap32]: 32-bit sequence numbers relative to a zero point
    (src/src/wrapping_integers.hh, src/src/wrapping_integers.cc). *)

From S2P Require Import Prelude.

(** * The class *)

Record Wrap32 : Type := mkWrap32 { raw_value_ : Z }.

#[export] Instance Wrap32_eq_dec : EqDecision Wrap32.
Proof. solve_decision. Defined.

Module Wrap32.

(** The constructor takes a [uint32_t]. *)
Definition of_raw (raw_value : Z) : Wrap32 := mkWrap32 (u32 raw_value).

(** [operator+( uint32_t n )]: the sum of two [uint32_t] wraps. *)
Definition add (w : Wrap32) (n : Z) : Wrap32 := mkWrap32 (u32 (raw_value_ w + u32 n)).

(** [operator==]. *)
Definition eqb (a b : Wrap32) : bool := bool_decide (raw_value_ a = raw_value_ b).

(** [static Wrap32 wrap( uint64_t n, Wrap32 zero_point )]. *)
Definition wrap (n : Z) (zero_point : Wrap32) : Wrap32 := add zero_point (u32 n).

Definition kRound : Z := Z.shiftl 1 32.

(** The [distance] lambda of [unwrap]. *)
Definition distance (checkpoint v : Z) : Z :=
  if bool_decide (v > checkpoint) then u64 (v - checkpoint) else u64 (checkpoint - v).

(** [uint64_t unwrap( Wrap32 zero_point, uint64_t checkpoint ) const]. *)
Definition unwrap (w zero_point : Wrap32) (checkpoint : Z) : Z :=
  let offset := u32 (raw_value_ w - raw_value_ zero_point) in
  let candidate :=
    Z.lor (Z.land checkpoint (u64 (Z.lnot (u64 UINT32_MAX)))) offset in
  let best := candidate in
  let best_dist := distance checkpoint candidate in
  let '(best, best_dist) :=
    if bool_decide (candidate >= kRound) then
      let prev := u64 (candidate - kRound) in
      if bool_decide (distance checkpoint prev < best_dist)
      then (prev, distance checkpoint prev) else (best, best_dist)
    else (best, best_dist) in
  let next := u64 (candidate + kRound) in
  if bool_decide (distance checkpoint next < best_dist) then next else best.

End Wrap32.

(** * Lemmas *)

(** A [Wrap32] built by the code holds a [uint32_t]. *)
Definition wf (w : Wrap32) : Prop := is_u32 (raw_value_ w).

Lemma of_raw_wf r : wf (Wrap32.of_raw r).
Proof. apply u32_range. Qed.
Lemma add_wf w n : wf (Wrap32.add w n).
Proof. apply u32_range. Qed.
Lemma wrap_wf n z : wf (Wrap32.wrap n z).
Proof. apply u32_range. Qed.
#[export] Hint Resolve of_raw_wf add_wf wrap_wf : word.

(** The candidate keeps the checkpoint's upper half. *)
Lemma candidate_eq checkpoint offset :
  is_u64 checkpoint → is_u32 offset →
  Z.lor (Z.land checkpoint (u64 (Z.lnot (u64 UINT32_MAX)))) offset
  = 2 ^ 32 * (checkpoint / 2 ^ 32) + offset.
Proof.
  intros Hc Ho.
  change (u64 (Z.lnot (u64 UINT32_MAX))) with (Z.shiftl (Z.ones (64 - 32)) 32).
  rewrite (land_high_mask 32 64) by (word_unfold; lia).
  by rewrite lor_shiftl_add by (word_unfold; lia).
Qed.

Lemma distance_abs checkpoint v :
  is_u64 checkpoint → is_u64 v → Wrap32.distance checkpoint v = Z.abs (v - checkpoint).
Proof. intros. unfold Wrap32.distance. case_bool_decide; word. Qed.

(** [unwrap] in terms of plain integers: the candidate and its neighbours at
    distance 2^32, tried in the code's order. *)
Lemma unwrap_cases w z checkpoint :
  wf w → wf z → is_u64 checkpoint →
  let c := 2 ^ 32 * (checkpoint / 2 ^ 32) + u32 (raw_value_ w - raw_value_ z) in
  let r := Wrap32.unwrap w z checkpoint in
  is_u64 c ∧
  ((r = c ∧ (2 ^ 32 ≤ c → Z.abs (c - checkpoint) ≤ Z.abs (c - 2 ^ 32 - checkpoint))
      ∧ Z.abs (c - checkpoint) ≤ Z.abs (u64 (c + 2 ^ 32) - checkpoint)) ∨
   (r = c - 2 ^ 32 ∧ 2 ^ 32 ≤ c ∧
      Z.abs (c - 2 ^ 32 - checkpoint) < Z.abs (c - checkpoint) ∧
      Z.abs (c - 2 ^ 32 - checkpoint) ≤ Z.abs (u64 (c + 2 ^ 32) - checkpoint)) ∨
   (r = u64 (c + 2 ^ 32) ∧
      Z.abs (u64 (c + 2 ^ 32) - checkpoint) < Z.abs (c - checkpoint) ∧
      (2 ^ 32 ≤ c → Z.abs (u64 (c + 2 ^ 32) - checkpoint) <
         Z.min (Z.abs (c - checkpoint)) (Z.abs (c - 2 ^ 32 - checkpoint))))).
Proof.
  intros Hw Hz Hk c r.
  assert (is_u64 c) as Hc.
  { subst c. pose proof (u32_range (raw_value_ w - raw_value_ z)). word. }
  split; [done|]. revert r. unfold Wrap32.unwrap.
  rewrite candidate_eq by auto with word. fold c.
  change Wrap32.kRound with (2 ^ 32).
  rewrite !distance_abs by auto with word.
  pose proof (u64_range (c + 2 ^ 32)). remember (u64 (c + 2 ^ 32)) as nx.
  case_bool_decide as H1.
  - rewrite (u64_small (c - 2 ^ 32)) by word.
    repeat case_bool_decide; simpl; lia.
  - repeat case_bool_decide; simpl; lia.
Qed.

Lemma unwrap_range w z checkpoint :
  wf w → wf z → is_u64 checkpoint → is_u64 (Wrap32.unwrap w z checkpoint).
Proof.
  intros Hw Hz Hk. destruct (unwrap_cases w z checkpoint Hw Hz Hk) as [Hc H].
  cbv zeta in H. pose proof (u64_range (2 ^ 32 * (checkpoint / 2 ^ 32)
    + u32 (raw_value_ w - raw_value_ z) + 2 ^ 32)).
  destruct H as [[-> _]|[[-> H]|[-> _]]]; [done|word|done].
Qed.
#[export] Hint Resolve unwrap_range : word.

(** The result maps back to the sequence number. *)
Lemma wrap_unwrap_id w z checkpoint :
  wf w → wf z → is_u64 checkpoint →
  Wrap32.wrap (Wrap32.unwrap w z checkpoint) z = w.
Proof.
  intros Hw Hz Hk. destruct (unwrap_cases w z checkpoint Hw Hz Hk) as [Hc H].
  destruct w as [r]. unfold wf in *. unfold Wrap32.wrap, Wrap32.add. simpl in *. f_equal.
  destruct H as [[-> _]|[[-> _]|[-> _]]]; autorewrite with word; word.
Qed.

(** Two absolute numbers with the same 32-bit image differ by a multiple of 2^32. *)
Lemma wrap_eq_mod m n z : Wrap32.wrap m z = Wrap32.wrap n z → ∃ k, m = n + k * 2 ^ 32.
Proof.
  unfold Wrap32.wrap, Wrap32.add. intros [= H]. autorewrite with word in H.
  exists ((m - n) / 2 ^ 32). word.
Qed.

Lemma unwrap_nearest w z checkpoint v :
  wf w → wf z → is_u64 checkpoint → is_u64 v → Wrap32.wrap v z = w →
  Z.abs (Wrap32.unwrap w z checkpoint - checkpoint) ≤ Z.abs (v - checkpoint).
Proof.
  intros Hw Hz Hk Hv Hvw.
  pose proof (wrap_unwrap_id w z checkpoint Hw Hz Hk) as Hr. rewrite <- Hvw in Hr at 2.
  destruct (wrap_eq_mod _ _ _ Hr) as [k Hk'].
  destruct (unwrap_cases w z checkpoint Hw Hz Hk) as [Hc H]. cbv zeta in H.
  pose proof (u32_range (raw_value_ w - raw_value_ z)).
  remember (2 ^ 32 * (checkpoint / 2 ^ 32) + u32 (raw_value_ w - raw_value_ z)) as c.
  destruct H as [H|[H|H]]; word.
Qed.

Lemma unwrap_wrap n z checkpoint :
  wf z → is_u64 n → is_u64 checkpoint → Z.abs (n - checkpoint) < 2 ^ 31 →
  Wrap32.unwrap (Wrap32.wrap n z) z checkpoint = n.
Proof.
  intros Hz Hn Hk Hd.
  pose proof (unwrap_nearest (Wrap32.wrap n z) z checkpoint n (wrap_wf _ _) Hz Hk Hn eq_refl).
  pose proof (wrap_unwrap_id (Wrap32.wrap n z) z checkpoint (wrap_wf _ _) Hz Hk) as Hr.
  destruct (wrap_eq_mod _ _ _ Hr) as [k Hk']. word.
Qed.

Lemma wrap_add m n z : Wrap32.add (Wrap32.wrap m z) n = Wrap32.wrap (m + n) z.
Proof.
  unfold Wrap32.wrap, Wrap32.add. simpl. f_equal. autorewrite with word. f_equal. lia.
Qed.

Lemma add_wrap n z : Wrap32.add z n = Wrap32.wrap n z.
Proof. unfold Wrap32.wrap, Wrap32.add. do 2 f_equal. word. Qed.

Lemma wrap_0 z : wf z → Wrap32.wrap 0 z = z.
Proof. intros Hz. destruct z. unfold Wrap32.wrap, Wrap32.add, wf in *. simpl in *. f_equal. word. Qed.

Lemma wrap_u64 n z : Wrap32.wrap (u64 n) z = Wrap32.wrap n z.
Proof. unfold Wrap32.wrap. by rewrite u32_u64. Qed.

(** * Properties *)

(** C9: [unwrap] returns a 64-bit absolute number that wraps back to the
    sequence number, and among all 64-bit numbers that do it is one closest
    to the checkpoint, also next to 0 and next to 2^64 where a neighbour
    candidate would leave the type. *)
Theorem unwrap_closest (w z : Wrap32) (checkpoint : Z) :
  wf w → wf z → is_u64 checkpoint →
  is_u64 (Wrap32.unwrap w z checkpoint) ∧
  Wrap32.wrap (Wrap32.unwrap w z checkpoint) z = w ∧
  ∀ v, is_u64 v → Wrap32.wrap v z = w →
    Z.abs (Wrap32.unwrap w z checkpoint - checkpoint) ≤ Z.abs (v - checkpoint).
Proof.
  intros. split_and!; [auto with word|by apply wrap_unwrap_id|].
  intros. by apply unwrap_nearest.
Qed.

Lemma unwrap_closest_witness :
  is_u64 (2 ^ 64 - 1) ∧
  Wrap32.unwrap (mkWrap32 5) (mkWrap32 7) (2 ^ 64 - 1) = 2 ^ 64 - 2 ∧
  Wrap32.wrap (Wrap32.unwrap (mkWrap32 5) (mkWrap32 7) (2 ^ 64 - 1)) (mkWrap32 7) = mkWrap32 5.
Proof.
  split; [by unfold is_u64|]. split; [by vm_compute|].
  refine (proj1 (proj2 (unwrap_closest (mkWrap32 5) (mkWrap32 7) (2 ^ 64 - 1) _ _ _)));
    by unfold wf, is_u32, is_u64.
Defined.

(** An absolute number less than half the sequence space away from the
    checkpoint survives the trip through its 32-bit image. *)
Theorem wrap_unwrap_roundtrip (n : Z) (z : Wrap32) (checkpoint : Z) :
  wf z → is_u64 n → is_u64 checkpoint → Z.abs (n - checkpoint) < 2 ^ 31 →
  Wrap32.unwrap (Wrap32.wrap n z) z checkpoint = n.
Proof. apply unwrap_wrap. Qed.

Lemma wrap_unwrap_roundtrip_witness :
  Wrap32.unwrap (Wrap32.wrap (3 * 2 ^ 32 + 17) (mkWrap32 15)) (mkWrap32 15) (3 * 2 ^ 32)
  = 3 * 2 ^ 32 + 17.
Proof.
  apply (wrap_unwrap_roundtrip (3 * 2 ^ 32 + 17) (mkWrap32 15) (3 * 2 ^ 32));
    by unfold wf, is_u32, is_u64.
Defined.
