(* ===== verification/ByteStream.v ===== *)
(** The bounded byte stream and its Writer and Reader views
    (src/src/byte_stream.hh, src/src/byte_stream.cc, src/src/byte_stream_helpers.cc), the
    abstract stream they implement, and the refinement between the two. *)

From S2P Require Import Prelude.
From S2P Require Import Interfaces.

(** * The class *)

(** [Writer] and [Reader] add no state to [ByteStream]: the casts [writer()]
    and [reader()] are the identity, so both views are functions on this
    record. *)
Record ByteStream : Type := mkByteStream {
  capacity_ : Z;
  segments_ : list bytes;   (* front is the next byte to read *)
  skip_in_front_ : Z;       (* bytes already popped from the front segment *)
  bytes_pushed_ : Z;
  bytes_popped_ : Z;
  error_ : bool;
  closed_ : bool;
}.

Definition new (capacity : Z) : ByteStream := mkByteStream capacity [] 0 0 0 false false.

Definition set_error (s : ByteStream) : ByteStream :=
  mkByteStream (capacity_ s) (segments_ s) (skip_in_front_ s) (bytes_pushed_ s)
    (bytes_popped_ s) true (closed_ s).

Definition has_error (s : ByteStream) : bool := error_ s.

Module Writer.

Definition available_capacity (s : ByteStream) : Z :=
  u64 (capacity_ s - u64 (bytes_pushed_ s - bytes_popped_ s)).

Definition push (data : bytes) (s : ByteStream) : ByteStream :=
  let avail := available_capacity s in
  if bool_decide (data = []) || bool_decide (avail = 0) then s
  else
    let data := if bool_decide (zlen data > avail) then resize avail data else data in
    mkByteStream (capacity_ s) (segments_ s ++ [data]) (skip_in_front_ s)
      (u64 (bytes_pushed_ s + zlen data)) (bytes_popped_ s) (error_ s) (closed_ s).

Definition close (s : ByteStream) : ByteStream :=
  mkByteStream (capacity_ s) (segments_ s) (skip_in_front_ s) (bytes_pushed_ s)
    (bytes_popped_ s) (error_ s) true.

Definition is_closed (s : ByteStream) : bool := closed_ s.

Definition bytes_pushed (s : ByteStream) : Z := bytes_pushed_ s.

End Writer.

Module Reader.

Definition peek (s : ByteStream) : result bytes :=
  match segments_ s with
  | [] => Ok []
  | front :: _ => substr_from (skip_in_front_ s) front
  end.

(** The [while ( len > 0 )] loop of [pop]. *)
Fixpoint pop_loop (segs : list bytes) (skip len : Z) : result (list bytes * Z) :=
  if bool_decide (len > 0) then
    match segs with
    | [] => Err (Undefined "front() on an empty deque")
    | front :: rest =>
        let front_remaining := u64 (zlen front - skip) in
        if bool_decide (len >= front_remaining)
        then pop_loop rest 0 (u64 (len - front_remaining))
        else Ok (segs, u64 (skip + len))
    end
  else Ok (segs, skip).

Definition pop (len : Z) (s : ByteStream) : result ByteStream :=
  let len := Z.min len (u64 (bytes_pushed_ s - bytes_popped_ s)) in
  '(segs, skip) ← pop_loop (segments_ s) (skip_in_front_ s) len;
  Ok (mkByteStream (capacity_ s) segs skip (bytes_pushed_ s)
        (u64 (bytes_popped_ s + len)) (error_ s) (closed_ s)).

Definition is_finished (s : ByteStream) : bool :=
  closed_ s && bool_decide (bytes_pushed_ s = bytes_popped_ s).

Definition bytes_buffered (s : ByteStream) : Z := u64 (bytes_pushed_ s - bytes_popped_ s).

Definition bytes_popped (s : ByteStream) : Z := bytes_popped_ s.

End Reader.

(** The loop of [void read( Reader& reader, uint64_t max_len, string& out )];
    each turn empties the front segment or fills [out]. *)
Fixpoint read_loop (fuel : nat) (max_len : Z) (reader : ByteStream) (out : bytes)
    : result (ByteStream * bytes) :=
  match fuel with
  | O => Err OutOfFuel
  | S fuel =>
      if bool_decide (Reader.bytes_buffered reader ≠ 0) && bool_decide (zlen out < max_len)
      then
        view ← Reader.peek reader;
        if bool_decide (view = [])
        then Err (Throw "Reader::peek() returned empty string_view")
        else
          view ← substr 0 (u64 (max_len - zlen out)) view;
          reader ← Reader.pop (zlen view) reader;
          read_loop fuel max_len reader (out ++ view)
      else Ok (reader, out)
  end.

Definition read (max_len : Z) (reader : ByteStream) : result (ByteStream * bytes) :=
  read_loop (S (length (segments_ reader))) max_len reader [].

(** * The abstract stream *)

(** What the class promises: the whole history of accepted bytes, the number
    of bytes taken out, and the two flags.  The counters are unbounded. *)
Record stream : Type := mkStream {
  cap : Z;
  written : bytes;
  nread : Z;
  err : bool;
  fin : bool;
}.

Definition unread (a : stream) : bytes := zdrop (nread a) (written a).
Definition room (a : stream) : Z := cap a - (zlen (written a) - nread a).

Definition spec_new (c : Z) : stream := mkStream c [] 0 false false.
Definition spec_push (d : bytes) (a : stream) : stream :=
  mkStream (cap a) (written a ++ ztake (room a) d) (nread a) (err a) (fin a).
Definition spec_pop (n : Z) (a : stream) : stream :=
  mkStream (cap a) (written a) (nread a + Z.min n (zlen (unread a))) (err a) (fin a).
Definition spec_close (a : stream) : stream :=
  mkStream (cap a) (written a) (nread a) (err a) true.
Definition spec_set_error (a : stream) : stream :=
  mkStream (cap a) (written a) (nread a) true (fin a).

(** Bytes held in the chain of segments. *)
Definition content (s : ByteStream) : bytes := zdrop (skip_in_front_ s) (concat (segments_ s)).

(** The concrete state [s] represents the abstract stream [a]. The 64-bit
    counters represent the unbounded ones modulo 2^64. *)
Record refines (s : ByteStream) (a : stream) : Prop := mkRefines {
  ref_capacity : capacity_ s = cap a;
  ref_capacity_range : is_u64 (cap a);
  ref_chain : chain_ok (segments_ s) (skip_in_front_ s);
  ref_content : content s = unread a;
  ref_pushed : bytes_pushed_ s = u64 (zlen (written a));
  ref_popped : bytes_popped_ s = u64 (nread a);
  ref_nread : 0 ≤ nread a ≤ zlen (written a);
  ref_bounded : zlen (written a) - nread a ≤ cap a;
  ref_error : error_ s = err a;
  ref_closed : closed_ s = fin a;
}.

(** * The chain of segments *)

(** [pop] removes exactly the bytes asked for, never reads past the chain and
    leaves the chain well-shaped. *)
Lemma pop_loop_ok segs skip len :
  chain_ok segs skip → 0 ≤ len ≤ zlen (zdrop skip (concat segs)) →
  zlen (zdrop skip (concat segs)) < 2 ^ 64 →
  ∃ segs' skip', Reader.pop_loop segs skip len = Ok (segs', skip') ∧
    chain_ok segs' skip' ∧
    zdrop skip' (concat segs') = zdrop len (zdrop skip (concat segs)) ∧
    (length segs' ≤ length segs)%nat ∧
    (∀ front rest, segs = front :: rest → zlen front - skip ≤ len →
       (length segs' < length segs)%nat).
Proof.
  revert skip len. induction segs as [|front rest IH]; intros skip len Hc Hlen Hb.
  { exists [], skip. destruct Hc as (?&?&->). simpl in *.
    rewrite bool_decide_false by zlen.
    split_and!; [done|apply chain_ok_nil| |done|done]. by rewrite !zdrop_ge by zlen. }
  rewrite chain_content_cons in Hlen, Hb |- * by done.
  pose proof Hc as (Hf&?&Hs). simpl in Hs. apply Forall_cons in Hf as [Hd _].
  zlen_saturate. simpl.
  case_bool_decide as Hl; cycle 1.
  { exists (front :: rest), skip. rewrite chain_content_cons by done.
    split_and!; [done|done| |simpl; lia|].
    - by rewrite (zdrop_0 len) by lia.
    - intros ?? [= <- <-]. lia. }
  rewrite u64_small by (unfold is_u64; lia).
  case_bool_decide as Hle.
  - rewrite u64_small by (unfold is_u64; lia).
    destruct (IH 0 (len - (zlen front - skip))) as (segs'&skip'&->&Hc'&Hz&Hn&_).
    + by eapply chain_ok_tail.
    + rewrite zdrop_0 by done. lia.
    + rewrite zdrop_0 by done. lia.
    + exists segs', skip'. split_and!; [done|done| |simpl; lia|].
      * rewrite Hz, (zdrop_0 0) by done. rewrite zdrop_app_ge by zlen.
        f_equal. zlen.
      * intros ?? [= <- <-] _. simpl. lia.
  - rewrite u64_small by (unfold is_u64; lia).
    exists (front :: rest), (skip + len).
    assert (chain_ok (front :: rest) (skip + len)) as Hc'.
    { destruct Hc as (?&_&_). split_and!; [done|lia..]. }
    split_and!; [done..| |simpl; lia|].
    + rewrite chain_content_cons by done.
      rewrite zdrop_app_le by zlen. by rewrite zdrop_zdrop by lia.
    + intros ?? [= <- <-]. lia.
Qed.

(** * Refinement, operation by operation *)

Lemma new_refines c : is_u64 c → refines (new c) (spec_new c).
Proof. intros Hc. split; simpl; try done; zword. Qed.

Section refinement.
Context {s : ByteStream} {a : stream} (R : refines s a).

Lemma refines_unread : zlen (unread a) = zlen (written a) - nread a.
Proof. destruct R. unfold unread. zlen. Qed.

Lemma buffered_refines : Reader.bytes_buffered s = zlen (unread a).
Proof.
  rewrite refines_unread. destruct R. unfold Reader.bytes_buffered.
  rewrite ref_pushed0, ref_popped0. autorewrite with word.
  apply u64_small. unfold is_u64 in *. lia.
Qed.

Lemma available_refines : Writer.available_capacity s = room a.
Proof.
  unfold Writer.available_capacity. fold (Reader.bytes_buffered s).
  rewrite buffered_refines, refines_unread. destruct R. rewrite ref_capacity0.
  unfold room. apply u64_small. unfold is_u64 in *. lia.
Qed.

Lemma room_range : 0 ≤ room a < 2 ^ 64.
Proof. destruct R. unfold room, is_u64 in *. lia. Qed.

Lemma content_bound : zlen (content s) ≤ cap a < 2 ^ 64.
Proof.
  rewrite (ref_content _ _ R), refines_unread. destruct R. unfold is_u64 in *. lia.
Qed.

Lemma is_finished_refines : Reader.is_finished s = fin a && bool_decide (unread a = []).
Proof.
  unfold Reader.is_finished. rewrite (ref_closed _ _ R), (ref_pushed _ _ R), (ref_popped _ _ R).
  f_equal. apply bool_decide_ext. pose proof refines_unread as Hu.
  pose proof (ref_nread _ _ R). pose proof (ref_bounded _ _ R). pose proof (ref_capacity_range _ _ R).
  split; intros Heq.
  - apply zlen_0. word.
  - rewrite Heq in Hu. simpl in Hu. f_equal. zlen.
Qed.

Lemma set_error_refines : refines (set_error s) (spec_set_error a).
Proof. destruct R. by split. Qed.

Lemma close_refines : refines (Writer.close s) (spec_close a).
Proof. destruct R. by split. Qed.

Lemma push_refines d : refines (Writer.push d s) (spec_push d a).
Proof.
  pose proof room_range. unfold Writer.push. rewrite available_refines.
  assert (ztake (room a) d = [] → refines s (spec_push d a)) as Hsame.
  { unfold spec_push. intros ->. rewrite app_nil_r. by destruct R, a. }
  case_bool_decide as Hd; [apply Hsame; rewrite Hd; apply ztake_ge; zlen|]. simpl.
  case_bool_decide as Hr; [apply Hsame; by rewrite Hr, ztake_0|].
  assert (0 < zlen d).
  { zlen_saturate. destruct (decide (zlen d = 0)) as [?%zlen_0|]; [done|lia]. }
  set (d' := if bool_decide (zlen d > room a) then _ else d).
  assert (d' = ztake (room a) d) as ->.
  { subst d'. case_bool_decide; [apply resize_le; lia|].
    symmetry. apply ztake_ge. lia. }
  assert (0 < zlen (ztake (room a) d) < 2 ^ 64) by zlen.
  destruct R. split; simpl; try done.
  - by apply chain_ok_app.
  - unfold content in *. simpl. rewrite chain_content_app by done.
    rewrite ref_content0. unfold unread. simpl. by rewrite zdrop_app_le by lia.
  - rewrite ref_pushed0. autorewrite with word. by rewrite zlen_app.
  - zlen.
  - unfold room in *. zlen.
Qed.

Lemma pop_refines n :
  0 ≤ n → ∃ s', Reader.pop n s = Ok s' ∧ refines s' (spec_pop n a) ∧
    (length (segments_ s') ≤ length (segments_ s))%nat ∧
    (∀ d rest, segments_ s = d :: rest → zlen d - skip_in_front_ s ≤ n →
       (length (segments_ s') < length (segments_ s))%nat).
Proof.
  intros Hn. pose proof content_bound as Hb. pose proof refines_unread as Hu.
  unfold Reader.pop. fold (Reader.bytes_buffered s). rewrite buffered_refines.
  pose proof (ref_content _ _ R) as Hct. unfold content in Hct, Hb.
  destruct (pop_loop_ok (segments_ s) (skip_in_front_ s) (Z.min n (zlen (unread a))))
    as (segs'&skip'&He&Hc&Hz&Hl&Hs).
  - by destruct R.
  - rewrite Hct. zlen.
  - lia.
  - rewrite He. simpl. eexists. split; [done|]. split_and!; simpl; [|done|].
    + destruct R. split; simpl; try done.
      * unfold content. simpl. rewrite Hz, Hct. unfold unread. simpl.
        rewrite zdrop_zdrop by zlen. done.
      * rewrite ref_popped0. by autorewrite with word.
      * rewrite Hu. lia.
      * rewrite Hu. lia.
    + intros d rest Hd Hle. apply (Hs d rest Hd).
      rewrite Hd, chain_content_cons in Hct by (rewrite <- Hd; by destruct R).
      rewrite <- Hct. destruct R as [_ _ (_&?&?) _ _ _ _ _ _ _]. zlen.
Qed.

(** [peek] shows the rest of the front segment: a prefix of the unread
    bytes, empty only when nothing is buffered. *)
Lemma peek_refines :
  ∃ view rest, Reader.peek s = Ok view ∧ unread a = view ++ rest ∧
    (view = [] ↔ unread a = []) ∧
    (∀ d segs, segments_ s = d :: segs → zlen view = zlen d - skip_in_front_ s).
Proof.
  pose proof (ref_content _ _ R) as Hct. pose proof (ref_chain _ _ R) as Hc.
  unfold content in Hct. unfold Reader.peek. destruct (segments_ s) as [|d segs].
  { rewrite zdrop_ge in Hct by (destruct Hc as (_&_&->); done).
    exists [], []. by rewrite <- Hct. }
  rewrite chain_content_cons in Hct by done. destruct Hc as (_&?&?).
  exists (zdrop (skip_in_front_ s) d), (concat segs).
  rewrite substr_from_ok by lia. split_and!; [done..| |].
  - rewrite <- Hct. assert (0 < zlen (zdrop (skip_in_front_ s) d)) by zlen.
    split; intros Hx; exfalso.
    + rewrite Hx in *. zlen.
    + apply app_nil in Hx as [Hx _]. rewrite Hx in *. zlen.
  - intros ?? [= <- <-]. zlen.
Qed.
End refinement.

(** * The [read] helper *)

Lemma unread_pop n a :
  0 ≤ nread a → 0 ≤ n → unread (spec_pop n a) = zdrop n (unread a).
Proof.
  intros. unfold unread. simpl. destruct (decide (n ≤ zlen (unread a))).
  - rewrite Z.min_l by done. by rewrite zdrop_zdrop by lia.
  - rewrite !zdrop_ge by (unfold unread in *; zlen). done.
Qed.

Lemma spec_pop_pop n m a :
  0 ≤ nread a → 0 ≤ n → 0 ≤ m → spec_pop m (spec_pop n a) = spec_pop (n + m) a.
Proof.
  intros. unfold spec_pop at 1. rewrite unread_pop by done.
  unfold spec_pop. simpl. f_equal. zlen.
Qed.

Lemma spec_pop_0 n a : n ≤ 0 ∨ unread a = [] → 0 ≤ n → spec_pop n a = a.
Proof.
  intros Hn ?. unfold spec_pop. destruct a as [c w r e f]. f_equal. simpl.
  destruct Hn as [?| ->]; zlen.
Qed.

Lemma segments_nonempty s a : refines s a → unread a ≠ [] → segments_ s ≠ [].
Proof.
  intros R Hu Hs. destruct R as [_ _ (_&?&_) Hc _ _ _ _ _ _].
  rewrite <- Hc in Hu. unfold content in Hu. by rewrite Hs, zdrop_ge in Hu.
Qed.

(** One peek-and-pop of at most [n > 0] bytes: it takes a non-empty prefix of
    the unread bytes, and either [n] bytes or the whole front segment. *)
Lemma peek_pop_refines n s a :
  refines s a → unread a ≠ [] → 0 < n →
  ∃ view view' s', Reader.peek s = Ok view ∧ view ≠ [] ∧ substr 0 n view = Ok view' ∧
    Reader.pop (zlen view') s = Ok s' ∧ refines s' (spec_pop (zlen view') a) ∧
    0 < zlen view' ≤ n ∧ unread a = view' ++ unread (spec_pop (zlen view') a) ∧
    (zlen view' = n ∨ (length (segments_ s') < length (segments_ s))%nat).
Proof.
  intros R Hu Hn. pose proof (ref_nread _ _ R) as [Hr _].
  destruct (peek_refines R) as (view&rest&Hp&Hv&Hnil&Hfront).
  destruct (pop_refines R (zlen (ztake n view))) as (s'&Hpop&R'&_&Hlt); [zlen|].
  assert (view ≠ []) as Hne by (by intros ?%Hnil).
  exists view, (ztake n view), s'.
  assert (0 < zlen view).
  { zlen_saturate. destruct (decide (zlen view = 0)) as [?%zlen_0|]; [done|lia]. }
  rewrite substr_ok by zlen. rewrite (zdrop_0 0) by done.
  split_and!; [done..|zlen|zlen| |].
  - rewrite unread_pop by zlen. rewrite Hv. destruct (decide (zlen view ≤ n)).
    + by rewrite ztake_ge, zdrop_app_zlen by lia.
    + replace (zlen (ztake n view)) with n by zlen.
      rewrite zdrop_app_le, app_assoc by lia. by rewrite ztake_zdrop.
  - destruct (segments_ s) as [|d segs] eqn:Es.
    { by destruct (segments_nonempty s a R Hu). }
    specialize (Hfront d segs eq_refl). specialize (Hlt d segs eq_refl).
    destruct (decide (zlen view ≤ n)); [right; apply Hlt; zlen|left; zlen].
Qed.

Lemma read_loop_ok fuel max_len s a out :
  refines s a → is_u64 max_len → zlen out ≤ max_len →
  (length (segments_ s) < fuel ∨ 0 < fuel ∧ zlen out = max_len)%nat →
  ∃ s', read_loop fuel max_len s out
          = Ok (s', out ++ ztake (max_len - zlen out) (unread a)) ∧
        refines s' (spec_pop (max_len - zlen out) a).
Proof.
  revert s a out. induction fuel as [|fuel IH]; intros s a out R Hm Ho Hf; [lia|].
  pose proof (ref_nread _ _ R) as [Hr _]. simpl. rewrite (buffered_refines R).
  case_bool_decide as Hb; simpl; cycle 1.
  { apply zlen_0 in Hb. exists s.
    rewrite Hb, ztake_ge, app_nil_r, spec_pop_0 by (auto; zlen). done. }
  case_bool_decide as Hmax; cycle 1.
  { exists s. by rewrite ztake_0, app_nil_r, spec_pop_0 by lia. }
  assert (unread a ≠ []) as Hu by (by intros Hx; rewrite Hx in Hb).
  rewrite u64_small by (unfold is_u64 in *; zlen).
  destruct (peek_pop_refines (max_len - zlen out) s a R Hu)
    as (view&view'&s'&->&Hne&Hsub&Hpop&R'&Hv'&Hsplit&Hprog); [lia|]. simpl.
  rewrite bool_decide_false by done. rewrite Hsub. simpl. rewrite Hpop. simpl.
  destruct (IH s' _ (out ++ view') R') as (s''&He&R'').
  - done.
  - zlen.
  - pose proof (segments_nonempty s a R Hu). destruct (segments_ s); [done|].
    simpl in *. destruct Hprog; [right; zlen|left; lia].
  - exists s''. rewrite He. rewrite zlen_app, Z.sub_add_distr in *. split.
    + rewrite Hsplit at 1. rewrite ztake_app_ge, app_assoc by lia. done.
    + rewrite spec_pop_pop in R'' by lia. by replace (max_len - zlen out)
        with (zlen view' + (max_len - zlen out - zlen view')) by lia.
Qed.

Lemma read_refines max_len s a :
  refines s a → is_u64 max_len →
  ∃ s', read max_len s = Ok (s', ztake max_len (unread a)) ∧
        refines s' (spec_pop max_len a).
Proof.
  intros R Hm. destruct (read_loop_ok (S (length (segments_ s))) max_len s a [] R) as (s'&He&R');
    [done|unfold is_u64 in *; zlen|lia|].
  rewrite zlen_nil, Z.sub_0_r in *. by exists s'.
Qed.

(** * Traces of calls *)

(** A call on the stream from either side. *)
Inductive op : Type :=
  | Push (data : bytes)
  | Pop (len : Z)
  | Read (max_len : Z)
  | Close
  | SetError.

Definition op_ok (o : op) : Prop :=
  match o with Pop n | Read n => is_u64 n | _ => True end.

(** The state after a call and the bytes it handed to the caller. *)
Definition step (o : op) (s : ByteStream) : result (ByteStream * bytes) :=
  match o with
  | Push d => Ok (Writer.push d s, [])
  | Pop n => s' ← Reader.pop n s; Ok (s', [])
  | Read n => read n s
  | Close => Ok (Writer.close s, [])
  | SetError => Ok (set_error s, [])
  end.

Definition spec_step (o : op) (a : stream) : stream * bytes :=
  match o with
  | Push d => (spec_push d a, [])
  | Pop n => (spec_pop n a, [])
  | Read n => (spec_pop n a, ztake n (unread a))
  | Close => (spec_close a, [])
  | SetError => (spec_set_error a, [])
  end.

Fixpoint run (os : list op) (s : ByteStream) : result (ByteStream * bytes) :=
  match os with
  | [] => Ok (s, [])
  | o :: os => '(s, out) ← step o s; '(s, outs) ← run os s; Ok (s, out ++ outs)
  end.

Fixpoint spec_run (os : list op) (a : stream) : stream * bytes :=
  match os with
  | [] => (a, [])
  | o :: os =>
      let '(a, out) := spec_step o a in
      let '(a, outs) := spec_run os a in (a, out ++ outs)
  end.

Lemma step_refines o s a :
  refines s a → op_ok o →
  ∃ s', step o s = Ok (s', (spec_step o a).2) ∧ refines s' (spec_step o a).1.
Proof.
  intros R Ho. destruct o as [d|n|n| |]; simpl in *.
  - eexists. split; [done|]. by apply push_refines.
  - destruct (pop_refines R n) as (s'&->&R'&_); [apply Ho|]. by exists s'.
  - by apply read_refines.
  - eexists. split; [done|]. by apply close_refines.
  - eexists. split; [done|]. by apply set_error_refines.
Qed.

Lemma run_refines os s a :
  refines s a → Forall op_ok os →
  ∃ s', run os s = Ok (s', (spec_run os a).2) ∧ refines s' (spec_run os a).1.
Proof.
  revert s a. induction os as [|o os IH]; intros s a R Hos; [by exists s|].
  apply Forall_cons in Hos as [Ho Hos].
  destruct (step_refines o s a R Ho) as (s1&He&R1). simpl. rewrite He. simpl.
  destruct (spec_step o a) as [a1 out]. destruct (IH s1 a1 R1 Hos) as (s2&He2&R2).
  simpl in *. rewrite He2. simpl. destruct (spec_run os a1). by exists s2.
Qed.

(** Without [Pop] the bytes handed out are all the bytes taken out. *)
Definition no_pop (o : op) : bool := match o with Pop _ => false | _ => true end.

Lemma spec_run_fifo os a :
  forallb no_pop os = true → Forall op_ok os → 0 ≤ nread a ≤ zlen (written a) →
  ztake (nread (spec_run os a).1) (written (spec_run os a).1)
  = ztake (nread a) (written a) ++ (spec_run os a).2 ∧
  nread (spec_run os a).1 ≤ zlen (written (spec_run os a).1).
Proof.
  revert a. induction os as [|o os IH]; intros a Hn Hok Ha; simpl.
  { rewrite app_nil_r. split; [done|lia]. }
  simpl in Hn. apply andb_true_iff in Hn as [Ho Hn]. apply Forall_cons in Hok as [Hoo Hok].
  assert (∃ a1 out, spec_step o a = (a1, out) ∧ 0 ≤ nread a1 ≤ zlen (written a1) ∧
    ztake (nread a1) (written a1) = ztake (nread a) (written a) ++ out)
    as (a1&out&->&Ha1&Ht).
  { destruct o as [d|n|n| |]; simpl in *; try done; eexists _, _; (split; [done|]); simpl.
    - split; [zlen|]. by rewrite ztake_app_le, app_nil_r by lia.
    - destruct Hoo. unfold unread. split; [zlen|].
      rewrite ztake_add by zlen. f_equal.
      destruct (decide (n ≤ zlen (zdrop (nread a) (written a)))).
      + by rewrite Z.min_l.
      + by rewrite !ztake_ge by lia.
    - by rewrite app_nil_r.
    - by rewrite app_nil_r. }
  destruct (IH a1 Hn Hok Ha1) as [IH1 IH2]. destruct (spec_run os a1) as [a2 outs].
  simpl in *. rewrite IH1, Ht, app_assoc. done.
Qed.

Lemma spec_run_cap os a : cap (spec_run os a).1 = cap a.
Proof.
  revert a. induction os as [|o os IH]; intros a; [done|]. simpl.
  specialize (IH (spec_step o a).1).
  assert (cap (spec_step o a).1 = cap a) as Hs by (by destruct o).
  destruct (spec_step o a) as [a1 out]. simpl in *. destruct (spec_run os a1). by rewrite <- Hs.
Qed.

(** * The interface offered to the Reassembler *)

#[export] Instance ByteStream_writer : StreamWriter ByteStream := {
  sw_push := Writer.push;
  sw_close := Writer.close;
  sw_set_error := set_error;
  sw_has_error := has_error;
  sw_is_closed := Writer.is_closed;
  sw_bytes_pushed := Writer.bytes_pushed;
  sw_available_capacity := Writer.available_capacity;
}.

Definition models (s : ByteStream) (k : sink) : Prop :=
  ∃ a, refines s a ∧ k = mkSink (written a) (room a) (err a) (fin a).

#[export] Instance ByteStream_writer_spec : StreamWriterSpec ByteStream.
Proof.
  refine {| sw_models := models |}; intros; destruct H as (a&R&->); simpl.
  - exact (room_range R).
  - exact (ref_pushed _ _ R).
  - exact (available_refines R).
  - exact (ref_closed _ _ R).
  - exact (ref_error _ _ R).
  - exists (spec_push d a). split; [by apply push_refines|].
    unfold sink_push, spec_push, room. simpl. f_equal. zlen.
  - exists (spec_close a). split; [by apply close_refines|done].
  - exists (spec_set_error a). split; [by apply set_error_refines|done].
Defined.

(** * Properties *)

(** C10: the class implements the abstract stream: any sequence of calls from
    the two sides on a fresh stream returns (no exception, no read past the
    chain of segments, no loop running on), hands out exactly the bytes the
    abstract stream hands out, and ends in a state representing the abstract
    one, with the 64-bit counters read modulo 2^64. *)
Theorem byte_stream_refinement (c : Z) (os : list op) :
  is_u64 c → Forall op_ok os →
  ∃ s, run os (new c) = Ok (s, (spec_run os (spec_new c)).2) ∧
       refines s (spec_run os (spec_new c)).1.
Proof. intros Hc. by apply run_refines, new_refines. Qed.

Definition demo_ops : list op :=
  [Push [Byte.x61; Byte.x62; Byte.x63; Byte.x64; Byte.x65]; Read 2; Pop 1;
   Push [Byte.x66; Byte.x67]; Close; Read 9].

Lemma byte_stream_refinement_witness :
  ∃ s, run demo_ops (new 4)
         = Ok (s, [Byte.x61; Byte.x62; Byte.x64; Byte.x66; Byte.x67]) ∧
       refines s (spec_run demo_ops (spec_new 4)).1.
Proof.
  refine (byte_stream_refinement 4 demo_ops _ _); [by unfold is_u64|].
  repeat constructor; by unfold is_u64.
Defined.

(** First in, first out: when bytes leave only through [read], the bytes
    handed out, in order, followed by the bytes still buffered are exactly the
    bytes the pushes accepted; never more than [capacity] bytes are buffered
    and the two sides' accounting agrees with what is buffered. *)
Theorem byte_stream_fifo (c : Z) (os : list op) :
  is_u64 c → Forall op_ok os → forallb no_pop os = true →
  ∃ s outs, run os (new c) = Ok (s, outs) ∧
    outs ++ content s = written (spec_run os (spec_new c)).1 ∧
    zlen (content s) ≤ c ∧
    Reader.bytes_buffered s = zlen (content s) ∧
    Writer.available_capacity s = c - zlen (content s).
Proof.
  intros Hc Hos Hn.
  destruct (run_refines os _ _ (new_refines c Hc) Hos) as (s&He&R).
  destruct (spec_run_fifo os (spec_new c) Hn Hos) as [Ht Hr]; [simpl; zlen|].
  pose proof (spec_run_cap os (spec_new c)) as Hcap. simpl in Hcap.
  eexists s, _. split; [done|]. simpl in Ht.
  simpl in Ht. rewrite <- Ht, (ref_content _ _ R), (buffered_refines R), (available_refines R).
  split; [by apply ztake_zdrop|]. unfold room. rewrite Hcap, (refines_unread R).
  pose proof (ref_bounded _ _ R). lia.
Qed.

Lemma byte_stream_fifo_witness :
  ∃ s outs, run [Push [Byte.x61; Byte.x62; Byte.x63]; Read 2; Push [Byte.x64; Byte.x65]] (new 2)
              = Ok (s, outs) ∧
    outs ++ content s = [Byte.x61; Byte.x62; Byte.x64; Byte.x65] ∧
    zlen (content s) ≤ 2 ∧
    Reader.bytes_buffered s = zlen (content s) ∧
    Writer.available_capacity s = 2 - zlen (content s).
Proof.
  refine (byte_stream_fifo 2 [Push [Byte.x61; Byte.x62; Byte.x63]; Read 2;
    Push [Byte.x64; Byte.x65]] _ _ eq_refl); [by unfold is_u64|].
  repeat constructor; by unfold is_u64.
Defined.
