(* ===== verification/Reassembler.v ===== *)
(** The Reassembler: out-of-order substrings merged into a byte stream
    (src/src/reassembler.hh, src/src/reassembler.cc).  It is written against the
    [StreamWriter] interface of the stream it owns. *)

From S2P Require Import Prelude Interfaces.
From S2P Require ByteStream.

(** * The ordered map of pending substrings *)

(** [std::map<uint64_t, string>]: the entries in key order. *)
Abbreviation pending := (list (Z * bytes)).

(** Where an iterator stands: the entries before it and the entries from it. *)
Fixpoint split_while (p : Z → bool) (m : pending) : pending * pending :=
  match m with
  | [] => ([], [])
  | e :: rest => if p e.1 then let '(l, r) := split_while p rest in (e :: l, r) else ([], m)
  end.

Definition lower_bound (k : Z) (m : pending) : pending * pending :=
  split_while (λ x, bool_decide (x < k)) m.
Definition upper_bound (k : Z) (m : pending) : pending * pending :=
  split_while (λ x, bool_decide (x ≤ k)) m.

(** [emplace] inserts unless the key is present. *)
Definition emplace (k : Z) (d : bytes) (m : pending) : pending :=
  let '(before, from) := lower_bound k m in
  match from with
  | (k', _) :: _ => if bool_decide (k' = k) then m else before ++ (k, d) :: from
  | [] => before ++ [(k, d)]
  end.

(** * The class *)

Record Reassembler (S : Type) : Type := mkReassembler {
  output_ : S;
  pending_ : pending;
  end_index_ : Z;
  eof_seen_ : bool;
}.
Arguments mkReassembler {S} _ _ _ _.
Arguments output_ {S} _.
Arguments pending_ {S} _.
Arguments end_index_ {S} _.
Arguments eof_seen_ {S} _.

Definition new_reassembler {S} (output : S) : Reassembler S := mkReassembler output [] 0 false.

(** Step 1 of [insert]: clip the substring to the acceptable window. *)
Definition clip (first_unassembled first_unacceptable first_index : Z) (data : bytes)
    : Z * bytes :=
  if bool_decide (first_index >= first_unacceptable)
     || bool_decide (u64 (first_index + zlen data) <= first_unassembled)
  then (first_index, [])
  else
    let '(first_index, data) :=
      if bool_decide (first_index < first_unassembled)
      then (first_unassembled, zdrop (u64 (first_unassembled - first_index)) data)
      else (first_index, data) in
    if bool_decide (u64 (first_index + zlen data) > first_unacceptable)
    then (first_index, resize (u64 (first_unacceptable - first_index)) data)
    else (first_index, data).

(** Step 2: merge with the immediate predecessor if it touches or overlaps. *)
Definition merge_prev (first_index : Z) (data : bytes) (m : pending)
    : result (Z * bytes * pending) :=
  let '(before, from) := upper_bound first_index m in
  match last before with
  | None => Ok (first_index, data, m)
  | Some (prev_first, prev_second) =>
      let prev_end := u64 (prev_first + zlen prev_second) in
      if bool_decide (prev_end >= first_index) then
        if bool_decide (prev_end >= u64 (first_index + zlen data))
        then Ok (first_index, [], m)
        else
          let overlap := u64 (prev_end - first_index) in
          suffix ← substr_from overlap data;
          Ok (prev_first, prev_second ++ suffix, removelast before ++ from)
      else Ok (first_index, data, m)
  end.

(** Step 3: absorb every successor that touches or overlaps. *)
Fixpoint absorb (first_index : Z) (data : bytes) (from : pending) : result (bytes * pending) :=
  match from with
  | [] => Ok (data, [])
  | (it_first, it_second) :: rest =>
      if bool_decide (it_first <= u64 (first_index + zlen data)) then
        let next_end := u64 (it_first + zlen it_second) in
        data ←
          (if bool_decide (next_end > u64 (first_index + zlen data)) then
             let overlap := u64 (first_index + zlen data - it_first) in
             suffix ← substr_from overlap it_second;
             Ok (data ++ suffix)
           else Ok data);
        absorb first_index data rest
      else Ok (data, from)
  end.

Definition store (first_index : Z) (data : bytes) (m : pending) : result pending :=
  let '(before, from) := lower_bound first_index m in
  '(data, from) ← absorb first_index data from;
  Ok (emplace first_index data (before ++ from)).

Section reassembler.
Context {S : Type} `{StreamWriter S}.

(** Step 4: flush the contiguous prefix into the output stream. *)
Fixpoint flush (m : pending) (writer : S) : pending * S :=
  match m with
  | (first, second) :: rest =>
      if bool_decide (first = sw_bytes_pushed writer)
      then flush rest (sw_push second writer)
      else (m, writer)
  | [] => ([], writer)
  end.

(** [void insert( uint64_t first_index, string data, bool is_last_substring )]. *)
Definition insert (first_index : Z) (data : bytes) (is_last_substring : bool)
    (r : Reassembler S) : result (Reassembler S) :=
  let writer := output_ r in
  let '(end_index, eof_seen) :=
    if is_last_substring then (u64 (first_index + zlen data), true)
    else (end_index_ r, eof_seen_ r) in
  let first_unassembled := sw_bytes_pushed writer in
  let first_unacceptable := u64 (first_unassembled + sw_available_capacity writer) in
  let '(first_index, data) := clip first_unassembled first_unacceptable first_index data in
  '(first_index, data, m) ←
    (if bool_decide (data ≠ []) then merge_prev first_index data (pending_ r)
     else Ok (first_index, data, pending_ r));
  m ← (if bool_decide (data ≠ []) then store first_index data m else Ok m);
  let '(m, writer) := flush m writer in
  let writer :=
    if eof_seen && bool_decide (sw_bytes_pushed writer = end_index)
    then sw_close writer else writer in
  Ok (mkReassembler writer m end_index eof_seen).

Definition count_bytes_pending (r : Reassembler S) : Z :=
  fold_left (λ total e, u64 (total + zlen e.2)) (pending_ r) 0.

Definition set_error (r : Reassembler S) : Reassembler S :=
  mkReassembler (sw_set_error (output_ r)) (pending_ r) (end_index_ r) (eof_seen_ r).
Definition has_error (r : Reassembler S) : bool := sw_has_error (output_ r).
Definition close (r : Reassembler S) : Reassembler S :=
  mkReassembler (sw_close (output_ r)) (pending_ r) (end_index_ r) (eof_seen_ r).

End reassembler.

(** * Shape and coverage of the pending map *)

(** Entries in increasing order, non-empty, never overlapping or touching,
    strictly above [lo] and ending at or below [hi]. *)
Fixpoint pend_ok (lo hi : Z) (m : pending) : Prop :=
  match m with
  | [] => True
  | (k, d) :: rest => lo < k ∧ 0 < zlen d ∧ k + zlen d ≤ hi ∧ pend_ok (k + zlen d) hi rest
  end.

(** Where the last entry of a map that starts above [lo] ends. *)
Fixpoint last_end (lo : Z) (m : pending) : Z :=
  match m with [] => lo | (k, d) :: rest => last_end (k + zlen d) rest end.

(** The stream indices whose byte is stored. *)
Definition cov (m : pending) (i : Z) : Prop :=
  ∃ k d, (k, d) ∈ m ∧ k ≤ i < k + zlen d.

(** Every entry is the piece of the stream [st] at its index. *)
Definition consistent (st : Z → byte) (m : pending) : Prop :=
  Forall (λ e, e.2 = slice st e.1 (zlen e.2)) m.

Lemma consistent_cons st k d m :
  consistent st ((k, d) :: m) ↔ d = slice st k (zlen d) ∧ consistent st m.
Proof. unfold consistent. by rewrite Forall_cons. Qed.
Lemma consistent_app st l r :
  consistent st (l ++ r) ↔ consistent st l ∧ consistent st r.
Proof. apply Forall_app. Qed.

Lemma cov_nil i : ¬ cov [] i.
Proof. intros (k&d&H&_). by apply not_elem_of_nil in H. Qed.
Lemma cov_cons k d m i : cov ((k, d) :: m) i ↔ k ≤ i < k + zlen d ∨ cov m i.
Proof. unfold cov. setoid_rewrite elem_of_cons. naive_solver. Qed.
Lemma cov_app l r i : cov (l ++ r) i ↔ cov l i ∨ cov r i.
Proof. unfold cov. setoid_rewrite elem_of_app. naive_solver. Qed.

Lemma pend_ok_weaken lo lo' hi m : lo' ≤ lo → pend_ok lo hi m → pend_ok lo' hi m.
Proof. destruct m as [|[k d] m]; simpl; intuition lia. Qed.

Lemma pend_ok_app lo hi l r :
  pend_ok lo hi (l ++ r) ↔ pend_ok lo hi l ∧ pend_ok (last_end lo l) hi r.
Proof. revert lo. induction l as [|[k d] l IH]; intros lo; simpl; [tauto|]. rewrite IH. tauto. Qed.

Lemma last_end_app lo l r : last_end lo (l ++ r) = last_end (last_end lo l) r.
Proof. revert lo. by induction l as [|[k d] l IH]; intros lo; simpl. Qed.

Lemma pend_ok_cov lo hi m i : pend_ok lo hi m → cov m i → lo < i < hi.
Proof.
  revert lo. induction m as [|[k d] m IH]; intros lo Hm Hc; [by apply cov_nil in Hc|].
  simpl in Hm. apply cov_cons in Hc as [Hc|Hc]; [lia|].
  destruct Hm as (?&?&?&Hm). specialize (IH _ Hm Hc). lia.
Qed.

Lemma last_end_bounds lo hi m : pend_ok lo hi m → m ≠ [] → lo < last_end lo m ≤ hi.
Proof.
  revert lo. induction m as [|[k d] m IH]; intros lo Hm Hne; [done|].
  simpl in *. destruct Hm as (?&?&?&Hm).
  destruct m as [|e m]; [simpl; lia|]. specialize (IH _ Hm ltac:(done)). lia.
Qed.

Lemma pend_ok_mono_hi lo hi hi' m : hi ≤ hi' → pend_ok lo hi m → pend_ok lo hi' m.
Proof. revert lo. induction m as [|[k d] m IH]; intros lo; simpl; intuition (auto; lia). Qed.

(** The number of bytes stored. *)
Fixpoint pend_size (m : pending) : Z :=
  match m with [] => 0 | (_, d) :: rest => zlen d + pend_size rest end.

Lemma pend_size_bound lo hi m : pend_ok lo hi m → m ≠ [] → 0 < pend_size m < hi - lo.
Proof.
  revert lo. induction m as [|[k d] m IH]; intros lo Hm Hne; [done|].
  simpl in *. destruct Hm as (?&?&?&Hm).
  destruct m as [|e m]; [simpl; lia|]. specialize (IH _ Hm ltac:(done)). lia.
Qed.

Lemma fold_pend_size m x :
  is_u64 x → fold_left (λ total e, u64 (total + zlen e.2)) m x = u64 (x + pend_size m).
Proof.
  revert x. induction m as [|[k d] m IH]; intros x Hx; simpl.
  { by rewrite Z.add_0_r, u64_small. }
  rewrite IH by apply u64_range. autorewrite with word. f_equal. lia.
Qed.

(** A map is determined by the indices it covers and the stream it stores. *)
Lemma pend_canonical st hi lo m1 m2 :
  pend_ok lo hi m1 → pend_ok lo hi m2 → consistent st m1 → consistent st m2 →
  (∀ i, cov m1 i ↔ cov m2 i) → m1 = m2.
Proof.
  revert lo m2. induction m1 as [|[k1 d1] m1 IH]; intros lo m2 H1 H2 C1 C2 Hc.
  { destruct m2 as [|[k2 d2] m2]; [done|]. simpl in H2. exfalso.
    apply (cov_nil k2), Hc, cov_cons. left. lia. }
  destruct m2 as [|[k2 d2] m2].
  { simpl in H1. exfalso. apply (cov_nil k1), Hc, cov_cons. left. lia. }
  apply consistent_cons in C1 as [S1 C1], C2 as [S2 C2].
  simpl in H1, H2. destruct H1 as (?&?&?&H1), H2 as (?&?&?&H2).
  assert (∀ i, cov m1 i → k1 + zlen d1 < i) as B1 by (intros i Hi; by apply (pend_ok_cov _ hi m1)).
  assert (∀ i, cov m2 i → k2 + zlen d2 < i) as B2 by (intros i Hi; by apply (pend_ok_cov _ hi m2)).
  setoid_rewrite cov_cons in Hc.
  pose proof (proj1 (Hc k1) ltac:(lia)) as X1. pose proof (proj2 (Hc k2) ltac:(lia)) as X2.
  assert (k1 = k2) as -> by (destruct X1 as [?|?%B2], X2 as [?|?%B1]; lia).
  assert (zlen d1 = zlen d2) as E.
  { destruct (Z.lt_trichotomy (zlen d1) (zlen d2)) as [?|[?|?]]; [|done|].
    - destruct (proj2 (Hc (k2 + zlen d1)) ltac:(lia)) as [?|?%B1]; lia.
    - destruct (proj1 (Hc (k2 + zlen d2)) ltac:(lia)) as [?|?%B2]; lia. }
  rewrite S1, S2, E. f_equal. apply (IH (k2 + zlen d1)); [done|by rewrite E|done..|].
  intros i. specialize (Hc i). rewrite <- E in Hc. split; intros Hi.
  - pose proof (B1 i Hi). destruct (proj1 Hc) as [?|?]; auto; lia.
  - pose proof (B2 i Hi). rewrite <- E in *. destruct (proj2 Hc) as [?|?]; auto; lia.
Qed.

Lemma existsb_perm {A} (p : A → bool) l1 l2 :
  Permutation l1 l2 → existsb p l1 = existsb p l2.
Proof.
  intros Hp. apply eq_true_iff_eq. rewrite !existsb_exists. by setoid_rewrite Hp.
Qed.

(** * Iterators *)

Lemma split_while_app p m l r :
  split_while p m = (l, r) → m = l ++ r ∧ Forall (λ e, p e.1 = true) l ∧
    match r with [] => True | e :: _ => p e.1 = false end.
Proof.
  revert l r. induction m as [|e m IH]; intros l r Hs; simpl in Hs; [by simplify_eq|].
  destruct (p e.1) eqn:Hp; [|by simplify_eq].
  destruct (split_while p m) as [l' r']. simplify_eq.
  destruct (IH l' r eq_refl) as (->&?&?). split_and!; [done|by constructor|done].
Qed.

Lemma split_while_at p l r :
  Forall (λ e, p e.1 = true) l → match r with [] => True | e :: _ => p e.1 = false end →
  split_while p (l ++ r) = (l, r).
Proof.
  intros Hl Hr. induction Hl as [|e l He _ IH]; simpl.
  - destruct r as [|e r]; [done|]. simpl. by rewrite Hr.
  - by rewrite He, IH.
Qed.

Lemma pend_ok_keys_below lo hi l : pend_ok lo hi l → Forall (λ e, e.1 < last_end lo l) l.
Proof.
  revert lo. induction l as [|[k d] l IH]; intros lo Hl; simpl in *; [done|].
  destruct Hl as (?&?&?&Hl). constructor; [|by apply IH]. simpl.
  destruct (decide (l = [])) as [->|]; simpl; [lia|].
  pose proof (last_end_bounds _ _ _ Hl n). lia.
Qed.

(** An iterator position is determined by the keys around it. *)
Lemma lower_bound_at lo hi l r k :
  pend_ok lo hi l → pend_ok (k - 1) hi r → (l ≠ [] → last_end lo l ≤ k) →
  lower_bound k (l ++ r) = (l, r).
Proof.
  intros Hl Hr Hk. apply split_while_at.
  - destruct (decide (l = [])) as [->|Hne]; [done|]. specialize (Hk Hne).
    eapply Forall_impl; [by eapply pend_ok_keys_below|]. simpl. intros e He.
    apply bool_decide_eq_true. lia.
  - destruct r as [|[k' d'] r]; [done|]. simpl in *. apply bool_decide_eq_false. lia.
Qed.

Lemma emplace_at lo hi l r k d :
  pend_ok lo hi l → pend_ok k hi r → (l ≠ [] → last_end lo l ≤ k) →
  emplace k d (l ++ r) = l ++ (k, d) :: r.
Proof.
  intros Hl Hr Hk. unfold emplace. rewrite (lower_bound_at lo hi);
    [|done|by eapply pend_ok_weaken; [|done]; lia|done].
  destruct r as [|[k' d'] r]; [done|]. simpl in Hr. by rewrite bool_decide_false by lia.
Qed.

(** * Step 3 *)

(** Joining two overlapping or touching pieces of a stream. *)
Lemma slice_join (st : Z → byte) k (d : bytes) k' (d' : bytes) :
  d = slice st k (zlen d) → d' = slice st k' (zlen d') →
  k ≤ k' ≤ k + zlen d → k + zlen d ≤ k' + zlen d' →
  d ++ zdrop (k + zlen d - k') d' = slice st k (zlen (d ++ zdrop (k + zlen d - k') d')).
Proof.
  intros Hd Hd' ??. rewrite Hd' at 1. rewrite Hd at 1.
  rewrite zdrop_slice by lia. rewrite slice_app' by zlen. f_equal. zlen.
Qed.

Lemma absorb_ok fi data hi from :
  0 ≤ fi → 0 < zlen data → fi + zlen data ≤ hi < 2 ^ 64 → pend_ok fi hi from →
  ∃ data' rest, absorb fi data from = Ok (data', rest) ∧
    zlen data ≤ zlen data' ∧ fi + zlen data' ≤ hi ∧ pend_ok (fi + zlen data') hi rest ∧
    (∀ i, (fi ≤ i < fi + zlen data' ∨ cov rest i) ↔ (fi ≤ i < fi + zlen data ∨ cov from i)) ∧
    (∀ st, data = slice st fi (zlen data) → consistent st from →
       data' = slice st fi (zlen data') ∧ consistent st rest).
Proof.
  revert data. induction from as [|[k d] from IH]; intros data H0 Hd Hhi Hf.
  { exists data, []. simpl. split_and!; try done; lia. }
  simpl in Hf. destruct Hf as (Hk&Hd0&Hkh&Hf). simpl.
  rewrite (u64_small (fi + zlen data)), (u64_small (k + zlen d)) by (unfold is_u64; lia).
  case_bool_decide as Hle; cycle 1.
  { exists data, ((k, d) :: from). split_and!; try done; try lia.
    simpl. split_and!; [lia..|done]. }
  assert (∃ data1, (if bool_decide (k + zlen d > fi + zlen data) then
      suffix ← substr_from (u64 (fi + zlen data - k)) d; Ok (data ++ suffix)
      else Ok data) = Ok data1 ∧ zlen data1 = Z.max (zlen data) (k + zlen d - fi) ∧
      (∀ st, data = slice st fi (zlen data) → d = slice st k (zlen d) →
        data1 = slice st fi (zlen data1))) as (data1&->&Hl1&Hc1).
  { case_bool_decide as Hgt.
    - rewrite u64_small by (unfold is_u64; lia). rewrite substr_from_ok by lia.
      eexists. split; [done|]. split; [zlen|]. intros st ??. apply slice_join; [done..|lia|lia].
    - exists data. split_and!; [done|lia|done]. }
  destruct (IH data1) as (data'&rest&He&?&?&?&Hcov&Hcons); [lia..| |].
  { eapply pend_ok_weaken; [|done]. lia. }
  simpl. rewrite He. exists data', rest. split_and!; [done|lia|done|done| |].
  - intros i. rewrite Hcov, cov_cons. intuition lia.
  - intros st Hs [Hs' Hs'']%consistent_cons. apply Hcons; [by apply Hc1|done].
Qed.

(** * Step 2 *)

Lemma pend_ok_head lo lo' hi m :
  pend_ok lo hi m → match m with [] => True | e :: _ => lo' < e.1 end → pend_ok lo' hi m.
Proof. destruct m as [|[k d] m]; simpl; intuition lia. Qed.

Lemma upper_bound_split lo hi k m :
  pend_ok lo hi m → ∃ l r, upper_bound k m = (l, r) ∧ m = l ++ r ∧
    Forall (λ e, e.1 ≤ k) l ∧ pend_ok lo hi l ∧ pend_ok (last_end lo l) hi r ∧ pend_ok k hi r.
Proof.
  intros Hm. destruct (upper_bound k m) as [l r] eqn:E. exists l, r.
  apply split_while_app in E as (->&Hl&Hr). apply pend_ok_app in Hm as [Hm1 Hm2].
  split_and!; try done.
  - eapply Forall_impl; [done|]. simpl. intros e. by rewrite bool_decide_eq_true.
  - eapply pend_ok_head; [done|]. destruct r as [|e r]; [done|].
    apply bool_decide_eq_false in Hr. lia.
Qed.

(** What step 2 leaves for step 3: either nothing, because the bytes were all
    stored already, or a working segment and its place in the map. *)
Definition merged lo hi fi data m fi' data' m' : Prop :=
  (data' = [] ∧ m' = m ∧ ∀ i, fi ≤ i < fi + zlen data → cov m i) ∨
  (∃ before from, m' = before ++ from ∧ 0 < zlen data' ∧
    pend_ok lo hi before ∧ last_end lo before < fi' ≤ fi ∧
    fi' + zlen data' = fi + zlen data ∧ pend_ok fi hi from ∧
    (∀ i, (fi' ≤ i < fi' + zlen data' ∨ cov m' i) ↔ (fi ≤ i < fi + zlen data ∨ cov m i)) ∧
    (∀ st, data = slice st fi (zlen data) → consistent st m →
       data' = slice st fi' (zlen data') ∧ consistent st m')).

Lemma merged_same lo hi fi data l r :
  pend_ok lo hi l → pend_ok fi hi r → last_end lo l < fi → 0 < zlen data →
  merged lo hi fi data (l ++ r) fi data (l ++ r).
Proof. intros. right. exists l, r. split_and!; done || lia. Qed.

Lemma merge_prev_ok lo hi fi data m :
  pend_ok lo hi m → -1 ≤ lo < fi → 0 < zlen data → fi + zlen data ≤ hi < 2 ^ 64 →
  ∃ fi' data' m', merge_prev fi data m = Ok (fi', data', m') ∧
    merged lo hi fi data m fi' data' m'.
Proof.
  intros Hm Hlo Hd Hhi. unfold merge_prev.
  destruct (upper_bound_split lo hi fi m Hm) as (l&r&->&->&Hkeys&Hl&Hr&Hr').
  destruct l as [|[k d] l _] using rev_ind.
  { simpl. eexists _, _, _. split; [done|]. apply (merged_same _ _ _ _ [] r); simpl; done || lia. }
  rewrite last_snoc. apply Forall_app in Hkeys as [_ [Hk _]%Forall_cons]. simpl in Hk.
  pose proof Hl as Hl'. apply pend_ok_app in Hl' as (Hl0&Hlk&Hd0&Hkh&_).
  rewrite last_end_app in Hr. simpl in Hr.
  assert (lo ≤ last_end lo l).
  { destruct (decide (l = [])) as [->|Hne]; [done|]. pose proof (last_end_bounds _ _ _ Hl0 Hne). lia. }
  rewrite (u64_small (k + zlen d)), (u64_small (fi + zlen data)) by (unfold is_u64; lia).
  case_bool_decide as Htouch; cycle 1.
  { eexists _, _, _. split; [done|]. apply merged_same; try done.
    rewrite last_end_app. simpl. lia. }
  case_bool_decide as Hcover.
  { eexists _, _, _. split; [done|]. left. split_and!; [done..|].
    intros i Hi. rewrite cov_app, cov_app, cov_cons. left; right; left. lia. }
  rewrite u64_small by (unfold is_u64; lia). rewrite substr_from_ok by lia. simpl.
  rewrite removelast_last. eexists _, _, _. split; [done|]. right. exists l, r.
  assert (zlen (d ++ zdrop (k + zlen d - fi) data) = fi + zlen data - k) as Hlen by zlen.
  rewrite Hlen. split_and!; try done; try lia.
  - intros i. rewrite !cov_app, cov_cons. pose proof (cov_nil i). intuition lia.
  - intros st Hs. rewrite !consistent_app, consistent_cons. intros ((?&?&_)&?).
    rewrite <- Hlen. split; [|done]. apply slice_join; done || lia.
Qed.

Lemma store_ok lo hi fi data l r :
  pend_ok lo hi l → -1 ≤ lo → last_end lo l < fi → pend_ok fi hi r →
  0 < zlen data → fi + zlen data ≤ hi < 2 ^ 64 →
  ∃ m, store fi data (l ++ r) = Ok m ∧ pend_ok lo hi m ∧
    (∀ i, cov m i ↔ (fi ≤ i < fi + zlen data ∨ cov (l ++ r) i)) ∧
    (∀ st, data = slice st fi (zlen data) → consistent st (l ++ r) → consistent st m).
Proof.
  intros Hl Hlo Hle Hr Hd Hhi. unfold store.
  assert (lo ≤ last_end lo l).
  { destruct (decide (l = [])) as [->|Hne]; [done|]. pose proof (last_end_bounds _ _ _ Hl Hne). lia. }
  rewrite (lower_bound_at lo hi);
    [|done|by eapply pend_ok_weaken; [|done]; lia|lia].
  destruct (absorb_ok fi data hi r) as (data'&rest&->&?&?&Hrest&Hcov&Hcons); [lia..|done|].
  simpl. rewrite (emplace_at lo hi);
    [|done|by eapply pend_ok_weaken; [|done]; lia|lia].
  eexists. split; [done|]. split_and!.
  - apply pend_ok_app. split; [done|]. simpl. split_and!; done || lia.
  - intros i. rewrite !cov_app, cov_cons, Hcov. tauto.
  - intros st Hs [Hsl Hsr]%consistent_app. destruct (Hcons st Hs Hsr).
    apply consistent_app. split; [done|]. by apply consistent_cons.
Qed.

(** * Step 1 *)

Lemma clip_ok lo hi fi data :
  0 ≤ lo ≤ hi → hi < 2 ^ 64 → is_u64 fi → (fi < hi → fi + zlen data < 2 ^ 64) →
  ∃ fi' data', clip lo hi fi data = (fi', data') ∧
    (data' ≠ [] → lo ≤ fi' ∧ fi' + zlen data' ≤ hi) ∧
    (∀ i, fi' ≤ i < fi' + zlen data' ↔ fi ≤ i < fi + zlen data ∧ lo ≤ i < hi) ∧
    (∀ st, data = slice st fi (zlen data) → data' = slice st fi' (zlen data')).
Proof.
  intros Hlo Hhi Hfi Hsum. unfold clip, is_u64 in *.
  case_bool_decide as Hge; simpl.
  { exists fi, []. split_and!; [done|done| |intros; by rewrite slice_nil]. intros i. zlen. }
  rewrite (u64_small (fi + zlen data)) by (unfold is_u64; zlen).
  case_bool_decide as Hle.
  { exists fi, []. split_and!; [done|done| |intros; by rewrite slice_nil]. intros i. zlen. }
  assert (∃ fi1 d1, (if bool_decide (fi < lo)
      then (lo, zdrop (u64 (lo - fi)) data) else (fi, data)) = (fi1, d1) ∧
      fi1 = Z.max lo fi ∧ zlen d1 = fi + zlen data - fi1 ∧
      (∀ st, data = slice st fi (zlen data) → d1 = slice st fi1 (zlen d1)))
    as (fi1&d1&->&Hf1&Hd1&Hs1).
  { case_bool_decide; eexists _, _; (split; [done|]).
    - rewrite u64_small by (unfold is_u64; lia). split_and!; [lia|zlen|].
      intros st Hs. rewrite Hs at 1. rewrite zdrop_slice by lia. f_equal; zlen.
    - split_and!; [lia|zlen|done]. }
  rewrite (u64_small (fi1 + zlen d1)) by (unfold is_u64; zlen).
  case_bool_decide as Hover; eexists _, _; (split; [done|]).
  - rewrite u64_small by (unfold is_u64; zlen). rewrite resize_le by zlen.
    split_and!; [zlen| |].
    + intros i. zlen.
    + intros st Hs. rewrite (Hs1 st Hs) at 1. rewrite ztake_slice. f_equal.
      rewrite zlen_ztake. clear -Hge Hlo Hf1 Hd1 Hle Hover. lia.
  - split_and!; [zlen| |done]. intros i. zlen.
Qed.

(** * Steps 2 and 3 together *)

Lemma merge_store_ok lo hi fi data m :
  pend_ok lo hi m → -1 ≤ lo → hi < 2 ^ 64 →
  (data ≠ [] → lo < fi ∧ fi + zlen data ≤ hi) →
  ∃ fi1 d1 m1, (if bool_decide (data ≠ []) then merge_prev fi data m
                else Ok (fi, data, m)) = Ok (fi1, d1, m1) ∧
  ∃ m', (if bool_decide (d1 ≠ []) then store fi1 d1 m1 else Ok m1) = Ok m' ∧
    pend_ok lo hi m' ∧
    (∀ i, cov m' i ↔ fi ≤ i < fi + zlen data ∨ cov m i) ∧
    (∀ st, data = slice st fi (zlen data) → consistent st m → consistent st m').
Proof.
  intros Hm Hlo Hhi Hd. case_bool_decide as Hne; cycle 1.
  { subst data. exists fi, [], m. split; [done|]. exists m.
    split_and!; [done..| |done]. intros i. zlen_saturate. intuition lia. }
  destruct (Hd Hne) as [Hlf Hfh].
  assert (0 < zlen data) by (destruct data; [done|zlen]).
  destruct (merge_prev_ok lo hi fi data m) as (fi1&d1&m1&->&Hmg); [done|lia..|].
  exists fi1, d1, m1. split; [done|].
  destruct Hmg as [(->&->&Hc)|(l&r&->&Hd1&Hl&Hle&Hend&Hr&Hcov&Hcons)].
  { exists m. split_and!; [done..| |done]. intros i. split; [by right|]. intros [?|?]; auto. }
  rewrite bool_decide_true by (intros ->; zlen).
  destruct (store_ok lo hi fi1 d1 l r) as (m'&->&Hm'&Hcov'&Hcons'); try (done || lia).
  { eapply pend_ok_weaken; [|done]. lia. }
  exists m'. split_and!; [done..| |].
  - intros i. by rewrite Hcov', Hcov.
  - intros st Hs Hsm. destruct (Hcons st Hs Hsm). by apply Hcons'.
Qed.

(** * The whole of [insert] *)

Section insert.
Context {S : Type} `{StreamWriterSpec S}.
Implicit Types (r : Reassembler S) (k : sink).

Definition next_index (k : sink) : Z := zlen (sink_written k).
Definition window_end (k : sink) : Z := zlen (sink_written k) + sink_room k.

(** The invariant: the pending substrings lie strictly between the first
    unassembled index and the end of the window. *)
Definition reasm_ok (r : Reassembler S) (k : sink) : Prop :=
  sw_models (output_ r) k ∧ pend_ok (next_index k) (window_end k) (pending_ r) ∧
  window_end k < 2 ^ 64.

Definition sink_advance (new : bytes) (closed : bool) (k : sink) : sink :=
  mkSink (sink_written k ++ new) (sink_room k - zlen new) (sink_error k) closed.

Lemma sink_push_fits d k :
  zlen d ≤ sink_room k → sink_push d k = sink_advance d (sink_closed k) k.
Proof. intros. unfold sink_push, sink_advance. by rewrite ztake_ge. Qed.

Lemma sink_advance_nil k : sink_advance [] (sink_closed k) k = k.
Proof.
  unfold sink_advance. rewrite app_nil_r, zlen_nil, Z.sub_0_r. by destruct k.
Qed.

Lemma flush_stop k w m :
  sw_models w k → window_end k < 2 ^ 64 → pend_ok (next_index k) (window_end k) m →
  flush m w = (m, w).
Proof.
  intros Hw Hb Hm. destruct m as [|[x d] m]; [done|]. simpl in *.
  pose proof (sw_room_range _ _ Hw). unfold next_index, window_end in *.
  rewrite (sw_bytes_pushed_law _ _ Hw), u64_small by (unfold is_u64; zlen).
  by rewrite bool_decide_false by lia.
Qed.

Lemma flush_ok k w m :
  sw_models w k → window_end k < 2 ^ 64 → pend_ok (next_index k - 1) (window_end k) m →
  ∃ m' w' new, flush m w = (m', w') ∧
    sw_models w' (sink_advance new (sink_closed k) k) ∧
    pend_ok (next_index k + zlen new) (window_end k) m' ∧
    next_index k + zlen new ≤ window_end k ∧
    (∀ i, cov m i ↔ next_index k ≤ i < next_index k + zlen new ∨ cov m' i) ∧
    (∀ st, consistent st m → new = slice st (next_index k) (zlen new) ∧ consistent st m').
Proof.
  intros Hw Hb Hm. pose proof (sw_room_range _ _ Hw) as Hr.
  destruct m as [|[x d] rest].
  { exists [], w, []. split; [done|]. rewrite sink_advance_nil.
    split_and!; [done|done|unfold next_index, window_end; zlen| |].
    - intros i. zlen_saturate. intuition lia.
    - intros st Hs. split; [|exact Hs]. by rewrite slice_nil. }
  simpl in Hm. destruct Hm as (Hx&Hd&Hxe&Hrest).
  destruct (decide (x = next_index k)) as [->|Hne]; cycle 1.
  { exists ((x, d) :: rest), w, []. rewrite sink_advance_nil, zlen_nil.
    rewrite flush_stop with (k := k); [|done|done|simpl; split_and!; done || lia].
    split_and!; [done|done|simpl; split_and!; done || lia|lia| |].
    - intros i. intuition lia.
    - intros st ?. split; [|done]. by rewrite slice_nil. }
  assert (zlen d ≤ sink_room k) as Hfit by (unfold next_index, window_end in *; lia).
  pose proof (sw_push_law d _ _ Hw) as Hw'. rewrite sink_push_fits in Hw' by done.
  exists rest, (sw_push d w), d. simpl.
  rewrite (sw_bytes_pushed_law _ _ Hw).
  rewrite u64_small by (unfold is_u64, next_index, window_end in *; zlen).
  rewrite bool_decide_true by done.
  rewrite flush_stop with (k := sink_advance d (sink_closed k) k); [|done|..].
  - split_and!; [done|done|done|done| |].
    + intros i. by rewrite cov_cons.
    + intros st [Hs Hs']%consistent_cons. done.
  - unfold window_end in *. simpl. zlen.
  - unfold next_index, window_end in *. simpl. rewrite zlen_app.
    replace (zlen (sink_written k) + zlen d + (sink_room k - zlen d))
      with (zlen (sink_written k) + sink_room k) by lia. done.
Qed.
(** What one [insert] does, in terms of the bytes known: [new] is handed to
    the stream, and the indices delivered or stored afterwards are exactly
    those stored before and those of the substring inside the window. *)
Record insert_spec (fi : Z) (data : bytes) (last : bool) r k r' (new : bytes) k' : Prop := {
  ins_ok : reasm_ok r' k';
  ins_end : end_index_ r' = if last then u64 (fi + zlen data) else end_index_ r;
  ins_eof : eof_seen_ r' = last || eof_seen_ r;
  ins_sink : k' = sink_advance new
    (sink_closed k || eof_seen_ r' && bool_decide (next_index k + zlen new = end_index_ r')) k;
  ins_cov i : next_index k ≤ i < next_index k + zlen new ∨ cov (pending_ r') i ↔
    cov (pending_ r) i ∨ fi ≤ i < fi + zlen data ∧ next_index k ≤ i < window_end k;
  ins_consistent st : data = slice st fi (zlen data) → consistent st (pending_ r) →
    new = slice st (next_index k) (zlen new) ∧ consistent st (pending_ r');
}.

#[local] Arguments ins_ok {_ _ _ _ _ _ _ _} _.
#[local] Arguments ins_sink {_ _ _ _ _ _ _ _} _.
#[local] Arguments ins_end {_ _ _ _ _ _ _ _} _.
#[local] Arguments ins_eof {_ _ _ _ _ _ _ _} _.
#[local] Arguments ins_cov {_ _ _ _ _ _ _ _} _ _.
#[local] Arguments ins_consistent {_ _ _ _ _ _ _ _} _ _ _ _.

Definition insertable (fi : Z) (data : bytes) (k : sink) : Prop :=
  is_u64 fi ∧ (fi < window_end k → fi + zlen data < 2 ^ 64).

Lemma window_end_advance new c k : window_end (sink_advance new c k) = window_end k.
Proof. unfold window_end. simpl. rewrite zlen_app. lia. Qed.
Lemma next_index_advance new c k :
  next_index (sink_advance new c k) = next_index k + zlen new.
Proof. unfold next_index. simpl. by rewrite zlen_app. Qed.

Lemma close_advance b new w k :
  sw_models w (sink_advance new (sink_closed k) k) →
  sw_models (if b : bool then sw_close w else w) (sink_advance new (sink_closed k || b) k).
Proof.
  destruct b; [|by rewrite orb_false_r]. intros Hw%sw_close_law. by rewrite orb_true_r.
Qed.

Lemma insert_ok fi data last r k :
  reasm_ok r k → insertable fi data k →
  ∃ r' new k', insert fi data last r = Ok r' ∧ insert_spec fi data last r k r' new k'.
Proof.
  intros (Hw&Hm&Hb) [Hfi Hsum]. pose proof (sw_room_range _ _ Hw) as Hroom.
  assert (0 ≤ next_index k ≤ window_end k) as Hne by (unfold window_end, next_index; zlen).
  unfold insert. rewrite (sw_bytes_pushed_law _ _ Hw), (sw_available_law _ _ Hw).
  rewrite (u64_small (zlen (sink_written k))), (u64_small (zlen (sink_written k) + _))
    by (unfold is_u64, next_index, window_end in *; lia).
  change (zlen (sink_written k)) with (next_index k).
  change (next_index k + sink_room k) with (window_end k).
  set (eo := if last then _ else _). set (stp := clip _ _ _ _).
  destruct (clip_ok (next_index k) (window_end k) fi data) as (fi1&d1&Hc&Hcr&Hcc&Hcs);
    [done..|]. subst stp. rewrite Hc.
  destruct (merge_store_ok (next_index k - 1) (window_end k) fi1 d1 (pending_ r))
    as (fi2&d2&m2&Hmp&m3&Hst&Hm3&Hcov3&Hcons3); [|lia|done| |].
  { eapply pend_ok_weaken; [|done]. lia. }
  { intros Hd1. destruct (Hcr Hd1). lia. }
  destruct (flush_ok k (output_ r) m3 Hw Hb Hm3) as (m4&w4&new&Hfl&Hw4&Hm4&Hn4&Hcov4&Hcons4).
  rewrite Hmp. simpl. rewrite Hst. simpl. rewrite Hfl.
  rewrite (sw_bytes_pushed_law _ _ Hw4).
  change (zlen (sink_written (sink_advance ?n ?c k)))
    with (next_index (sink_advance n c k)).
  rewrite next_index_advance, (u64_small (_ + _)) by (unfold is_u64; zlen).
  destruct eo as [ei es] eqn:Heo.
  set (c' := sink_closed k || es && bool_decide (next_index k + zlen new = ei)).
  eexists _, new, (sink_advance new c' k). split; [done|].
  assert (∀ i, next_index k ≤ i < next_index k + zlen new ∨ cov m4 i ↔
    cov (pending_ r) i ∨ fi ≤ i < fi + zlen data ∧ next_index k ≤ i < window_end k).
  { intros i. rewrite <- Hcov4, Hcov3, Hcc. tauto. }
  assert (∀ st, data = slice st fi (zlen data) → consistent st (pending_ r) →
    new = slice st (next_index k) (zlen new) ∧ consistent st m4) by eauto.
  assert (reasm_ok (mkReassembler (if es && bool_decide (next_index k + zlen new = ei)
    then sw_close w4 else w4) m4 ei es) (sink_advance new c' k)).
  { split_and!; [by apply close_advance| |by rewrite window_end_advance].
    by rewrite next_index_advance, window_end_advance. }
  subst eo. destruct last; simplify_eq; by split.
Qed.

(** Reading from the stream moves the window, never a pending substring. *)
Lemma reasm_ok_output r k s' k' :
  reasm_ok r k → sw_models s' k' → sink_written k' = sink_written k →
  sink_room k ≤ sink_room k' → window_end k' < 2 ^ 64 →
  reasm_ok (mkReassembler s' (pending_ r) (end_index_ r) (eof_seen_ r)) k'.
Proof.
  intros (_&Hm&_) Hs' Hw Hr Hb. split_and!; [done| |done]. simpl.
  unfold next_index, window_end in *. rewrite Hw in *.
  eapply pend_ok_mono_hi; [|done]. lia.
Qed.

Lemma set_error_ok r k : reasm_ok r k → reasm_ok (set_error r) (sink_set_error k).
Proof. intros (?&?&?). split_and!; [by apply sw_set_error_law|done..]. Qed.
Lemma close_ok r k : reasm_ok r k → reasm_ok (close r) (sink_close k).
Proof. intros (?&?&?). split_and!; [by apply sw_close_law|done..]. Qed.
Lemma has_error_ok r k : reasm_ok r k → has_error r = sink_error k.
Proof. intros (?&?&?). by apply sw_has_error_law. Qed.

Lemma count_bytes_pending_ok r k :
  reasm_ok r k → count_bytes_pending r = pend_size (pending_ r) ∧
    0 ≤ pend_size (pending_ r) ≤ sink_room k.
Proof.
  intros (Hw&Hm&Hb). pose proof (sw_room_range _ _ Hw) as Hr.
  pose proof (pend_size_bound _ _ _ Hm) as Hs. unfold next_index, window_end in *.
  assert (0 ≤ pend_size (pending_ r) ≤ sink_room k) as Hp.
  { destruct (decide (pending_ r = [])) as [Hz|]; [rewrite Hz; simpl; lia|].
    pose proof (zlen_nonneg (sink_written k)). specialize (Hs n). lia. }
  split; [|done]. unfold count_bytes_pending.
  rewrite fold_pend_size by (try lia; word). by rewrite u64_small by word.
Qed.

(** * Substrings of one stream *)

(** A substring as [insert] receives it. *)
Definition substring : Type := Z * bytes * bool.

Fixpoint inserts (segs : list substring) (r : Reassembler S) : result (Reassembler S) :=
  match segs with
  | [] => Ok r
  | (fi, data, last) :: segs => r ← insert fi data last r; inserts segs r
  end.

(** A piece of the stream [st] of [n] bytes, marked last if it ends there. *)
Definition piece_of (st : Z → byte) (n : Z) (x : substring) : Prop :=
  let '(fi, data, last) := x in
  0 ≤ fi ∧ fi + zlen data ≤ n ∧ data = slice st fi (zlen data) ∧
  (last = true → fi + zlen data = n).

(** The index [i] is the index of a byte of [x]. *)
Definition covers (x : substring) (i : Z) : Prop := x.1.1 ≤ i < x.1.1 + zlen x.1.2.

Definition is_last (x : substring) : bool := x.2.

(** The state after the substrings [segs] of the stream [st]: a function of
    the set of indices they cover. *)
Record assembled (st : Z → byte) (n : Z) (segs : list substring) r k : Prop := {
  asm_ok : reasm_ok r k;
  asm_written : sink_written k = slice st 0 (next_index k);
  asm_consistent : consistent st (pending_ r);
  asm_cov i : 0 ≤ i < next_index k ∨ cov (pending_ r) i ↔
    0 ≤ i < window_end k ∧ Exists (λ x, covers x i) segs;
  asm_eof : eof_seen_ r = existsb is_last segs;
  asm_end : end_index_ r = if existsb is_last segs then n else 0;
  asm_next : next_index k ≤ n;
  asm_closed : sink_closed k = existsb is_last segs && bool_decide (next_index k = n);
}.

#[local] Arguments asm_ok {_ _ _ _ _} _.
#[local] Arguments asm_written {_ _ _ _ _} _.
#[local] Arguments asm_consistent {_ _ _ _ _} _.
#[local] Arguments asm_cov {_ _ _ _ _} _ _.
#[local] Arguments asm_eof {_ _ _ _ _} _.
#[local] Arguments asm_end {_ _ _ _ _} _.
#[local] Arguments asm_next {_ _ _ _ _} _.
#[local] Arguments asm_closed {_ _ _ _ _} _.

Lemma assembled_new st n s room :
  sw_models s (mkSink [] room false false) → 0 ≤ n →
  assembled st n [] (new_reassembler s) (mkSink [] room false false).
Proof.
  intros Hs Hn. pose proof (sw_room_range _ _ Hs). simpl in *. split; simpl; try done.
  - split_and!; [done..|]. unfold window_end. simpl. zlen.
  - by constructor.
  - intros i. rewrite Exists_nil. unfold next_index. simpl. pose proof (cov_nil i).
    zlen_saturate. intuition lia.
Qed.

Lemma assembled_next_le st n segs i :
  Forall (piece_of st n) segs → Exists (λ x, covers x i) segs → i < n.
Proof.
  intros Hs (([f d] & l) & Hin & Hx)%Exists_exists. unfold covers in Hx. simpl in Hx.
  apply (proj1 (Forall_forall _ _) Hs) in Hin as (?&?&_). lia.
Qed.

Lemma assembled_cov st n segs r k x r' new k' :
  assembled st n segs r k → insert_spec x.1.1 x.1.2 x.2 r k r' new k' →
  ∀ i, 0 ≤ i < next_index k + zlen new ∨ cov (pending_ r') i ↔
    0 ≤ i < window_end k ∧ Exists (λ x, covers x i) (segs ++ [x]).
Proof.
  intros A I i. pose proof (ins_cov I i) as H1. pose proof (asm_cov A i) as H2.
  pose proof (asm_ok A) as (Hw&Hp&_). pose proof (sw_room_range _ _ Hw) as Hr.
  pose proof (pend_ok_cov _ _ _ i Hp) as H3. rewrite Exists_app, Exists_cons, Exists_nil.
  unfold covers at 2. unfold next_index, window_end in *. zlen_saturate.
  set (E := Exists _ segs) in *. clearbody E. clear - H1 H2 H3 H4 Hr H5.
  destruct (Z.lt_ge_cases i (zlen (sink_written k))), (Z.lt_ge_cases i 0); intuition lia.
Qed.

Lemma assembled_insert st n segs r k x :
  assembled st n segs r k → Forall (piece_of st n) (segs ++ [x]) → n < 2 ^ 64 →
  ∃ r' k', insert x.1.1 x.1.2 x.2 r = Ok r' ∧ assembled st n (segs ++ [x]) r' k' ∧
    window_end k' = window_end k ∧ sink_error k' = sink_error k.
Proof.
  intros A Hsegs Hn. pose proof Hsegs as [_ [Hx _]%Forall_cons]%Forall_app.
  destruct x as [[fi data] last]. destruct Hx as (Hfi&Hfn&Hd&Hl).
  assert (insertable fi data k) as Hins by (split; [unfold is_u64; zlen|lia]).
  destruct (insert_ok fi data last r k (asm_ok A) Hins) as (r'&new&k'&He&I).
  pose proof (assembled_cov _ _ _ _ _ (fi, data, last) _ _ _ A I) as Hcov.
  pose proof (ins_consistent I st Hd (asm_consistent A)) as [Hnew Hc].
  pose proof (ins_sink I) as Hk'. pose proof (ins_ok I) as Hok. revert Hok.
  rewrite Hk'. set (c' := sink_closed k || _). intros Hok. exists r', (sink_advance new c' k).
  rewrite window_end_advance. split_and!; [done| |done..].
  assert (next_index k + zlen new ≤ n) as Hle.
  { pose proof (asm_next A). destruct (decide (zlen new = 0)); [lia|].
    destruct (proj1 (Hcov (next_index k + zlen new - 1))) as [_ Hx].
    { left. unfold next_index. zlen. }
    apply (assembled_next_le st n) in Hx; [lia|done]. }
  assert (eof_seen_ r' = existsb is_last (segs ++ [(fi, data, last)])) as Heof.
  { rewrite (ins_eof I), (asm_eof A), existsb_app. simpl. by rewrite orb_false_r, orb_comm. }
  assert (end_index_ r' = if existsb is_last (segs ++ [(fi, data, last)]) then n else 0) as Hend.
  { rewrite (ins_end I), (asm_end A), existsb_app. simpl. rewrite orb_false_r.
    destruct last; [|by rewrite orb_false_r].
    rewrite orb_true_r, Hl by done. apply u64_small. unfold is_u64. zlen. }
  split; rewrite ?next_index_advance, ?window_end_advance; try done; simpl.
  - rewrite (asm_written A), Hnew at 1. apply slice_app'; unfold next_index; zlen.
  - subst c'. rewrite Heof, Hend, (asm_closed A), !existsb_app. simpl. rewrite !orb_false_r.
    assert (0 ≤ zlen new) by zlen. destruct (existsb is_last segs); simpl; [|by destruct last].
    destruct (decide (next_index k = n)); [|by rewrite (bool_decide_false (next_index k = n))].
    by rewrite !bool_decide_true by lia.
Qed.

Lemma assembled_inserts st n pre segs r k :
  assembled st n pre r k → Forall (piece_of st n) (pre ++ segs) → n < 2 ^ 64 →
  ∃ r' k', inserts segs r = Ok r' ∧ assembled st n (pre ++ segs) r' k' ∧
    window_end k' = window_end k ∧ sink_error k' = sink_error k.
Proof.
  revert pre r k. induction segs as [|[[fi data] last] segs IH]; intros pre r k A Hf Hn.
  { exists r, k. by rewrite app_nil_r. }
  rewrite (assoc _ pre [_] segs : pre ++ _ :: segs = _) in Hf |- *.
  destruct (assembled_insert st n pre r k (fi, data, last) A) as (r1&k1&He&A1&Hw&Hr);
    [by apply Forall_app in Hf as [? _]|done|].
  destruct (IH _ r1 k1 A1 Hf Hn) as (r2&k2&He2&A2&Hw2&Hr2). simpl in *.
  exists r2, k2. rewrite He. simpl. split_and!; [done..|congruence|congruence].
Qed.

(** What is delivered is covered, and the next byte is not unless the window
    ends there. *)
Lemma assembled_prefix st n segs r k :
  assembled st n segs r k →
  (∀ i, 0 ≤ i < next_index k → Exists (λ x, covers x i) segs) ∧
  (next_index k < window_end k → ¬ Exists (λ x, covers x (next_index k)) segs).
Proof.
  intros A. pose proof (asm_ok A) as (Hm&Hp&_). split.
  - intros i Hi. destruct (proj1 (asm_cov A i)); [by left|done].
  - intros Hlt Hx. destruct (proj2 (asm_cov A (next_index k))) as [?|?%(pend_ok_cov _ _ _ _ Hp)];
      [|lia|lia]. unfold next_index, window_end in *. split; [zlen|done].
Qed.

(** The part of [assembled] that does not depend on which pieces arrived: the
    state holds bytes of the first [lim] of the [n] bytes of [st]. *)
Record holding (st : Z → byte) (n lim : Z) r k : Prop := mkHolding {
  hold_ok : reasm_ok r k;
  hold_written : sink_written k = slice st 0 (next_index k);
  hold_consistent : consistent st (pending_ r);
  hold_next : next_index k ≤ lim;
  hold_lim : lim ≤ n < 2 ^ 64;
  hold_cov i : cov (pending_ r) i → i < lim;
  hold_end : eof_seen_ r = true → end_index_ r = n;
  hold_closed : sink_closed k = eof_seen_ r && bool_decide (next_index k = n);
}.
#[global] Arguments hold_ok {_ _ _ _ _} _.
#[global] Arguments hold_written {_ _ _ _ _} _.
#[global] Arguments hold_consistent {_ _ _ _ _} _.
#[global] Arguments hold_next {_ _ _ _ _} _.
#[global] Arguments hold_lim {_ _ _ _ _} _.
#[global] Arguments hold_cov {_ _ _ _ _} _ _ _.
#[global] Arguments hold_end {_ _ _ _ _} _ _.
#[global] Arguments hold_closed {_ _ _ _ _} _.

Lemma holding_new st n s room :
  sw_models s (mkSink [] room false false) → 0 ≤ n < 2 ^ 64 →
  holding st n 0 (new_reassembler s) (mkSink [] room false false).
Proof.
  intros Hs Hn. pose proof (sw_room_range _ _ Hs). simpl in *. split; simpl; try done.
  - split_and!; [done..|]. unfold window_end. simpl. zlen.
  - by constructor.
  - intros i. by intros ?%cov_nil.
Qed.

Lemma holding_weaken st n lim lim' r k :
  holding st n lim r k → lim ≤ lim' ≤ n → holding st n lim' r k.
Proof. intros [] ?. split; try done; [lia..|]. intros i Hi. specialize (hold_cov0 i Hi). lia. Qed.

Lemma holding_output st n lim r k s' k' :
  holding st n lim r k → sw_models s' k' → sink_written k' = sink_written k →
  sink_closed k' = sink_closed k → sink_room k ≤ sink_room k' → window_end k' < 2 ^ 64 →
  holding st n lim (mkReassembler s' (pending_ r) (end_index_ r) (eof_seen_ r)) k'.
Proof.
  intros A Hs Hw Hc Hr Hb.
  assert (next_index k' = next_index k) as Hn by (unfold next_index; by rewrite Hw).
  pose proof (reasm_ok_output _ _ _ _ (hold_ok A) Hs Hw Hr Hb).
  destruct A. split; rewrite ?Hn, ?Hw, ?Hc; done.
Qed.

Lemma holding_insert st n lim r k x :
  holding st n lim r k → piece_of st n x → x.1.1 + zlen x.1.2 ≤ lim →
  ∃ r' new k', insert x.1.1 x.1.2 x.2 r = Ok r' ∧ insert_spec x.1.1 x.1.2 x.2 r k r' new k' ∧
    holding st n lim r' k' ∧ next_index k' = next_index k + zlen new.
Proof.
  intros A Hx Hlim. destruct x as [[fi data] last]. destruct Hx as (Hfi&Hfn&Hd&Hl). simpl in *.
  pose proof (hold_lim A) as Hn. pose proof (hold_next A) as Hnx. pose proof (hold_ok A) as Hok.
  assert (insertable fi data k) as Hins by (split; [unfold is_u64; zlen|lia]).
  destruct (insert_ok fi data last r k Hok Hins) as (r'&new&k'&He&I).
  pose proof (ins_consistent I st Hd (hold_consistent A)) as [Hnew Hc].
  pose proof (ins_ok I) as Hok'. pose proof (ins_sink I) as Hk'.
  exists r', new, k'. split; [done|]. split; [done|]. rewrite Hk' in Hok' |- *.
  rewrite next_index_advance. split; [|done].
  assert (∀ i, next_index k ≤ i < next_index k + zlen new ∨ cov (pending_ r') i → i < lim) as Hcov.
  { intros i [Hi|Hi]%(ins_cov I); [by apply (hold_cov A)|lia]. }
  assert (next_index k + zlen new ≤ lim) as Hle.
  { destruct (decide (zlen new = 0)); [lia|].
    specialize (Hcov (next_index k + zlen new - 1)). zlen. }
  split; rewrite ?next_index_advance; try done; simpl.
  - rewrite (hold_written A), Hnew at 1. apply slice_app'; unfold next_index; zlen.
  - auto.
  - rewrite (ins_eof I), (ins_end I). destruct last; simpl; [|apply A].
    rewrite Hl by done. intros _. apply u64_small. unfold is_u64, next_index in *. zlen.
  - rewrite (hold_closed A), (ins_eof I), (ins_end I). assert (0 ≤ zlen new) by zlen.
    assert (eof_seen_ r = true → (if last then u64 (fi + zlen data) else end_index_ r) = n ) as Hend.
    { intros He'. destruct last; [|by apply A]. rewrite Hl by done. apply u64_small. unfold is_u64, next_index in *. zlen. }
    destruct last; simpl in *.
    + rewrite Hl, (u64_small n) by (done || unfold is_u64, next_index in *; zlen).
      destruct (eof_seen_ r); simpl; [|done]. repeat case_bool_decide; simpl; done || lia.
    + destruct (eof_seen_ r); simpl; [|done]. rewrite Hend by done.
      repeat case_bool_decide; simpl; done || lia.
Qed.

(** Two states that know the same bytes of the same stream are the same. *)
Lemma assembled_unique st n segs1 segs2 r1 r2 k1 k2 :
  assembled st n segs1 r1 k1 → assembled st n segs2 r2 k2 → Permutation segs1 segs2 →
  window_end k1 = window_end k2 → sink_error k1 = sink_error k2 →
  k1 = k2 ∧ pending_ r1 = pending_ r2 ∧ end_index_ r1 = end_index_ r2 ∧
  eof_seen_ r1 = eof_seen_ r2.
Proof.
  intros A1 A2 Hp Hw He.
  assert (existsb is_last segs1 = existsb is_last segs2) as Hex by (by apply existsb_perm).
  assert (∀ i, Exists (λ x, covers x i) segs1 ↔ Exists (λ x, covers x i) segs2) as Hcov
    by (intros i; by rewrite Hp).
  assert (∀ i, 0 ≤ i < next_index k1 ∨ cov (pending_ r1) i ↔
               0 ≤ i < next_index k2 ∨ cov (pending_ r2) i) as Hc.
  { intros i. by rewrite (asm_cov A1), (asm_cov A2), Hcov, Hw. }
  pose proof (asm_ok A1) as (_&P1&_). pose proof (asm_ok A2) as (_&P2&_).
  assert (next_index k1 = next_index k2) as Hn.
  { pose proof (pend_ok_cov _ _ _ (next_index k1) P1). pose proof (pend_ok_cov _ _ _ (next_index k2) P2).
    pose proof (Hc (next_index k1)). pose proof (Hc (next_index k2)).
    unfold next_index in *. zlen_saturate.
    destruct (Z.lt_trichotomy (zlen (sink_written k1)) (zlen (sink_written k2))) as [?|[?|?]];
      intuition lia. }
  assert (pending_ r1 = pending_ r2) as Hpend.
  { rewrite <- Hn, <- Hw in P2.
    apply (pend_canonical st (window_end k1) (next_index k1)); try done; [apply A1|apply A2|].
    intros i. pose proof (pend_ok_cov _ _ _ i P1). pose proof (pend_ok_cov _ _ _ i P2).
    specialize (Hc i). rewrite Hn in *. intuition lia. }
  split_and!; [|done|by rewrite (asm_end A1), (asm_end A2), Hex|by rewrite (asm_eof A1), (asm_eof A2)].
  assert (sink_written k1 = sink_written k2) as Hwr
    by (by rewrite (asm_written A1), (asm_written A2), Hn).
  assert (sink_closed k1 = sink_closed k2) as Hcl
    by (by rewrite (asm_closed A1), (asm_closed A2), Hex, Hn).
  unfold window_end in Hw. destruct k1, k2. simpl in *. subst. f_equal. lia.
Qed.

Lemma pieces_perm st n segs1 segs2 :
  Permutation segs1 segs2 → Forall (piece_of st n) segs1 → Forall (piece_of st n) segs2.
Proof. by intros ->. Qed.

(** * Properties *)

(** C11: [insert] never throws, reads out of bounds or runs on: on any
    substring whose end is addressable it returns a state with the map
    invariant (sorted, disjoint, never touching, inside the window, ahead of
    the next byte), hands exactly one contiguous run to the stream, afterwards
    holds exactly the bytes it held plus those of the substring inside the
    window, keeps every stored byte at the index it arrived with, and closes
    the stream exactly when the last byte has been handed over. *)
Theorem reassembler_insert (fi : Z) (data : bytes) (last : bool) r k :
  reasm_ok r k → insertable fi data k →
  ∃ r' new k', insert fi data last r = Ok r' ∧ insert_spec fi data last r k r' new k'.
Proof. apply insert_ok. Qed.

(** C12: the bytes handed to the stream are the longest prefix that the
    substrings seen so far contain: however the pieces of a stream are cut,
    ordered, repeated or overlapped, the stream holds the prefix of the
    original up to the first index inside the window that no piece covers,
    and it is closed exactly when a last piece was seen and all [n] bytes
    have been delivered. *)
Theorem reassembler_longest_prefix st n s room segs :
  sw_models s (mkSink [] room false false) → 0 ≤ n < 2 ^ 64 → Forall (piece_of st n) segs →
  ∃ r k, inserts segs (new_reassembler s) = Ok r ∧ sw_models (output_ r) k ∧
    sink_written k = slice st 0 (next_index k) ∧
    (∀ i, 0 ≤ i < next_index k → Exists (λ x, covers x i) segs) ∧
    (next_index k < room → ¬ Exists (λ x, covers x (next_index k)) segs) ∧
    next_index k + sink_room k = room ∧
    sink_closed k = existsb is_last segs && bool_decide (next_index k = n).
Proof.
  intros Hs Hn Hf.
  destruct (assembled_inserts st n [] segs _ _ (assembled_new st n s room Hs (proj1 Hn)))
    as (r&k&He&A&Hw&_); [done|lia|]. exists r, k. pose proof (asm_ok A) as (Hm&_).
  destruct (assembled_prefix _ _ _ _ _ A) as [Hpre Hmax].
  unfold window_end in Hw, Hmax. simpl in Hw. rewrite Hw in Hmax.
  split_and!; [done|done|apply A|done|done|done|apply A].
Qed.

(** C13: the order in which the pieces of a stream arrive does not matter: any
    permutation leaves the same pending map, end index and flags and hands the
    same bytes to the stream. *)
Theorem reassembler_order_independent st n s room segs1 segs2 :
  sw_models s (mkSink [] room false false) → 0 ≤ n < 2 ^ 64 → Forall (piece_of st n) segs1 →
  Permutation segs1 segs2 →
  ∃ r1 r2 k, inserts segs1 (new_reassembler s) = Ok r1 ∧
    inserts segs2 (new_reassembler s) = Ok r2 ∧
    pending_ r1 = pending_ r2 ∧ end_index_ r1 = end_index_ r2 ∧ eof_seen_ r1 = eof_seen_ r2 ∧
    sw_models (output_ r1) k ∧ sw_models (output_ r2) k.
Proof.
  intros Hs Hn Hf Hp. pose proof (assembled_new st n s room Hs (proj1 Hn)) as A0.
  destruct (assembled_inserts st n [] segs1 _ _ A0) as (r1&k1&E1&A1&W1&R1); [done|lia|].
  destruct (assembled_inserts st n [] segs2 _ _ A0) as (r2&k2&E2&A2&W2&R2);
    [by apply (pieces_perm st n segs1)|lia|].
  destruct (assembled_unique _ _ _ _ _ _ _ _ A1 A2 Hp) as (<-&?&?&?); [congruence..|].
  exists r1, r2, k1. split_and!; try done; [apply A1|apply A2].
Qed.

(** Memory is bounded: [count_bytes_pending] is the number of bytes
    stored, without wrap-around, and it never exceeds the room left in the
    stream, so pending and buffered bytes together stay within the capacity. *)
Theorem reassembler_bounded r k :
  reasm_ok r k → count_bytes_pending r = pend_size (pending_ r) ∧
    0 ≤ count_bytes_pending r ≤ sink_room k.
Proof. intros Hr. destruct (count_bytes_pending_ok r k Hr) as [-> ?]. done. Qed.
End insert.

(** * At the byte stream *)

#[local] Existing Instance ByteStream.ByteStream_writer.
#[local] Existing Instance ByteStream.ByteStream_writer_spec.

Lemma new_models (c : Z) : is_u64 c → sw_models (ByteStream.new c) (mkSink [] c false false).
Proof.
  intros Hc. exists (ByteStream.spec_new c). split; [by apply ByteStream.new_refines|].
  unfold ByteStream.room. simpl. f_equal. zlen.
Qed.

Lemma new_reasm_ok (c : Z) :
  is_u64 c → reasm_ok (new_reassembler (ByteStream.new c)) (mkSink [] c false false).
Proof.
  intros Hc. split_and!; [by apply new_models|done|]. unfold window_end, is_u64 in *. simpl. zlen.
Qed.

Lemma flush_capacity m (w : ByteStream.ByteStream) :
  ByteStream.capacity_ (flush m w).2 = ByteStream.capacity_ w.
Proof.
  revert w. induction m as [|[k d] m IH]; intros w; [done|]. simpl.
  case_bool_decide; [|done]. rewrite IH. simpl. unfold ByteStream.Writer.push.
  by destruct (_ || _).
Qed.

(** The reassembler never changes the capacity of its stream. *)
Lemma insert_capacity fi data last (r r' : Reassembler ByteStream.ByteStream) :
  insert fi data last r = Ok r' →
  ByteStream.capacity_ (output_ r') = ByteStream.capacity_ (output_ r).
Proof.
  unfold insert. destruct (if last then _ else _) as [ei es]. destruct (clip _ _ _ _) as [f1 d1].
  intros ([[f2 d2] m2]&_&(m3&_&He)%bind_Ok)%bind_Ok.
  pose proof (flush_capacity m3 (output_ r)) as Hf.
  destruct (flush m3 (output_ r)) as [m4 w4]. injection He as <-. simpl in *.
  by destruct (_ && _).
Qed.

(** The first six bytes of [demo_stream], in pieces. *)
Definition demo_piece (fi n : Z) (last : bool) : substring := (fi, slice demo_stream fi n, last).
Definition demo_pieces : list substring :=
  [demo_piece 4 2 true; demo_piece 1 1 false; demo_piece 0 3 false; demo_piece 2 2 false].

Lemma demo_pieces_ok : Forall (piece_of demo_stream 6) demo_pieces.
Proof. repeat constructor; vm_compute; done. Qed.

Lemma reassembler_insert_witness :
  ∃ r' new k', insert 2 (slice demo_stream 2 3) false (new_reassembler (ByteStream.new 4)) = Ok r' ∧
    insert_spec 2 (slice demo_stream 2 3) false (new_reassembler (ByteStream.new 4))
      (mkSink [] 4 false false) r' new k'.
Proof.
  apply reassembler_insert; [by apply new_reasm_ok|]. split; [done|]. intros _. by vm_compute.
Defined.

Lemma reassembler_longest_prefix_witness :
  ∃ r k, inserts demo_pieces (new_reassembler (ByteStream.new 8)) = Ok r ∧
    sw_models (output_ r) k ∧
    sink_written k = slice demo_stream 0 (next_index k) ∧
    (∀ i, 0 ≤ i < next_index k → Exists (λ x, covers x i) demo_pieces) ∧
    (next_index k < 8 → ¬ Exists (λ x, covers x (next_index k)) demo_pieces) ∧
    next_index k + sink_room k = 8 ∧
    sink_closed k = existsb is_last demo_pieces && bool_decide (next_index k = 6).
Proof.
  apply (reassembler_longest_prefix demo_stream 6 _ 8);
    [by apply new_models|done|apply demo_pieces_ok].
Defined.

Lemma reassembler_order_independent_witness :
  ∃ r1 r2 k, inserts demo_pieces (new_reassembler (ByteStream.new 5)) = Ok r1 ∧
    inserts (rev demo_pieces) (new_reassembler (ByteStream.new 5)) = Ok r2 ∧
    pending_ r1 = pending_ r2 ∧ end_index_ r1 = end_index_ r2 ∧ eof_seen_ r1 = eof_seen_ r2 ∧
    sw_models (output_ r1) k ∧ sw_models (output_ r2) k.
Proof.
  apply (reassembler_order_independent demo_stream 6 _ 5);
    [by apply new_models|done|apply demo_pieces_ok|apply Permutation_rev].
Defined.

Lemma reassembler_bounded_witness :
  count_bytes_pending (new_reassembler (ByteStream.new 8))
    = pend_size (pending_ (new_reassembler (ByteStream.new 8))) ∧
  0 ≤ count_bytes_pending (new_reassembler (ByteStream.new 8)) ≤ 8.
Proof. exact (reassembler_bounded _ _ (new_reasm_ok 8 ltac:(done))). Defined.

(** Six bytes in four overlapping pieces, last piece first. *)
Example demo_assembled :
  (r ← inserts demo_pieces (new_reassembler (ByteStream.new 8));
   Ok (ByteStream.content (output_ r), pending_ r, ByteStream.Writer.is_closed (output_ r)))
  = Ok (slice demo_stream 0 6, [], true).
Proof. vm_compute. reflexivity. Qed.
