(* ===== verification/Timer.v ===== *)
(** Millisecond timers (src/src/timer.hh): the plain countdown [Timer], the named
    constants of [NetworkTimer], and the retransmission timer with exponential
    backoff. *)

From S2P Require Import Prelude.

Record Timer : Type := mkTimer {
  timeout_ms_ : Z;
  elapsed_ms_ : Z;
  running_ : bool;
}.

Module Timer.

Definition new (timeout_ms : Z) : Timer := mkTimer timeout_ms 0 false.
Definition start (t : Timer) : Timer := mkTimer (timeout_ms_ t) 0 true.
Definition stop (t : Timer) : Timer := mkTimer (timeout_ms_ t) 0 false.
Definition tick (ms_since_last_tick : Z) (t : Timer) : Timer :=
  if running_ t
  then mkTimer (timeout_ms_ t) (u64 (elapsed_ms_ t + ms_since_last_tick)) (running_ t)
  else t.
Definition is_running (t : Timer) : bool := running_ t.
Definition is_expired (t : Timer) : bool :=
  running_ t && bool_decide (elapsed_ms_ t >= timeout_ms_ t).
Definition timeout_ms (t : Timer) : Z := timeout_ms_ t.
Definition set_timeout_ms (ms : Z) (t : Timer) : Timer := mkTimer ms (elapsed_ms_ t) (running_ t).

End Timer.

Module NetworkTimer.

Definition ARP_REQUEST_TIMEOUT : Z := 5000.
Definition ARP_ENTRY_TIMEOUT : Z := 30000.

End NetworkTimer.

Record RetransmissionTimer : Type := mkRetransmissionTimer {
  initial_RTO_ms_ : Z;
  timer_ : Timer;
  consecutive_retransmissions_ : Z;
}.

Module RetransmissionTimer.

Definition new (initial_RTO_ms : Z) : RetransmissionTimer :=
  mkRetransmissionTimer initial_RTO_ms (Timer.new initial_RTO_ms) 0.

Definition with_timer (f : Timer → Timer) (t : RetransmissionTimer) : RetransmissionTimer :=
  mkRetransmissionTimer (initial_RTO_ms_ t) (f (timer_ t)) (consecutive_retransmissions_ t).

Definition start : RetransmissionTimer → RetransmissionTimer := with_timer Timer.start.
Definition stop : RetransmissionTimer → RetransmissionTimer := with_timer Timer.stop.
Definition tick (ms : Z) : RetransmissionTimer → RetransmissionTimer := with_timer (Timer.tick ms).
Definition is_running (t : RetransmissionTimer) : bool := Timer.is_running (timer_ t).
Definition is_expired (t : RetransmissionTimer) : bool := Timer.is_expired (timer_ t).

Definition reset_backoff (t : RetransmissionTimer) : RetransmissionTimer :=
  mkRetransmissionTimer (initial_RTO_ms_ t)
    (Timer.set_timeout_ms (initial_RTO_ms_ t) (timer_ t)) 0.

Definition record_retransmission (t : RetransmissionTimer) : RetransmissionTimer :=
  mkRetransmissionTimer (initial_RTO_ms_ t)
    (Timer.set_timeout_ms (u64 (Timer.timeout_ms (timer_ t) * 2)) (timer_ t))
    (u64 (consecutive_retransmissions_ t + 1)).

Definition consecutive_retransmissions (t : RetransmissionTimer) : Z :=
  consecutive_retransmissions_ t.

(** The current timeout. *)
Definition rto (t : RetransmissionTimer) : Z := timeout_ms_ (timer_ t).

End RetransmissionTimer.

(** * Elapsed time *)

(** Ticks add up until the timer is restarted; a stopped timer never expires. *)
Lemma tick_running t ms :
  running_ t = true → 0 ≤ elapsed_ms_ t → 0 ≤ ms → elapsed_ms_ t + ms < 2 ^ 64 →
  Timer.tick ms t = mkTimer (timeout_ms_ t) (elapsed_ms_ t + ms) true.
Proof. intros Hr ???. unfold Timer.tick. rewrite Hr, u64_small by word. done. Qed.

Lemma tick_stopped t ms : running_ t = false → Timer.tick ms t = t.
Proof. intros Hr. unfold Timer.tick. by rewrite Hr. Qed.

Lemma tick_timeout t ms : timeout_ms_ (Timer.tick ms t) = timeout_ms_ t.
Proof. unfold Timer.tick. by destruct (running_ t). Qed.

Lemma tick_is_running t ms : running_ (Timer.tick ms t) = running_ t.
Proof. unfold Timer.tick. by destruct (running_ t) eqn:?. Qed.

Lemma expired_running t : Timer.is_expired t = true → running_ t = true.
Proof. intros [? _]%andb_true_iff. done. Qed.

(** A started timer expires at the first tick that completes its timeout. *)
Lemma expires_after t ms :
  0 ≤ ms < 2 ^ 64 →
  Timer.is_expired (Timer.tick ms (Timer.start t)) = bool_decide (ms >= timeout_ms_ t).
Proof.
  intros. rewrite tick_running by (simpl; lia || done). unfold Timer.is_expired. done.
Qed.

(** * Backoff *)

(** The shape a retransmission timer keeps: after [n] recorded
    retransmissions the timeout is the initial one doubled [n] times. *)
Definition backoff_ok (t : RetransmissionTimer) : Prop :=
  0 ≤ consecutive_retransmissions_ t ∧
  RetransmissionTimer.rto t = u64 (initial_RTO_ms_ t * 2 ^ consecutive_retransmissions_ t).

Lemma backoff_new ms : is_u64 ms → backoff_ok (RetransmissionTimer.new ms).
Proof. intros. split; [done|]. unfold RetransmissionTimer.rto. simpl. by rewrite Z.mul_1_r, u64_small. Qed.

Lemma backoff_start t : backoff_ok t → backoff_ok (RetransmissionTimer.start t).
Proof. done. Qed.
Lemma backoff_stop t : backoff_ok t → backoff_ok (RetransmissionTimer.stop t).
Proof. done. Qed.
Lemma backoff_tick t ms : backoff_ok t → backoff_ok (RetransmissionTimer.tick ms t).
Proof. intros [? H]. split; [done|]. unfold RetransmissionTimer.rto in *. simpl. by rewrite tick_timeout. Qed.
Lemma backoff_reset t : is_u64 (initial_RTO_ms_ t) → backoff_ok (RetransmissionTimer.reset_backoff t).
Proof. intros. split; [done|]. unfold RetransmissionTimer.rto. simpl. by rewrite Z.mul_1_r, u64_small. Qed.

Lemma backoff_record t :
  backoff_ok t → consecutive_retransmissions_ t < 2 ^ 64 - 1 →
  backoff_ok (RetransmissionTimer.record_retransmission t).
Proof.
  intros [Hc H] Hb. unfold backoff_ok, RetransmissionTimer.rto in *. simpl.
  unfold Timer.timeout_ms. rewrite (u64_small (_ + 1)) by word. split; [lia|].
  rewrite H, Z.pow_add_r by lia. unfold u64. rewrite Zmult_mod_idemp_l. f_equal. lia.
Qed.

Create HintDb timer discriminated.
#[export] Hint Resolve backoff_new backoff_start backoff_stop backoff_tick backoff_reset
  backoff_record : timer.
