(* ===== verification/TCPMessages.v ===== *)
(** The messages exchanged between TCP peers (src/util/tcp_sender_message.hh,
    src/util/tcp_receiver_message.hh) and the constants of
    src/util/tcp_config.hh. *)

From S2P Require Import Prelude WrappingIntegers.

Record TCPSenderMessage : Type := mkTCPSenderMessage {
  seqno : Wrap32;
  SYN : bool;
  payload : bytes;
  FIN : bool;
  RST : bool;
}.

Record TCPReceiverMessage : Type := mkTCPReceiverMessage {
  ackno : option Wrap32;
  window_size : Z;
  rRST : bool;
}.

(** What travels (src/util/tcp_segment.hh): the sender's message with the
    receiver's reply. *)
Record TCPMessage : Type := mkTCPMessage {
  sender : TCPSenderMessage;
  receiver : TCPReceiverMessage;
}.

(** How many sequence numbers the segment uses. *)
Definition sequence_length (m : TCPSenderMessage) : Z :=
  u64 (Z.b2z (SYN m) + zlen (payload m) + Z.b2z (FIN m)).

Module TCPConfig.

Definition DEFAULT_CAPACITY : Z := 64000.
Definition MAX_PAYLOAD_SIZE : Z := 1000.
Definition TIMEOUT_DFLT : Z := 1000.
Definition MAX_RETX_ATTEMPTS : Z := 8.

End TCPConfig.

Record TCPConfig : Type := mkTCPConfig {
  rt_timeout : Z;
  recv_capacity : Z;
  send_capacity : Z;
  isn : Wrap32;
}.

Definition default_config : TCPConfig :=
  mkTCPConfig TCPConfig.TIMEOUT_DFLT TCPConfig.DEFAULT_CAPACITY TCPConfig.DEFAULT_CAPACITY
    (mkWrap32 137).

#[export] Instance TCPSenderMessage_eq_dec : EqDecision TCPSenderMessage.
Proof. solve_decision. Defined.
#[export] Instance TCPReceiverMessage_eq_dec : EqDecision TCPReceiverMessage.
Proof. solve_decision. Defined.
#[export] Instance TCPMessage_eq_dec : EqDecision TCPMessage.
Proof. solve_decision. Defined.

(** The length without the 64-bit conversion, which never matters for a
    payload that fits in memory. *)
Definition seg_len (m : TCPSenderMessage) : Z :=
  Z.b2z (SYN m) + zlen (payload m) + Z.b2z (FIN m).

Lemma seg_len_nonneg m : 0 ≤ seg_len m.
Proof. unfold seg_len. destruct (SYN m), (FIN m); simpl; zlen. Qed.

Lemma sequence_length_seg_len m : seg_len m < 2 ^ 64 → sequence_length m = seg_len m.
Proof. intros. apply u64_small. pose proof (seg_len_nonneg m). unfold seg_len in *. word. Qed.
