(* ===== verification/TCPReceiver.v ===== *)
(** The receiving half of a connection (src/src/tcp_receiver.hh,
    src/src/tcp_receiver.cc), over the [StreamWriter] interface of the stream that
    its Reassembler owns. *)

From S2P Require Import Prelude Interfaces WrappingIntegers TCPMessages Reassembler.
From S2P Require ByteStream.

(** * The class *)

Record TCPReceiver (S : Type) : Type := mkTCPReceiver {
  reassembler_ : Reassembler S;
  isn_ : option Wrap32;
}.
Arguments mkTCPReceiver {S} _ _.
Arguments reassembler_ {S} _.
Arguments isn_ {S} _.

Definition new_receiver {S} (reassembler : Reassembler S) : TCPReceiver S :=
  mkTCPReceiver reassembler None.

Section receiver.
Context {S : Type} `{StreamWriter S}.

(** [reassembler_.writer()]. *)
Definition writer (r : TCPReceiver S) : S := output_ (reassembler_ r).

(** [void receive( TCPSenderMessage message )]. *)
Definition receive (message : TCPSenderMessage) (r : TCPReceiver S) : result (TCPReceiver S) :=
  if RST message
  then Ok (mkTCPReceiver (Reassembler.close (Reassembler.set_error (reassembler_ r))) (isn_ r))
  else
    let isn :=
      match isn_ r with
      | Some isn => Some isn
      | None => if SYN message then Some (seqno message) else None
      end in
    match isn with
    | None => Ok r
    | Some isn =>
        let checkpoint := sw_bytes_pushed (writer r) in
        let abs_seqno := Wrap32.unwrap (seqno message) isn checkpoint in
        let stream_index := if SYN message then abs_seqno else u64 (abs_seqno - 1) in
        reassembler ← Reassembler.insert stream_index (payload message) (FIN message)
                        (reassembler_ r);
        Ok (mkTCPReceiver reassembler (Some isn))
    end.

(** [TCPReceiverMessage send() const]. *)
Definition send (r : TCPReceiver S) : TCPReceiverMessage :=
  let window_size := u16 (Z.min (sw_available_capacity (writer r)) UINT16_MAX) in
  if Reassembler.has_error (reassembler_ r) then mkTCPReceiverMessage None 0 true
  else
    match isn_ r with
    | None => mkTCPReceiverMessage None window_size false
    | Some isn =>
        let next_seqno :=
          u64 (1 + sw_bytes_pushed (writer r) + Z.b2z (sw_is_closed (writer r))) in
        mkTCPReceiverMessage (Some (Wrap32.wrap next_seqno isn)) window_size false
    end.

Fixpoint receives (ms : list TCPSenderMessage) (r : TCPReceiver S) : result (TCPReceiver S) :=
  match ms with
  | [] => Ok r
  | m :: ms => r ← receive m r; receives ms r
  end.

End receiver.

(** * Segments of a stream *)

(** The stream index of the first payload byte of a segment at absolute
    sequence number [a]: the SYN takes number 0. *)
Definition payload_index (a : Z) : Z := if bool_decide (a = 0) then 0 else a - 1.

(** The piece of the stream that a segment at [a] carries. *)
Definition piece (a : Z) (m : TCPSenderMessage) : substring :=
  (payload_index a, payload m, FIN m).

(** [m] is a segment of the stream [st] of [n] bytes sent from the initial
    sequence number [z], starting at absolute sequence number [a]. *)
Definition segment_of (z : Wrap32) (st : Z → byte) (n a : Z) (m : TCPSenderMessage) : Prop :=
  0 ≤ a ∧ seqno m = Wrap32.wrap a z ∧ SYN m = bool_decide (a = 0) ∧ RST m = false ∧
  piece_of st n (piece a m).

Section receiver_ok.
Context {S : Type} `{StreamWriterSpec S}.
Implicit Types (r : TCPReceiver S) (k : sink).

Definition receiver_ok r k : Prop :=
  reasm_ok (reassembler_ r) k ∧ match isn_ r with Some z => wf z | None => True end.

Lemma writer_models r k : receiver_ok r k → sw_models (writer r) k.
Proof. intros [(?&?&?) _]. done. Qed.

(** The reply in terms of the sink: RST on error, otherwise the cumulative
    acknowledgement and the window cut to 16 bits. *)
Lemma send_ok r k :
  receiver_ok r k →
  send r = if sink_error k then mkTCPReceiverMessage None 0 true
    else mkTCPReceiverMessage
      (z ← isn_ r; Some (Wrap32.wrap (1 + next_index k + Z.b2z (sink_closed k)) z))
      (Z.min (sink_room k) 65535) false.
Proof.
  intros Hr. pose proof (writer_models _ _ Hr) as Hw. destruct Hr as [Hr _].
  pose proof (sw_room_range _ _ Hw). unfold send.
  rewrite (has_error_ok _ _ Hr), (sw_available_law _ _ Hw), (sw_bytes_pushed_law _ _ Hw),
    (sw_is_closed_law _ _ Hw). unfold UINT16_MAX.
  rewrite u16_small by word. destruct (sink_error k); [done|].
  destruct (isn_ r) as [z|]; [|done]. simpl. rewrite <- (wrap_u64 (1 + _ + _)).
  do 3 f_equal. unfold next_index. word.
Qed.

(** Messages before the SYN are dropped, unless they reset the connection. *)
Lemma receive_before_syn r m :
  isn_ r = None → SYN m = false → RST m = false → receive m r = Ok r.
Proof. intros Hi Hs Hr. unfold receive. by rewrite Hr, Hi, Hs. Qed.

Lemma receives_before_syn r ms :
  isn_ r = None → Forall (λ m, SYN m = false ∧ RST m = false) ms → receives ms r = Ok r.
Proof.
  intros Hi Hms. induction Hms as [|m ms [Hs Hr] _ IH]; [done|].
  simpl. by rewrite receive_before_syn.
Qed.

Lemma receive_rst r k m :
  receiver_ok r k → RST m = true →
  ∃ r', receive m r = Ok r' ∧ receiver_ok r' (sink_close (sink_set_error k)) ∧ isn_ r' = isn_ r.
Proof.
  intros [Hr Hz] Hm. unfold receive. rewrite Hm. eexists. split; [done|]. split; [|done].
  split; [|done]. by apply close_ok, set_error_ok.
Qed.

(** A segment that does not reset: the payload goes to the Reassembler. *)
Lemma receive_segment r k m z :
  receiver_ok r k → RST m = false →
  (isn_ r = Some z ∨ isn_ r = None ∧ SYN m = true ∧ seqno m = z) → wf z → wf (seqno m) →
  window_end k + zlen (payload m) ≤ 2 ^ 64 →
  let abs_seqno := Wrap32.unwrap (seqno m) z (next_index k) in
  let fi := if SYN m then abs_seqno else u64 (abs_seqno - 1) in
  ∃ r' new k', receive m r = Ok r' ∧ isn_ r' = Some z ∧ receiver_ok r' k' ∧
    insert_spec fi (payload m) (FIN m) (reassembler_ r) k (reassembler_ r') new k'.
Proof.
  intros Hr Hrst Hz Hwz Hws Hb abs fi. pose proof (writer_models _ _ Hr) as Hw.
  destruct Hr as [Hr _]. pose proof Hr as (_&_&Hwb). pose proof (sw_room_range _ _ Hw).
  assert (is_u64 (next_index k)) as Hn by (unfold is_u64, next_index, window_end in *; zlen).
  assert (is_u64 abs) as Ha by (by apply unwrap_range).
  assert (insertable fi (payload m) k) as Hins.
  { split; [|lia]. subst fi. destruct (SYN m); [done|apply u64_range]. }
  destruct (insert_ok fi (payload m) (FIN m) _ k Hr Hins) as (r'&new&k'&He&I).
  exists (mkTCPReceiver r' (Some z)), new, k'. split; [|split_and!; [done| |done]].
  - unfold receive. rewrite Hrst, (sw_bytes_pushed_law _ _ Hw).
    change (zlen (sink_written k)) with (next_index k). rewrite (u64_small (next_index k)) by done.
    subst fi abs.
    destruct Hz as [->|(->&Hs&<-)]; [|rewrite Hs in He |- *]; cbv zeta; by rewrite He.
  - split; [by destruct I|done].
Qed.

Lemma receiver_total r k m :
  receiver_ok r k → wf (seqno m) → window_end k + zlen (payload m) ≤ 2 ^ 64 →
  ∃ r' k', receive m r = Ok r' ∧ receiver_ok r' k'.
Proof.
  intros Hr Hws Hb. destruct (RST m) eqn:Hrst.
  { destruct (receive_rst r k m Hr Hrst) as (r'&?&?&?). by eexists _, _. }
  destruct (isn_ r) as [z|] eqn:Hi; [|destruct (SYN m) eqn:Hs].
  - destruct (receive_segment r k m z) as (r'&_&k'&?&_&?&_); eauto.
    destruct Hr as [_ Hz]. by rewrite Hi in Hz.
  - destruct (receive_segment r k m (seqno m)) as (r'&_&k'&?&_&?&_); eauto 10.
  - exists r, k. by rewrite receive_before_syn.
Qed.

(** * Streams *)

(** The state after a SYN and the segments whose pieces are [segs]. *)
Definition received z st n segs r k : Prop :=
  isn_ r = Some z ∧ wf z ∧ assembled st n segs (reassembler_ r) k.

Lemma received_ok z st n segs r k : received z st n segs r k → receiver_ok r k.
Proof. intros (Hi&?&A). split; [by destruct A|]. by rewrite Hi. Qed.

(** A segment within 2^31 of the next byte goes to its place in the stream. *)
Lemma receive_at z st n r k a m :
  (isn_ r = Some z ∨ isn_ r = None ∧ SYN m = true ∧ seqno m = z) → wf z →
  reasm_ok (reassembler_ r) k → segment_of z st n a m → n < 2 ^ 63 →
  Z.abs (a - next_index k) < 2 ^ 31 →
  receive m r =
    (r' ← Reassembler.insert (payload_index a) (payload m) (FIN m) (reassembler_ r);
     Ok (mkTCPReceiver r' (Some z))).
Proof.
  intros Hi Hz (Hm&_&Hb) (Ha&Hs&Hsyn&Hrst&Hp) Hn Hd. pose proof Hp as (?&?&_).
  pose proof (sw_room_range _ _ Hm). unfold payload_index in *. simpl in *.
  assert (is_u64 (next_index k)) as Hn64 by (unfold is_u64, next_index, window_end in *; zlen).
  assert (is_u64 a) as Ha64 by (unfold is_u64 in *; case_bool_decide; zlen).
  unfold receive. rewrite Hrst.
  unfold writer. rewrite (sw_bytes_pushed_law _ _ Hm).
  change (zlen (sink_written k)) with (next_index k). rewrite (u64_small (next_index k)) by done.
  assert (Wrap32.unwrap (seqno m) z (next_index k) = a) as Hu by (rewrite Hs; by apply unwrap_wrap).
  assert ((if SYN m then a else u64 (a - 1)) = if bool_decide (a = 0) then 0 else a - 1) as Hidx.
  { rewrite Hsyn. case_bool_decide; [done|]. apply u64_small. unfold is_u64 in *. lia. }
  destruct Hi as [->|(->&Hs'&<-)]; cbv zeta; [by rewrite Hu, Hidx|].
  rewrite Hs' in Hidx |- *. rewrite Hu. by rewrite <- Hidx.
Qed.

Lemma receive_piece z st n segs r k a m :
  (isn_ r = Some z ∨ isn_ r = None ∧ SYN m = true ∧ seqno m = z) → wf z →
  assembled st n segs (reassembler_ r) k →
  segment_of z st n a m → Forall (piece_of st n) segs → n < 2 ^ 63 →
  Z.abs (a - next_index k) < 2 ^ 31 →
  ∃ r' k', receive m r = Ok r' ∧ received z st n (segs ++ [piece a m]) r' k' ∧
    window_end k' = window_end k ∧ sink_error k' = sink_error k.
Proof.
  intros Hi Hz A Hs Hf Hn Hd. pose proof Hs as (_&_&_&_&Hp).
  destruct (assembled_insert st n segs (reassembler_ r) k (piece a m) A)
    as (r'&k'&He&A'&Hw&Her); [|lia|].
  { apply Forall_app. split; [done|]. by apply Forall_singleton. }
  exists (mkTCPReceiver r' (Some z)), k'. split; [|done].
  rewrite (receive_at z st n r k a m) by (done || by apply (asm_ok _ _ _ _ _ A)).
  simpl in He. by rewrite He.
Qed.

Lemma receives_pieces z st n segs r k ams :
  received z st n segs r k → Forall (piece_of st n) segs → n + 1 < 2 ^ 31 →
  Forall (λ am, segment_of z st n am.1 am.2) ams →
  ∃ r' k', receives (snd <$> ams) r = Ok r' ∧
    received z st n (segs ++ ((λ am, piece am.1 am.2) <$> ams)) r' k' ∧
    window_end k' = window_end k ∧ sink_error k' = sink_error k.
Proof.
  revert segs r k. induction ams as [|[a m] ams IH]; intros segs r k R Hf Hn Hams.
  { exists r, k. simpl. by rewrite app_nil_r. }
  apply Forall_cons in Hams as [Hm Hams]. simpl in Hm.
  pose proof R as (Hi&Hz&A). pose proof (asm_next _ _ _ _ _ A) as Hnx.
  pose proof Hm as (?&_&_&_&?&?&_). unfold payload_index in *.
  destruct (receive_piece z st n segs r k a m) as (r1&k1&He&R1&Hw1&Her1);
    [by left|done..|lia| |].
  { unfold next_index in *. case_bool_decide; zlen. }
  destruct (IH (segs ++ [piece a m]) r1 k1 R1) as (r2&k2&He2&R2&Hw2&Her2); [|done..|].
  { apply Forall_app. split; [done|]. apply Forall_singleton. by destruct Hm as (?&?&?&?&?). }
  exists r2, k2. rewrite <- app_assoc in R2. cbn [fmap list_fmap receives].
  split_and!; [|done|congruence|congruence]. simpl. rewrite He. done.
Qed.

Lemma receives_app ms1 ms2 r :
  receives (ms1 ++ ms2) r = (r ← receives ms1 r; receives ms2 r).
Proof.
  revert r. induction ms1 as [|m ms1 IH]; intros r; [done|]. cbn [receives app].
  destruct (receive m r); simpl; [apply IH|done].
Qed.

Lemma receives_stream z st n s room dropped syn ams :
  sw_models s (mkSink [] room false false) → wf z → 0 ≤ n → n + 1 < 2 ^ 31 →
  Forall (λ m, SYN m = false ∧ RST m = false) dropped →
  Forall (λ am, segment_of z st n am.1 am.2) ((0, syn) :: ams) →
  ∃ r k, receives (dropped ++ syn :: ams.*2) (new_receiver (new_reassembler s)) = Ok r ∧
    received z st n ((λ am, piece am.1 am.2) <$> (0, syn) :: ams) r k ∧
    window_end k = room ∧ sink_error k = false.
Proof.
  intros Hs Hz Hn0 Hn Hd [Hsyn Hams]%Forall_cons.
  pose proof Hsyn as (?&Hseq&Hsy&?&?). simpl in *.
  destruct (receive_piece z st n [] (new_receiver (new_reassembler s)) (mkSink [] room false false)
    0 syn) as (r1&k1&He1&R1&Hw1&Her1); [|done| |done..|lia|by vm_compute|].
  { right. split_and!; [done|by rewrite Hsy|]. rewrite Hseq. destruct z.
    unfold Wrap32.wrap, Wrap32.add, wf in *. simpl in *. f_equal. word. }
  { by apply assembled_new. }
  destruct (receives_pieces z st n [piece 0 syn] r1 k1 ams R1) as (r2&k2&He2&R2&Hw2&Her2);
    [by apply Forall_singleton|done..|].
  exists r2, k2. split_and!; [|done|rewrite Hw2, Hw1; unfold window_end; simpl; zlen|by rewrite Her2, Her1].
  rewrite receives_app, receives_before_syn by done. cbn [receives mbind result_bind].
  by rewrite He1.
Qed.

(** * Properties *)

(** C14: what [receive] does on every branch: RST puts the stream in error and
    closes it and nothing else; before the SYN every other message is dropped;
    afterwards the payload is inserted at the stream index nearest to the next
    byte expected, with the SYN shifting no index and every other segment
    shifted by one.  No branch throws and the invariant is kept. *)
Theorem receiver_receive r k m :
  receiver_ok r k → wf (seqno m) → window_end k + zlen (payload m) ≤ 2 ^ 64 →
  ∃ r' k', receive m r = Ok r' ∧ receiver_ok r' k' ∧
    if RST m then isn_ r' = isn_ r ∧ k' = sink_close (sink_set_error k)
    else match isn_ r, SYN m with
      | None, false => r' = r ∧ k' = k
      | oz, syn =>
          let z := default (seqno m) oz in
          let abs_seqno := Wrap32.unwrap (seqno m) z (next_index k) in
          isn_ r' = Some z ∧
          ∃ new, insert_spec (if syn then abs_seqno else u64 (abs_seqno - 1)) (payload m) (FIN m)
                   (reassembler_ r) k (reassembler_ r') new k'
      end.
Proof.
  intros Hr Hws Hb. destruct (RST m) eqn:Hrst.
  { destruct (receive_rst r k m Hr Hrst) as (r'&?&?&?). by eexists _, _. }
  destruct (isn_ r) as [z|] eqn:Hi, (SYN m) eqn:Hs; [..|by exists r, k; rewrite receive_before_syn].
  all: destruct (receive_segment r k m (default (seqno m) (isn_ r))) as (r'&new&k'&He&Hi'&Hr'&I);
    rewrite ?Hi, ?Hs in *; simpl in *; eauto 10.
  all: destruct Hr as [_ Hz]; by rewrite Hi in Hz.
Qed.

(** End to end on one stream: whatever arrives before the SYN, however the
    stream is cut into segments and however those are ordered and repeated,
    the receiver hands its stream the longest prefix received and replies with
    the cumulative acknowledgement of exactly that prefix (counting the SYN,
    and the FIN once everything is in) and with the room left, cut to 16
    bits. *)
Theorem receiver_delivers z st n s room dropped syn ams :
  sw_models s (mkSink [] room false false) → wf z → 0 ≤ n → n + 1 < 2 ^ 31 →
  Forall (λ m, SYN m = false ∧ RST m = false) dropped →
  Forall (λ am, segment_of z st n am.1 am.2) ((0, syn) :: ams) →
  let pieces := (λ am, piece am.1 am.2) <$> (0, syn) :: ams in
  ∃ r k, receives (dropped ++ syn :: ams.*2) (new_receiver (new_reassembler s)) = Ok r ∧
    sw_models (writer r) k ∧ sink_written k = slice st 0 (next_index k) ∧
    (∀ i, 0 ≤ i < next_index k → Exists (λ x, covers x i) pieces) ∧
    (next_index k < room → ¬ Exists (λ x, covers x (next_index k)) pieces) ∧
    let fin := Z.b2z (existsb is_last pieces && bool_decide (next_index k = n)) in
    send r = mkTCPReceiverMessage (Some (Wrap32.wrap (1 + next_index k + fin) z))
               (Z.min (room - next_index k) 65535) false.
Proof.
  intros Hs Hz Hn0 Hn Hd Hams.
  destruct (receives_stream z st n s room dropped syn ams) as (r&k&He&R&Hw&Her); [done..|].
  exists r, k. pose proof (received_ok _ _ _ _ _ _ R) as Hr. destruct R as (Hi&_&A).
  destruct (assembled_prefix _ _ _ _ _ A) as (Hpre&Hmax). rewrite Hw in Hmax.
  split_and!; [done|by apply writer_models|by destruct A|done|done|].
  rewrite (send_ok _ _ Hr), Her, Hi, (asm_closed _ _ _ _ _ A). simpl. f_equal.
  unfold window_end, next_index in *. lia.
Qed.
End receiver_ok.

(** * At the byte stream *)

#[local] Existing Instance ByteStream.ByteStream_writer.
#[local] Existing Instance ByteStream.ByteStream_writer_spec.

Definition demo_receiver : TCPReceiver ByteStream.ByteStream :=
  new_receiver (new_reassembler (ByteStream.new 5)).
Definition demo_isn : Wrap32 := mkWrap32 (2 ^ 32 - 2).
Definition demo_segment (a n : Z) (fin : bool) : TCPSenderMessage :=
  mkTCPSenderMessage (Wrap32.wrap a demo_isn) (bool_decide (a = 0))
    (slice demo_stream (payload_index a) n) fin false.

Lemma demo_receiver_ok : receiver_ok demo_receiver (mkSink [] 5 false false).
Proof. split; [by apply new_reasm_ok|done]. Qed.

Lemma receiver_receive_witness :
  ∃ r' k', receive (demo_segment 0 2 false) demo_receiver = Ok r' ∧ receiver_ok r' k' ∧
    isn_ r' = Some demo_isn ∧
    ∃ new, insert_spec 0 (slice demo_stream 0 2) false (reassembler_ demo_receiver)
      (mkSink [] 5 false false) (reassembler_ r') new k'.
Proof.
  refine (receiver_receive demo_receiver (mkSink [] 5 false false) (demo_segment 0 2 false)
    demo_receiver_ok _ _); [by unfold wf, is_u32|by vm_compute].
Defined.

Lemma receiver_delivers_witness :
  let ams := (λ x, (x.1.1, demo_segment x.1.1 x.1.2 x.2))
    <$> [(4, 3, true); (3, 1, false); (1, 2, false)] in
  let pieces := (λ am, piece am.1 am.2) <$> (0, demo_segment 0 0 false) :: ams in
  ∃ r k, receives ([demo_segment 2 1 false] ++ demo_segment 0 0 false :: ams.*2) demo_receiver = Ok r ∧
    sw_models (writer r) k ∧ sink_written k = slice demo_stream 0 (next_index k) ∧
    (∀ i, 0 ≤ i < next_index k → Exists (λ x, covers x i) pieces) ∧
    (next_index k < 5 → ¬ Exists (λ x, covers x (next_index k)) pieces) ∧
    let fin := Z.b2z (existsb is_last pieces && bool_decide (next_index k = 6)) in
    send r = mkTCPReceiverMessage (Some (Wrap32.wrap (1 + next_index k + fin) demo_isn))
               (Z.min (5 - next_index k) 65535) false.
Proof.
  apply receiver_delivers; [by apply new_models|by vm_compute|done|done| |].
  - repeat constructor; by vm_compute.
  - repeat constructor; by vm_compute.
Defined.
