(* ===== verification/TCPSender.v ===== *)
(** The sending half of a connection (src/src/tcp_sender.hh, src/src/tcp_sender.cc):
    segmentation of the outbound stream, the send window, acknowledgement and
    retransmission. *)

From S2P Require Import Prelude WrappingIntegers TCPMessages ByteStream.
From S2P Require Timer.

(** * The class *)

Record TCPSender : Type := mkTCPSender {
  input_ : ByteStream;
  isn_ : Wrap32;
  timer_ : Timer.RetransmissionTimer;
  window_size_ : Z;
  zero_window_ : bool;
  next_seqno_ : Z;          (* absolute seqno of the next byte to send *)
  bytes_in_flight_ : Z;     (* sum of sequence_length() over outstanding_ *)
  syn_sent_ : bool;
  fin_sent_ : bool;
  outstanding_ : list TCPSenderMessage;
}.

Definition new_sender (input : ByteStream) (isn : Wrap32) (initial_RTO_ms : Z) : TCPSender :=
  mkTCPSender input isn (Timer.RetransmissionTimer.new initial_RTO_ms) 1 false 0 0 false false [].

Definition sequence_numbers_in_flight (s : TCPSender) : Z := bytes_in_flight_ s.
Definition consecutive_retransmissions (s : TCPSender) : Z :=
  Timer.RetransmissionTimer.consecutive_retransmissions (timer_ s).

(** Writing through [writer()] and the other updates of single members. *)
Definition with_input (f : ByteStream → ByteStream) (s : TCPSender) : TCPSender :=
  mkTCPSender (f (input_ s)) (isn_ s) (timer_ s) (window_size_ s) (zero_window_ s)
    (next_seqno_ s) (bytes_in_flight_ s) (syn_sent_ s) (fin_sent_ s) (outstanding_ s).
Definition with_timer (f : Timer.RetransmissionTimer → Timer.RetransmissionTimer)
    (s : TCPSender) : TCPSender :=
  mkTCPSender (input_ s) (isn_ s) (f (timer_ s)) (window_size_ s) (zero_window_ s)
    (next_seqno_ s) (bytes_in_flight_ s) (syn_sent_ s) (fin_sent_ s) (outstanding_ s).
Definition with_outstanding (bytes_in_flight : Z) (outstanding : list TCPSenderMessage)
    (s : TCPSender) : TCPSender :=
  mkTCPSender (input_ s) (isn_ s) (timer_ s) (window_size_ s) (zero_window_ s)
    (next_seqno_ s) bytes_in_flight (syn_sent_ s) (fin_sent_ s) outstanding.

Definition make_empty_message (s : TCPSender) : TCPSenderMessage :=
  mkTCPSenderMessage (Wrap32.add (isn_ s) (next_seqno_ s)) false [] false (has_error (input_ s)).

(** The payload loop of [send_segment]; each turn empties the front segment of
    the stream or fills the payload. *)
Fixpoint fill (fuel : nat) (payload_room : Z) (reader : ByteStream) (payload : bytes)
    : result (ByteStream * bytes) :=
  match fuel with
  | O => Err OutOfFuel
  | S fuel =>
      if bool_decide (zlen payload < payload_room)
         && bool_decide (Reader.bytes_buffered reader > 0)
      then
        view ← Reader.peek reader;
        view ← substr 0 (u64 (payload_room - zlen payload)) view;
        reader ← Reader.pop (zlen view) reader;
        fill fuel payload_room reader (payload ++ view)
      else Ok (reader, payload)
  end.

(** [bool send_segment( const TransmitFunction& transmit, uint64_t
    window_remaining )]: the new state, the segments passed to [transmit] and
    the result. *)
Definition send_segment (window_remaining : Z) (s : TCPSender)
    : result (TCPSender * list TCPSenderMessage * bool) :=
  if bool_decide (window_remaining = 0) then Ok (s, [], false)
  else
    let msg := make_empty_message s in
    let syn := negb (syn_sent_ s) in
    let length := if syn then 1 else 0 in
    let payload_room := Z.min (u64 (window_remaining - length)) TCPConfig.MAX_PAYLOAD_SIZE in
    '(input, payload) ← fill (S (List.length (segments_ (input_ s)))) payload_room (input_ s) [];
    let length := u64 (length + zlen payload) in
    let fin := negb (fin_sent_ s) && Writer.is_closed input
               && bool_decide (Reader.bytes_buffered input = 0)
               && bool_decide (length < window_remaining) in
    let length := if fin then u64 (length + 1) else length in
    let msg := mkTCPSenderMessage (seqno msg) syn payload fin (RST msg) in
    if bool_decide (length = 0) then Ok (with_input (λ _, input) s, [], false)
    else
      let timer :=
        if Timer.RetransmissionTimer.is_running (timer_ s) then timer_ s
        else Timer.RetransmissionTimer.start (timer_ s) in
      Ok (mkTCPSender input (isn_ s) timer (window_size_ s) (zero_window_ s)
            (u64 (next_seqno_ s + length)) (u64 (bytes_in_flight_ s + length))
            (syn_sent_ s || SYN msg) (fin_sent_ s || FIN msg) (outstanding_ s ++ [msg]),
          [msg], true).

(** The loop of [push]: every turn that does not leave it sends at least one
    sequence number, so the room in the window is enough fuel. *)
Fixpoint push_loop (fuel : nat) (right_edge : Z) (s : TCPSender)
    : result (TCPSender * list TCPSenderMessage) :=
  match fuel with
  | O => Err OutOfFuel
  | S fuel =>
      if bool_decide (next_seqno_ s < right_edge) && negb (fin_sent_ s) then
        '(s, sent, ok) ← send_segment (u64 (right_edge - next_seqno_ s)) s;
        if (ok : bool) then
          '(s, more) ← push_loop fuel right_edge s;
          Ok (s, sent ++ more)
        else Ok (s, sent)
      else Ok (s, [])
  end.

Definition push (s : TCPSender) : result (TCPSender * list TCPSenderMessage) :=
  let effective_window := if zero_window_ s then 1 else window_size_ s in
  let abs_ack := u64 (next_seqno_ s - bytes_in_flight_ s) in
  let right_edge := u64 (abs_ack + effective_window) in
  push_loop (S (Z.to_nat (right_edge - next_seqno_ s))) right_edge s.

(** The acknowledgement loop of [receive]: what is left in flight, what is
    left outstanding, and whether anything was acknowledged. *)
Fixpoint ack_loop (isn : Wrap32) (next_seqno abs_ackno : Z)
    (outstanding : list TCPSenderMessage) (bytes_in_flight : Z)
    : list TCPSenderMessage * Z * bool :=
  match outstanding with
  | [] => ([], bytes_in_flight, false)
  | seg :: rest =>
      let seg_end := u64 (Wrap32.unwrap (seqno seg) isn next_seqno + sequence_length seg) in
      if bool_decide (seg_end > abs_ackno) then (outstanding, bytes_in_flight, false)
      else
        let '(outstanding, bytes_in_flight, _) :=
          ack_loop isn next_seqno abs_ackno rest (u64 (bytes_in_flight - sequence_length seg)) in
        (outstanding, bytes_in_flight, true)
  end.

(** [void receive( const TCPReceiverMessage& msg )]. *)
Definition receive (msg : TCPReceiverMessage) (s : TCPSender) : TCPSender :=
  if rRST msg then
    mkTCPSender (set_error (input_ s)) (isn_ s) (Timer.RetransmissionTimer.stop (timer_ s))
      (window_size_ s) (zero_window_ s) (next_seqno_ s) 0 (syn_sent_ s) (fin_sent_ s) []
  else
    let s :=
      mkTCPSender (input_ s) (isn_ s) (timer_ s) (window_size msg)
        (bool_decide (window_size msg = 0)) (next_seqno_ s) (bytes_in_flight_ s)
        (syn_sent_ s) (fin_sent_ s) (outstanding_ s) in
    match ackno msg with
    | None => s
    | Some ackno =>
        let abs_ackno := Wrap32.unwrap ackno (isn_ s) (next_seqno_ s) in
        if bool_decide (abs_ackno > next_seqno_ s) then s
        else
          let '(outstanding, bytes_in_flight, acked_anything) :=
            ack_loop (isn_ s) (next_seqno_ s) abs_ackno (outstanding_ s) (bytes_in_flight_ s) in
          let s := with_outstanding bytes_in_flight outstanding s in
          if acked_anything then
            let s := with_timer Timer.RetransmissionTimer.reset_backoff s in
            if bool_decide (outstanding = [])
            then with_timer Timer.RetransmissionTimer.stop s
            else with_timer Timer.RetransmissionTimer.start s
          else s
    end.

(** [void tick( uint64_t ms_since_last_tick, const TransmitFunction& transmit )]. *)
Definition tick (ms_since_last_tick : Z) (s : TCPSender) : TCPSender * list TCPSenderMessage :=
  let s := with_timer (Timer.RetransmissionTimer.tick ms_since_last_tick) s in
  if negb (Timer.RetransmissionTimer.is_expired (timer_ s)) then (s, [])
  else
    match outstanding_ s with
    | [] => (s, [])
    | oldest :: _ =>
        let s' :=
          if zero_window_ s then s
          else with_timer Timer.RetransmissionTimer.record_retransmission s in
        (with_timer Timer.RetransmissionTimer.start s', [oldest])
    end.

(** * Segments in flight *)

(** The stream index of the first payload byte of a segment at absolute
    sequence number [a]. *)
Definition payload_index (a : Z) : Z := if bool_decide (a = 0) then 0 else a - 1.

(** [m] is a segment at [a] of the stream [st] sent from [z] that satisfies
    the predicate [F]. *)
Definition sent_ok (z : Wrap32) (st : Z → byte) (F : Z → TCPSenderMessage → Prop) (a : Z)
    (m : TCPSenderMessage) : Prop :=
  0 < seg_len m ∧ zlen (payload m) ≤ TCPConfig.MAX_PAYLOAD_SIZE ∧
  seqno m = Wrap32.wrap a z ∧ SYN m = bool_decide (a = 0) ∧
  payload m = slice st (payload_index a) (zlen (payload m)) ∧
  F a m.

(** Consecutive segments from [a] up to [e]. *)
Fixpoint chain (z : Wrap32) (st : Z → byte) (F : Z → TCPSenderMessage → Prop) (a e : Z)
    (ms : list TCPSenderMessage) : Prop :=
  match ms with
  | [] => a = e
  | m :: ms => sent_ok z st F a m ∧ chain z st F (a + seg_len m) e ms
  end.

(** A segment carries only bytes taken from the input, and a FIN only when it
    is the last thing sent. *)
Definition allowed (s : TCPSender) (a : stream) (b : Z) (m : TCPSenderMessage) : Prop :=
  payload_index b + zlen (payload m) ≤ nread a ∧
  (FIN m = true → fin_sent_ s = true ∧ b + seg_len m = next_seqno_ s).

(** The representation invariant. [a] is the abstract input stream, [st] the
    stream the application writes, [base] the oldest number in flight. *)
Record sender_ok (st : Z → byte) (s : TCPSender) (a : stream) (base : Z) : Prop := mkSenderOk {
  so_input : refines (input_ s) a;
  so_written : written a = slice st 0 (zlen (written a));
  so_bound : zlen (written a) < 2 ^ 62;
  so_isn : wf (isn_ s);
  so_next : next_seqno_ s = Z.b2z (syn_sent_ s) + nread a + Z.b2z (fin_sent_ s);
  so_syn : syn_sent_ s = false → next_seqno_ s = 0;
  so_fin : fin_sent_ s = true → fin a = true;
  so_base : 0 ≤ base ≤ next_seqno_ s;
  so_flight : bytes_in_flight_ s = next_seqno_ s - base;
  so_flight_bound : bytes_in_flight_ s ≤ 65535;
  so_chain : chain (isn_ s) st (allowed s a) base (next_seqno_ s) (outstanding_ s);
  so_window : is_u16 (window_size_ s);
  so_zero : zero_window_ s = bool_decide (window_size_ s = 0);
  so_rto : is_u64 (Timer.initial_RTO_ms_ (timer_ s));
  so_running : Timer.RetransmissionTimer.is_running (timer_ s)
                 = bool_decide (outstanding_ s ≠ []);
}.
Arguments so_input {_ _ _ _} _.
Arguments so_written {_ _ _ _} _.
Arguments so_bound {_ _ _ _} _.
Arguments so_isn {_ _ _ _} _.
Arguments so_next {_ _ _ _} _.
Arguments so_syn {_ _ _ _} _ _.
Arguments so_fin {_ _ _ _} _ _.
Arguments so_base {_ _ _ _} _.
Arguments so_flight {_ _ _ _} _.
Arguments so_flight_bound {_ _ _ _} _.
Arguments so_chain {_ _ _ _} _.
Arguments so_window {_ _ _ _} _.
Arguments so_zero {_ _ _ _} _.
Arguments so_rto {_ _ _ _} _.
Arguments so_running {_ _ _ _} _.

Lemma chain_app z st F a e l r :
  chain z st F a e (l ++ r) ↔ ∃ b, chain z st F a b l ∧ chain z st F b e r.
Proof.
  revert a. induction l as [|m l IH]; intros a; simpl.
  - naive_solver.
  - rewrite IH. naive_solver.
Qed.

Lemma chain_le z st F a e ms : chain z st F a e ms → a ≤ e ∧ (ms ≠ [] → a < e).
Proof.
  revert a. induction ms as [|m ms IH]; intros a Hc; simpl in *; [naive_solver lia|].
  destruct Hc as [(?&_) Hc]. destruct (IH _ Hc). split; intros; lia.
Qed.

Lemma sent_ok_mono z st (F F' : Z → TCPSenderMessage → Prop) a m :
  (F a m → F' a m) → sent_ok z st F a m → sent_ok z st F' a m.
Proof. intros HF (?&?&?&?&?&?). split_and!; auto. Qed.

Lemma chain_mono z st (F F' : Z → TCPSenderMessage → Prop) a e ms :
  (∀ b m, F b m → F' b m) → chain z st F a e ms → chain z st F' a e ms.
Proof.
  intros HF. revert a. induction ms as [|m ms IH]; intros a Hc; [done|].
  destruct Hc as [Hm Hc]. split; [by eapply sent_ok_mono; [|done]; auto|by apply IH].
Qed.

Lemma allowed_mono s a s' a' b m :
  fin_sent_ s = false → nread a ≤ nread a' → allowed s a b m → allowed s' a' b m.
Proof. intros Hf Hn [? HF]. split; [lia|]. intros [? _]%HF. congruence. Qed.

Lemma new_sender_ok st c z rto :
  is_u64 c → wf z → is_u64 rto →
  sender_ok st (new_sender (ByteStream.new c) z rto) (spec_new c) 0.
Proof.
  intros. split; simpl; try done; [by apply new_refines].
Qed.

(** * The payload loop *)

(** On a stream [fill] is the [read] helper without its check for an empty
    view, which does not occur. *)
Lemma fill_read_loop fuel room reader out x :
  read_loop fuel room reader out = Ok x → fill fuel room reader out = Ok x.
Proof.
  revert reader out. induction fuel as [|fuel IH]; intros reader out; [done|]. simpl.
  assert (0 ≤ Reader.bytes_buffered reader) by apply Z.mod_pos_bound, eq_refl.
  destruct (decide (Reader.bytes_buffered reader = 0)) as [Hb|Hb].
  { rewrite Hb, !bool_decide_false by lia. by rewrite andb_false_r. }
  rewrite (bool_decide_true (_ ≠ 0)), (bool_decide_true (_ > 0)), andb_true_r by lia. simpl.
  case_bool_decide; [|done].
  destruct (Reader.peek reader) as [view|]; simpl; [|done].
  case_bool_decide; [done|]. destruct (substr _ _ view) as [view'|]; simpl; [|done].
  destruct (Reader.pop _ _); simpl; [apply IH|done].
Qed.

Lemma fill_ok room s a :
  refines s a → is_u64 room →
  ∃ s', fill (S (length (segments_ s))) room s [] = Ok (s', ztake room (unread a)) ∧
    refines s' (spec_pop room a).
Proof.
  intros R Hr. destruct (read_refines room s a R Hr) as (s'&He&R').
  exists s'. split; [|done]. by apply fill_read_loop.
Qed.

(** * One segment *)

Section send_segment.
Context {st : Z → byte} {s : TCPSender} {a : stream} {base : Z} (R : sender_ok st s a base).

Lemma so_nread : 0 ≤ nread a ≤ zlen (written a).
Proof. apply (so_input R). Qed.

Lemma so_unread : unread a = slice st (nread a) (zlen (written a) - nread a).
Proof.
  unfold unread. rewrite (so_written R) at 1. pose proof so_nread.
  rewrite zdrop_slice by lia. done.
Qed.

Lemma so_next_bound : 0 ≤ next_seqno_ s < 2 ^ 63.
Proof.
  rewrite (so_next R). pose proof so_nread. pose proof (so_bound R).
  destruct (syn_sent_ s), (fin_sent_ s); simpl; lia.
Qed.

Lemma so_syn_index :
  fin_sent_ s = false → negb (syn_sent_ s) = bool_decide (next_seqno_ s = 0) ∧
  payload_index (next_seqno_ s) = nread a ∧
  next_seqno_ s = 1 + nread a - Z.b2z (negb (syn_sent_ s)).
Proof.
  intros Hf. pose proof so_nread. pose proof (so_next R) as Hn. pose proof (so_syn R) as Hs.
  unfold payload_index. rewrite Hf in Hn. destruct (syn_sent_ s); simpl in *.
  - rewrite Hn, !bool_decide_false by lia. split_and!; [done|lia..].
  - rewrite (Hs eq_refl) in *. rewrite !bool_decide_true by done. split_and!; [done|lia..].
Qed.

(** The segment that [send_segment] builds for a window of [wr]. *)
Definition room_for (wr : Z) : Z :=
  Z.min (wr - Z.b2z (negb (syn_sent_ s))) TCPConfig.MAX_PAYLOAD_SIZE.
Definition next_segment (wr : Z) : TCPSenderMessage :=
  let syn := negb (syn_sent_ s) in
  let pl := ztake (room_for wr) (unread a) in
  mkTCPSenderMessage (Wrap32.wrap (next_seqno_ s) (isn_ s)) syn pl
    (fin a && bool_decide (zlen (unread a) ≤ room_for wr)
           && bool_decide (Z.b2z syn + zlen pl < wr))
    (err a).

Lemma room_for_range wr : 0 < wr → 0 ≤ room_for wr ≤ 1000 ∧ room_for wr + Z.b2z (negb (syn_sent_ s)) ≤ wr.
Proof.
  intros. unfold room_for, TCPConfig.MAX_PAYLOAD_SIZE. destruct (syn_sent_ s); simpl; lia.
Qed.

Lemma next_segment_len wr :
  0 < wr → 0 ≤ seg_len (next_segment wr) ≤ 1002 ∧ seg_len (next_segment wr) ≤ wr.
Proof.
  intros Hwr. destruct (room_for_range wr Hwr).
  assert (zlen (ztake (room_for wr) (unread a)) ≤ room_for wr) by zlen.
  assert (0 ≤ zlen (ztake (room_for wr) (unread a))) by zlen.
  unfold seg_len, next_segment. simpl. set (pl := ztake _ _) in *.
  destruct (fin a), (syn_sent_ s); simpl in *; repeat case_bool_decide; simpl; lia.
Qed.

Lemma send_segment_eq wr :
  fin_sent_ s = false → 0 < wr < 2 ^ 64 →
  ∃ input, refines input (spec_pop (room_for wr) a) ∧
    let m := next_segment wr in
    send_segment wr s =
      if bool_decide (seg_len m = 0) then Ok (with_input (λ _, input) s, [], false)
      else Ok (mkTCPSender input (isn_ s)
        (if Timer.RetransmissionTimer.is_running (timer_ s) then timer_ s
         else Timer.RetransmissionTimer.start (timer_ s))
        (window_size_ s) (zero_window_ s) (u64 (next_seqno_ s + seg_len m))
        (u64 (bytes_in_flight_ s + seg_len m)) (syn_sent_ s || SYN m) (FIN m)
        (outstanding_ s ++ [m]), [m], true).
Proof.
  intros Hf [Hwr Hwr']. destruct (room_for_range wr Hwr) as [Hr Hrw].
  pose proof (next_segment_len wr Hwr) as Hl. unfold send_segment. rewrite bool_decide_false by lia.
  assert ((if negb (syn_sent_ s) then 1 else 0) = Z.b2z (negb (syn_sent_ s))) as ->
    by by destruct (syn_sent_ s).
  rewrite (u64_small (wr - _)) by (destruct (syn_sent_ s); unfold is_u64; simpl; lia).
  fold (room_for wr).
  destruct (fill_ok (room_for wr) (input_ s) a (so_input R)) as (i'&->&Ri'); [unfold is_u64; lia|].
  exists i'. split; [done|]. cbn [mbind result_bind].
  rewrite Hf. cbn [negb andb].
  assert (Writer.is_closed i' = fin a) as -> by apply (ref_closed _ _ Ri').
  rewrite (buffered_refines Ri'), unread_pop by (pose proof so_nread; lia).
  assert (bool_decide (zlen (zdrop (room_for wr) (unread a)) = 0)
    = bool_decide (zlen (unread a) ≤ room_for wr)) as -> by (apply bool_decide_ext; zlen).
  assert (is_u64 (Z.b2z (negb (syn_sent_ s)) + zlen (ztake (room_for wr) (unread a)) + 1)) as Hu
    by (unfold is_u64; destruct (negb (syn_sent_ s)); simpl; zlen).
  rewrite (u64_small (Z.b2z (negb (syn_sent_ s)) + zlen (ztake (room_for wr) (unread a))))
    by (unfold is_u64 in *; destruct (negb (syn_sent_ s)); simpl; zlen).
  rewrite (u64_small (_ + _ + 1)) by done.
  assert (∀ b : bool, ∀ x, (if b then x + 1 else x) = x + Z.b2z b) as Hif
    by (intros [] ?; simpl; lia).
  rewrite Hif. unfold make_empty_message. rewrite add_wrap.
  assert (has_error (input_ s) = err a) as Herr by apply (ref_error _ _ (so_input R)).
  by rewrite Herr.
Qed.

Lemma next_segment_sent wr F :
  fin_sent_ s = false → 0 < wr → 0 < seg_len (next_segment wr) →
  F (next_seqno_ s) (next_segment wr) →
  sent_ok (isn_ s) st F (next_seqno_ s) (next_segment wr).
Proof.
  intros Hf Hwr Hl HF. destruct (so_syn_index Hf) as (Hsyn&Hidx&_).
  destruct (room_for_range wr Hwr) as [Hr _]. pose proof so_nread.
  split_and!; [done| |done|done| |done]; simpl.
  - unfold TCPConfig.MAX_PAYLOAD_SIZE. zlen.
  - rewrite Hidx, so_unread, ztake_slice. f_equal. zlen.
Qed.

(** What a turn of [send_segment] leaves unsent: nothing, or the window is
    full. *)
Definition drained (s : TCPSender) (a : stream) : Prop :=
  syn_sent_ s = true ∧ unread a = [] ∧ (fin a = true → fin_sent_ s = true).

Lemma next_segment_empty wr :
  fin_sent_ s = false → 0 < wr → seg_len (next_segment wr) = 0 →
  syn_sent_ s = true ∧ unread a = [] ∧ fin a = false.
Proof.
  intros Hf Hwr. destruct (room_for_range wr Hwr) as [Hr Hrw]. unfold seg_len, next_segment.
  cbn [SYN FIN payload].
  assert (zlen (ztake (room_for wr) (unread a)) = Z.min (room_for wr) (zlen (unread a))) as Hpl
    by (pose proof (zlen_nonneg (unread a)); rewrite zlen_ztake; lia).
  set (pl := ztake _ _) in *.
  assert (0 ≤ zlen (unread a)) by zlen. unfold room_for, TCPConfig.MAX_PAYLOAD_SIZE in *.
  destruct (syn_sent_ s); simpl in *; [|repeat case_bool_decide; destruct (fin a); simpl; lia].
  intros Hz. assert (zlen (unread a) = 0) as Hu.
  { destruct (fin a && _ && _); simpl in Hz; lia. }
  split_and!; [done|by apply zlen_0|]. destruct (fin a); [|done].
  rewrite !bool_decide_true in Hz by lia. simpl in Hz. lia.
Qed.

Lemma next_segment_nread wr :
  fin_sent_ s = false → 0 < wr →
  next_seqno_ s + seg_len (next_segment wr)
    = 1 + nread (spec_pop (room_for wr) a) + Z.b2z (FIN (next_segment wr)).
Proof.
  intros Hf Hwr. destruct (room_for_range wr Hwr) as [Hr _].
  destruct (so_syn_index Hf) as (_&_&Hn). rewrite Hn.
  pose proof (zlen_nonneg (unread a)). unfold seg_len, next_segment.
  cbn [SYN FIN payload nread spec_pop]. rewrite zlen_ztake. lia.
Qed.

Lemma unread_all wr :
  0 < wr → zlen (unread a) ≤ room_for wr → unread (spec_pop (room_for wr) a) = [].
Proof.
  intros Hwr Hle. destruct (room_for_range wr Hwr) as [Hr _].
  rewrite unread_pop by (pose proof so_nread; lia). by apply zdrop_ge.
Qed.

(** The state after a segment went out. *)
Lemma segment_sent_ok wr input :
  fin_sent_ s = false → 0 < wr → next_seqno_ s + wr ≤ base + 65535 →
  0 < seg_len (next_segment wr) → refines input (spec_pop (room_for wr) a) →
  let m := next_segment wr in
  let s' := mkTCPSender input (isn_ s)
    (if Timer.RetransmissionTimer.is_running (timer_ s) then timer_ s
     else Timer.RetransmissionTimer.start (timer_ s))
    (window_size_ s) (zero_window_ s) (next_seqno_ s + seg_len m)
    (bytes_in_flight_ s + seg_len m) (syn_sent_ s || SYN m) (FIN m) (outstanding_ s ++ [m]) in
  sender_ok st s' (spec_pop (room_for wr) a) base ∧
  sent_ok (isn_ s) st (allowed s' (spec_pop (room_for wr) a)) (next_seqno_ s) m.
Proof.
  intros Hf Hwr Hfit Hl Ri m s'. pose proof (next_segment_len wr Hwr) as Hlen. fold m in Hl, Hlen.
  assert (sent_ok (isn_ s) st (allowed s' (spec_pop (room_for wr) a)) (next_seqno_ s) m) as Hm.
  { apply next_segment_sent; [done..|]. split; [|done]. destruct (so_syn_index Hf) as (_&->&_).
    unfold next_segment. cbn [payload nread spec_pop].
    pose proof (zlen_nonneg (unread a)). destruct (room_for_range wr Hwr). rewrite zlen_ztake. lia. }
  split; [|done]. destruct R. split; cbn -[m]; try done.
  - unfold m. rewrite next_segment_nread by done. simpl. by destruct (syn_sent_ s).
  - subst m. simpl. by destruct (syn_sent_ s).
  - subst m. simpl. by intros [[? _]%andb_true_iff _]%andb_true_iff.
  - lia.
  - lia.
  - lia.
  - apply chain_app. exists (next_seqno_ s). split.
    + eapply chain_mono; [|done]. intros b m'. apply allowed_mono; [done|].
      destruct (room_for_range wr Hwr). simpl. zlen.
    + by split.
  - by destruct (Timer.RetransmissionTimer.is_running (timer_ s)).
  - rewrite bool_decide_true by (by destruct (outstanding_ s)).
    by destruct (Timer.RetransmissionTimer.is_running (timer_ s)) eqn:?.
Qed.

(** What sending does to the input: some bytes are taken, nothing else. *)
Definition taken (a' : stream) : Prop :=
  written a' = written a ∧ fin a' = fin a ∧ err a' = err a ∧ cap a' = cap a.

(** What stays the same in the sender while segments [sent] go out. *)
Definition advanced (s' : TCPSender) (a' : stream) (sent : list TCPSenderMessage) : Prop :=
  isn_ s' = isn_ s ∧ outstanding_ s' = outstanding_ s ++ sent ∧
  window_size_ s' = window_size_ s ∧ zero_window_ s' = zero_window_ s ∧
  Forall (λ m, RST m = err a) sent ∧
  nread a ≤ nread a' ∧ chain (isn_ s) st (allowed s' a') (next_seqno_ s) (next_seqno_ s') sent.

Lemma send_segment_ok wr :
  fin_sent_ s = false → 0 < wr → next_seqno_ s + wr ≤ base + 65535 →
  ∃ s' sent ok a', send_segment wr s = Ok (s', sent, ok) ∧ sender_ok st s' a' base ∧
    taken a' ∧ advanced s' a' sent ∧ next_seqno_ s' ≤ next_seqno_ s + wr ∧
    (fin_sent_ s' = true → unread a' = []) ∧
    if (ok : bool) then next_seqno_ s < next_seqno_ s' else drained s' a'.
Proof.
  intros Hf Hwr Hfit. pose proof so_next_bound as Hnb. pose proof (so_base R) as Hb.
  pose proof (so_flight R) as Hfl. pose proof (next_segment_len wr Hwr) as Hl.
  destruct (send_segment_eq wr Hf) as (input&Ri&He); [lia|]. cbv zeta in He. rewrite He.
  case_bool_decide as Hz.
  - destruct (next_segment_empty wr Hf Hwr Hz) as (Hsyn&Hun&Hfin).
    eexists _, [], false, a. split; [done|]. rewrite spec_pop_0 in Ri
      by (destruct (room_for_range wr Hwr); auto; lia).
    split; [by destruct R|]. split; [by repeat split|].
    split; [by unfold advanced; rewrite app_nil_r|]. cbn.
    split; [lia|]. split; [by rewrite Hf|]. split_and!; [done..|]. by rewrite Hfin.
  - rewrite !u64_small by (unfold is_u64; lia).
    destruct (segment_sent_ok wr input) as [R' Hm]; [done|done|done|lia|done|].
    eexists _, _, true, _. split; [done|]. split; [exact R'|]. split; [by repeat split|].
    split; [|cbn -[next_segment]; split; [lia|split; [|lia]]].
    + split_and!; [done..| | |]; [by apply Forall_singleton| |by split].
      destruct (room_for_range wr Hwr). simpl. zlen.
    + cbn. intros [[_ Hall%bool_decide_eq_true]%andb_true_iff _]%andb_true_iff. by apply unread_all.
Qed.
End send_segment.

(** * [push] *)

Lemma taken_trans a a1 a2 : taken (a := a) a1 → taken (a := a1) a2 → taken (a := a) a2.
Proof. unfold taken. naive_solver congruence. Qed.

Lemma advanced_trans st s a base s1 a1 s2 a2 sent1 sent2 :
  sender_ok st s1 a1 base → taken (a := a) a1 → fin_sent_ s1 = false →
  advanced (st := st) (s := s) (a := a) s1 a1 sent1 → advanced (st := st) (s := s1) (a := a1) s2 a2 sent2 →
  advanced (st := st) (s := s) (a := a) s2 a2 (sent1 ++ sent2).
Proof.
  intros R1 (_&_&He&_) Hf (Hi1&Ho1&Hw1&Hz1&Hr1&Hn1&Hc1) (Hi2&Ho2&Hw2&Hz2&Hr2&Hn2&Hc2).
  rewrite He, Hi1 in *. split_and!; try congruence; [..|lia|].
  - by rewrite Ho2, Ho1, app_assoc.
  - by apply Forall_app.
  - apply chain_app. exists (next_seqno_ s1). split; [|done].
    eapply chain_mono; [|done]. intros b m. by apply allowed_mono.
Qed.

Lemma push_loop_ok st fuel right_edge s a base :
  sender_ok st s a base → right_edge ≤ base + 65535 →
  (Z.to_nat (right_edge - next_seqno_ s) < fuel)%nat →
  ∃ s' sent a', push_loop fuel right_edge s = Ok (s', sent) ∧ sender_ok st s' a' base ∧
    taken (a := a) a' ∧ advanced (st := st) (s := s) (a := a) s' a' sent ∧
    next_seqno_ s' ≤ Z.max (next_seqno_ s) right_edge ∧
    (fin_sent_ s' = true → fin_sent_ s = true ∨ unread a' = []) ∧
    (right_edge ≤ next_seqno_ s' ∨ fin_sent_ s' = true ∨ drained s' a').
Proof.
  revert s a. induction fuel as [|fuel IH]; intros s a R Hre Hfuel; [lia|].
  pose proof (so_next_bound R) as Hnb. pose proof (so_base R) as Hb.
  pose proof (so_flight R) as Hfl. pose proof (so_flight_bound R) as Hflb. simpl.
  assert (advanced (st := st) (s := s) (a := a) s a []) as Hrefl.
  { unfold advanced. rewrite app_nil_r. by repeat split. }
  case_bool_decide as Hlt; simpl; cycle 1.
  { exists s, [], a. split_and!; try done; [lia|by left|]. left. lia. }
  destruct (fin_sent_ s) eqn:Hf; simpl.
  { exists s, [], a. split_and!; try done; [lia|by left|]. right. by left. }
  rewrite u64_small by (unfold is_u64; lia).
  destruct (send_segment_ok R (right_edge - next_seqno_ s) Hf)
    as (s1&sent1&ok&a1&->&R1&T1&A1&Hn1&Hfd1&Hok); [lia|lia|]. simpl.
  destruct ok; cycle 1.
  { exists s1, sent1, a1. split_and!; try done; [lia|auto|]. right. by right. }
  destruct (fin_sent_ s1) eqn:Hf1.
  { destruct fuel; [lia|]. simpl. rewrite Hf1, andb_false_r. simpl. rewrite app_nil_r.
    exists s1, sent1, a1. split_and!; try done; [lia|auto|]. right. by left. }
  destruct (IH s1 a1 R1 Hre) as (s2&sent2&a2&He&R2&T2&A2&Hn2&Hfd2&Hend); [lia|].
  pose proof (taken_trans _ _ _ T1 T2). pose proof (advanced_trans _ _ _ _ _ _ _ _ _ _ R1 T1 Hf1 A1 A2).
  exists s2, (sent1 ++ sent2), a2. rewrite He. simpl. rewrite Hf1 in Hfd2. split_and!; auto || lia.
Qed.

(** The SYN and the FIN are sent once and for all. *)
Lemma send_segment_mono wr s s' sent ok :
  send_segment wr s = Ok (s', sent, ok) →
  (fin_sent_ s = true → fin_sent_ s' = true) ∧ (syn_sent_ s = true → syn_sent_ s' = true).
Proof.
  unfold send_segment. case_bool_decide; [by intros [= <- <- <-]|].
  intros ([input pl]&_&He)%bind_Ok. case_bool_decide; injection He as <- <- <-; simpl; [done|].
  split; intros ->; done.
Qed.

Lemma push_loop_mono fuel right_edge s s' sent :
  push_loop fuel right_edge s = Ok (s', sent) →
  (fin_sent_ s = true → fin_sent_ s' = true) ∧ (syn_sent_ s = true → syn_sent_ s' = true).
Proof.
  revert s s' sent. induction fuel as [|fuel IH]; intros s s' sent; [done|]. simpl.
  destruct (_ && _); [|by intros [= <- <-]].
  intros ([[s1 sent1] ok]&H1%send_segment_mono&He)%bind_Ok.
  destruct ok; [|by injection He as <- <-].
  apply bind_Ok in He as ([s2 sent2]&H2%IH&He). injection He as <- <-. naive_solver.
Qed.

Lemma push_mono s s' sent :
  push s = Ok (s', sent) →
  (fin_sent_ s = true → fin_sent_ s' = true) ∧ (syn_sent_ s = true → syn_sent_ s' = true).
Proof. apply push_loop_mono. Qed.

(** The window the peer granted, with a closed one counted as one. *)
Definition effective_window (s : TCPSender) : Z := if zero_window_ s then 1 else window_size_ s.

Lemma push_ok st s a base :
  sender_ok st s a base →
  ∃ s' sent a', push s = Ok (s', sent) ∧ sender_ok st s' a' base ∧
    taken (a := a) a' ∧ advanced (st := st) (s := s) (a := a) s' a' sent ∧
    next_seqno_ s' ≤ Z.max (next_seqno_ s) (base + effective_window s) ∧
    (fin_sent_ s' = true → fin_sent_ s = true ∨ unread a' = []) ∧
    (base + effective_window s ≤ next_seqno_ s' ∨ fin_sent_ s' = true ∨ drained s' a').
Proof.
  intros R. pose proof (so_next_bound R). pose proof (so_base R). pose proof (so_flight R).
  pose proof (so_window R) as Hw. unfold is_u16 in Hw. unfold push. fold (effective_window s).
  assert (0 ≤ effective_window s ≤ 65535) by (unfold effective_window; destruct (zero_window_ s); lia).
  replace (next_seqno_ s - bytes_in_flight_ s) with base by lia.
  rewrite !u64_small by (rewrite ?u64_small; unfold is_u64; lia).
  apply push_loop_ok; [done|lia|lia].
Qed.

(** * Acknowledgements *)

Lemma sent_ok_len z st F a m : sent_ok z st F a m → 0 < seg_len m ≤ 1002.
Proof.
  intros (?&Hm&_). unfold seg_len, TCPConfig.MAX_PAYLOAD_SIZE in *.
  destruct (SYN m), (FIN m); simpl in *; lia.
Qed.

(** The end of a segment in flight is recovered from its 32-bit seqno. *)
Lemma seg_end_ok z st F a m next :
  sent_ok z st F a m → wf z → 0 ≤ a ≤ next → next - a ≤ 65535 → next < 2 ^ 63 →
  u64 (Wrap32.unwrap (seqno m) z next + sequence_length m) = a + seg_len m.
Proof.
  intros Hm Hz Ha Hd Hn. pose proof (sent_ok_len _ _ _ _ _ Hm) as Hl.
  destruct Hm as (_&_&->&_). rewrite sequence_length_seg_len by lia.
  rewrite unwrap_wrap by (done || (unfold is_u64; lia) || lia).
  apply u64_small. unfold is_u64. lia.
Qed.

(** The loop drops exactly the segments that end at or before the ackno. *)
Lemma ack_loop_ok z st F next abs_ackno a ms flight :
  chain z st F a next ms → wf z → 0 ≤ a → next - a ≤ 65535 → next < 2 ^ 63 →
  flight = next - a →
  ∃ acked rest b, ms = acked ++ rest ∧ chain z st F a b acked ∧ chain z st F b next rest ∧
    ack_loop z next abs_ackno ms flight = (rest, next - b, bool_decide (acked ≠ [])) ∧
    (acked ≠ [] → b ≤ abs_ackno) ∧
    match rest with [] => True | m :: _ => abs_ackno < b + seg_len m end.
Proof.
  intros Hc Hz. revert a flight Hc. induction ms as [|m ms IH]; intros a flight Hc Ha Hd Hn ->.
  { exists [], [], a. by split_and!. }
  simpl in Hc. destruct Hc as [Hm Hc]. pose proof (sent_ok_len _ _ _ _ _ Hm) as Hl.
  destruct (chain_le _ _ _ _ _ _ Hc) as [Hle _]. simpl.
  rewrite (seg_end_ok z st F a m next) by (done || lia).
  case_bool_decide as Hgt.
  { exists [], (m :: ms), a. split_and!; done || lia. }
  destruct (IH (a + seg_len m) (u64 (next - a - sequence_length m)) Hc)
    as (acked&rest&b&->&Hc1&Hc2&He&Hb&Hr); [lia..| |].
  { rewrite sequence_length_seg_len, u64_small by (unfold is_u64; lia). lia. }
  exists (m :: acked), rest, b. rewrite He. split_and!; try done.
  intros _. destruct acked; [|by apply Hb]. simpl in Hc1. lia.
Qed.

(** What an acknowledgement does to the timer. *)
Definition timer_acked (acked : bool) (rest : list TCPSenderMessage)
    (t : Timer.RetransmissionTimer) : Timer.RetransmissionTimer :=
  if acked
  then (if bool_decide (rest = []) then Timer.RetransmissionTimer.stop
        else Timer.RetransmissionTimer.start) (Timer.RetransmissionTimer.reset_backoff t)
  else t.

(** What [receive] does to the segments in flight, to the window and to the
    timer when the message does not reset the connection. *)
Record acknowledged (msg : TCPReceiverMessage) (s s' : TCPSender) (base base' : Z)
    (acked : list TCPSenderMessage) : Prop := {
  ack_outstanding : outstanding_ s = acked ++ outstanding_ s';
  ack_window : window_size_ s' = window_size msg;
  ack_next : next_seqno_ s' = next_seqno_ s;
  ack_timer : timer_ s' = timer_acked (bool_decide (acked ≠ [])) (outstanding_ s') (timer_ s);
  ack_base : match acked with [] => base' = base | _ => base < base' end;
  ack_exact :
    match ackno msg with
    | Some ackno =>
        let abs_ackno := Wrap32.unwrap ackno (isn_ s) (next_seqno_ s) in
        if bool_decide (abs_ackno > next_seqno_ s) then acked = []
        else (acked ≠ [] → base' ≤ abs_ackno) ∧
          match outstanding_ s' with [] => True | m :: _ => abs_ackno < base' + seg_len m end
    | None => acked = []
    end;
}.

Lemma timer_acked_eq (acked : bool) rest s :
  (if acked then
     let s := with_timer Timer.RetransmissionTimer.reset_backoff s in
     if bool_decide (rest = [])
     then with_timer Timer.RetransmissionTimer.stop s
     else with_timer Timer.RetransmissionTimer.start s
   else s) = with_timer (timer_acked acked rest) s.
Proof. unfold timer_acked. destruct acked, s; simpl; [|done]. by case_bool_decide. Qed.

(** The invariant after the segments up to [base'] left the queue. *)
Lemma acked_ok st s a base acked rest base' :
  sender_ok st s a base → outstanding_ s = acked ++ rest →
  chain (isn_ s) st (allowed s a) base base' acked →
  chain (isn_ s) st (allowed s a) base' (next_seqno_ s) rest →
  sender_ok st (with_timer (timer_acked (bool_decide (acked ≠ [])) rest)
    (with_outstanding (next_seqno_ s - base') rest s)) a base'.
Proof.
  intros R Ho Hc1 Hc2. pose proof (so_running R) as Hrun. pose proof (so_rto R).
  destruct (chain_le _ _ _ _ _ _ Hc1), (chain_le _ _ _ _ _ _ Hc2).
  destruct R. split; simpl; try done; [lia|lia| |].
  - unfold timer_acked. rewrite bool_decide_ne_nil, bool_decide_nil. by destruct acked, rest.
  - unfold timer_acked. rewrite !bool_decide_ne_nil, bool_decide_nil in *.
    destruct acked as [|m acked]; [by rewrite Hrun, Ho|by destruct rest].
Qed.

Lemma receive_ok st s a base msg :
  sender_ok st s a base → rRST msg = false → is_u16 (window_size msg) →
  (∀ ackno, TCPMessages.ackno msg = Some ackno → wf ackno) →
  ∃ base' acked, sender_ok st (receive msg s) a base' ∧
    acknowledged msg s (receive msg s) base base' acked.
Proof.
  intros R Hrst Hw Hwf. unfold receive. rewrite Hrst. cbv zeta.
  set (s0 := mkTCPSender _ _ _ _ _ _ _ _ _ _).
  assert (sender_ok st s0 a base) as R0 by (destruct R; by split).
  destruct (ackno msg) as [ackno|] eqn:Ha; cycle 1.
  { exists base, []. split; [done|]. split; simpl; rewrite ?Ha; done || lia. }
  case_bool_decide as Hgt.
  { exists base, []. split; [done|]. split; simpl; rewrite ?Ha, ?(bool_decide_true _ Hgt); done || lia. }
  pose proof (so_next_bound R0). pose proof (so_base R0). pose proof (so_flight R0).
  pose proof (so_flight_bound R0).
  destruct (ack_loop_ok (isn_ s0) st _ (next_seqno_ s0)
    (Wrap32.unwrap ackno (isn_ s0) (next_seqno_ s0)) base (outstanding_ s0) (bytes_in_flight_ s0)
    (so_chain R0)) as (acked&rest&b&Ho&Hc1&Hc2&He&Hb&Hr); [apply R0|lia..|].
  rewrite He, timer_acked_eq. exists b, acked.
  split; [by apply (acked_ok st s0 a base)|]. destruct (chain_le _ _ _ _ _ _ Hc1).
  split; simpl; try done.
  - destruct acked; [by symmetry|auto].
  - rewrite Ha, bool_decide_false by done. split; [done|]. by destruct rest.
Qed.

Lemma receive_rst_ok st s a base msg :
  sender_ok st s a base → rRST msg = true →
  sender_ok st (receive msg s) (spec_set_error a) (next_seqno_ s).
Proof.
  intros R Hr. pose proof (so_next_bound R). unfold receive. rewrite Hr. destruct R.
  split; simpl; try done; [by apply set_error_refines|lia|lia].
Qed.

(** A message a receiver can send. *)
Definition reply_ok (msg : TCPReceiverMessage) : Prop :=
  is_u16 (window_size msg) ∧ ∀ ackno, TCPMessages.ackno msg = Some ackno → wf ackno.

Lemma sender_total st s a base msg :
  sender_ok st s a base → reply_ok msg →
  ∃ a' base', sender_ok st (receive msg s) a' base' ∧
    a' = if rRST msg then spec_set_error a else a.
Proof.
  intros R [Hw Ha]. destruct (rRST msg) eqn:Hr.
  - eexists _, _. split; [by eapply receive_rst_ok|done].
  - destruct (receive_ok st s a base msg) as (base'&acked&?&?); [done..|]. by exists a, base'.
Qed.

(** * Retransmission *)

Lemma tick_ok st s a base ms :
  sender_ok st s a base → sender_ok st (tick ms s).1 a base.
Proof.
  intros R. unfold tick.
  set (s0 := with_timer _ s). assert (sender_ok st s0 a base) as R0.
  { destruct R. split; simpl; try done. rewrite <- so_running0. apply Timer.tick_is_running. }
  destruct (negb _); [done|]. destruct (outstanding_ s0) as [|m rest] eqn:Ho; [done|].
  clearbody s0. simpl. assert (sender_ok st (if zero_window_ s0 then s0 else
    with_timer Timer.RetransmissionTimer.record_retransmission s0) a base) as R1.
  { destruct (zero_window_ s0) eqn:?; [done|]. destruct R0. by split. }
  assert (outstanding_ (if zero_window_ s0 then s0 else
    with_timer Timer.RetransmissionTimer.record_retransmission s0) = m :: rest) as Ho1
    by (by destruct (zero_window_ s0)).
  destruct R1. split; simpl; try done. by rewrite Ho1.
Qed.

Lemma tick_next ms s : next_seqno_ (tick ms s).1 = next_seqno_ s.
Proof.
  unfold tick. destruct (negb _); [done|]. simpl. destruct (outstanding_ s); [done|].
  simpl. by destruct (zero_window_ s).
Qed.

(** What a tick and an acknowledgement never touch. *)
Lemma tick_same ms s s' sent :
  tick ms s = (s', sent) →
  isn_ s' = isn_ s ∧ outstanding_ s' = outstanding_ s ∧ next_seqno_ s' = next_seqno_ s ∧
  syn_sent_ s' = syn_sent_ s ∧ fin_sent_ s' = fin_sent_ s ∧
  (sent = [] ∨ ∃ m rest, outstanding_ s = m :: rest ∧ sent = [m]).
Proof.
  unfold tick. destruct (negb _); [intros [= <- <-]; naive_solver|]. simpl.
  destruct (outstanding_ s) as [|m rest] eqn:Ho; [intros [= <- <-]; naive_solver|].
  intros [= <- <-]. simpl. destruct (zero_window_ s); simpl; naive_solver.
Qed.

Lemma receive_same msg s :
  isn_ (receive msg s) = isn_ s ∧ next_seqno_ (receive msg s) = next_seqno_ s ∧
  syn_sent_ (receive msg s) = syn_sent_ s ∧ fin_sent_ (receive msg s) = fin_sent_ s.
Proof.
  unfold receive. destruct (rRST msg); [done|]. cbv zeta. destruct (ackno msg); [|done].
  case_bool_decide; [done|]. simpl. destruct (ack_loop _ _ _ _ _) as [[rest fl] []]; [|done].
  by destruct (bool_decide (rest = [])).
Qed.

(** Writing, closing and failing the input from the application's side. *)
Lemma write_ok st s a base d :
  sender_ok st s a base →
  ztake (room a) d = slice st (zlen (written a)) (zlen (ztake (room a) d)) →
  zlen (written a) + zlen (ztake (room a) d) < 2 ^ 62 →
  sender_ok st (with_input (Writer.push d) s) (spec_push d a) base.
Proof.
  intros R Hd Hb. destruct R. split; simpl; try done.
  - by apply push_refines.
  - rewrite so_written0, Hd at 1. rewrite zlen_app. apply slice_app'; zlen.
  - by rewrite zlen_app.
Qed.

Lemma close_input_ok st s a base :
  sender_ok st s a base → sender_ok st (with_input Writer.close s) (spec_close a) base.
Proof. intros R. destruct R. split; simpl; try done. by apply close_refines. Qed.
Lemma set_error_input_ok st s a base :
  sender_ok st s a base → sender_ok st (with_input set_error s) (spec_set_error a) base.
Proof. intros R. destruct R. split; simpl; try done. by apply set_error_refines. Qed.

(** ** Backoff *)

Fixpoint ticks (mss : list Z) (s : TCPSender) : TCPSender * list TCPSenderMessage :=
  match mss with
  | [] => (s, [])
  | ms :: mss =>
      let '(s, sent) := tick ms s in
      let '(s, more) := ticks mss s in (s, sent ++ more)
  end.

(** The gaps between retransmissions, doubling from [r]. *)
Fixpoint doubling (n : nat) (r : Z) : list Z :=
  match n with O => [] | S n => r :: doubling n (2 * r) end.

(** A timer just restarted with an open window and data outstanding. *)
Definition armed (r c : Z) (ms : list TCPSenderMessage) (s : TCPSender) : Prop :=
  Timer.running_ (Timer.timer_ (timer_ s)) = true ∧
  Timer.elapsed_ms_ (Timer.timer_ (timer_ s)) = 0 ∧
  Timer.RetransmissionTimer.rto (timer_ s) = r ∧ consecutive_retransmissions s = c ∧
  zero_window_ s = false ∧ outstanding_ s = ms.

Lemma armed_tick r c m ms s :
  armed r c (m :: ms) s → 0 ≤ r → 2 * r < 2 ^ 64 → 0 ≤ c < 2 ^ 64 - 1 →
  ∃ s', tick r s = (s', [m]) ∧ armed (2 * r) (c + 1) (m :: ms) s'.
Proof.
  intros (Hrun&Hel&Hr&Hc&Hz&Ho) H0 Hb Hcb. unfold tick.
  unfold consecutive_retransmissions, Timer.RetransmissionTimer.consecutive_retransmissions,
    Timer.RetransmissionTimer.is_expired, Timer.RetransmissionTimer.rto, Timer.Timer.is_expired in *.
  cbn. rewrite Timer.tick_running by (rewrite ?Hel; done || lia). cbn.
  rewrite Hel, Hr, Hz, Ho, bool_decide_true by lia. cbn.
  eexists. split; [done|]. unfold armed. cbn.
  unfold Timer.RetransmissionTimer.rto, consecutive_retransmissions,
    Timer.RetransmissionTimer.consecutive_retransmissions. cbn.
  rewrite Timer.tick_timeout. unfold Timer.Timer.timeout_ms. rewrite Hr, Hc.
  split_and!; try done; rewrite u64_small by (unfold is_u64; lia); lia.
Qed.

(** * Properties *)

(** C15: [push] returns (no exception, no endless loop), passes to [transmit]
    consecutive segments of the stream starting at [next_seqno_], none past
    the right edge of the window the peer granted (a closed window counting
    as one), puts exactly these in the outstanding queue, sends the
    FIN only after the last byte, and stops only when the window is full, the
    FIN is out, or nothing is left to send. *)
Theorem sender_push st s a base :
  sender_ok st s a base →
  ∃ s' sent a', push s = Ok (s', sent) ∧ sender_ok st s' a' base ∧
    taken (a := a) a' ∧ advanced (st := st) (s := s) (a := a) s' a' sent ∧
    next_seqno_ s' ≤ Z.max (next_seqno_ s) (base + effective_window s) ∧
    (fin_sent_ s' = true → fin_sent_ s = true ∨ unread a' = []) ∧
    (base + effective_window s ≤ next_seqno_ s' ∨ fin_sent_ s' = true ∨ drained s' a').
Proof. apply push_ok. Qed.

(** C16: [receive] takes the window of the message, drops from the outstanding
    queue exactly the segments that lie wholly before the ackno (none when the
    ackno is missing or ahead of what was sent), keeps the in-flight count the
    number of unacknowledged sequence numbers, and on new acknowledgements
    resets the backoff and restarts the timer, or stops it when nothing is
    outstanding; a reset empties the queue, stops the timer and puts the
    stream in error. *)
Theorem sender_receive st s a base msg :
  sender_ok st s a base → is_u16 (window_size msg) →
  (∀ ackno, TCPMessages.ackno msg = Some ackno → wf ackno) →
  let s' := receive msg s in
  if rRST msg then
    sender_ok st s' (spec_set_error a) (next_seqno_ s) ∧ outstanding_ s' = [] ∧
    bytes_in_flight_ s' = 0 ∧ Timer.RetransmissionTimer.is_running (timer_ s') = false
  else
    ∃ base' acked, sender_ok st s' a base' ∧ acknowledged msg s s' base base' acked.
Proof.
  intros R Hw Hwf s'. destruct (rRST msg) eqn:Hr; [|by apply receive_ok].
  split; [by eapply receive_rst_ok|]. unfold s', receive. by rewrite Hr.
Qed.

(** C17: [tick] retransmits exactly the oldest outstanding segment, and only
    when the timer runs and has reached its timeout; it then restarts the
    timer with the timeout doubled and one more retransmission counted, unless
    the window is closed, in which case both stay.  The queue, the window and
    the sequence numbers never change. *)
Theorem sender_tick st s a base ms :
  sender_ok st s a base → 0 ≤ ms →
  0 ≤ Timer.elapsed_ms_ (Timer.timer_ (timer_ s)) →
  Timer.elapsed_ms_ (Timer.timer_ (timer_ s)) + ms < 2 ^ 64 →
  let t := timer_ s in
  let due := bool_decide (outstanding_ s ≠ []) &&
    bool_decide (Timer.elapsed_ms_ (Timer.timer_ t) + ms >= Timer.RetransmissionTimer.rto t) in
  let '(s', sent) := tick ms s in
  sender_ok st s' a base ∧ outstanding_ s' = outstanding_ s ∧
  next_seqno_ s' = next_seqno_ s ∧
  sent = (if due then ztake 1 (outstanding_ s) else []) ∧
  Timer.elapsed_ms_ (Timer.timer_ (timer_ s')) =
    (if due then 0 else if bool_decide (outstanding_ s = []) then Timer.elapsed_ms_ (Timer.timer_ t)
     else Timer.elapsed_ms_ (Timer.timer_ t) + ms) ∧
  Timer.RetransmissionTimer.rto (timer_ s') =
    (if due && negb (zero_window_ s) then u64 (Timer.RetransmissionTimer.rto t * 2)
     else Timer.RetransmissionTimer.rto t) ∧
  consecutive_retransmissions s' =
    (if due && negb (zero_window_ s) then u64 (consecutive_retransmissions s + 1)
     else consecutive_retransmissions s).
Proof.
  intros R H0 He Hb t due. pose proof (tick_ok st s a base ms R) as R'.
  pose proof (so_running R) as Hrun. rewrite bool_decide_nil. subst due t.
  rewrite bool_decide_ne_nil in Hrun |- *.
  destruct (tick ms s) as [s' sent] eqn:Ht. split; [done|]. clear R'. revert Ht.
  unfold tick, consecutive_retransmissions, Timer.RetransmissionTimer.is_running,
    Timer.RetransmissionTimer.is_expired, Timer.RetransmissionTimer.rto, Timer.Timer.is_expired,
    Timer.Timer.is_running in *. cbn.
  destruct (outstanding_ s) as [|m rest] eqn:Ho.
  { rewrite Timer.tick_stopped, Hrun by done. cbn. intros [= <- <-]. cbn.
    by rewrite Timer.tick_stopped. }
  rewrite Timer.tick_running by done. cbn.
  case_bool_decide as Hx; cbn; [destruct (zero_window_ s)|]; intros [= <- <-]; cbn;
    by rewrite ?Timer.tick_running.
Qed.

(** Without acknowledgements the oldest segment is sent again after one
    timeout, then after gaps that double each time: [n] retransmissions take
    the gaps r, 2r, 4r, ..., are counted one by one, and leave the timeout at
    2^n times its start (as long as that fits in 64 bits). *)
Theorem sender_backoff n r c m ms s :
  armed r c (m :: ms) s → 0 ≤ r → 0 ≤ c → r * 2 ^ Z.of_nat n < 2 ^ 64 → c + Z.of_nat n < 2 ^ 64 →
  ∃ s', ticks (doubling n r) s = (s', replicate n m) ∧
    armed (r * 2 ^ Z.of_nat n) (c + Z.of_nat n) (m :: ms) s'.
Proof.
  revert r c s. induction n as [|n IH]; intros r c s Ha Hr Hc Hb Hcb.
  { exists s. simpl. rewrite Z.mul_1_r, Z.add_0_r. done. }
  rewrite Nat2Z.inj_succ in *. rewrite Z.pow_succ_r in * by lia.
  assert (1 ≤ 2 ^ Z.of_nat n) by (apply (Z.pow_le_mono_r 2 0); lia).
  destruct (armed_tick r c m ms s Ha) as (s1&He&Ha1); [done|nia|lia|].
  destruct (IH (2 * r) (c + 1) s1 Ha1) as (s2&He2&Ha2); [lia|lia|lia|lia|].
  exists s2. cbn [ticks doubling]. rewrite He, He2. split; [done|].
  replace (r * (2 * 2 ^ Z.of_nat n)) with (2 * r * 2 ^ Z.of_nat n) by lia.
  by replace (c + Z.succ (Z.of_nat n)) with (c + 1 + Z.of_nat n) by lia.
Qed.

(** A sender with five bytes to send, and the same after its first [push]. *)
Definition demo_sender : TCPSender :=
  with_input Writer.close (with_input (Writer.push (slice demo_stream 0 5))
    (new_sender (ByteStream.new 8) (mkWrap32 137) 1000)).
Definition demo_input : stream := spec_close (spec_push (slice demo_stream 0 5) (spec_new 8)).
Definition demo_pushed : TCPSender :=
  match push demo_sender with Ok (s, _) => s | Err _ => demo_sender end.
Definition demo_syn : TCPSenderMessage := mkTCPSenderMessage (mkWrap32 137) true [] false false.

Lemma demo_sender_ok : sender_ok demo_stream demo_sender demo_input 0.
Proof. apply close_input_ok, write_ok; [by apply new_sender_ok|by vm_compute..]. Qed.

Lemma demo_pushed_ok : ∃ a, sender_ok demo_stream demo_pushed a 0.
Proof.
  destruct (push_ok _ _ _ _ demo_sender_ok) as (s'&sent&a'&He&R&_).
  exists a'. unfold demo_pushed. by rewrite He.
Qed.

Lemma sender_push_witness :
  ∃ s' sent a', push demo_sender = Ok (s', sent) ∧ sender_ok demo_stream s' a' 0 ∧
    taken (a := demo_input) a' ∧
    advanced (st := demo_stream) (s := demo_sender) (a := demo_input) s' a' sent ∧
    next_seqno_ s' ≤ 1 ∧ (fin_sent_ s' = true → fin_sent_ demo_sender = true ∨ unread a' = []) ∧
    (1 ≤ next_seqno_ s' ∨ fin_sent_ s' = true ∨ drained s' a').
Proof. exact (sender_push _ _ _ _ demo_sender_ok). Defined.

Lemma sender_receive_witness :
  ∃ a base' acked, let msg := mkTCPReceiverMessage (Some (mkWrap32 138)) 3 false in
    sender_ok demo_stream (receive msg demo_pushed) a base' ∧
    acknowledged msg demo_pushed (receive msg demo_pushed) 0 base' acked.
Proof.
  destruct demo_pushed_ok as [a R]. exists a.
  refine (sender_receive _ _ _ _ (mkTCPReceiverMessage (Some (mkWrap32 138)) 3 false) R _ _);
    [by unfold is_u16|]. intros ackno [= <-]. by unfold wf, is_u32.
Defined.

Lemma sender_tick_witness :
  ∃ a, sender_ok demo_stream (tick 1000 demo_pushed).1 a 0 ∧
    (tick 1000 demo_pushed).2 = [demo_syn].
Proof.
  destruct demo_pushed_ok as [a R]. exists a.
  pose proof (sender_tick _ _ _ _ 1000 R ltac:(done)) as H.
  split; [|by vm_compute]. destruct (tick 1000 demo_pushed) as [s' sent].
  apply H; by vm_compute.
Defined.

Lemma sender_backoff_witness :
  ∃ s', ticks (doubling 3 1000) demo_pushed = (s', replicate 3 demo_syn) ∧
    armed 8000 3 [demo_syn] s'.
Proof.
  refine (sender_backoff 3 1000 0 demo_syn [] demo_pushed _ _ _ _ _); [|lia..].
  split_and!; by vm_compute.
Defined.
