(* ===== verification/TCPPeer.v ===== *)
(** One end of a connection (src/util/tcp_peer.hh): a sender and a receiver
    that piggyback on each other's segments, with the rules for replying,
    closing and lingering. *)

From S2P Require Import Prelude Interfaces WrappingIntegers TCPMessages ByteStream.
From S2P Require Reassembler TCPReceiver TCPSender.

(** * The class *)

Record TCPPeer : Type := mkTCPPeer {
  cfg_ : TCPConfig;
  sender_ : TCPSender.TCPSender;
  receiver_ : TCPReceiver.TCPReceiver ByteStream;
  need_send_ : bool;
  linger_after_streams_finish_ : bool;
  cumulative_time_ : Z;
  time_of_last_receipt_ : Z;
}.

Definition new_peer (cfg : TCPConfig) : TCPPeer :=
  mkTCPPeer cfg
    (TCPSender.new_sender (ByteStream.new (send_capacity cfg)) (isn cfg) (rt_timeout cfg))
    (TCPReceiver.new_receiver (Reassembler.new_reassembler (ByteStream.new (recv_capacity cfg))))
    false true 0 0.

Definition with_sender (s : TCPSender.TCPSender) (p : TCPPeer) : TCPPeer :=
  mkTCPPeer (cfg_ p) s (receiver_ p) (need_send_ p) (linger_after_streams_finish_ p)
    (cumulative_time_ p) (time_of_last_receipt_ p).
Definition with_receiver (r : TCPReceiver.TCPReceiver ByteStream) (p : TCPPeer) : TCPPeer :=
  mkTCPPeer (cfg_ p) (sender_ p) r (need_send_ p) (linger_after_streams_finish_ p)
    (cumulative_time_ p) (time_of_last_receipt_ p).
Definition with_need_send (b : bool) (p : TCPPeer) : TCPPeer :=
  mkTCPPeer (cfg_ p) (sender_ p) (receiver_ p) b (linger_after_streams_finish_ p)
    (cumulative_time_ p) (time_of_last_receipt_ p).
Definition with_linger (b : bool) (p : TCPPeer) : TCPPeer :=
  mkTCPPeer (cfg_ p) (sender_ p) (receiver_ p) (need_send_ p) b
    (cumulative_time_ p) (time_of_last_receipt_ p).
Definition with_times (now last : Z) (p : TCPPeer) : TCPPeer :=
  mkTCPPeer (cfg_ p) (sender_ p) (receiver_ p) (need_send_ p) (linger_after_streams_finish_ p)
    now last.

(** [outbound_writer()] and [inbound_reader()], as updates. *)
Definition outbound_writer (f : ByteStream → ByteStream) (p : TCPPeer) : TCPPeer :=
  with_sender (TCPSender.with_input f (sender_ p)) p.
Definition inbound_reader (f : ByteStream → result ByteStream) (p : TCPPeer) : result TCPPeer :=
  let r := receiver_ p in
  let reasm := TCPReceiver.reassembler_ r in
  s ← f (Reassembler.output_ reasm);
  Ok (with_receiver
        (TCPReceiver.mkTCPReceiver
           (Reassembler.mkReassembler s (Reassembler.pending_ reasm) (Reassembler.end_index_ reasm)
              (Reassembler.eof_seen_ reasm)) (TCPReceiver.isn_ r)) p).
Definition inbound (p : TCPPeer) : ByteStream := TCPReceiver.writer (receiver_ p).
Definition outbound (p : TCPPeer) : ByteStream := TCPSender.input_ (sender_ p).

(** [send]: the messages passed to [transmit] with the peer's reply, each of
    them clearing [need_send_]. *)
Definition send (msgs : list TCPSenderMessage) (p : TCPPeer) : TCPPeer * list TCPMessage :=
  (with_need_send (match msgs with [] => need_send_ p | _ => false end) p,
   (λ m, mkTCPMessage m (TCPReceiver.send (receiver_ p))) <$> msgs).

Definition push (p : TCPPeer) : result (TCPPeer * list TCPMessage) :=
  '(s, sent) ← TCPSender.push (sender_ p);
  Ok (send sent (with_sender s p)).

Definition tick (t : Z) (p : TCPPeer) : TCPPeer * list TCPMessage :=
  let p := with_times (u64 (cumulative_time_ p + t)) (time_of_last_receipt_ p) p in
  let '(s, sent) := TCPSender.tick t (sender_ p) in
  send sent (with_sender s p).

Definition has_ackno (p : TCPPeer) : bool :=
  bool_decide (ackno (TCPReceiver.send (receiver_ p)) ≠ None).

Definition active (p : TCPPeer) : bool :=
  let any_errors := has_error (inbound p) || has_error (outbound p) in
  let sender_active :=
    bool_decide (TCPSender.sequence_numbers_in_flight (sender_ p) ≠ 0)
    || negb (Reader.is_finished (outbound p)) in
  let receiver_active := negb (Writer.is_closed (inbound p)) in
  let lingering :=
    linger_after_streams_finish_ p
    && bool_decide (cumulative_time_ p < u64 (time_of_last_receipt_ p + u64 (10 * rt_timeout (cfg_ p)))) in
  negb any_errors && (sender_active || receiver_active || lingering).

(** [void receive( TCPMessage msg, const TransmitFunction& transmit )]. *)
Definition receive (msg : TCPMessage) (p : TCPPeer) : result (TCPPeer * list TCPMessage) :=
  if negb (active p) then Ok (p, [])
  else
    let p := with_times (cumulative_time_ p) (cumulative_time_ p) p in
    let need_send := need_send_ p || bool_decide (sequence_length (sender msg) > 0) in
    let need_send :=
      need_send ||
      match ackno (TCPReceiver.send (receiver_ p)) with
      | Some our_ackno => Wrap32.eqb (Wrap32.add (seqno (sender msg)) 1) our_ackno
      | None => false
      end in
    let p := with_need_send need_send p in
    r ← TCPReceiver.receive (sender msg) (receiver_ p);
    let p := with_receiver r p in
    let p := with_sender (TCPSender.receive (receiver msg) (sender_ p)) p in
    '(p, sent) ← push p;
    let '(p, sent) :=
      if need_send_ p then
        let '(p, reply) := send [TCPSender.make_empty_message (sender_ p)] p in (p, sent ++ reply)
      else (p, sent) in
    let p :=
      if Writer.is_closed (inbound p) && negb (Reader.is_finished (outbound p))
      then with_linger false p else p in
    Ok (p, sent).

(** * The invariant *)

(** Both halves represent their streams: [a] is what the application writes,
    [k] what the receiver has put together. *)
Definition peer_ok (st : Z → byte) (p : TCPPeer) (a : stream) (base : Z) (k : sink) : Prop :=
  TCPSender.sender_ok st (sender_ p) a base ∧ TCPReceiver.receiver_ok (receiver_ p) k.

Definition message_ok (msg : TCPMessage) (k : sink) : Prop :=
  wf (seqno (sender msg)) ∧ TCPSender.reply_ok (receiver msg) ∧
  Reassembler.window_end k + zlen (payload (sender msg)) ≤ 2 ^ 64.

(** The configuration's integers are in range for their types. *)
Definition config_ok (cfg : TCPConfig) : Prop :=
  is_u16 (rt_timeout cfg) ∧ is_u64 (send_capacity cfg) ∧ is_u64 (recv_capacity cfg) ∧ wf (isn cfg).

Section peer.
Context {st : Z → byte} {p : TCPPeer} {a : stream} {base : Z} {k : sink} (P : peer_ok st p a base k).

Lemma inbound_error : has_error (inbound p) = sink_error k.
Proof. exact (Reassembler.has_error_ok _ _ (proj1 (proj2 P))). Qed.
Lemma inbound_closed : Writer.is_closed (inbound p) = sink_closed k.
Proof. exact (sw_is_closed_law _ _ (TCPReceiver.writer_models _ _ (proj2 P))). Qed.
Lemma outbound_error : has_error (outbound p) = err a.
Proof. apply (ref_error _ _ (TCPSender.so_input (proj1 P))). Qed.
Lemma outbound_finished : Reader.is_finished (outbound p) = fin a && bool_decide (unread a = []).
Proof. apply is_finished_refines, (TCPSender.so_input (proj1 P)). Qed.

(** Whether the outbound stream is closed and every number of it sent was
    acknowledged. *)
Definition outbound_done : bool :=
  fin a && bool_decide (unread a = []) && bool_decide (base = TCPSender.next_seqno_ (sender_ p)).

Definition lingering : bool :=
  linger_after_streams_finish_ p
  && bool_decide (cumulative_time_ p < time_of_last_receipt_ p + 10 * rt_timeout (cfg_ p)).

Lemma active_ok :
  is_u16 (rt_timeout (cfg_ p)) → 0 ≤ time_of_last_receipt_ p < 2 ^ 63 →
  active p = negb (sink_error k || err a) &&
    (negb (outbound_done && sink_closed k) || lingering).
Proof.
  intros Hrt Ht. unfold active.
  rewrite inbound_error, outbound_error, inbound_closed, outbound_finished.
  unfold is_u16 in Hrt. rewrite (u64_small (10 * _)), u64_small by (unfold is_u64; lia).
  fold lingering. f_equal. f_equal. unfold outbound_done, TCPSender.sequence_numbers_in_flight.
  rewrite (TCPSender.so_flight (proj1 P)).
  rewrite (bool_decide_ext (TCPSender.next_seqno_ (sender_ p) - base ≠ 0)
    (¬ base = TCPSender.next_seqno_ (sender_ p))) by lia.
  rewrite bool_decide_not.
  by destruct (fin a), (bool_decide (unread a = [])), (sink_closed k), (bool_decide (base = _)).
Qed.

Lemma push_peer_ok :
  ∃ p' sent a', push p = Ok (p', sent) ∧ peer_ok st p' a' base k ∧
    TCPSender.taken (a := a) a' ∧ receiver_ p' = receiver_ p ∧
    need_send_ p' = need_send_ p && bool_decide (sent = []) ∧
    linger_after_streams_finish_ p' = linger_after_streams_finish_ p ∧
    cfg_ p' = cfg_ p ∧ cumulative_time_ p' = cumulative_time_ p ∧
    time_of_last_receipt_ p' = time_of_last_receipt_ p ∧
    Forall (λ m, receiver m = TCPReceiver.send (receiver_ p)) sent.
Proof.
  destruct P as [R Hr]. destruct (TCPSender.push_ok st _ a base R) as (s'&sent&a'&He&R'&T&_).
  unfold push. rewrite He. simpl. eexists _, _, a'. split; [done|].
  split; [done|]. split; [done|]. rewrite bool_decide_nil.
  split_and!; try done; [by destruct sent; simpl; rewrite ?andb_true_r, ?andb_false_r|].
  apply Forall_fmap, Forall_true. done.
Qed.
End peer.

(** * [receive] *)

(** The messages that must be answered: those that occupy a sequence number
    and the keep-alives, one before the next number expected. *)
Definition must_reply (msg : TCPMessage) (p : TCPPeer) : bool :=
  need_send_ p || bool_decide (sequence_length (sender msg) > 0)
  || match ackno (TCPReceiver.send (receiver_ p)) with
     | Some our_ackno => Wrap32.eqb (Wrap32.add (seqno (sender msg)) 1) our_ackno
     | None => false
     end.

(** The state between taking the message in and answering. *)
Definition taken_in (msg : TCPMessage) (r : TCPReceiver.TCPReceiver ByteStream) (p : TCPPeer)
    : TCPPeer :=
  with_sender (TCPSender.receive (receiver msg) (sender_ p))
    (with_receiver r (with_need_send (must_reply msg p)
      (with_times (cumulative_time_ p) (cumulative_time_ p) p))).

Lemma taken_in_ok st p a base k msg :
  peer_ok st p a base k → message_ok msg k →
  ∃ r a' base' k', TCPReceiver.receive (sender msg) (receiver_ p) = Ok r ∧
    peer_ok st (taken_in msg r p) a' base' k'.
Proof.
  intros [R Hr] (Hs&Hrep&Hb).
  destruct (TCPReceiver.receiver_total (receiver_ p) k (sender msg) Hr Hs Hb) as (r&k'&He&Hr').
  destruct (TCPSender.sender_total st _ a base (receiver msg) R Hrep) as (a'&base'&R'&_).
  by exists r, a', base', k'.
Qed.

Lemma reply_peer_ok st p a base k msgs :
  peer_ok st p a base k → peer_ok st (send msgs p).1 a base k.
Proof. done. Qed.

(** * Properties *)

(** C18: a peer that is no longer active ignores everything; an active one
    returns from [receive] with both halves intact, has answered whenever the
    message occupies sequence numbers or is a keep-alive, puts its latest
    acknowledgement and window on every segment it sends, owes no reply
    afterwards, and gives up lingering exactly when the inbound stream closed
    before the outbound one finished. *)
Theorem peer_receive st p a base k msg :
  peer_ok st p a base k → message_ok msg k →
  ∃ p' sent a' base' k', receive msg p = Ok (p', sent) ∧ peer_ok st p' a' base' k' ∧
    if active p then
      (must_reply msg p = true → sent ≠ []) ∧ need_send_ p' = false ∧
      Forall (λ m, receiver m = TCPReceiver.send (receiver_ p')) sent ∧
      time_of_last_receipt_ p' = cumulative_time_ p ∧
      linger_after_streams_finish_ p' =
        linger_after_streams_finish_ p &&
        negb (Writer.is_closed (inbound p') && negb (Reader.is_finished (outbound p')))
    else p' = p ∧ sent = [].
Proof.
  intros P Hm. unfold receive. destruct (active p) eqn:Ha; simpl; cycle 1.
  { by exists p, [], a, base, k. }
  destruct (taken_in_ok st p a base k msg P Hm) as (r&a1&base1&k1&He&P1). 
  cbn [receiver_ with_need_send with_times]. rewrite He. cbn [mbind result_bind].
  match goal with |- context [push ?q] => change (push q) with (push (taken_in msg r p)) end.
  destruct (push_peer_ok P1) as (p2&sent&a2&Hpush&P2&_&Hr2&Hn2&Hl2&_&_&Ht2&Hf2).
  rewrite Hpush. cbn [mbind result_bind send fmap list_fmap].
  assert (∃ p3 sent3, (if need_send_ p2 then
      (with_need_send false p2, sent ++ [mkTCPMessage (TCPSender.make_empty_message (sender_ p2))
        (TCPReceiver.send (receiver_ p2))]) else (p2, sent)) = (p3, sent3) ∧
    peer_ok st p3 a2 base1 k1 ∧ need_send_ p3 = false ∧ receiver_ p3 = receiver_ p2 ∧
    (must_reply msg p = true → sent3 ≠ []) ∧
    linger_after_streams_finish_ p3 = linger_after_streams_finish_ p ∧
    time_of_last_receipt_ p3 = cumulative_time_ p ∧
    Forall (λ m, receiver m = TCPReceiver.send (receiver_ p2)) sent3)
    as (p3&sent3&->&P3&Hn3&Hr3&Hs3&Hl3&Ht3&Hf3).
  { rewrite <- Hr2 in Hf2. simpl in Hn2. rewrite Hn2. rewrite bool_decide_nil.
    destruct (must_reply msg p), sent as [|m sent]; simpl; eexists _, _;
      (split; [done|]); split_and!; try done; by constructor. }
  destruct (Writer.is_closed (inbound p3)) eqn:Hc, (Reader.is_finished (outbound p3)) eqn:Hfi;
    cbn [andb negb]; eexists _, sent3, a2, base1, k1; (split; [done|]); (split; [done|]);
    change (inbound (with_linger ?b p3)) with (inbound p3);
    change (outbound (with_linger ?b p3)) with (outbound p3);
    simpl; rewrite ?Hc, ?Hfi, ?andb_true_r, ?andb_false_r, ?Hr3; by split_and!.
Qed.

(** C19: when a peer stops: with both streams finished and acknowledged and no
    error it stays active just while it lingers, less than ten timeouts after
    the last message it received; an error ends it at once; otherwise it stays
    active. *)
Theorem peer_lifetime st p a base k t :
  peer_ok st p a base k → is_u16 (rt_timeout (cfg_ p)) → 0 ≤ time_of_last_receipt_ p < 2 ^ 63 →
  0 ≤ cumulative_time_ p → 0 ≤ t → cumulative_time_ p + t < 2 ^ 64 →
  let '(p', sent) := tick t p in
  peer_ok st p' a base k ∧ cumulative_time_ p' = cumulative_time_ p + t ∧
  active p' = negb (sink_error k || err a) &&
    (negb (outbound_done (p := p) (a := a) (base := base) && sink_closed k)
     || linger_after_streams_finish_ p
        && bool_decide (cumulative_time_ p + t < time_of_last_receipt_ p + 10 * rt_timeout (cfg_ p))).
Proof.
  intros P Hrt Ht Hc Ht0 Hb. unfold tick.
  pose proof (TCPSender.tick_ok st _ a base t (proj1 P)) as R'.
  pose proof (TCPSender.tick_next t (sender_ p)) as Hn.
  rewrite u64_small by (unfold is_u64; lia).
  cbn [sender_ with_times]. destruct (TCPSender.tick t (sender_ p)) as [s' sent]. cbn in R', Hn.
  set (p' := with_sender s' _). assert (peer_ok st (send sent p').1 a base k) as P'.
  { split; [done|]. apply P. }
  split; [done|]. split; [done|].
  etransitivity; [exact (active_ok P' Hrt Ht)|]. unfold outbound_done. cbn. by rewrite Hn.
Qed.

(** * A fresh peer *)

Lemma new_peer_ok st cfg :
  config_ok cfg →
  peer_ok st (new_peer cfg) (spec_new (send_capacity cfg)) 0 (mkSink [] (recv_capacity cfg) false false).
Proof.
  intros (Hrt&Hs&Hr&Hz). split; simpl.
  - apply TCPSender.new_sender_ok; [done..|]. unfold is_u16, is_u64 in *. lia.
  - split; [by apply Reassembler.new_reasm_ok|done].
Qed.

Lemma default_config_ok : config_ok default_config.
Proof. by vm_compute. Qed.

Definition demo_message : TCPMessage :=
  mkTCPMessage (mkTCPSenderMessage (mkWrap32 5000) true [] false false)
    (mkTCPReceiverMessage None 1000 false).

Lemma peer_receive_witness :
  ∃ p' sent a' base' k', receive demo_message (new_peer default_config) = Ok (p', sent) ∧
    peer_ok demo_stream p' a' base' k' ∧
    (must_reply demo_message (new_peer default_config) = true → sent ≠ []) ∧
    need_send_ p' = false.
Proof.
  destruct (peer_receive demo_stream (new_peer default_config) _ _ _ demo_message
    (new_peer_ok _ _ default_config_ok)) as (p'&sent&a'&base'&k'&He&P'&Hs&Hn&_).
  - split_and!; [by unfold wf, is_u32|by split_and!|by vm_compute].
  - by exists p', sent, a', base', k'.
Defined.

Lemma peer_lifetime_witness :
  peer_ok demo_stream (tick 500 (new_peer default_config)).1 (spec_new 64000) 0
    (mkSink [] 64000 false false) ∧
  active (tick 500 (new_peer default_config)).1 = true.
Proof.
  pose proof (peer_lifetime demo_stream (new_peer default_config) _ _ _ 500
    (new_peer_ok _ _ default_config_ok)) as H.
  split; [|by vm_compute]. destruct (tick 500 (new_peer default_config)) as [p' sent].
  apply H; by vm_compute.
Defined.

(** A full exchange: two peers, the handshake and one payload. *)
Definition deliver (msgs : list TCPMessage) (p : TCPPeer) : result (TCPPeer * list TCPMessage) :=
  fold_left (λ acc m, '(p, out) ← acc; '(p, sent) ← receive m p; Ok (p, out ++ sent))
    msgs (Ok (p, [])).

Example demo_exchange :
  ('(c, m1) ← push (new_peer default_config);
   '(s, m2) ← deliver m1 (new_peer default_config);
   '(c, m3) ← deliver m2 c;
   '(s, _) ← deliver m3 s;
   '(c, m4) ← push (outbound_writer (Writer.push (slice demo_stream 0 1500)) c);
   '(s, m5) ← deliver m4 s;
   '(c, _) ← deliver m5 c;
   Ok (zlen m4, zlen (content (inbound s)),
       TCPSender.sequence_numbers_in_flight (sender_ c), active s))
  = Ok (2, 1500, 0, true).
Proof. vm_compute. reflexivity. Qed.
