(* ===== verification/Connection.v ===== *)
(** One direction of a connection over a bad network: a [TCPSender] and a
    [TCPReceiver] with every segment and every acknowledgement ever sent kept
    in a bag, from which they may arrive any number of times and in any order,
    or never. *)

From S2P Require Import Prelude Interfaces WrappingIntegers TCPMessages ByteStream.
From S2P Require Import Reassembler.
From S2P Require TCPReceiver TCPSender.

(** * The system *)

Record net : Type := mkNet {
  snd_ : TCPSender.TCPSender;
  segs_ : list TCPSenderMessage;       (* every segment sent so far *)
  rcv_ : TCPReceiver.TCPReceiver ByteStream;
  acks_ : list TCPReceiverMessage;     (* every reply sent so far *)
}.

Definition init (z : Wrap32) (send_cap recv_cap rto : Z) : net :=
  mkNet (TCPSender.new_sender (ByteStream.new send_cap) z rto) []
    (TCPReceiver.new_receiver (new_reassembler (ByteStream.new recv_cap))) [].

(** [reader().pop( len )] on the receiving side. *)
Definition pop_inbound (len : Z) (r : TCPReceiver.TCPReceiver ByteStream)
    : result (TCPReceiver.TCPReceiver ByteStream) :=
  let reasm := TCPReceiver.reassembler_ r in
  s ← Reader.pop len (output_ reasm);
  Ok (TCPReceiver.mkTCPReceiver
        (mkReassembler s (pending_ reasm) (end_index_ reasm) (eof_seen_ reasm)) (TCPReceiver.isn_ r)).

(** What can happen. The sending application writes the stream [st] of [n]
    bytes piece by piece and closes at its end. *)
Inductive action : Type :=
  | Write (m : Z)
  | CloseInput
  | SenderPush
  | SenderTick (ms : Z)
  | Deliver (m : TCPSenderMessage)
  | Reply
  | Ack (m : TCPReceiverMessage)
  | ReadInbound (len : Z).

Definition enabled (n : Z) (x : action) (c : net) : Prop :=
  match x with
  | Write m => 0 ≤ m ∧ Writer.bytes_pushed (TCPSender.input_ (snd_ c)) + m ≤ n
  | CloseInput => Writer.bytes_pushed (TCPSender.input_ (snd_ c)) = n
  | Deliver m => m ∈ segs_ c
  | Ack m => m ∈ acks_ c
  | ReadInbound len => 0 ≤ len
  | SenderPush | SenderTick _ | Reply => True
  end.

Definition perform (st : Z → byte) (x : action) (c : net) : result net :=
  match x with
  | Write m =>
      let d := slice st (Writer.bytes_pushed (TCPSender.input_ (snd_ c))) m in
      Ok (mkNet (TCPSender.with_input (Writer.push d) (snd_ c)) (segs_ c) (rcv_ c) (acks_ c))
  | CloseInput =>
      Ok (mkNet (TCPSender.with_input Writer.close (snd_ c)) (segs_ c) (rcv_ c) (acks_ c))
  | SenderPush =>
      '(s, sent) ← TCPSender.push (snd_ c);
      Ok (mkNet s (segs_ c ++ sent) (rcv_ c) (acks_ c))
  | SenderTick ms =>
      let '(s, sent) := TCPSender.tick ms (snd_ c) in
      Ok (mkNet s (segs_ c ++ sent) (rcv_ c) (acks_ c))
  | Deliver m =>
      r ← TCPReceiver.receive m (rcv_ c);
      Ok (mkNet (snd_ c) (segs_ c) r (acks_ c))
  | Reply => Ok (mkNet (snd_ c) (segs_ c) (rcv_ c) (acks_ c ++ [TCPReceiver.send (rcv_ c)]))
  | Ack m => Ok (mkNet (TCPSender.receive m (snd_ c)) (segs_ c) (rcv_ c) (acks_ c))
  | ReadInbound len =>
      r ← pop_inbound len (rcv_ c);
      Ok (mkNet (snd_ c) (segs_ c) r (acks_ c))
  end.

Inductive reachable (st : Z → byte) (n : Z) (c0 : net) : net → Prop :=
  | reach_init : reachable st n c0 c0
  | reach_step x c c' :
      reachable st n c0 c → enabled n x c → perform st x c = Ok c' → reachable st n c0 c'.

(** * The invariant *)

(** How far the receiver has acknowledged. *)
Definition acked_to (r : TCPReceiver.TCPReceiver ByteStream) (k : sink) : Z :=
  match TCPReceiver.isn_ r with
  | Some _ => 1 + next_index k + Z.b2z (sink_closed k)
  | None => 0
  end.

(** A segment of the stream that the sender made: it carries bytes already
    taken from the input, and a FIN only after the FIN was sent. *)
Definition seg_ok z st n (s : TCPSender.TCPSender) (a : stream) (m : TCPSenderMessage) : Prop :=
  ∃ b, TCPReceiver.segment_of z st n b m ∧ b + seg_len m ≤ TCPSender.next_seqno_ s ∧
    0 < seg_len m ∧ TCPReceiver.payload_index b + zlen (payload m) ≤ nread a ∧
    (FIN m = true → TCPSender.fin_sent_ s = true).

(** A reply the receiver made, acknowledging no more than it does now. *)
Definition ack_ok z (limit : Z) (m : TCPReceiverMessage) : Prop :=
  rRST m = false ∧ is_u16 (window_size m) ∧
  ∀ w, ackno m = Some w → ∃ x, w = Wrap32.wrap x z ∧ 0 ≤ x ≤ limit.

Record net_ok z st n rcap (c : net) a base k ar : Prop := mkNetOk {
  n_snd : TCPSender.sender_ok st (snd_ c) a base;
  n_isn : TCPSender.isn_ (snd_ c) = z;
  n_err : err a = false;
  n_written : zlen (written a) ≤ n;
  n_fin : fin a = true → zlen (written a) = n;
  n_fin_sent : TCPSender.fin_sent_ (snd_ c) = true → unread a = [];
  n_out : Forall (seg_ok z st n (snd_ c) a) (TCPSender.outstanding_ (snd_ c));
  n_segs : Forall (seg_ok z st n (snd_ c) a) (segs_ c);
  n_rcv_isn z' : TCPReceiver.isn_ (rcv_ c) = Some z' → z' = z ∧ TCPSender.syn_sent_ (snd_ c) = true;
  n_hold : holding st n (nread a) (TCPReceiver.reassembler_ (rcv_ c)) k;
  n_eof : eof_seen_ (TCPReceiver.reassembler_ (rcv_ c)) = true →
            TCPSender.fin_sent_ (snd_ c) = true;
  n_rcv_err : sink_error k = false;
  n_stream : refines (output_ (TCPReceiver.reassembler_ (rcv_ c))) ar;
  n_sink : k = mkSink (written ar) (room ar) (err ar) (fin ar);
  n_cap : cap ar = rcap;
  n_acks : Forall (ack_ok z (acked_to (rcv_ c) k)) (acks_ c);
  n_base : base ≤ acked_to (rcv_ c) k;
}.

(** The sizes for which 32-bit sequence numbers identify every byte. *)
Definition sizes_ok z n rcap : Prop :=
  wf z ∧ 0 ≤ n ∧ n + 2 < 2 ^ 31 ∧ is_u64 rcap ∧ n + rcap < 2 ^ 64.

Section invariant.
Context {z : Wrap32} {st : Z → byte} {n rcap : Z} (Hz : sizes_ok z n rcap).
Context {c : net} {a : stream} {base : Z} {k : sink} {ar : stream}.
Context (N : net_ok z st n rcap c a base k ar).

Lemma net_rcv_ok : TCPReceiver.receiver_ok (rcv_ c) k.
Proof.
  destruct N. split; [by destruct n_hold0|].
  destruct (TCPReceiver.isn_ (rcv_ c)) as [z'|] eqn:Hi; [|done].
  destruct (n_rcv_isn0 z' eq_refl) as [-> _]. apply Hz.
Qed.

Lemma net_nread : 0 ≤ nread a ≤ n.
Proof. pose proof (TCPSender.so_nread (n_snd _ _ _ _ _ _ _ _ _ N)). destruct N. lia. Qed.

Lemma net_next_index : 0 ≤ next_index k ≤ nread a.
Proof. pose proof (hold_next (n_hold _ _ _ _ _ _ _ _ _ N)). unfold next_index in *. zlen. Qed.

(** The receiver never acknowledges what was not sent. *)
Lemma acked_to_le : 0 ≤ acked_to (rcv_ c) k ≤ TCPSender.next_seqno_ (snd_ c).
Proof.
  pose proof net_next_index. pose proof net_nread.
  pose proof (TCPSender.so_next (n_snd _ _ _ _ _ _ _ _ _ N)) as Hn.
  pose proof (TCPSender.so_next_bound (n_snd _ _ _ _ _ _ _ _ _ N)).
  pose proof (hold_closed (n_hold _ _ _ _ _ _ _ _ _ N)) as Hc.
  unfold acked_to. destruct (TCPReceiver.isn_ (rcv_ c)) as [z'|] eqn:Hi; [|lia].
  destruct (n_rcv_isn _ _ _ _ _ _ _ _ _ N z' Hi) as [_ Hs]. rewrite Hs in Hn. simpl in Hn.
  destruct (sink_closed k); simpl; [|destruct (TCPSender.fin_sent_ (snd_ c)); simpl in *; lia].
  symmetry in Hc. apply andb_true_iff in Hc as [Hc _].
  rewrite (n_eof _ _ _ _ _ _ _ _ _ N Hc) in Hn. simpl in Hn. lia.
Qed.
End invariant.

(** ** The sender's steps *)

(** What the segments of a [push] are to the network. *)
Lemma chain_seg_ok z st n s a b e ms :
  TCPSender.chain z st (TCPSender.allowed s a) b e ms → Forall (λ m, RST m = false) ms →
  0 ≤ b → e ≤ TCPSender.next_seqno_ s → nread a ≤ n →
  (TCPSender.fin_sent_ s = true → TCPSender.next_seqno_ s = n + 2) →
  Forall (seg_ok z st n s a) ms.
Proof.
  revert b. induction ms as [|m ms IH]; intros b Hc Hr Hb He Hn Hf; [done|].
  apply Forall_cons in Hr as [Hr Hrs]. simpl in Hc. destruct Hc as [Hm Hc].
  pose proof (TCPSender.chain_le _ _ _ _ _ _ Hc) as [Hle _].
  destruct Hm as (Hl&Hmax&Hseq&Hsyn&Hpl&Hal&HF).
  constructor; [|apply (IH _ Hc); done || lia].
  exists b. change (TCPSender.payload_index b) with (TCPReceiver.payload_index b) in *.
  assert (0 ≤ TCPReceiver.payload_index b) as Hp
    by (unfold TCPReceiver.payload_index; case_bool_decide; lia).
  assert (piece_of st n (TCPReceiver.piece b m)) as Hpc.
  { split_and!; [done|simpl; lia|done|]. simpl. intros HF0. destruct (HF HF0) as [HF1 HF2].
    specialize (Hf HF1). unfold TCPReceiver.payload_index, seg_len in *. rewrite Hsyn, HF0 in HF2.
    case_bool_decide; simpl in *; lia. }
  split_and!; try done; [lia|by intros [? _]%HF].
Qed.

(** Segments in the bag stay genuine as the sender moves on. *)
Lemma seg_ok_mono z st n s s' a a' m :
  TCPSender.next_seqno_ s ≤ TCPSender.next_seqno_ s' → nread a ≤ nread a' →
  (TCPSender.fin_sent_ s = true → TCPSender.fin_sent_ s' = true) →
  seg_ok z st n s a m → seg_ok z st n s' a' m.
Proof. intros ??? (b&?&?&?&?&?). exists b. split_and!; auto; lia. Qed.

(** A step of the sender alone, with the segments it transmits. *)
Record snd_step (z : Wrap32) st n (s s' : TCPSender.TCPSender) (a a' : stream)
    (sent : list TCPSenderMessage) (base' : Z) : Prop := mkSndStep {
  ss_ok : TCPSender.sender_ok st s' a' base';
  ss_isn : TCPSender.isn_ s' = TCPSender.isn_ s;
  ss_err : err a' = false;
  ss_written : zlen (written a') ≤ n;
  ss_fin : fin a' = true → zlen (written a') = n;
  ss_fin_sent : TCPSender.fin_sent_ s' = true → unread a' = [];
  ss_next : TCPSender.next_seqno_ s ≤ TCPSender.next_seqno_ s';
  ss_nread : nread a ≤ nread a';
  ss_fin_mono : TCPSender.fin_sent_ s = true → TCPSender.fin_sent_ s' = true;
  ss_syn_mono : TCPSender.syn_sent_ s = true → TCPSender.syn_sent_ s' = true;
  ss_out : Forall (seg_ok z st n s' a') (TCPSender.outstanding_ s');
  ss_sent : Forall (seg_ok z st n s' a') sent;
}.

Lemma snd_step_ok z st n rcap c a base k ar s' a' sent base' :
  net_ok z st n rcap c a base k ar → n < 2 ^ 62 →
  snd_step z st n (snd_ c) s' a a' sent base' → base' ≤ acked_to (rcv_ c) k →
  net_ok z st n rcap (mkNet s' (segs_ c ++ sent) (rcv_ c) (acks_ c)) a' base' k ar.
Proof.
  intros N Hn S Hb. pose proof (TCPSender.so_nread (ss_ok _ _ _ _ _ _ _ _ _ S)) as Hnr.
  destruct N, S. split; simpl; try done.
  - congruence.
  - apply Forall_app. split; [|done]. eapply Forall_impl; [done|]. intros m.
    by apply seg_ok_mono.
  - intros z' Hi. destruct (n_rcv_isn0 z' Hi). auto.
  - eapply holding_weaken; [done|lia].
  - auto.
Qed.

Section steps.
Context {z : Wrap32} {st : Z → byte} {n rcap : Z} (Hz : sizes_ok z n rcap).
Context {c : net} {a : stream} {base : Z} {k : sink} {ar : stream}.
Context (N : net_ok z st n rcap c a base k ar).

Lemma net_n_bound : 0 ≤ n < 2 ^ 31 - 2.
Proof. destruct Hz as (?&?&?&_). lia. Qed.

Lemma net_pushed : Writer.bytes_pushed (TCPSender.input_ (snd_ c)) = zlen (written a).
Proof.
  pose proof net_n_bound. destruct N. unfold Writer.bytes_pushed.
  rewrite (ref_pushed _ _ (TCPSender.so_input n_snd0)). apply u64_small. unfold is_u64. zlen.
Qed.

Lemma write_step m :
  0 ≤ m → zlen (written a) + m ≤ n →
  let d := slice st (zlen (written a)) m in
  snd_step z st n (snd_ c) (TCPSender.with_input (Writer.push d) (snd_ c)) a (spec_push d a) [] base.
Proof.
  intros Hm Hmn d. pose proof net_n_bound. pose proof (TCPSender.so_nread (n_snd _ _ _ _ _ _ _ _ _ N)).
  assert (zlen (ztake (room a) d) ≤ m) as Hl by (subst d; zlen).
  assert (fin a = true → ztake (room a) d = []) as Hfin.
  { intros Hf. apply zlen_0. rewrite (n_fin _ _ _ _ _ _ _ _ _ N Hf) in Hmn. zlen. }
  destruct N. split; simpl; try done.
  - apply TCPSender.write_ok; [done| |lia]. subst d. rewrite ztake_slice. f_equal.
    pose proof (room_range (TCPSender.so_input n_snd0)). zlen.
  - rewrite zlen_app. lia.
  - intros Hf. rewrite Hfin by done. rewrite app_nil_r. auto.
  - intros Hf. unfold unread in *. simpl.
    rewrite Hfin by (by apply (TCPSender.so_fin n_snd0)). rewrite app_nil_r. auto.
Qed.

Lemma close_step :
  zlen (written a) = n →
  snd_step z st n (snd_ c) (TCPSender.with_input Writer.close (snd_ c)) a (spec_close a) [] base.
Proof.
  intros Hn. destruct N. split; simpl; try done. by apply TCPSender.close_input_ok.
Qed.

Lemma fin_next s' a' base' :
  TCPSender.sender_ok st s' a' base' → (fin a' = true → zlen (written a') = n) →
  (TCPSender.fin_sent_ s' = true → unread a' = []) →
  TCPSender.fin_sent_ s' = true → TCPSender.next_seqno_ s' = n + 2.
Proof.
  intros R Hf Hu Hs. pose proof (TCPSender.so_next R) as Hn. pose proof (TCPSender.so_syn R) as Hsyn.
  pose proof (TCPSender.so_nread R). specialize (Hu Hs). specialize (Hf (TCPSender.so_fin R Hs)).
  assert (zlen (unread a') = 0) as Hz0 by (by rewrite Hu). unfold unread in Hz0.
  rewrite zlen_zdrop in Hz0. rewrite Hs in Hn. destruct (TCPSender.syn_sent_ s'); simpl in *; [lia|].
  specialize (Hsyn eq_refl). lia.
Qed.

Lemma push_step :
  ∃ s' sent a', TCPSender.push (snd_ c) = Ok (s', sent) ∧
    snd_step z st n (snd_ c) s' a a' sent base.
Proof.
  destruct (TCPSender.push_ok st _ a base (n_snd _ _ _ _ _ _ _ _ _ N))
    as (s'&sent&a'&He&R&(Hw&Hf&Her&_)&(Hi&Ho&_&_&Hrst&Hnr&Hch)&_&Hfs&_).
  exists s', sent, a'. split; [done|]. pose proof (TCPSender.so_nread R) as Hnr'.
  pose proof (TCPSender.chain_le _ _ _ _ _ _ Hch) as [Hle _].
  pose proof (TCPSender.so_base (n_snd _ _ _ _ _ _ _ _ _ N)).
  pose proof (TCPSender.push_mono _ _ _ He) as [Hfm Hsm].
  destruct N. assert (TCPSender.fin_sent_ s' = true → unread a' = []) as Hfs'.
  { intros H1. destruct (Hfs H1) as [H2|]; [|done]. specialize (n_fin_sent0 H2).
    unfold unread in *. rewrite Hw in *. apply zdrop_ge.
    assert (zlen (zdrop (nread a) (written a)) = 0) by (by rewrite n_fin_sent0). zlen. }
  assert (Forall (seg_ok z st n s' a') sent) as Hsent.
  { rewrite n_isn0 in Hch. apply (chain_seg_ok _ _ _ _ _ _ _ _ Hch); try done || lia.
    + eapply Forall_impl; [done|]. simpl. congruence.
    + rewrite Hw in Hnr'. lia.
    + apply (fin_next s' a' base); [done| |done]. by rewrite Hf, Hw. }
  split; try done; try congruence; try lia; [by rewrite Hw, Hf|].
  rewrite Ho. apply Forall_app. split; [|done]. eapply Forall_impl; [done|].
  intros m. by apply seg_ok_mono.
Qed.

Lemma tick_step ms :
  ∃ s' sent, TCPSender.tick ms (snd_ c) = (s', sent) ∧ snd_step z st n (snd_ c) s' a a sent base.
Proof.
  pose proof (TCPSender.tick_ok st _ a base ms (n_snd _ _ _ _ _ _ _ _ _ N)) as R'.
  destruct (TCPSender.tick ms (snd_ c)) as [s' sent] eqn:Ht. exists s', sent. split; [done|].
  destruct (TCPSender.tick_same _ _ _ _ Ht) as (Hi&Ho&Hn&Hsy&Hfi&Hse). simpl in R'. destruct N.
  assert (Forall (seg_ok z st n s' a) (TCPSender.outstanding_ (snd_ c))) as Hout.
  { eapply Forall_impl; [done|]. intros m. apply seg_ok_mono; [by rewrite Hn|done|by rewrite Hfi]. }
  split; try done; rewrite ?Hn, ?Hsy, ?Hfi, ?Ho; try done.
  destruct Hse as [->|(m&rest&Hm&->)]; [done|]. rewrite Hm in Hout.
  apply Forall_cons in Hout as [? _]. by apply Forall_singleton.
Qed.

Lemma ack_step m :
  ack_ok z (acked_to (rcv_ c) k) m →
  ∃ base', snd_step z st n (snd_ c) (TCPSender.receive m (snd_ c)) a a [] base' ∧
    base' ≤ acked_to (rcv_ c) k.
Proof.
  intros (Hr&Hw&Ha). pose proof (acked_to_le N) as Hle. pose proof net_n_bound as Hnb.
  pose proof (TCPSender.so_next (n_snd _ _ _ _ _ _ _ _ _ N)) as Hnx.
  pose proof (TCPSender.so_next_bound (n_snd _ _ _ _ _ _ _ _ _ N)) as Hnx0.
  pose proof (net_nread N) as Hnr. destruct Hz as [Hwz _].
  destruct (TCPSender.receive_ok st _ a base m (n_snd _ _ _ _ _ _ _ _ _ N) Hr Hw)
    as (base'&acked&R'&Ack).
  { intros w Hw'. destruct (Ha w Hw') as (x&->&_). apply wrap_wf. }
  pose proof (TCPSender.receive_same m (snd_ c)) as (Hi&Hn&Hsy&Hfi). exists base'.
  destruct N. split.
  - split; try done; rewrite ?Hn, ?Hsy, ?Hfi, ?Hi; try done.
    rewrite (TCPSender.ack_outstanding _ _ _ _ _ _ Ack) in n_out0.
    apply Forall_app in n_out0 as [_ Hout]. eapply Forall_impl; [done|]. intros m'.
    apply seg_ok_mono; [by rewrite Hn|done|by rewrite Hfi].
  - pose proof (TCPSender.ack_base _ _ _ _ _ _ Ack) as Hb.
    destruct acked as [|m0 acked]; [by rewrite Hb|].
    pose proof (TCPSender.ack_exact _ _ _ _ _ _ Ack) as He.
    destruct (ackno m) as [w|] eqn:Hack; [|done]. destruct (Ha w eq_refl) as (x&->&Hx).
    cbv zeta in He. rewrite n_isn0, unwrap_wrap in He.
    + rewrite bool_decide_false in He by lia. destruct He as [He _]. specialize (He ltac:(done)). lia.
    + done.
    + unfold is_u64. lia.
    + unfold is_u64. lia.
    + destruct (TCPSender.syn_sent_ (snd_ c)), (TCPSender.fin_sent_ (snd_ c)); simpl in *; lia.
Qed.

(** ** The receiver's steps *)

(** A step of the receiver alone. *)
Lemma rcv_step_ok r' k' ar' acks' :
  (∀ z', TCPReceiver.isn_ r' = Some z' → z' = z ∧ TCPSender.syn_sent_ (snd_ c) = true) →
  holding st n (nread a) (TCPReceiver.reassembler_ r') k' →
  (eof_seen_ (TCPReceiver.reassembler_ r') = true → TCPSender.fin_sent_ (snd_ c) = true) →
  sink_error k' = false → refines (output_ (TCPReceiver.reassembler_ r')) ar' →
  k' = mkSink (written ar') (room ar') (err ar') (fin ar') → cap ar' = rcap →
  acked_to (rcv_ c) k ≤ acked_to r' k' →
  Forall (ack_ok z (acked_to r' k')) acks' →
  net_ok z st n rcap (mkNet (snd_ c) (segs_ c) r' acks') a base k' ar'.
Proof. intros. destruct N. split; simpl; try done. lia. Qed.

Lemma ack_ok_mono e e' m : e ≤ e' → ack_ok z e m → ack_ok z e' m.
Proof.
  intros He (?&?&Ha). split_and!; try done. intros w Hw. destruct (Ha w Hw) as (x&?&?).
  exists x. split; [done|lia].
Qed.

Lemma old_acks e : acked_to (rcv_ c) k ≤ e → Forall (ack_ok z e) (acks_ c).
Proof.
  intros He. eapply Forall_impl; [by apply (n_acks _ _ _ _ _ _ _ _ _ N)|].
  intros m. by apply ack_ok_mono.
Qed.

Lemma reply_step :
  net_ok z st n rcap (mkNet (snd_ c) (segs_ c) (rcv_ c) (acks_ c ++ [TCPReceiver.send (rcv_ c)]))
    a base k ar.
Proof.
  pose proof (net_rcv_ok Hz N) as Hr. pose proof (acked_to_le N) as Hle.
  pose proof (sw_room_range _ _ (TCPReceiver.writer_models _ _ Hr)).
  apply rcv_step_ok; try by destruct N.
  apply Forall_app. split; [by apply old_acks|]. apply Forall_singleton.
  rewrite (TCPReceiver.send_ok _ _ Hr), (n_rcv_err _ _ _ _ _ _ _ _ _ N).
  split_and!; [done|simpl; unfold is_u16; lia|]. simpl. intros w Hw. unfold acked_to in *.
  destruct (TCPReceiver.isn_ (rcv_ c)) as [z'|] eqn:Hi; [|done]. simpl in Hw. injection Hw as <-.
  destruct (n_rcv_isn _ _ _ _ _ _ _ _ _ N z' Hi) as [-> _]. eexists. split; [done|lia].
Qed.

Lemma pop_step len :
  0 ≤ len → ∃ r' k' ar', pop_inbound len (rcv_ c) = Ok r' ∧
    net_ok z st n rcap (mkNet (snd_ c) (segs_ c) r' (acks_ c)) a base k' ar'.
Proof.
  intros Hlen. pose proof (n_stream _ _ _ _ _ _ _ _ _ N) as R.
  destruct (pop_refines R len Hlen) as (s'&He&R'&_).
  pose proof (ref_nread _ _ R). pose proof (ref_nread _ _ R'). pose proof (ref_bounded _ _ R').
  pose proof (net_next_index N). pose proof (net_nread N). pose proof (n_cap _ _ _ _ _ _ _ _ _ N).
  pose proof (n_sink _ _ _ _ _ _ _ _ _ N) as Hk. destruct Hz as (_&_&_&Hc&Hb).
  assert (0 ≤ Z.min len (zlen (unread ar))) by zlen.
  set (k' := mkSink (written ar) (room (spec_pop len ar)) (err ar) (fin ar)).
  assert (next_index k' = next_index k) as Hnk by (by rewrite Hk).
  eexists _, k', (spec_pop len ar). unfold pop_inbound. rewrite He. split; [done|].
  assert (∀ r, TCPReceiver.isn_ r = TCPReceiver.isn_ (rcv_ c) →
    acked_to r k' = acked_to (rcv_ c) k) as Hacked.
  { intros r Hr. unfold acked_to. by rewrite Hr, Hnk, Hk. }
  apply rcv_step_ok; rewrite ?Hacked by done; simpl; try by destruct N.
  - eapply holding_output; [by apply (n_hold _ _ _ _ _ _ _ _ _ N)| |by rewrite Hk..| |].
    + by exists (spec_pop len ar).
    + rewrite Hk. simpl. unfold room. simpl. lia.
    + rewrite Hk in *. unfold window_end, next_index in *. simpl in *. unfold room in *. simpl in *. lia.
  - pose proof (n_rcv_err _ _ _ _ _ _ _ _ _ N) as Herr. by rewrite Hk in Herr.
Qed.

Lemma deliver_step m :
  m ∈ segs_ c → ∃ r' k' ar', TCPReceiver.receive m (rcv_ c) = Ok r' ∧
    net_ok z st n rcap (mkNet (snd_ c) (segs_ c) r' (acks_ c)) a base k' ar'.
Proof.
  intros Hm. pose proof (n_segs _ _ _ _ _ _ _ _ _ N) as Hs.
  apply (proj1 (Forall_forall _ _) Hs) in Hm as (b&Hseg&Hbe&Hl&Hpe&HF).
  pose proof Hseg as (Hb0&Hseq&Hsyn&Hrst&Hpc).
  assert (TCPReceiver.isn_ (rcv_ c) = None ∧ SYN m = false ∨
    (TCPReceiver.isn_ (rcv_ c) = Some z ∨
     TCPReceiver.isn_ (rcv_ c) = None ∧ SYN m = true ∧ seqno m = z)) as [[Hi Hs0]|Hi].
  { destruct (TCPReceiver.isn_ (rcv_ c)) as [z'|] eqn:Hi.
    - destruct (n_rcv_isn _ _ _ _ _ _ _ _ _ N z' Hi) as [-> _]. auto.
    - destruct (SYN m) eqn:Hsy; [|auto]. right; right. split_and!; [done..|].
      rewrite Hseq. symmetry in Hsyn. apply bool_decide_eq_true in Hsyn as ->.
      destruct Hz as [Hwz _]. apply wrap_0, Hwz. }
  { rewrite TCPReceiver.receive_before_syn by done. exists (rcv_ c), k, ar. split; [done|].
    apply rcv_step_ok; try by destruct N. }
  pose proof (net_next_index N). pose proof (net_nread N). pose proof net_n_bound.
  pose proof (n_hold _ _ _ _ _ _ _ _ _ N) as Hh. pose proof (hold_ok Hh) as Hok.
  destruct (holding_insert st n (nread a) _ k (TCPReceiver.piece b m) Hh Hpc Hpe)
    as (r'&new&k'&He&I&Hh'&Hnx).
  unfold TCPReceiver.piece in He, I. cbn [fst snd] in He, I.
  assert (Z.abs (b - next_index k) < 2 ^ 31) as Hd.
  { destruct Hpc as (_&Hpn&_). unfold TCPReceiver.payload_index in Hpn. simpl in Hpn.
    clear Hsyn. case_bool_decide; zlen. }
  destruct Hz as [Hwz _].
  pose proof (TCPReceiver.receive_at z st n (rcv_ c) k b m Hi Hwz Hok Hseg ltac:(lia) Hd) as Hrec.
  rewrite He in Hrec. simpl in Hrec.
  assert (∃ ar', refines (output_ r') ar' ∧ k' = mkSink (written ar') (room ar') (err ar') (fin ar'))
    as (ar'&R'&Hk') by apply (hold_ok Hh').
  exists (TCPReceiver.mkTCPReceiver r' (Some z)), k', ar'. split; [done|].
  assert (acked_to (rcv_ c) k ≤ acked_to (TCPReceiver.mkTCPReceiver r' (Some z)) k').
  { unfold acked_to. simpl. rewrite Hnx, (ins_sink _ _ _ _ _ _ _ _ I). simpl.
    destruct (TCPReceiver.isn_ (rcv_ c)); destruct (sink_closed k), (_ && _); simpl; zlen. }
  apply rcv_step_ok; simpl; try done.
  - intros z' [= <-]. split; [done|]. pose proof (TCPSender.so_syn (n_snd _ _ _ _ _ _ _ _ _ N)).
    destruct (TCPSender.syn_sent_ (snd_ c)); [done|]. lia.
  - rewrite (ins_eof _ _ _ _ _ _ _ _ I). intros [?|?]%orb_true_iff; [auto|].
    by apply (n_eof _ _ _ _ _ _ _ _ _ N).
  - rewrite (ins_sink _ _ _ _ _ _ _ _ I). apply (n_rcv_err _ _ _ _ _ _ _ _ _ N).
  - rewrite <- (ref_capacity _ _ R'), (insert_capacity _ _ _ _ _ He).
    rewrite (ref_capacity _ _ (n_stream _ _ _ _ _ _ _ _ _ N)). apply (n_cap _ _ _ _ _ _ _ _ _ N).
  - by apply old_acks.
Qed.
End steps.

(** * Every reachable state *)

Lemma init_ok z st n send_cap recv_cap rto :
  sizes_ok z n recv_cap → is_u64 send_cap → is_u64 rto →
  net_ok z st n recv_cap (init z send_cap recv_cap rto) (spec_new send_cap) 0
    (mkSink [] recv_cap false false) (spec_new recv_cap).
Proof.
  intros (Hz&Hn&Hn2&Hr&Hb) Hs Hrto. split; simpl; try done.
  - by apply TCPSender.new_sender_ok.
  - apply holding_new; [by apply new_models|lia].
  - by apply new_refines.
  - unfold room. simpl. f_equal. zlen.
Qed.

(** No enabled action fails, and each keeps the invariant. *)
Lemma perform_ok z st n rcap c a base k ar x :
  sizes_ok z n rcap → net_ok z st n rcap c a base k ar → enabled n x c →
  ∃ c' a' base' k' ar', perform st x c = Ok c' ∧ net_ok z st n rcap c' a' base' k' ar'.
Proof.
  intros Hz N Hx. pose proof (net_n_bound Hz) as Hnb. assert (n < 2 ^ 62) as Hn by lia.
  pose proof (n_base _ _ _ _ _ _ _ _ _ N) as Hb. pose proof (net_pushed Hz N) as Hp.
  assert (∀ s' a' sent, snd_step z st n (snd_ c) s' a a' sent base →
    net_ok z st n rcap (mkNet s' (segs_ c ++ sent) (rcv_ c) (acks_ c)) a' base k ar) as Hsnd.
  { intros s' a' sent Hs. by eapply snd_step_ok. }
  destruct x as [m| | |ms|m| |m|len]; simpl in *; try rewrite Hp in Hx; rewrite ?Hp.
  - pose proof (Hsnd _ _ _ (write_step Hz N m (proj1 Hx) (proj2 Hx))) as N'.
    rewrite app_nil_r in N'. eauto 10.
  - pose proof (Hsnd _ _ _ (close_step N Hx)) as N'. rewrite app_nil_r in N'. eauto 10.
  - destruct (push_step N) as (s'&sent&a'&He&Hs). rewrite He. simpl. eauto 10.
  - destruct (tick_step N ms) as (s'&sent&He&Hs). rewrite He. eauto 10.
  - destruct (deliver_step Hz N m Hx) as (r'&k'&ar'&He&N'). rewrite He. simpl. eauto 10.
  - pose proof (reply_step Hz N). eauto 10.
  - apply (proj1 (Forall_forall _ _) (n_acks _ _ _ _ _ _ _ _ _ N)) in Hx.
    destruct (ack_step Hz N m Hx) as (base'&Hs&Hb').
    pose proof (snd_step_ok _ _ _ _ _ _ _ _ _ _ _ _ _ N Hn Hs Hb') as N'.
    rewrite app_nil_r in N'. eauto 10.
  - destruct (pop_step Hz N len Hx) as (r'&k'&ar'&He&N'). rewrite He. simpl. eauto 10.
Qed.

Lemma reachable_ok z st n send_cap rcap rto c :
  sizes_ok z n rcap → is_u64 send_cap → is_u64 rto →
  reachable st n (init z send_cap rcap rto) c →
  ∃ a base k ar, net_ok z st n rcap c a base k ar.
Proof.
  intros Hz Hs Hrto Hc. induction Hc as [|x c c' Hc (a&base&k&ar&N) Hx He].
  { eexists _, _, _, _. by apply init_ok. }
  destruct (perform_ok _ _ _ _ _ _ _ _ _ x Hz N Hx) as (c''&a'&base'&k'&ar'&He'&N').
  rewrite He in He'. injection He' as ->. eauto.
Qed.

(** * Properties *)

(** C1: no matter how the network loses, repeats, delays and reorders segments
    and acknowledgements, what the receiving stream has accepted is at every
    moment a prefix of what the sending application wrote, neither end ever
    fails, the receiver never acknowledges more than was sent, and a segment
    leaves the sender's retransmission queue only after the receiver has all
    of it. *)
Theorem connection_safety z st n send_cap rcap rto c :
  sizes_ok z n rcap → is_u64 send_cap → is_u64 rto →
  reachable st n (init z send_cap rcap rto) c →
  (∀ x, enabled n x c → ∃ c', perform st x c = Ok c') ∧
  ∃ a base k, TCPSender.sender_ok st (snd_ c) a base ∧
    sw_models (TCPReceiver.writer (rcv_ c)) k ∧
    sink_written k = slice st 0 (next_index k) ∧ next_index k ≤ nread a ≤ zlen (written a) ∧
    base ≤ acked_to (rcv_ c) k ≤ TCPSender.next_seqno_ (snd_ c).
Proof.
  intros Hz Hs Hrto Hc. destruct (reachable_ok _ _ _ _ _ _ _ Hz Hs Hrto Hc) as (a&base&k&ar&N).
  split.
  - intros x Hx. destruct (perform_ok _ _ _ _ _ _ _ _ _ x Hz N Hx) as (c'&?&?&?&?&He&_). eauto.
  - exists a, base, k. pose proof (net_next_index N). pose proof (acked_to_le N).
    pose proof (TCPSender.so_nread (n_snd _ _ _ _ _ _ _ _ _ N)).
    pose proof (n_base _ _ _ _ _ _ _ _ _ N).
    split_and!; try lia; [apply N|apply (TCPReceiver.writer_models _ _ (net_rcv_ok Hz N))|].
    apply (hold_written (n_hold _ _ _ _ _ _ _ _ _ N)).
Qed.

(** C2: a clean close means complete delivery: when the sender has sent its
    FIN and nothing is outstanding any more, the receiving stream has
    accepted all [n] bytes the application wrote, in order, and is closed. *)
Theorem connection_complete z st n send_cap rcap rto c :
  sizes_ok z n rcap → is_u64 send_cap → is_u64 rto →
  reachable st n (init z send_cap rcap rto) c →
  TCPSender.fin_sent_ (snd_ c) = true → TCPSender.outstanding_ (snd_ c) = [] →
  ∃ k, sw_models (TCPReceiver.writer (rcv_ c)) k ∧ sink_written k = slice st 0 n ∧
    sink_closed k = true ∧ sink_error k = false.
Proof.
  intros Hz Hs Hrto Hc Hf Ho.
  destruct (reachable_ok _ _ _ _ _ _ _ Hz Hs Hrto Hc) as (a&base&k&ar&N). exists k.
  pose proof (fin_next _ _ _ (n_snd _ _ _ _ _ _ _ _ _ N) (n_fin _ _ _ _ _ _ _ _ _ N)
    (n_fin_sent _ _ _ _ _ _ _ _ _ N) Hf) as Hnx.
  pose proof (TCPSender.so_chain (n_snd _ _ _ _ _ _ _ _ _ N)) as Hch. rewrite Ho in Hch. simpl in Hch.
  pose proof (n_base _ _ _ _ _ _ _ _ _ N) as Hb. pose proof (net_nread N). pose proof (net_next_index N).
  pose proof (net_n_bound Hz). unfold acked_to in Hb.
  destruct (TCPReceiver.isn_ (rcv_ c)); [|lia].
  assert (next_index k = n ∧ sink_closed k = true) as [Hni Hcl]
    by (destruct (sink_closed k); simpl in *; [split; [lia|done]|lia]).
  split_and!; [apply (TCPReceiver.writer_models _ _ (net_rcv_ok Hz N))| |done|apply N].
  rewrite <- Hni. apply (hold_written (n_hold _ _ _ _ _ _ _ _ _ N)).
Qed.

(** * A run *)

#[export] Instance enabled_dec n x c : Decision (enabled n x c).
Proof. destruct x; simpl; apply _. Defined.

Fixpoint perform_all (st : Z → byte) (n : Z) (xs : list action) (c : net) : option net :=
  match xs with
  | [] => Some c
  | x :: xs =>
      if decide (enabled n x c) then
        match perform st x c with Ok c => perform_all st n xs c | Err _ => None end
      else None
  end.

Lemma perform_all_reachable st n xs c0 c c' :
  reachable st n c0 c → perform_all st n xs c = Some c' → reachable st n c0 c'.
Proof.
  revert c. induction xs as [|x xs IH]; intros c Hc He; simpl in He; [by injection He as <-|].
  destruct (decide (enabled n x c)) as [Hx|]; [|done].
  destruct (perform st x c) as [c1|] eqn:H1; [|done].
  apply (IH c1); [|done]. by apply (reach_step _ _ _ x c).
Qed.

(** Three bytes; the segment with the data is lost once and sent again, and
    both copies arrive, the first after the second. *)
Definition demo_net : net := init (mkWrap32 137) 64 64 1000.
Definition demo_syn : TCPSenderMessage := mkTCPSenderMessage (mkWrap32 137) true [] false false.
Definition demo_data : TCPSenderMessage :=
  mkTCPSenderMessage (mkWrap32 138) false (slice demo_stream 0 3) true false.
Definition demo_actions : list action :=
  [Write 3; CloseInput; SenderPush; Deliver demo_syn; Reply;
   Ack (mkTCPReceiverMessage (Some (mkWrap32 138)) 64 false); SenderPush; SenderTick 1000;
   Deliver demo_data; Deliver demo_syn; Deliver demo_data; Reply; ReadInbound 2;
   Ack (mkTCPReceiverMessage (Some (mkWrap32 142)) 61 false)].
Definition demo_end : net := default demo_net (perform_all demo_stream 3 demo_actions demo_net).

Lemma demo_sizes : sizes_ok (mkWrap32 137) 3 64.
Proof. by vm_compute. Qed.

Lemma demo_reachable : reachable demo_stream 3 demo_net demo_end.
Proof.
  apply (perform_all_reachable _ _ demo_actions _ demo_net); [constructor|].
  vm_compute. reflexivity.
Qed.

Lemma connection_safety_witness :
  (∀ x, enabled 3 x demo_end → ∃ c', perform demo_stream x demo_end = Ok c') ∧
  ∃ a base k, TCPSender.sender_ok demo_stream (snd_ demo_end) a base ∧
    sw_models (TCPReceiver.writer (rcv_ demo_end)) k ∧
    sink_written k = slice demo_stream 0 (next_index k) ∧ next_index k ≤ nread a ≤ zlen (written a) ∧
    base ≤ acked_to (rcv_ demo_end) k ≤ TCPSender.next_seqno_ (snd_ demo_end).
Proof.
  exact (connection_safety (mkWrap32 137) demo_stream 3 64 64 1000 demo_end demo_sizes
    ltac:(by unfold is_u64) ltac:(by unfold is_u64) demo_reachable).
Defined.

Lemma connection_complete_witness :
  ∃ k, sw_models (TCPReceiver.writer (rcv_ demo_end)) k ∧ sink_written k = slice demo_stream 0 3 ∧
    sink_closed k = true ∧ sink_error k = false.
Proof.
  refine (connection_complete (mkWrap32 137) demo_stream 3 64 64 1000 demo_end demo_sizes
    _ _ demo_reachable _ _); [by unfold is_u64|by unfold is_u64|by vm_compute|by vm_compute].
Defined.
