(* ===== verification/Ref.v ===== *)
(** Owned and borrowed references (src/util/ref.hh).  A borrowed [Ref] is a
    pointer to a constant object that outlives it; the model carries the
    object's value, which nothing changes while the reference lives. *)

From S2P Require Import Prelude.

Inductive Ref (T : Type) : Type :=
  | Owned (obj : T)
  | Borrowed (obj : T).
Arguments Owned {T} obj.
Arguments Borrowed {T} obj.

Module Ref.
Section ref.
Context {T : Type}.
Implicit Types r : Ref T.

Definition get r : T := match r with Owned x | Borrowed x => x end.
Definition is_owned r : bool := match r with Owned _ => true | Borrowed _ => false end.
Definition is_borrowed r : bool := negb (is_owned r).

(** [static Ref borrow( const T& obj )] and [Ref borrow() const]. *)
Definition borrow (x : T) : Ref T := Borrowed x.
Definition reborrow r : Ref T := Borrowed (get r).

(** The copy constructor makes an owned copy, whatever it copies. *)
Definition copy r : Ref T := Owned (get r).

Definition get_mut r : result T :=
  match r with
  | Owned x => Ok x
  | Borrowed _ => Err (Throw "attempt to mutate borrowed Ref")
  end.

Definition release r : T := get r.

End ref.
End Ref.

(** The text behind a sequence of references. *)
Definition text (bufs : list (Ref bytes)) : bytes := concat (Ref.get <$> bufs).

Lemma text_nil : text [] = [].
Proof. done. Qed.
Lemma text_cons r bufs : text (r :: bufs) = Ref.get r ++ text bufs.
Proof. done. Qed.
Lemma text_app l k : text (l ++ k) = text l ++ text k.
Proof. unfold text. by rewrite fmap_app, concat_app. Qed.

(** Copying a vector of references, as [clone] does, changes no text and leaves
    only owned references. *)
Lemma text_copy bufs : text (Ref.copy <$> bufs) = text bufs.
Proof. unfold text. by rewrite <- list_fmap_compose. Qed.
Lemma text_reborrow bufs : text (Ref.reborrow <$> bufs) = text bufs.
Proof. unfold text. by rewrite <- list_fmap_compose. Qed.

Definition owned (bufs : list (Ref bytes)) : Prop := Forall (λ r, Ref.is_owned r = true) bufs.
Definition nonempty (bufs : list (Ref bytes)) : Prop := Forall (λ r, 0 < zlen (Ref.get r)) bufs.

Lemma owned_copy bufs : owned (Ref.copy <$> bufs).
Proof. unfold owned. apply Forall_fmap, Forall_true. done. Qed.
Lemma nonempty_copy bufs : nonempty bufs → nonempty (Ref.copy <$> bufs).
Proof. intros H. apply Forall_fmap. eapply Forall_impl; [done|]. done. Qed.

(** No empty buffers except at the end. *)
Fixpoint packed (bufs : list (Ref bytes)) : Prop :=
  match bufs with
  | [] => True
  | x :: rest => (text (x :: rest) = [] ∨ 0 < zlen (Ref.get x)) ∧ packed rest
  end.

Lemma nonempty_packed bufs : nonempty bufs → packed bufs.
Proof. induction 1 as [|x bufs Hx Hb IH]; [done|]. by split; [right|]. Qed.

Lemma packed_copy bufs : packed bufs → packed (Ref.copy <$> bufs).
Proof.
  induction bufs as [|x bufs IH]; [done|]. intros [Hx Hb]. split; [|by apply IH].
  destruct Hx as [Hx|Hx]; [left|by right]. by rewrite <- fmap_cons, text_copy.
Qed.

Lemma packed_empty bufs : text bufs = [] → packed bufs.
Proof.
  induction bufs as [|x bufs IH]; intros Ht; [done|]. split; [by left|]. apply IH.
  rewrite text_cons in Ht. by apply app_nil in Ht as [_ ->].
Qed.
