(* ===== verification/Parser.v ===== *)
(** Parsing from and serializing to sequences of buffers (src/util/parser.hh,
    src/util/parser.cc), and the interface of the types that go over the
    wire. *)

From S2P Require Import Prelude Ref.

(** * [Parser::BufferList] *)

Record BufferList : Type := mkBufferList {
  size_ : Z;
  buffer_ : list (Ref bytes);
  skip_ : Z;
}.

Module BufferList.

(** The constructor's loop over the given buffers. *)
Fixpoint fill (buffers : list (Ref bytes)) (bl : BufferList) : result BufferList :=
  match buffers with
  | [] => Ok bl
  | x :: buffers =>
      if Ref.is_borrowed x then Err (Throw "cannot parse borrowed string")
      else fill buffers
        (mkBufferList (u64 (size_ bl + zlen (Ref.get x))) (buffer_ bl ++ [x]) (skip_ bl))
  end.

Definition make (buffers : list (Ref bytes)) : result BufferList :=
  fill buffers (mkBufferList 0 [] 0).

Definition size (bl : BufferList) : Z := size_ bl.
Definition empty (bl : BufferList) : bool := bool_decide (size_ bl = 0).
Definition buffer_segment_count (bl : BufferList) : Z := zlen (buffer_ bl).

Definition peek (bl : BufferList) : result bytes :=
  match buffer_ bl with
  | [] => Err (Throw "peek on empty BufferList")
  | front :: _ => substr_from (skip_ bl) (Ref.get front)
  end.

(** The loop of [remove_prefix]: a turn pops the front buffer or is the last. *)
Fixpoint remove_prefix_loop (fuel : nat) (len : Z) (bl : BufferList) : result BufferList :=
  match fuel with
  | O => Err OutOfFuel
  | S fuel =>
      match buffer_ bl with
      | front :: rest =>
          if bool_decide (len ≠ 0) then
            view ← peek bl;
            let to_pop_now := Z.min len (zlen view) in
            let skip := u64 (skip_ bl + to_pop_now) in
            let len := u64 (len - to_pop_now) in
            let size := u64 (size_ bl - to_pop_now) in
            if bool_decide (skip = zlen (Ref.get front))
            then remove_prefix_loop fuel len (mkBufferList size rest 0)
            else remove_prefix_loop fuel len (mkBufferList size (buffer_ bl) skip)
          else Ok bl
      | [] => Ok bl
      end
  end.

Definition remove_prefix (len : Z) (bl : BufferList) : result BufferList :=
  remove_prefix_loop (S (S (length (buffer_ bl)))) len bl.

(** The two loops of [truncate]: the buffers kept. *)
Fixpoint truncate_loop (size_so_far len : Z) (bufs : list (Ref bytes)) : result (list (Ref bytes)) :=
  match bufs with
  | [] => Ok []
  | x :: rest =>
      let sz := zlen (Ref.get x) in
      if bool_decide (u64 (size_so_far + sz) < len) then
        kept ← truncate_loop (u64 (size_so_far + sz)) len rest;
        Ok (x :: kept)
      else if bool_decide (u64 (size_so_far + sz) = len) then Ok [x]
      else if bool_decide (sz = 0) || negb (bool_decide (len > size_so_far))
              || negb (bool_decide (u64 (len - size_so_far) < sz))
      then Err (Undefined "assertion failed")
      else
        s ← Ref.get_mut x;
        Ok [Owned (resize (u64 (len - size_so_far)) s)]
  end.

Definition truncate (len : Z) (bl : BufferList) : result BufferList :=
  if bool_decide (size_ bl <= len) then Ok bl
  else if bool_decide (len = 0) then Ok (mkBufferList 0 [] (skip_ bl))
  else
    kept ← truncate_loop 0 len (buffer_ bl);
    Ok (mkBufferList len kept (skip_ bl)).

(** What [dump_all] leaves in [out]; the buffers have been moved from. *)
Definition dump_all (bl : BufferList) : result (list (Ref bytes)) :=
  if empty bl then Ok []
  else
    match buffer_ bl with
    | [] => Err (Undefined "front() on an empty deque")
    | front :: rest =>
        if bool_decide (skip_ bl ≠ 0) then
          s ← substr_from (skip_ bl) (Ref.get front);
          Ok (Owned s :: rest)
        else Ok (front :: rest)
    end.

(** The loop of [buffer]. *)
Fixpoint views (tmp_skip : Z) (bufs : list (Ref bytes)) : result (list bytes) :=
  match bufs with
  | [] => Ok []
  | x :: rest =>
      v ← substr_from tmp_skip (Ref.get x);
      vs ← views 0 rest;
      Ok (v :: vs)
  end.

Definition buffer (bl : BufferList) : result (list bytes) :=
  if empty bl then Ok [] else views (skip_ bl) (buffer_ bl).

End BufferList.

(** * [Parser] *)

Record Parser : Type := mkParser {
  input_ : BufferList;
  error_ : bool;
}.

(** Code that runs against a parser: it may throw, and changes the parser. *)
Definition parsing (A : Type) : Type := Parser → result (A * Parser).

#[export] Instance parsing_ret : MRet parsing := λ A a p, Ok (a, p).
#[export] Instance parsing_bind : MBind parsing :=
  λ A B f m p, match m p with Ok (a, p) => f a p | Err e => Err e end.

(** Code that does not touch the parser. *)
Definition lift {A} (m : result A) : parsing A := λ p, a ← m; Ok (a, p).

Module Parser.

Definition make (buffers : list (Ref bytes)) : result Parser :=
  bl ← BufferList.make buffers; Ok (mkParser bl false).

Definition has_error (p : Parser) : bool := error_ p.

Definition get_error : parsing bool := λ p, Ok (error_ p, p).
Definition set_error : parsing () := λ p, Ok ((), mkParser (input_ p) true).
Definition check_size (size : Z) : parsing () :=
  λ p, Ok ((), mkParser (input_ p) (error_ p || bool_decide (size > BufferList.size (input_ p)))).

Definition remove_prefix (n : Z) : parsing () :=
  λ p, bl ← BufferList.remove_prefix n (input_ p); Ok ((), mkParser bl (error_ p)).
Definition truncate (len : Z) : parsing () :=
  λ p, bl ← BufferList.truncate len (input_ p); Ok ((), mkParser bl (error_ p)).

Definition all_remaining : parsing (list (Ref bytes)) :=
  λ p, out ← BufferList.dump_all (input_ p); Ok (out, p).
Definition buffer : parsing (list bytes) :=
  λ p, vs ← BufferList.buffer (input_ p); Ok (vs, p).

(** [static_cast<uint8_t>( input_.peek().front() )], then dropping that byte. *)
Definition next_byte : parsing Z :=
  λ p,
    view ← BufferList.peek (input_ p);
    match view with
    | [] => Err (Undefined "front() on an empty string_view")
    | b :: _ =>
        bl ← BufferList.remove_prefix 1 (input_ p);
        Ok (byte_to_Z b, mkParser bl (error_ p))
    end.

(** The loop of [integer] for a [width]-byte type. *)
Fixpoint integer_loop (n : nat) (width : Z) (out : Z) : parsing Z :=
  match n with
  | O => mret out
  | S n =>
      b ← next_byte;
      integer_loop n width (Z.lor (Z.shiftl out 8 `mod` 2 ^ (8 * width)) b)
  end.

(** [void integer( T& out )]: [out] is the old value, kept on error. *)
Definition integer (width : Z) (out : Z) : parsing Z :=
  _ ← check_size width;
  err ← get_error;
  if (err : bool) then mret out
  else if bool_decide (width = 1) then next_byte
  else integer_loop (Z.to_nat width) width 0.

(** The loop of [string]: the characters still to be filled are counted by
    [n]; every turn but the last empties a buffer. *)
Fixpoint string_loop (fuel : nat) (n : Z) (done : bytes) : parsing bytes :=
  λ p,
  match fuel with
  | O => Err OutOfFuel
  | S fuel =>
      if bool_decide (n = 0) then Ok (done, p)
      else
        view ← BufferList.peek (input_ p);
        view ← substr 0 n view;
        bl ← BufferList.remove_prefix (zlen view) (input_ p);
        string_loop fuel (n - zlen view) (done ++ view) (mkParser bl (error_ p))
  end.

(** [void string( std::span<char> out )]. *)
Definition string (out : bytes) : parsing bytes :=
  _ ← check_size (zlen out);
  err ← get_error;
  if (err : bool) then mret out
  else λ p, string_loop (S (S (length (buffer_ (input_ p))))) (zlen out) [] p.

(** [void concatenate_all_remaining( std::string& out )]: the front reference
    is released, the others are appended to it. *)
Definition concatenate_all_remaining : parsing bytes :=
  concat ← all_remaining;
  match concat with
  | [] => mret []
  | front :: rest => mret (Ref.release front ++ text rest)
  end.

End Parser.

(** * [Serializer] *)

Record Serializer : Type := mkSerializer {
  output_ : list (Ref bytes);
  sbuffer_ : bytes;
}.

Module Serializer.

Definition new : Serializer := mkSerializer [] [].

Definition flush (s : Serializer) : Serializer :=
  if bool_decide (sbuffer_ s ≠ []) then mkSerializer (output_ s ++ [Owned (sbuffer_ s)]) [] else s.

(** The bytes [integer] appends, most significant first. *)
Fixpoint integer_bytes (n : nat) (val : Z) : bytes :=
  match n with
  | O => []
  | S n => byte_of_Z (Z.shiftr val (Z.of_nat n * 8)) :: integer_bytes n val
  end.

Definition integer (width val : Z) (s : Serializer) : Serializer :=
  mkSerializer (output_ s) (sbuffer_ s ++ integer_bytes (Z.to_nat width) val).

Definition buffer_string (buf : bytes) (s : Serializer) : Serializer :=
  if bool_decide (buf ≠ [])
  then let s := flush s in mkSerializer (output_ s ++ [Owned buf]) (sbuffer_ s) else s.

Definition buffer_ref (buf : Ref bytes) (s : Serializer) : Serializer :=
  if bool_decide (Ref.get buf ≠ [])
  then let s := flush s in mkSerializer (output_ s ++ [buf]) (sbuffer_ s) else s.

Fixpoint buffer_refs (bufs : list (Ref bytes)) (s : Serializer) : Serializer :=
  match bufs with
  | [] => s
  | b :: bufs => buffer_refs bufs (buffer_ref (Ref.reborrow b) s)
  end.

Definition finish (s : Serializer) : list (Ref bytes) := output_ (flush s).

End Serializer.

(** * What a buffer list holds *)

Definition chunks (bl : BufferList) : list bytes := Ref.get <$> buffer_ bl.
Definition remaining (bl : BufferList) : bytes := zdrop (skip_ bl) (text (buffer_ bl)).

(** The representation invariant: owned buffers, empty ones only at the end,
    the front one not used up, and a size that counts what remains. *)
Record bl_ok (bl : BufferList) : Prop := mkBlOk {
  bl_packed : packed (buffer_ bl);
  bl_sizes : Forall (λ r, zlen (Ref.get r) < 2 ^ 64) (buffer_ bl);
  bl_skip : 0 ≤ skip_ bl ∧
    match buffer_ bl with
    | [] => skip_ bl = 0
    | x :: _ => skip_ bl = 0 ∨ skip_ bl < zlen (Ref.get x)
    end;
  bl_owned : owned (buffer_ bl);
  bl_size : size_ bl = zlen (remaining bl);
  bl_bound : zlen (remaining bl) < 2 ^ 64;
}.

Lemma buffer_fill_ok bufs bl :
  owned bufs → size_ bl + zlen (text bufs) < 2 ^ 64 → 0 ≤ size_ bl →
  BufferList.fill bufs bl =
    Ok (mkBufferList (size_ bl + zlen (text bufs)) (buffer_ bl ++ bufs) (skip_ bl)).
Proof.
  revert bl. induction bufs as [|x bufs IH]; intros bl Ho Hb Hs; simpl.
  { rewrite app_nil_r, text_nil, zlen_nil, Z.add_0_r. by destruct bl. }
  apply Forall_cons in Ho as [Hx Ho]. rewrite text_cons, zlen_app in *.
  unfold Ref.is_borrowed. rewrite Hx. simpl.
  rewrite u64_small by (unfold is_u64; zlen). rewrite IH; simpl; [|done|lia|zlen].
  by rewrite <- app_assoc, Z.add_assoc.
Qed.

Lemma text_chunk_bound bufs :
  zlen (text bufs) < 2 ^ 64 → Forall (λ r, zlen (Ref.get r) < 2 ^ 64) bufs.
Proof.
  induction bufs as [|r bufs IH]; intros Hb; [done|].
  rewrite text_cons, zlen_app in Hb. constructor; [zlen|apply IH; zlen].
Qed.

(** A list from which nothing was read. *)
Lemma bl_ok_fresh n bufs :
  owned bufs → packed bufs → n = zlen (text bufs) → n < 2 ^ 64 →
  bl_ok (mkBufferList n bufs 0) ∧ remaining (mkBufferList n bufs 0) = text bufs.
Proof.
  intros Ho Hp -> Hb. assert (remaining (mkBufferList (zlen (text bufs)) bufs 0) = text bufs) as Hr by by apply zdrop_0.
  split; [|done]. split; rewrite ?Hr; simpl; try done.
  - by apply text_chunk_bound.
  - split; [done|]. destruct bufs; auto.
Qed.

Lemma bl_ok_nil : bl_ok (mkBufferList 0 [] 0).
Proof. apply (bl_ok_fresh 0 []); [constructor|done|done|done]. Qed.

Lemma make_ok bufs :
  owned bufs → packed bufs → zlen (text bufs) < 2 ^ 64 →
  ∃ bl, BufferList.make bufs = Ok bl ∧ bl_ok bl ∧ remaining bl = text bufs.
Proof.
  intros Ho Hn Hb. unfold BufferList.make. rewrite buffer_fill_ok by (simpl; done || lia). simpl.
  eexists. split; [done|]. by apply bl_ok_fresh.
Qed.

Lemma bl_empty bl : bl_ok bl → remaining bl = [] → text (buffer_ bl) = [] ∧ skip_ bl = 0.
Proof.
  intros R. destruct (bl_skip _ R) as [H0 Hs]. pose proof (bl_packed _ R) as Hp. unfold remaining.
  destruct (buffer_ bl) as [|x rest]; [done|]. destruct Hp as [Hp _]. intros He.
  assert (zlen (zdrop (skip_ bl) (text (x :: rest))) = 0) as Hz by (by rewrite He).
  destruct Hp as [Hp|Hp].
  - split; [done|]. destruct Hs as [|Hs]; [done|]. rewrite text_cons in Hp. apply app_nil in Hp as [Hp _].
    rewrite Hp, zlen_nil in Hs. lia.
  - rewrite text_cons in Hz. assert (0 ≤ zlen (text rest)) by zlen. rewrite zlen_zdrop, zlen_app in Hz. lia.
Qed.

(** The front buffer of a non-empty list. *)
Lemma bl_front bl :
  bl_ok bl → remaining bl ≠ [] →
  ∃ x rest, buffer_ bl = x :: rest ∧ 0 ≤ skip_ bl < zlen (Ref.get x) ∧ zlen (Ref.get x) < 2 ^ 64 ∧
    BufferList.peek bl = Ok (zdrop (skip_ bl) (Ref.get x)) ∧
    remaining bl = zdrop (skip_ bl) (Ref.get x) ++ text rest ∧
    Ref.is_owned x = true ∧ bl_ok (mkBufferList (zlen (text rest)) rest 0).
Proof.
  intros R Hne. destruct (bl_skip _ R) as [H0 Hs]. pose proof (bl_packed _ R) as Hp.
  pose proof (bl_sizes _ R) as Hz. pose proof (bl_owned _ R) as Ho. pose proof (bl_bound _ R) as Hbd.
  unfold remaining in *. destruct (buffer_ bl) as [|x rest] eqn:Hb.
  { destruct Hne. rewrite Hs. done. }
  destruct Hp as [Hx Hp]. apply Forall_cons in Hz as [Hxz Hz]. apply Forall_cons in Ho as [Hox Ho].
  assert (0 < zlen (Ref.get x)) as Hx0.
  { destruct Hx as [Hx|Hx]; [|done]. destruct Hne. rewrite Hx. unfold zdrop. apply drop_nil. }
  assert (skip_ bl < zlen (Ref.get x)) as Hlt by (destruct Hs; lia).
  exists x, rest. rewrite text_cons in *. rewrite zdrop_app_le in * by lia.
  split_and!; try done; try lia.
  - unfold BufferList.peek. rewrite Hb. apply substr_from_ok. lia.
  - apply bl_ok_fresh; [done..|]. zlen.
Qed.

Lemma bl_advance bl x rest n :
  bl_ok bl → buffer_ bl = x :: rest → 0 ≤ n → skip_ bl + n < zlen (Ref.get x) →
  let bl' := mkBufferList (size_ bl - n) (buffer_ bl) (skip_ bl + n) in
  bl_ok bl' ∧ remaining bl' = zdrop n (remaining bl).
Proof.
  intros R Hb Hn Hlt bl'. destruct (bl_skip _ R) as [H0 _].
  assert (remaining bl' = zdrop n (remaining bl)) as Hrem.
  { unfold remaining. simpl. by rewrite zdrop_zdrop by lia. }
  split; [|done]. split; rewrite ?Hrem; simpl; [apply R|apply R| |apply R| |].
  - split; [lia|]. rewrite Hb. by right.
  - rewrite (bl_size _ R). unfold remaining. rewrite Hb, text_cons. zlen.
  - pose proof (bl_bound _ R). zlen.
Qed.

(** Empty buffers are dropped. *)
Lemma remove_prefix_loop_empty fuel len n bufs :
  text bufs = [] → 0 < len < 2 ^ 64 → is_u64 n → (length bufs < fuel)%nat →
  BufferList.remove_prefix_loop fuel len (mkBufferList n bufs 0) = Ok (mkBufferList n [] 0).
Proof.
  intros Ht Hl Hn. revert bufs Ht. induction fuel as [|fuel IH]; intros bufs Ht Hf; [lia|].
  destruct bufs as [|x rest]; [done|]. rewrite text_cons in Ht. apply app_nil in Ht as [Hx Ht].
  cbn [BufferList.remove_prefix_loop buffer_]. rewrite bool_decide_true by lia.
  unfold BufferList.peek. cbn [buffer_ skip_]. rewrite Hx, substr_from_ok by done. cbn [mbind result_bind].
  assert (zlen (zdrop 0 (@nil byte)) = 0) as -> by done. replace (Z.min len 0) with 0 by lia. cbn [size_ skip_].
  rewrite !Z.sub_0_r, (u64_small len), (u64_small n) by (done || unfold is_u64; lia).
  rewrite bool_decide_true by done. apply IH; [done|]. cbn [length] in Hf. lia.
Qed.

Lemma remove_prefix_loop_ok fuel len bl :
  bl_ok bl → is_u64 len →
  (length (buffer_ bl) + (if bool_decide (len = 0%Z) then 0 else 1) < fuel)%nat →
  ∃ bl', BufferList.remove_prefix_loop fuel len bl = Ok bl' ∧ bl_ok bl' ∧
    remaining bl' = zdrop len (remaining bl).
Proof.
  revert len bl. induction fuel as [|fuel IH]; intros len bl R Hl Hf; [lia|].
  destruct (decide (len = 0)) as [->|Hlen].
  { exists bl. simpl. rewrite zdrop_0 by done. by destruct (buffer_ bl). }
  rewrite bool_decide_false in Hf by done.
  destruct (decide (remaining bl = [])) as [He|He].
  { destruct (bl_empty _ R He) as [Ht Hs]. pose proof (bl_size _ R) as Hsz. rewrite He, zlen_nil in Hsz.
    exists (mkBufferList 0 [] 0). destruct bl as [n bufs k]. cbn [buffer_ skip_ size_] in *. subst n k.
    rewrite remove_prefix_loop_empty; [|done|unfold is_u64 in Hl; lia|done|lia].
    split; [done|]. split; [apply bl_ok_nil|]. rewrite He. unfold zdrop. by rewrite drop_nil. }
  destruct (bl_front bl R He) as (x&rest&Hb&Hs&Hxb&Hpk&Hrem&Hox&R').
  unfold is_u64 in Hl. pose proof (bl_bound _ R) as Hbd. pose proof (bl_size _ R) as Hsz.
  assert (zlen (zdrop (skip_ bl) (Ref.get x)) = zlen (Ref.get x) - skip_ bl) as Hv by zlen.
  assert (zlen (remaining bl) = zlen (Ref.get x) - skip_ bl + zlen (text rest)) as Hrl
    by (rewrite Hrem; zlen).
  assert (0 ≤ zlen (text rest)) by zlen.
  cbn [BufferList.remove_prefix_loop]. rewrite Hb, bool_decide_true by done. rewrite Hpk. cbn [mbind result_bind].
  rewrite Hv. set (k := Z.min len (zlen (Ref.get x) - skip_ bl)).
  assert (0 < k ≤ len ∧ k ≤ zlen (Ref.get x) - skip_ bl) as Hk by lia.
  rewrite !u64_small by (unfold is_u64; lia).
  case_bool_decide as Hend.
  - replace (size_ bl - k) with (zlen (text rest)) by lia.
    destruct (IH (len - k) _ R') as (bl'&->&R''&Hr); [unfold is_u64; lia| |].
    { simpl. rewrite Hb in Hf. simpl in Hf. case_bool_decide; lia. }
    exists bl'. split_and!; [done..|]. rewrite Hr, Hrem. unfold remaining. simpl.
    rewrite (zdrop_0 0) by done. rewrite zdrop_app_ge by lia. f_equal. lia.
  - destruct (bl_advance bl x rest k R Hb) as [R'' Hr]; [lia|lia|]. rewrite Hb in R'', Hr.
    assert (k = len) as Hkl by lia. rewrite Hkl, Z.sub_diag in *.
    destruct (IH 0 _ R'') as (bl'&->&R3&Hr3); [done| |].
    { simpl. rewrite Hb in Hf. simpl in Hf. lia. }
    exists bl'. split_and!; [done..|]. by rewrite Hr3, Hr, (zdrop_0 0) by done.
Qed.

Lemma remove_prefix_ok len bl :
  bl_ok bl → is_u64 len →
  ∃ bl', BufferList.remove_prefix len bl = Ok bl' ∧ bl_ok bl' ∧
    remaining bl' = zdrop len (remaining bl).
Proof. intros R Hl. apply remove_prefix_loop_ok; [done|done|]. case_bool_decide; lia. Qed.

(** * Reading *)

(** The parser has no error and [s] is what remains. *)
Definition at_ (p : Parser) (s : bytes) : Prop :=
  bl_ok (input_ p) ∧ error_ p = false ∧ remaining (input_ p) = s.

(** [m] reads exactly the bytes [enc], whatever follows them and however they
    are cut into buffers, and gives [a]. *)
Definition reads {A} (m : parsing A) (enc : bytes) (a : A) : Prop :=
  ∀ p rest, at_ p (enc ++ rest) → ∃ p', m p = Ok (a, p') ∧ at_ p' rest.

(** [m] never throws and never reads out of bounds, on any input, and keeps
    the parser well-formed. *)
Definition safe {A} (m : parsing A) : Prop :=
  ∀ p, bl_ok (input_ p) → ∃ a p', m p = Ok (a, p') ∧ bl_ok (input_ p').

Lemma reads_ret {A} (a : A) : reads (mret a) [] a.
Proof. intros p rest Hp. by exists p. Qed.

Lemma reads_bind {A B} (m : parsing A) (f : A → parsing B) e1 e2 a b :
  reads m e1 a → reads (f a) e2 b → reads (m ≫= f) (e1 ++ e2) b.
Proof.
  intros Hm Hf p rest Hp. rewrite <- app_assoc in Hp. destruct (Hm p _ Hp) as (p1&He1&Hp1).
  destruct (Hf p1 rest Hp1) as (p2&He2&Hp2). exists p2. split; [|done].
  unfold mbind, parsing_bind. by rewrite He1.
Qed.

(** The last step, with nothing left to read. *)
Lemma reads_bind_nil {A B} (m : parsing A) (f : A → parsing B) e1 a b :
  reads m e1 a → reads (f a) [] b → reads (m ≫= f) e1 b.
Proof. intros Hm Hf. rewrite <- (app_nil_r e1). by eapply reads_bind. Qed.

Lemma reads_bind_pure {A B} (m : parsing A) (f : A → parsing B) e2 a b :
  reads m [] a → reads (f a) e2 b → reads (m ≫= f) e2 b.
Proof. intros Hm Hf. by apply (reads_bind m f [] e2 a b). Qed.

Lemma safe_ret {A} (a : A) : safe (mret a).
Proof. intros p Hp. by exists a, p. Qed.
Lemma safe_bind {A B} (m : parsing A) (f : A → parsing B) :
  safe m → (∀ a, safe (f a)) → safe (m ≫= f).
Proof.
  intros Hm Hf p Hp. destruct (Hm p Hp) as (a&p1&He1&Hp1). destruct (Hf a p1 Hp1) as (b&p2&He2&Hp2).
  exists b, p2. split; [|done]. unfold mbind, parsing_bind. by rewrite He1.
Qed.

Lemma reads_lift {A} (m : result A) a : m = Ok a → reads (lift m) [] a.
Proof. intros -> p rest Hp. by exists p. Qed.
Lemma safe_lift {A} (m : result A) a : m = Ok a → safe (lift m).
Proof. intros -> p Hp. by exists a, p. Qed.

Lemma safe_set_error : safe Parser.set_error.
Proof. intros p Hp. by eexists _, _. Qed.
Lemma safe_get_error : safe Parser.get_error.
Proof. intros p Hp. by eexists _, _. Qed.
Lemma reads_get_error : reads Parser.get_error [] false.
Proof. intros p rest Hp. exists p. split; [|done]. unfold Parser.get_error. by destruct Hp as (_&->&_). Qed.
Lemma safe_check_size n : safe (Parser.check_size n).
Proof. intros p Hp. by eexists _, _. Qed.

Lemma safe_remove_prefix n : is_u64 n → safe (Parser.remove_prefix n).
Proof.
  intros Hn p Hp. destruct (remove_prefix_ok n _ Hp Hn) as (bl&He&Hbl&_).
  unfold Parser.remove_prefix. rewrite He. simpl. by eexists _, _.
Qed.

Lemma reads_remove_prefix n enc :
  is_u64 n → zlen enc = n → reads (Parser.remove_prefix n) enc ().
Proof.
  intros Hn He p rest (Hp&Herr&Hrem). destruct (remove_prefix_ok n _ Hp Hn) as (bl&Hr&Hbl&Hrm).
  unfold Parser.remove_prefix. rewrite Hr. simpl. eexists. split; [done|].
  split_and!; [done..|]. simpl. by rewrite Hrm, Hrem, <- He, zdrop_app_zlen.
Qed.

(** ** Integers *)

Lemma next_byte_ok p b s :
  bl_ok (input_ p) → remaining (input_ p) = b :: s →
  ∃ bl, Parser.next_byte p = Ok (byte_to_Z b, mkParser bl (error_ p)) ∧ bl_ok bl ∧ remaining bl = s.
Proof.
  intros Hp Hrem. destruct (bl_front _ Hp) as (x&rest&Hb&Hs&_&Hpk&Hr&_&_).
  { by rewrite Hrem. }
  destruct (remove_prefix_ok 1 _ Hp) as (bl&He&Hbl&Hrm); [by unfold is_u64|].
  exists bl. unfold Parser.next_byte. rewrite Hpk. simpl. rewrite Hr in Hrem.
  destruct (zdrop (skip_ (input_ p)) (Ref.get x)) as [|b' v] eqn:Hv.
  { exfalso. assert (zlen (zdrop (skip_ (input_ p)) (Ref.get x)) = 0) by (by rewrite Hv). zlen. }
  simpl in Hrem. injection Hrem as -> Hs'. rewrite He. simpl. split_and!; [done..|].
  by rewrite Hrm, Hr, <- Hs'.
Qed.

Lemma reads_next_byte b : reads Parser.next_byte [b] (byte_to_Z b).
Proof.
  intros p rest (Hp&He&Hr). destruct (next_byte_ok p b rest Hp Hr) as (bl&Hn&Hbl&Hrm).
  eexists. split; [done|]. by split_and!.
Qed.

Lemma zlen_integer_bytes n v : zlen (Serializer.integer_bytes n v) = Z.of_nat n.
Proof. induction n as [|n IH]; [done|]. cbn [Serializer.integer_bytes]. rewrite zlen_cons. lia. Qed.

Lemma reads_integer_loop n w acc v :
  Z.of_nat n ≤ w → 0 ≤ acc < 256 ^ (w - Z.of_nat n) →
  reads (Parser.integer_loop n w acc) (Serializer.integer_bytes n v)
    (acc * 256 ^ Z.of_nat n + v `mod` 256 ^ Z.of_nat n).
Proof.
  revert acc. induction n as [|n IH]; intros acc Hn Ha; cbn [Serializer.integer_bytes Parser.integer_loop].
  { simpl. rewrite Z.mod_1_r, Z.mul_1_r, Z.add_0_r. apply reads_ret. }
  eapply (reads_bind _ _ [_]); [apply reads_next_byte|]. cbv beta.
  rewrite Nat2Z.inj_succ in *. set (m := Z.of_nat n) in *. assert (0 ≤ m) by lia.
  rewrite byte_to_of_Z, Z.shiftr_div_pow2 by lia.
  assert (2 ^ (m * 8) = 256 ^ m) as -> by (rewrite Z.mul_comm, Z.pow_mul_r by lia; done).
  assert (256 ^ (w - m) = 256 * 256 ^ (w - Z.succ m)) as Hpw
    by (rewrite <- Z.pow_succ_r by lia; f_equal; lia).
  assert (Z.shiftl acc 8 `mod` 2 ^ (8 * w) = 2 ^ 8 * acc) as ->.
  { rewrite Z.shiftl_mul_pow2 by lia. rewrite Z.mod_small; [lia|].
    rewrite (Z.pow_mul_r 2 8) by lia. change (2 ^ 8) with 256. split; [lia|].
    apply Z.lt_le_trans with (256 ^ (w - m)); [lia|]. apply Z.pow_le_mono_r; lia. }
  assert (0 ≤ u8 (v / 256 ^ m) < 2 ^ 8) as Hu8 by apply u8_range.
  replace (2 ^ 8 * acc) with (Z.shiftl acc 8) by (rewrite Z.shiftl_mul_pow2 by lia; lia).
  rewrite lor_shiftl_add by lia. change (2 ^ 8) with 256 in *.
  replace (acc * 256 ^ Z.succ m + v `mod` 256 ^ Z.succ m)
    with ((256 * acc + u8 (v / 256 ^ m)) * 256 ^ m + v `mod` 256 ^ m).
  { apply IH; lia. }
  rewrite !Z.pow_succ_r by lia. rewrite (Z.mul_comm 256 (256 ^ m)).
  rewrite (Z.rem_mul_r v) by (try apply Z.pow_nonzero; lia). unfold u8. change (2 ^ 8) with 256. lia.
Qed.

Lemma reads_check_size n enc :
  n = zlen enc → ∀ p rest, at_ p (enc ++ rest) →
  ∃ p', Parser.check_size n p = Ok ((), p') ∧ at_ p' (enc ++ rest).
Proof.
  intros Hn p rest (Hp&He&Hr). eexists. split; [done|]. split_and!; [done| |done]. simpl.
  rewrite He. apply bool_decide_eq_false. unfold BufferList.size. rewrite (bl_size _ Hp), Hr.
  assert (0 ≤ zlen rest) by zlen. rewrite zlen_app. lia.
Qed.

(** An integer is read back from the bytes [Serializer::integer] wrote. *)
Lemma reads_integer w out v :
  1 ≤ w → 0 ≤ v < 256 ^ w →
  reads (Parser.integer w out) (Serializer.integer_bytes (Z.to_nat w) v) v.
Proof.
  intros Hw Hv p rest Hp. unfold Parser.integer, mbind, parsing_bind.
  destruct (reads_check_size w (Serializer.integer_bytes (Z.to_nat w) v)) with (p := p) (rest := rest)
    as (p1&->&Hp1); [rewrite zlen_integer_bytes; lia|done|].
  unfold Parser.get_error at 1. pose proof Hp1 as (_&->&_).
  case_bool_decide as H1.
  - subst w. destruct (reads_next_byte (byte_of_Z v) p1 rest) as (p2&->&Hp2); [|exists p2; split; [|done]].
    { replace [byte_of_Z v] with (Serializer.integer_bytes (Z.to_nat 1) v); [done|].
      simpl. by rewrite Z.shiftr_0_r. }
    rewrite byte_to_of_Z. by rewrite u8_small.
  - assert (0 ≤ 0 < 256 ^ (w - Z.of_nat (Z.to_nat w))) as Hz
      by (replace (w - _) with 0 by lia; simpl; lia).
    destruct (reads_integer_loop (Z.to_nat w) w 0 v ltac:(lia) Hz p1 rest Hp1) as (p2&->&Hp2).
    exists p2. split; [|done]. rewrite Z2Nat.id by lia. rewrite Z.mod_small by done. done.
Qed.

Lemma safe_integer_loop n w acc p :
  bl_ok (input_ p) → Z.of_nat n ≤ zlen (remaining (input_ p)) →
  ∃ a p', Parser.integer_loop n w acc p = Ok (a, p') ∧ bl_ok (input_ p').
Proof.
  revert acc p. induction n as [|n IH]; intros acc p Hp Hn; [by exists acc, p|].
  destruct (remaining (input_ p)) as [|b s] eqn:Hr; [rewrite zlen_nil in Hn; lia|].
  destruct (next_byte_ok p b s Hp Hr) as (bl&He&Hbl&Hrm).
  cbn [Parser.integer_loop]. unfold mbind, parsing_bind. rewrite He.
  apply IH; [done|]. simpl. rewrite Hrm. rewrite zlen_cons in Hn. lia.
Qed.

Lemma safe_integer w out : 1 ≤ w → safe (Parser.integer w out).
Proof.
  intros Hw p Hp. unfold Parser.integer, mbind, parsing_bind, Parser.check_size, Parser.get_error.
  simpl. destruct (error_ p || _) eqn:He; [by eexists _, _|].
  apply orb_false_iff in He as [_ He]. apply bool_decide_eq_false in He.
  unfold BufferList.size in He. rewrite (bl_size _ Hp) in He.
  set (p1 := mkParser _ _). case_bool_decide as H1.
  - destruct (safe_integer_loop 1 1 0 p1 Hp) as (a&p'&He1&Hp'); [simpl; lia|].
    cbn [Parser.integer_loop] in He1. unfold mbind, parsing_bind in He1.
    destruct (Parser.next_byte p1) as [[b p2]|]; [|done].
    unfold mret, parsing_ret in He1. injection He1 as _ ->. by exists b, p'.
  - apply safe_integer_loop; [done|]. simpl. lia.
Qed.

(** ** The rest of the input *)

Lemma dump_all_ok bl :
  bl_ok bl → ∃ out, BufferList.dump_all bl = Ok out ∧ text out = remaining bl ∧
    owned out ∧ packed out.
Proof.
  intros R. unfold BufferList.dump_all, BufferList.empty. rewrite (bl_size _ R).
  case_bool_decide as Hz.
  { apply zlen_0 in Hz. exists []. rewrite Hz. split_and!; done || constructor. }
  destruct (bl_front bl R) as (x&rest&Hb&Hs&Hxb&Hpk&Hrem&Hox&R'); [by intros H; rewrite H in Hz|].
  pose proof (bl_packed _ R') as Hne. pose proof (bl_owned _ R') as Ho. simpl in Hne, Ho. rewrite Hb, Hrem.
  case_bool_decide as Hk.
  - rewrite substr_from_ok by lia. eexists. split; [done|]. rewrite text_cons. split; [done|].
    split; [by constructor|]. split; [|done]. right. simpl. zlen.
  - exists (x :: rest). replace (skip_ bl) with 0 by done.
    rewrite (zdrop_0 0) by done. split; [done|]. split; [done|].
    split; [by constructor|]. split; [right; lia|done].
Qed.

Lemma safe_all_remaining : safe Parser.all_remaining.
Proof.
  intros p Hp. destruct (dump_all_ok _ Hp) as (out&He&_). unfold Parser.all_remaining.
  rewrite He. simpl. by eexists _, _.
Qed.

Lemma all_remaining_ok p s :
  at_ p s → ∃ out, Parser.all_remaining p = Ok (out, p) ∧ text out = s ∧ owned out ∧ packed out.
Proof.
  intros (Hp&He&<-). destruct (dump_all_ok _ Hp) as (out&Hd&?&?&?). exists out.
  unfold Parser.all_remaining. by rewrite Hd.
Qed.

Lemma concatenate_ok p s : at_ p s → Parser.concatenate_all_remaining p = Ok (s, p).
Proof.
  intros Hp. destruct (all_remaining_ok p s Hp) as (out&He&Ht&_).
  unfold Parser.concatenate_all_remaining, mbind, parsing_bind. rewrite He. rewrite <- Ht.
  by destruct out.
Qed.

Lemma safe_concatenate : safe Parser.concatenate_all_remaining.
Proof. apply safe_bind; [apply safe_all_remaining|]. intros [|]; apply safe_ret. Qed.

Lemma views_ok skip bufs :
  0 ≤ skip → match bufs with [] => True | x :: _ => skip ≤ zlen (Ref.get x) end →
  ∃ vs, BufferList.views skip bufs = Ok vs ∧ concat vs = zdrop skip (text bufs).
Proof.
  revert skip. induction bufs as [|x bufs IH]; intros skip H0 Hs.
  { exists []. split; [done|]. rewrite text_nil. unfold zdrop. by rewrite drop_nil. }
  destruct (IH 0) as (vs&He&Hv); [done|by destruct bufs; [|zlen]|].
  cbn [BufferList.views]. rewrite substr_from_ok by lia. cbn [mbind result_bind]. rewrite He. cbn [mbind result_bind].
  eexists. split; [done|]. rewrite text_cons, zdrop_app_le by lia. simpl.
  by rewrite Hv, (zdrop_0 0).
Qed.

Lemma buffer_ok p s :
  bl_ok (input_ p) → remaining (input_ p) = s →
  ∃ vs, Parser.buffer p = Ok (vs, p) ∧ concat vs = s.
Proof.
  intros R <-. unfold Parser.buffer, BufferList.buffer, BufferList.empty. rewrite (bl_size _ R).
  case_bool_decide as Hz.
  { apply zlen_0 in Hz. exists []. by rewrite Hz. }
  destruct (views_ok (skip_ (input_ p)) (buffer_ (input_ p))) as (vs&->&Hv); [apply (bl_skip _ R)| |by exists vs].
  destruct (bl_skip _ R) as [_ Hs]. destruct (buffer_ (input_ p)) as [|x rest]; [done|].
  destruct Hs as [->|]; [zlen|lia].
Qed.

(** [truncate] keeps the first [len] bytes, provided nothing was read from
    the front buffer: the loop counts whole buffers, the part of the front
    one already read included. *)
Lemma truncate_loop_ok so_far len bufs :
  owned bufs → packed bufs → 0 ≤ so_far < len → len < 2 ^ 64 →
  so_far + zlen (text bufs) < 2 ^ 64 →
  ∃ kept, BufferList.truncate_loop so_far len bufs = Ok kept ∧ owned kept ∧ packed kept ∧
    text kept = ztake (len - so_far) (text bufs).
Proof.
  revert so_far. induction bufs as [|x bufs IH]; intros so_far Ho Hn Hs Hl Hb; simpl.
  { exists []. split_and!; try done. rewrite text_nil. unfold ztake. by rewrite take_nil. }
  apply Forall_cons in Ho as [Hox Ho]. destruct Hn as [Hnx Hn].
  assert (0 ≤ zlen (Ref.get x)) as Hx0 by zlen.
  rewrite text_cons, zlen_app in *. assert (0 ≤ zlen (text bufs)) by zlen.
  rewrite !(u64_small (so_far + _)) by (unfold is_u64; lia).
  case_bool_decide as Hlt.
  - destruct (IH (so_far + zlen (Ref.get x)) Ho Hn) as (kept&->&Hok&Hnk&Ht); [lia..|].
    assert (text (x :: kept) = ztake (len - so_far) (Ref.get x ++ text bufs)) as Htx.
    { rewrite text_cons, Ht, ztake_app_ge by lia. do 2 f_equal. lia. }
    eexists. split; [done|]. split; [by constructor|]. split; [|exact Htx].
    split; [|done]. destruct Hnx as [Hnx|]; [left|by right]. rewrite Htx. rewrite Hnx.
    unfold ztake. apply take_nil.
  - case_bool_decide as Heq.
    + exists [x]. split; [done|]. split; [by constructor|]. split; [by split; [right; lia|]|].
      rewrite ztake_app_le, ztake_ge by lia. apply app_nil_r.
    + rewrite u64_small by (unfold is_u64; lia).
      rewrite bool_decide_false, !bool_decide_true by lia. simpl.
      destruct x as [d|d]; [|done]. simpl in *. eexists. split; [done|].
      rewrite resize_le by lia. split; [by constructor|]. split; [by split; [right; simpl; zlen|]|].
      rewrite text_cons, text_nil, app_nil_r. simpl. by rewrite ztake_app_le by lia.
Qed.

Lemma truncate_ok len bl :
  bl_ok bl → skip_ bl = 0 → 0 ≤ len < 2 ^ 64 →
  ∃ bl', BufferList.truncate len bl = Ok bl' ∧ bl_ok bl' ∧ skip_ bl' = 0 ∧
    remaining bl' = ztake len (remaining bl).
Proof.
  intros R Hs Hl. unfold BufferList.truncate. pose proof (bl_size _ R) as Hsz. rewrite Hs.
  pose proof (bl_bound _ R) as Hb. unfold remaining in Hsz, Hb. rewrite Hs, (zdrop_0 0) in Hsz, Hb by done.
  case_bool_decide as Hle.
  { exists bl. split_and!; [done..|]. unfold remaining. rewrite Hs, (zdrop_0 0) by done.
    by rewrite ztake_ge by lia. }
  case_bool_decide as Hz.
  { eexists. split; [done|]. split; [apply bl_ok_nil|]. split; [done|].
    by rewrite ztake_0 by lia. }
  destruct (truncate_loop_ok 0 len (buffer_ bl)) as (kept&->&Hok&Hnk&Ht); [apply R|apply R|lia..|].
  rewrite Z.sub_0_r in Ht. assert (zlen (text kept) = len) as Hlk by (rewrite Ht; zlen).
  destruct (bl_ok_fresh len kept) as [Hbl Hr]; [done|done|done|lia|].
  eexists. split; [done|]. split; [exact Hbl|]. split; [done|]. rewrite Hr, Ht.
  unfold remaining. by rewrite Hs, (zdrop_0 0) by done.
Qed.
