(* ===== verification/Wire.v ===== *)
(** What goes over the wire: the [serialize] and [parse] helpers of
    src/util/helpers.hh over any type with a [parse] and a [serialize] member,
    and the laws such a type promises. *)

From S2P Require Import Prelude Ref Parser.

(** * What a serializer has written *)

Definition spell (s : Serializer) : bytes := text (output_ s) ++ sbuffer_ s.
Definition ser_ok (s : Serializer) : Prop := nonempty (output_ s).

Lemma ser_ok_new : ser_ok Serializer.new.
Proof. constructor. Qed.

Lemma flush_spell s : spell (Serializer.flush s) = spell s ∧ sbuffer_ (Serializer.flush s) = [].
Proof.
  unfold Serializer.flush, spell. case_bool_decide as Hb; simpl.
  - rewrite text_app, text_cons, text_nil, !app_nil_r. done.
  - by rewrite Hb.
Qed.

Lemma serializer_flush_ok s : ser_ok s → ser_ok (Serializer.flush s).
Proof.
  intros Hs. unfold Serializer.flush, ser_ok. case_bool_decide as Hb; [|done]. simpl.
  apply Forall_app. split; [done|]. apply Forall_singleton. simpl.
  destruct (sbuffer_ s); [done|]. zlen.
Qed.

Lemma finish_text s : text (Serializer.finish s) = spell s.
Proof.
  destruct (flush_spell s) as [Hs Hb]. unfold Serializer.finish. rewrite <- Hs.
  unfold spell. by rewrite Hb, app_nil_r.
Qed.

Lemma integer_spell w v s :
  spell (Serializer.integer w v s) = spell s ++ Serializer.integer_bytes (Z.to_nat w) v.
Proof. unfold spell. simpl. by rewrite app_assoc. Qed.

Lemma buffer_ref_spell b s :
  ser_ok s → spell (Serializer.buffer_ref b s) = spell s ++ Ref.get b ∧ ser_ok (Serializer.buffer_ref b s).
Proof.
  intros Hs. unfold Serializer.buffer_ref. case_bool_decide as Hb; cycle 1.
  { by rewrite Hb, app_nil_r. }
  destruct (flush_spell s) as [Hf Hn]. split.
  - rewrite <- Hf. unfold spell. simpl. rewrite text_app, text_cons, text_nil, Hn, !app_nil_r. done.
  - apply Forall_app. split; [by apply serializer_flush_ok|]. apply Forall_singleton. simpl.
    destruct (Ref.get b); [done|]. zlen.
Qed.

Lemma buffer_string_spell d s :
  ser_ok s → spell (Serializer.buffer_string d s) = spell s ++ d ∧ ser_ok (Serializer.buffer_string d s).
Proof. apply (buffer_ref_spell (Owned d)). Qed.

Lemma buffer_refs_spell bufs s :
  ser_ok s → spell (Serializer.buffer_refs bufs s) = spell s ++ text bufs ∧
    ser_ok (Serializer.buffer_refs bufs s).
Proof.
  revert s. induction bufs as [|b bufs IH]; intros s Hs; simpl.
  { by rewrite text_nil, app_nil_r. }
  destruct (buffer_ref_spell (Ref.reborrow b) s Hs) as [Hsp Hok].
  destruct (IH _ Hok) as [-> ?]. split; [|done]. rewrite Hsp, text_cons. simpl. by rewrite app_assoc.
Qed.

(** * The interface *)

(** A type with members [serialize] and [parse]; the latter gets the object's
    old value, which shows through where a field cannot be read. *)
Class Wire (A : Type) : Type := {
  wire_serialize : A → Serializer → result Serializer;
  wire_parse : A → parsing A;
}.

(** [wire_ok]: the values the format carries exactly, as [wire_text].
    [wire_shape]: what the type alone says of any value (array lengths). *)
Class WireSpec (A : Type) `{Wire A} : Type := {
  wire_ok : A → Prop;
  wire_shape : A → Prop;
  wire_text : A → bytes;
  wire_serialize_law a s :
    wire_ok a → ser_ok s →
    ∃ s', wire_serialize a s = Ok s' ∧ ser_ok s' ∧ spell s' = spell s ++ wire_text a;
  wire_parse_law a old : wire_ok a → wire_shape old → reads (wire_parse old) (wire_text a) a;
  wire_safe_law old : safe (wire_parse old);
}.

(** [serialize( obj )] and [parse( obj, buffers )] of src/util/helpers.hh. *)
Definition serialize {A} `{Wire A} (obj : A) : result (list (Ref bytes)) :=
  s ← wire_serialize obj Serializer.new; Ok (Serializer.finish s).

Definition run_parser {A} (m : parsing A) (buffers : list (Ref bytes)) : result (A * bool) :=
  p ← Parser.make buffers;
  match m p with
  | Ok (obj, p) => Ok (obj, negb (Parser.has_error p))
  | Err e => Err e
  end.

Definition parse {A} `{Wire A} (obj : A) (buffers : list (Ref bytes)) : result (A * bool) :=
  run_parser (wire_parse obj) buffers.

Section wire.
Context {A : Type} `{WireSpec A}.

Lemma serialize_ok (a : A) :
  wire_ok a → ∃ bufs, serialize a = Ok bufs ∧ text bufs = wire_text a ∧ nonempty bufs.
Proof.
  intros Ha. destruct (wire_serialize_law a Serializer.new Ha ser_ok_new) as (s&He&Hok&Hsp).
  exists (Serializer.finish s). unfold serialize. rewrite He. split; [done|].
  rewrite finish_text, Hsp. split; [done|]. by apply serializer_flush_ok.
Qed.
End wire.

(** A parser over given buffers. *)
Lemma parser_make_ok bufs :
  owned bufs → packed bufs → zlen (text bufs) < 2 ^ 64 →
  ∃ p, Parser.make bufs = Ok p ∧ at_ p (text bufs).
Proof.
  intros Ho Hn Hb. destruct (make_ok bufs Ho Hn Hb) as (bl&He&Hok&Hr).
  unfold Parser.make. rewrite He. simpl. eexists. by split.
Qed.

Lemma run_reads {A} (m : parsing A) bufs (a : A) rest :
  owned bufs → packed bufs → zlen (text bufs) < 2 ^ 64 →
  ∀ enc, reads m enc a → text bufs = enc ++ rest → run_parser m bufs = Ok (a, true).
Proof.
  intros Ho Hn Hb enc Hm Ht. destruct (parser_make_ok bufs Ho Hn Hb) as (p&He&Hp).
  rewrite Ht in Hp. destruct (Hm p rest Hp) as (p'&Hm'&(_&Herr&_)).
  unfold run_parser. rewrite He. simpl. rewrite Hm'. unfold Parser.has_error. by rewrite Herr.
Qed.

Lemma run_safe {A} (m : parsing A) bufs :
  safe m → owned bufs → packed bufs → zlen (text bufs) < 2 ^ 64 →
  ∃ a ok, run_parser m bufs = Ok (a, ok).
Proof.
  intros Hm Ho Hn Hb. destruct (parser_make_ok bufs Ho Hn Hb) as (p&He&Hp&_).
  destruct (Hm p Hp) as (a&p'&Hm'&_). unfold run_parser. rewrite He. simpl. rewrite Hm'. eauto.
Qed.

(** What [serialize] gave, copied and cut in any way, is parsed back. *)
Lemma parse_serialize_ok {A} `{WireSpec A} (a old : A) bufs :
  wire_ok a → wire_shape old → owned bufs → packed bufs → text bufs = wire_text a →
  zlen (wire_text a) < 2 ^ 64 → parse old bufs = Ok (a, true).
Proof.
  intros Ha Ho Hw Hn Ht Hb. unfold parse.
  apply (run_reads _ _ _ [] Hw Hn ltac:(by rewrite Ht) (wire_text a)); [by apply wire_parse_law|].
  by rewrite app_nil_r.
Qed.

(** Reading a list of fields, each with its own old value. *)
Fixpoint integers (width : Z) (olds : list Z) : parsing (list Z) :=
  match olds with
  | [] => mret []
  | old :: olds =>
      v ← Parser.integer width old;
      vs ← integers width olds;
      mret (v :: vs)
  end.

Fixpoint serialize_integers (width : Z) (vs : list Z) (s : Serializer) : Serializer :=
  match vs with
  | [] => s
  | v :: vs => serialize_integers width vs (Serializer.integer width v s)
  end.

Definition integers_text (width : Z) (vs : list Z) : bytes :=
  vs ≫= Serializer.integer_bytes (Z.to_nat width).

Lemma reads_integers w olds vs :
  1 ≤ w → length olds = length vs → Forall (λ v, 0 ≤ v < 256 ^ w) vs →
  reads (integers w olds) (integers_text w vs) vs.
Proof.
  intros Hw Hl Hvs. revert olds Hl. induction Hvs as [|v vs Hv Hvs IH]; intros [|old olds] Hl; try done.
  { apply reads_ret. }
  cbn [integers]. unfold integers_text. cbn [mbind list_bind].
  eapply reads_bind; [by apply reads_integer|]. eapply reads_bind_nil; [|apply reads_ret].
  apply IH. simpl in Hl. lia.
Qed.

Lemma safe_integers w olds : 1 ≤ w → safe (integers w olds).
Proof.
  intros Hw. induction olds as [|old olds IH]; [apply safe_ret|]. cbn [integers].
  apply safe_bind; [by apply safe_integer|]. intros v. apply safe_bind; [done|]. intros. apply safe_ret.
Qed.

Lemma serialize_integers_spell w vs s :
  spell (serialize_integers w vs s) = spell s ++ integers_text w vs ∧
  output_ (serialize_integers w vs s) = output_ s.
Proof.
  revert s. induction vs as [|v vs IH]; intros s; simpl; [by rewrite app_nil_r|].
  destruct (IH (Serializer.integer w v s)) as [-> ->]. split; [|done].
  rewrite integer_spell. unfold integers_text. simpl. by rewrite app_assoc.
Qed.

Create HintDb wire discriminated.
#[export] Hint Resolve reads_ret reads_get_error safe_ret safe_get_error safe_set_error
  safe_check_size safe_all_remaining safe_concatenate : wire.
#[export] Hint Extern 2 (safe (Parser.integer _ _)) => apply safe_integer; lia : wire.
#[export] Hint Extern 2 (safe (integers _ _)) => apply safe_integers; lia : wire.
#[export] Hint Extern 3 (safe (mbind _ _)) => apply safe_bind; [|intros ?] : wire.
#[export] Hint Extern 3 (safe (if ?b then _ else _)) => destruct b : wire.

(** Reads the next field of a member [parse]. *)
Ltac reads_field :=
  lazymatch goal with
  | |- reads (mbind _ (Parser.integer _ _)) _ _ => eapply reads_bind; [apply reads_integer; lia|]
  | |- reads (mbind _ (integers _ _)) _ _ => eapply reads_bind; [apply reads_integers; [lia|done|done]|]
  | |- reads (mbind _ Parser.get_error) _ _ => eapply reads_bind_pure; [apply reads_get_error|]
  end; cbv beta.

(** Proves that a member [parse] is safe, field by field. *)
Ltac safe_fields :=
  repeat (cbv beta zeta;
    lazymatch goal with
    | |- safe (mbind _ _) => apply safe_bind; [|intros ?]
    | |- safe (Parser.integer _ _) => apply safe_integer; lia
    | |- safe (integers _ _) => apply safe_integers; lia
    | |- safe (mret _) => apply safe_ret
    | |- safe (if ?b then _ else _) => destruct b
    | |- safe _ => solve [auto with wire nocore]
    end).

(** * What an accepted input guarantees *)

(** No step of [m] clears the error flag. *)
Definition sticky {A} (m : parsing A) : Prop :=
  ∀ p a p', m p = Ok (a, p') → error_ p' = false → error_ p = false.

(** When [m] ends without error, its value satisfies [P]. *)
Definition returns {A} (m : parsing A) (P : A → Prop) : Prop :=
  ∀ p a p', m p = Ok (a, p') → error_ p' = false → P a.

Lemma bind_inv {A B} (m : parsing A) (f : A → parsing B) p b p' :
  (m ≫= f) p = Ok (b, p') → ∃ a p1, m p = Ok (a, p1) ∧ f a p1 = Ok (b, p').
Proof. unfold mbind, parsing_bind. destruct (m p) as [[a p1]|]; [eauto|done]. Qed.

Lemma sticky_bind {A B} (m : parsing A) (f : A → parsing B) :
  sticky m → (∀ a, sticky (f a)) → sticky (m ≫= f).
Proof. intros Hm Hf p b p' (a&p1&H1&H2)%bind_inv He. eapply Hm, Hf; eauto. Qed.

Lemma returns_bind {A B} (m : parsing A) (f : A → parsing B) (P : A → Prop) (Q : B → Prop) :
  returns m P → (∀ a, sticky (f a)) → (∀ a, P a → returns (f a) Q) → returns (m ≫= f) Q.
Proof.
  intros Hm Hs Hf p b p' (a&p1&H1&H2)%bind_inv He. eapply Hf; [|eauto..].
  eapply Hm; [done|]. by eapply Hs.
Qed.

Lemma returns_true {A} (m : parsing A) : returns m (λ _, True).
Proof. done. Qed.
Lemma returns_ret {A} (a : A) (P : A → Prop) : P a → returns (mret a) P.
Proof. by intros Ha p b p' [= <- <-] _. Qed.
Lemma returns_get_error : returns Parser.get_error (λ e, e = false).
Proof. by intros p a p' [= <- <-] He. Qed.
Lemma returns_guard (b : bool) : returns (if b then Parser.set_error else mret ()) (λ _, b = false).
Proof. destruct b; [|by apply returns_ret]. by intros p a p' [= <- <-] [=]. Qed.
Lemma returns_lift {A} (m : result A) (P : A → Prop) : (∀ a, m = Ok a → P a) → returns (lift m) P.
Proof.
  intros Hm p a p' He _. unfold lift in He. destruct m as [x|]; [|done].
  injection He as <- <-. by apply Hm.
Qed.

Lemma sticky_ret {A} (a : A) : sticky (mret a).
Proof. by intros p b p' [= <- <-]. Qed.
Lemma sticky_set_error : sticky Parser.set_error.
Proof. by intros p b p' [= <- <-] [=]. Qed.
Lemma sticky_get_error : sticky Parser.get_error.
Proof. by intros p b p' [= <- <-]. Qed.
Lemma sticky_lift {A} (m : result A) : sticky (lift m).
Proof. intros p a p' He. unfold lift in He. destruct m; [|done]. by injection He as <- <-. Qed.
Lemma sticky_check_size n : sticky (Parser.check_size n).
Proof. intros p a p' [= <- <-] He. by apply orb_false_iff in He as [? _]. Qed.
Lemma sticky_remove_prefix n : sticky (Parser.remove_prefix n).
Proof.
  intros p a p' He. unfold Parser.remove_prefix in He.
  destruct (BufferList.remove_prefix n (input_ p)); [|done]. by injection He as <- <-.
Qed.
Lemma sticky_truncate n : sticky (Parser.truncate n).
Proof.
  intros p a p' He. unfold Parser.truncate in He.
  destruct (BufferList.truncate n (input_ p)); [|done]. by injection He as <- <-.
Qed.
Lemma sticky_all_remaining : sticky Parser.all_remaining.
Proof.
  intros p a p' He. unfold Parser.all_remaining in He.
  destruct (BufferList.dump_all (input_ p)); [|done]. by injection He as <- <-.
Qed.

Lemma next_byte_inv p b p' :
  Parser.next_byte p = Ok (b, p') → 0 ≤ b < 256 ∧ error_ p' = error_ p.
Proof.
  unfold Parser.next_byte. intros He. apply bind_Ok in He as ([|c view]&_&He); [done|].
  apply bind_Ok in He as (bl&_&He). injection He as <- <-. split; [apply byte_to_Z_range|done].
Qed.

Lemma integer_loop_inv n w acc p v p' :
  1 ≤ w → 0 ≤ acc < 256 ^ w → Parser.integer_loop n w acc p = Ok (v, p') →
  0 ≤ v < 256 ^ w ∧ error_ p' = error_ p.
Proof.
  intros Hw. revert acc p. induction n as [|n IH]; intros acc p Ha He; cbn [Parser.integer_loop] in He.
  { by injection He as <- <-. }
  apply bind_inv in He as (b&p1&H1&H2). apply next_byte_inv in H1 as [Hb Hp1]. rewrite <- Hp1.
  apply (IH _ p1) in H2; [done|]. clear H2.
  assert (256 ^ w = 2 ^ (8 * w)) as Hpow by (change 256 with (2 ^ 8); rewrite <- Z.pow_mul_r by lia; done).
  rewrite Hpow in *. pose proof (Z.mod_pos_bound (Z.shiftl acc 8) (2 ^ (8 * w)) ltac:(lia)) as Hm.
  set (x := Z.shiftl acc 8 `mod` 2 ^ (8 * w)) in *. clearbody x.
  assert (2 ^ 8 ≤ 2 ^ (8 * w)) as Hle by (apply Z.pow_le_mono_r; lia).
  assert (0 ≤ Z.lor x b) as H0 by (apply Z.lor_nonneg; lia). split; [done|].
  destruct (decide (Z.lor x b = 0)) as [->|Hne]; [lia|].
  apply Z.log2_lt_pow2; [lia|]. rewrite Z.log2_lor by lia.
  apply Z.max_lub_lt.
  - destruct (decide (x = 0)) as [->|]; [simpl; lia|]. apply Z.log2_lt_pow2; lia.
  - destruct (decide (b = 0)) as [->|]; [simpl; lia|]. apply Z.log2_lt_pow2; [lia|].
    change (2 ^ 8) with 256 in Hle. lia.
Qed.

Lemma integer_inv w old p v p' :
  1 ≤ w → Parser.integer w old p = Ok (v, p') →
  (error_ p' = false → 0 ≤ v < 256 ^ w) ∧ (error_ p' = false → error_ p = false).
Proof.
  intros Hw He. unfold Parser.integer in He. apply bind_inv in He as ([]&p1&H1&He).
  apply bind_inv in He as (err&p2&H2&He). injection H2 as <- <-.
  assert (error_ p1 = false → error_ p = false) as Hst by (intros; by eapply sticky_check_size).
  destruct (error_ p1) eqn:E1.
  { injection He as <- <-. by rewrite E1. }
  case_bool_decide as Hw1.
  - apply next_byte_inv in He as [Hv _]. subst w. split; [done|auto].
  - apply integer_loop_inv in He as [Hv _]; [split; [done|auto]|done|].
    pose proof (Z.pow_pos_nonneg 256 w). lia.
Qed.

Lemma returns_integer w old : 1 ≤ w → returns (Parser.integer w old) (λ v, 0 ≤ v < 256 ^ w).
Proof. intros Hw p v p' He. by apply (integer_inv w old p v p' Hw He). Qed.
Lemma sticky_integer w old : 1 ≤ w → sticky (Parser.integer w old).
Proof. intros Hw p v p' He. by apply (integer_inv w old p v p' Hw He). Qed.

Ltac sticky_fields :=
  repeat (cbv beta zeta;
    lazymatch goal with
    | |- sticky (mbind _ _) => apply sticky_bind; [|intros ?]
    | |- sticky (Parser.integer _ _) => apply sticky_integer; lia
    | |- sticky (mret _) => apply sticky_ret
    | |- sticky (if ?b then _ else _) => destruct b
    | |- sticky Parser.set_error => apply sticky_set_error
    | |- sticky Parser.get_error => apply sticky_get_error
    | |- sticky (lift _) => apply sticky_lift
    | |- sticky (Parser.remove_prefix _) => apply sticky_remove_prefix
    | |- sticky (Parser.truncate _) => apply sticky_truncate
    | |- sticky Parser.all_remaining => apply sticky_all_remaining
    end).

(** What [parse] of src/util/helpers.hh accepts. *)
Lemma run_returns {A} (m : parsing A) (P : A → Prop) bufs a :
  returns m P → run_parser m bufs = Ok (a, true) → P a.
Proof.
  intros Hm He. unfold run_parser in He. apply bind_Ok in He as (p&_&He).
  destruct (m p) as [[a' p']|] eqn:E; [|done]. injection He as -> He.
  eapply Hm; [done|]. unfold Parser.has_error in He. by apply negb_true_iff in He.
Qed.
