(* ===== verification/Checksum.v ===== *)
(** The Internet checksum (src/util/checksum.hh). *)

From S2P Require Import Prelude Ref Parser.

Record InternetChecksum : Type := mkInternetChecksum {
  sum_ : Z;
  parity_ : bool;
}.

Module InternetChecksum.

Definition new (sum : Z) : InternetChecksum := mkInternetChecksum sum false.

(** [add( string_view )]: the loop over the characters. *)
Fixpoint add (data : bytes) (c : InternetChecksum) : InternetChecksum :=
  match data with
  | [] => c
  | i :: data =>
      let val := byte_to_Z i in
      let val := if negb (parity_ c) then u16 (Z.shiftl val 8) else val in
      add data (mkInternetChecksum (u32 (sum_ c + val)) (negb (parity_ c)))
  end.

(** [add( range )]. *)
Fixpoint add_all (data : list bytes) (c : InternetChecksum) : InternetChecksum :=
  match data with
  | [] => c
  | x :: data => add_all data (add x c)
  end.

(** The carry loop of [value]; a 32-bit sum needs at most two turns. *)
Fixpoint fold_carries (fuel : nat) (ret : Z) : result Z :=
  match fuel with
  | O => Err OutOfFuel
  | S fuel =>
      if bool_decide (ret > 65535)
      then fold_carries fuel (u32 (Z.shiftr ret 16 + u16 ret))
      else Ok ret
  end.

Definition value (c : InternetChecksum) : result Z :=
  ret ← fold_carries 3 (sum_ c); Ok (u16 (Z.lnot ret)).

End InternetChecksum.

(** * Sums *)

(** The sum of the big-endian 16-bit words of a string; [odd] says whether it
    starts in the middle of a word. *)
Fixpoint word_sum (odd : bool) (data : bytes) : Z :=
  match data with
  | [] => 0
  | b :: data => (if odd then byte_to_Z b else 256 * byte_to_Z b) + word_sum (negb odd) data
  end.

Fixpoint flips (odd : bool) (data : bytes) : bool :=
  match data with [] => odd | _ :: data => flips (negb odd) data end.

Lemma word_sum_range odd data : 0 ≤ word_sum odd data ≤ 65280 * zlen data.
Proof.
  revert odd. induction data as [|b data IH]; intros odd; [simpl; zlen|].
  cbn [word_sum]. rewrite zlen_cons. specialize (IH (negb odd)).
  pose proof (byte_to_Z_range b) as Hb. unfold is_u8 in Hb. destruct odd; simpl in *; lia.
Qed.

Lemma word_sum_app odd l k : word_sum odd (l ++ k) = word_sum odd l + word_sum (flips odd l) k.
Proof. revert odd. induction l as [|b l IH]; intros odd; simpl; [done|]. rewrite IH. lia. Qed.
Lemma flips_app odd l k : flips odd (l ++ k) = flips (flips odd l) k.
Proof. revert odd. induction l as [|b l IH]; intros odd; simpl; [done|]. apply IH. Qed.

Lemma add_ok data c :
  0 ≤ sum_ c → sum_ c + word_sum (parity_ c) data < 2 ^ 32 →
  InternetChecksum.add data c =
    mkInternetChecksum (sum_ c + word_sum (parity_ c) data) (flips (parity_ c) data).
Proof.
  revert c. induction data as [|b data IH]; intros c H0 Hb; cbn [InternetChecksum.add word_sum flips] in *.
  { rewrite Z.add_0_r. by destruct c. }
  pose proof (byte_to_Z_range b) as Hr. unfold is_u8 in Hr.
  pose proof (word_sum_range (negb (parity_ c)) data) as Hw.
  assert ((if negb (parity_ c) then u16 (Z.shiftl (byte_to_Z b) 8) else byte_to_Z b)
    = if parity_ c then byte_to_Z b else 256 * byte_to_Z b) as ->.
  { destruct (parity_ c); simpl; [done|]. rewrite Z.shiftl_mul_pow2 by lia.
    rewrite u16_small; [lia|unfold is_u16; lia]. }
  rewrite u32_small by (unfold is_u32; destruct (parity_ c); lia).
  rewrite IH; simpl; [|destruct (parity_ c); lia..]. f_equal. destruct (parity_ c); lia.
Qed.

Lemma add_all_ok data c :
  0 ≤ sum_ c → sum_ c + word_sum (parity_ c) (concat data) < 2 ^ 32 →
  InternetChecksum.add_all data c = InternetChecksum.add (concat data) c.
Proof.
  revert c. induction data as [|x data IH]; intros c H0 Hb; [done|]. simpl in *.
  rewrite word_sum_app in Hb. pose proof (word_sum_range (parity_ c) x).
  pose proof (word_sum_range (flips (parity_ c) x) (concat data)).
  rewrite (add_ok x) by lia. rewrite IH by (simpl; lia).
  rewrite !add_ok by (simpl; rewrite ?word_sum_app; lia). simpl. rewrite word_sum_app, flips_app.
  f_equal. lia.
Qed.

(** * The value *)

(** The one's-complement representative: 1 to 65535 for a positive sum. *)
Definition ones (x : Z) : Z := if bool_decide (x = 0) then 0 else (x - 1) `mod` 65535 + 1.

Lemma ones_carry x : 65535 < x → ones (x / 65536 + x `mod` 65536) = ones x.
Proof.
  intros Hx. unfold ones. rewrite !bool_decide_false by word. f_equal.
  rewrite (Z.div_mod x 65536) at 3 by lia.
  replace (65536 * (x / 65536) + x `mod` 65536 - 1)
    with (x / 65536 + x `mod` 65536 - 1 + (x / 65536) * 65535) by lia.
  by rewrite Z_mod_plus_full.
Qed.

Lemma fold_carries_ok x :
  is_u32 x → InternetChecksum.fold_carries 3 x = Ok (ones x).
Proof.
  assert (∀ y, 0 ≤ y ≤ 65535 → ones y = y) as Hsmall.
  { intros y Hy. unfold ones. case_bool_decide; [lia|]. rewrite Z.mod_small by lia. lia. }
  assert (∀ y, is_u32 y → u32 (Z.shiftr y 16 + u16 y) = y / 65536 + y `mod` 65536) as Hstep.
  { intros y Hy. rewrite Z.shiftr_div_pow2 by lia. word. }
  intros Hx. cbn [InternetChecksum.fold_carries].
  case_bool_decide as H1; [|unfold is_u32 in Hx; rewrite Hsmall by lia; done].
  rewrite Hstep by done. rewrite <- (ones_carry x) by lia.
  set (y := x / 65536 + x `mod` 65536). assert (0 ≤ y ≤ 131070) as Hy by (subst y; word).
  clearbody y. case_bool_decide as H2; [|rewrite Hsmall by lia; done].
  rewrite Hstep by (unfold is_u32; lia). rewrite <- (ones_carry y) by lia.
  set (w := y / 65536 + y `mod` 65536). assert (0 ≤ w ≤ 65535) as Hw by (subst w; word).
  rewrite bool_decide_false by lia. by rewrite Hsmall.
Qed.

Lemma ones_range x : 0 ≤ x → 0 ≤ ones x ≤ 65535.
Proof. intros. unfold ones. case_bool_decide; [lia|]. word. Qed.

Lemma value_ok c :
  is_u32 (sum_ c) → InternetChecksum.value c = Ok (65535 - ones (sum_ c)).
Proof.
  intros Hc. unfold InternetChecksum.value. rewrite fold_carries_ok by done. simpl. f_equal.
  unfold is_u32 in Hc. pose proof (ones_range (sum_ c) ltac:(lia)). unfold Z.lnot. word.
Qed.

(** The checksum of a string after a partial sum. *)
Definition checksum (init : Z) (data : bytes) : Z := 65535 - ones (init + word_sum false data).

Lemma checksum_ok init data :
  0 ≤ init → init + 65280 * zlen data < 2 ^ 32 →
  InternetChecksum.value (InternetChecksum.add data (InternetChecksum.new init))
    = Ok (checksum init data).
Proof.
  intros H0 Hb. pose proof (word_sum_range false data).
  rewrite add_ok by (simpl; lia). rewrite value_ok by (simpl; unfold is_u32; lia). done.
Qed.

Lemma checksum_all_ok init data :
  0 ≤ init → init + 65280 * zlen (concat data) < 2 ^ 32 →
  InternetChecksum.value (InternetChecksum.add_all data (InternetChecksum.new init))
    = Ok (checksum init (concat data)).
Proof.
  intros H0 Hb. pose proof (word_sum_range false (concat data)).
  rewrite add_all_ok by (simpl; lia). by apply checksum_ok.
Qed.

Lemma checksum_range init data : 0 ≤ init → 0 ≤ checksum init data ≤ 65535.
Proof.
  intros. pose proof (word_sum_range false data). pose proof (zlen_nonneg data).
  unfold checksum. pose proof (ones_range (init + word_sum false data) ltac:(lia)). lia.
Qed.

(** Adding the checksum to the sum it was computed from gives 65535. *)
Lemma ones_complete x : 0 ≤ x → ones (x + (65535 - ones x)) = 65535.
Proof.
  intros Hx. unfold ones at 2. case_bool_decide as H0; [by subst|].
  unfold ones. rewrite bool_decide_false by word.
  replace (x + (65535 - ((x - 1) `mod` 65535 + 1)) - 1) with (65534 + (x - 1) / 65535 * 65535)
    by word.
  by rewrite Z_mod_plus_full.
Qed.

(** Whatever is added, the sum stays a 32-bit value and the carries can be
    folded. *)
Lemma add_all_u32 data c : is_u32 (sum_ c) → is_u32 (sum_ (InternetChecksum.add_all data c)).
Proof.
  assert (∀ x c, is_u32 (sum_ c) → is_u32 (sum_ (InternetChecksum.add x c))) as Ha.
  { intros x. induction x as [|b x IH]; intros c' Hc; simpl; [done|]. apply IH. apply u32_range. }
  revert c. induction data as [|x data IH]; intros c Hc; simpl; [done|]. by apply IH, Ha.
Qed.

(** The two bytes of a checksum field. *)
Definition field (c : Z) : bytes := [byte_of_Z (c / 256); byte_of_Z c].

Lemma word_sum_field c : is_u16 c → word_sum false (field c) = c.
Proof.
  intros Hc. unfold field. simpl. rewrite !byte_to_of_Z. word.
Qed.

Lemma field_integer c : Serializer.integer_bytes 2 c = field c.
Proof.
  unfold field. simpl. rewrite Z.shiftr_0_r. rewrite Z.shiftr_div_pow2 by lia. done.
Qed.

Lemma flips_even l : Z.even (zlen l) = true → flips false l = false.
Proof.
  assert (∀ odd l, flips odd l = xorb odd (Z.odd (zlen l))) as Hf.
  { intros odd k. revert odd. induction k as [|b k IH]; intros odd; [by destruct odd|].
    cbn [flips]. rewrite IH, zlen_cons, Z.odd_add. simpl. by destruct odd, (Z.odd (zlen k)). }
  intros He. rewrite Hf. rewrite <- Z.negb_even, He. done.
Qed.

(** A string with its checksum in a zeroed, aligned field sums to nothing. *)
Lemma checksum_complete init pre post :
  0 ≤ init → Z.even (zlen pre) = true →
  checksum init (pre ++ field (checksum init (pre ++ field 0 ++ post)) ++ post) = 0.
Proof.
  intros H0 He. set (c := checksum init (pre ++ field 0 ++ post)).
  assert (is_u16 c) as Hc by (pose proof (checksum_range init (pre ++ field 0 ++ post) H0); unfold is_u16; lia).
  unfold checksum. rewrite !word_sum_app, flips_even, word_sum_field by done.
  change (flips false (field c)) with false.
  set (x := init + (word_sum false pre + word_sum false post)).
  assert (0 ≤ x) as Hx.
  { subst x. pose proof (word_sum_range false pre). pose proof (word_sum_range false post). lia. }
  assert (c = 65535 - ones x) as Hcx.
  { subst c x. unfold checksum. rewrite !word_sum_app, flips_even, word_sum_field by (done || word).
    change (flips false (field 0)) with false. do 2 f_equal; lia. }
  replace (init + (word_sum false pre + (c + word_sum false post))) with (x + (65535 - ones x))
    by (subst x; rewrite <- Hcx; lia).
  rewrite ones_complete by done. lia.
Qed.

(** * Properties *)

(** A checksum computed over data with a zeroed, aligned checksum field
    makes the whole sum to zero once stored in that field, whatever partial
    sum it starts from and however the data is split into buffers: this is the
    test [TCPSegment::parse] makes on what [compute_checksum] produced. *)
Theorem internet_checksum_verifies init pre post bufs :
  0 ≤ init → init + 65280 * (zlen pre + 2 + zlen post) < 2 ^ 32 → Z.even (zlen pre) = true →
  concat bufs = pre ++ field 0 ++ post →
  ∃ c, InternetChecksum.value (InternetChecksum.add_all bufs (InternetChecksum.new init)) = Ok c ∧
    is_u16 c ∧
    ∀ bufs', concat bufs' = pre ++ field c ++ post →
      InternetChecksum.value (InternetChecksum.add_all bufs' (InternetChecksum.new init)) = Ok 0.
Proof.
  intros H0 Hb He Hc.
  assert (∀ c l, concat l = pre ++ field c ++ post →
    InternetChecksum.value (InternetChecksum.add_all l (InternetChecksum.new init))
      = Ok (checksum init (pre ++ field c ++ post))) as Hv.
  { intros c l Hl. rewrite checksum_all_ok; rewrite ?Hl; [done|done|].
    rewrite !zlen_app. change (zlen (field c)) with 2. lia. }
  eexists. split; [by apply (Hv 0)|]. split.
  - pose proof (checksum_range init (pre ++ field 0 ++ post) H0). unfold is_u16. lia.
  - intros bufs' Hc'. rewrite (Hv _ _ Hc'). f_equal. by apply checksum_complete.
Qed.

Lemma internet_checksum_verifies_witness :
  ∃ c, InternetChecksum.value (InternetChecksum.add_all
      [slice demo_stream 0 3; slice demo_stream 3 1 ++ field 0; slice demo_stream 6 5]
      (InternetChecksum.new 70000)) = Ok c ∧ is_u16 c ∧
    ∀ bufs', concat bufs' = slice demo_stream 0 4 ++ field c ++ slice demo_stream 6 5 →
      InternetChecksum.value (InternetChecksum.add_all bufs' (InternetChecksum.new 70000)) = Ok 0.
Proof. apply internet_checksum_verifies; by vm_compute. Defined.
