(* ===== verification/Ethernet.v ===== *)
(** Ethernet headers and frames (src/util/ethernet_header.hh,
    src/util/ethernet_header.cc, src/util/ethernet_frame.hh). *)

From S2P Require Import Prelude Ref Parser Wire.

(** An array of six bytes. *)
Abbreviation EthernetAddress := (list Z).

Definition ETHERNET_BROADCAST : EthernetAddress := [255; 255; 255; 255; 255; 255].
Definition zero_address : EthernetAddress := [0; 0; 0; 0; 0; 0].

Definition address_ok (a : EthernetAddress) : Prop := length a = 6%nat ∧ Forall (λ b, 0 ≤ b < 256) a.

(** * The header *)

Record EthernetHeader : Type := mkEthernetHeader {
  dst : EthernetAddress;
  src : EthernetAddress;
  type : Z;
}.

Module EthernetHeader.

Definition LENGTH : Z := 14.
Definition TYPE_IPv4 : Z := 2048.
Definition TYPE_ARP : Z := 2054.

Definition parse (h : EthernetHeader) : parsing EthernetHeader :=
  dst ← integers 1 (dst h);
  src ← integers 1 (src h);
  type ← Parser.integer 2 (type h);
  mret (mkEthernetHeader dst src type).

Definition serialize (h : EthernetHeader) (s : Serializer) : Serializer :=
  let s := serialize_integers 1 (dst h) s in
  let s := serialize_integers 1 (src h) s in
  Serializer.integer 2 (type h) s.

End EthernetHeader.

Definition header_ok (h : EthernetHeader) : Prop :=
  address_ok (dst h) ∧ address_ok (src h) ∧ is_u16 (type h).

(** The fixed-size old value a header is parsed into. *)
Definition blank_header : EthernetHeader := mkEthernetHeader zero_address zero_address 0.

(** * Frames *)

Record EthernetFrame : Type := mkEthernetFrame {
  header : EthernetHeader;
  payload : list (Ref bytes);
}.

Module EthernetFrame.

Definition parse (f : EthernetFrame) : parsing EthernetFrame :=
  header ← EthernetHeader.parse (header f);
  payload ← Parser.all_remaining;
  mret (mkEthernetFrame header payload).

Definition serialize (f : EthernetFrame) (s : Serializer) : Serializer :=
  Serializer.buffer_refs (payload f) (EthernetHeader.serialize (header f) s).

(** [clone] of src/util/helpers.hh: owned copies of the payload. *)
Definition clone (f : EthernetFrame) : EthernetFrame :=
  mkEthernetFrame (header f) (Ref.copy <$> payload f).

End EthernetFrame.

(** * Correctness *)

Definition header_text (h : EthernetHeader) : bytes :=
  integers_text 1 (dst h) ++ integers_text 1 (src h) ++ Serializer.integer_bytes 2 (type h).

Lemma header_spell h s :
  spell (EthernetHeader.serialize h s) = spell s ++ header_text h ∧
  output_ (EthernetHeader.serialize h s) = output_ s.
Proof.
  unfold EthernetHeader.serialize, header_text. rewrite integer_spell.
  destruct (serialize_integers_spell 1 (dst h) s) as [E1 O1].
  destruct (serialize_integers_spell 1 (src h) (serialize_integers 1 (dst h) s)) as [E2 O2].
  split; [|simpl; congruence]. rewrite E2, E1, !app_assoc. done.
Qed.

Definition header_shape (h : EthernetHeader) : Prop := length (dst h) = 6%nat ∧ length (src h) = 6%nat.

Lemma header_reads old h :
  header_ok h → header_shape old → reads (EthernetHeader.parse old) (header_text h) h.
Proof.
  intros ((Hd&Hd')&(Hs&Hs')&Ht) [Ho Ho']. unfold EthernetHeader.parse, header_text.
  eapply reads_bind; [apply reads_integers; [lia|congruence|done]|].
  eapply reads_bind; [apply reads_integers; [lia|congruence|done]|].
  eapply reads_bind_nil; [by apply (reads_integer 2); [lia|]|].
  destruct h. apply reads_ret.
Qed.

Lemma header_safe old : safe (EthernetHeader.parse old).
Proof. unfold EthernetHeader.parse. eauto 10 with wire. Qed.

#[export] Instance EthernetHeader_wire : Wire EthernetHeader := {
  wire_serialize h s := Ok (EthernetHeader.serialize h s);
  wire_parse := EthernetHeader.parse;
}.

#[export] Instance EthernetHeader_wire_spec : WireSpec EthernetHeader.
Proof.
  refine {| wire_ok := header_ok; wire_shape := header_shape; wire_text := header_text |}.
  - intros h s _ Hs. eexists. split; [done|]. destruct (header_spell h s) as [-> Ho].
    split; [|done]. unfold ser_ok. by rewrite Ho.
  - intros h old. apply header_reads.
  - apply header_safe.
Defined.

(** Frames that differ only in how their payload is cut into buffers and who
    owns them. *)
#[export] Instance frame_equiv : Equiv EthernetFrame := λ f g,
  header f = header g ∧ text (payload f) = text (payload g).

#[export] Instance frame_equivalence : Equivalence (≡@{EthernetFrame}).
Proof.
  split.
  - by intros f.
  - by intros f g [? ?].
  - intros f g h [? ?] [? ?]. split; congruence.
Qed.

Definition frame_text (f : EthernetFrame) : bytes := header_text (header f) ++ text (payload f).

#[export] Instance frame_text_proper : Proper ((≡) ==> (=)) frame_text.
Proof. intros f g [Hh Hp]. unfold frame_text. by rewrite Hh, Hp. Qed.

Lemma clone_equiv f : EthernetFrame.clone f ≡ f.
Proof. split; [done|]. apply text_copy. Qed.

Lemma frame_spell f s :
  ser_ok s → spell (EthernetFrame.serialize f s) = spell s ++ frame_text f ∧
    ser_ok (EthernetFrame.serialize f s).
Proof.
  intros Hs. unfold EthernetFrame.serialize, frame_text.
  destruct (header_spell (header f) s) as [E O].
  destruct (buffer_refs_spell (payload f) (EthernetHeader.serialize (header f) s)) as [-> ?].
  { unfold ser_ok. by rewrite O. }
  by rewrite E, app_assoc.
Qed.

#[export] Instance EthernetFrame_wire : Wire EthernetFrame := {
  wire_serialize f s := Ok (EthernetFrame.serialize f s);
  wire_parse := EthernetFrame.parse;
}.

Lemma frame_safe old : safe (EthernetFrame.parse old).
Proof.
  unfold EthernetFrame.parse. apply safe_bind; [apply header_safe|]. eauto with wire.
Qed.

(** Parsing a frame: the payload is whatever follows the header. *)
Lemma frame_parse_ok old bufs h rest :
  header_ok h → header_shape (header old) → owned bufs → packed bufs →
  zlen (text bufs) < 2 ^ 64 → text bufs = header_text h ++ rest →
  ∃ out, parse old bufs = Ok (mkEthernetFrame h out, true) ∧ text out = rest ∧
    owned out ∧ packed out.
Proof.
  intros Hh Ho Hw Hn Hb Ht. destruct (parser_make_ok bufs Hw Hn Hb) as (p&He&Hp).
  rewrite Ht in Hp. destruct (header_reads (header old) h Hh Ho p rest Hp) as (p1&E1&Hp1).
  destruct (all_remaining_ok p1 rest Hp1) as (out&E2&Hout&?&?).
  exists out. split; [|done]. unfold parse, run_parser. rewrite He. simpl.
  unfold EthernetFrame.parse, mbind, parsing_bind. rewrite E1, E2. simpl.
  destruct Hp1 as (_&Herr&_). unfold Parser.has_error. by rewrite Herr.
Qed.

(** * Properties *)

(** A frame survives the wire: serialized, copied and cut into buffers in
    any way, it parses back without error into the same header and the same
    payload bytes. *)
Theorem ethernet_frame_roundtrip (f old : EthernetFrame) :
  header_ok (header f) → header_shape (header old) → zlen (frame_text f) < 2 ^ 64 →
  ∃ bufs, serialize f = Ok bufs ∧ text bufs = frame_text f ∧
    ∀ bufs', text bufs' = text bufs → owned bufs' → packed bufs' →
      ∃ f', parse old bufs' = Ok (f', true) ∧ f' ≡ f.
Proof.
  intros Hh Ho Hb. eexists. split; [done|]. rewrite finish_text.
  destruct (frame_spell f Serializer.new ser_ok_new) as [-> _]. split; [done|].
  intros bufs' Ht Hw Hn.
  destruct (frame_parse_ok old bufs' (header f) (text (payload f)) Hh Ho Hw Hn)
    as (out&He&Hout&_&_); [by rewrite Ht|done|].
  eexists. split; [exact He|]. by split.
Qed.

Definition demo_frame : EthernetFrame :=
  mkEthernetFrame (mkEthernetHeader ETHERNET_BROADCAST [2; 0; 0; 0; 0; 7] 2054)
    [Owned (slice demo_stream 0 3); Borrowed (slice demo_stream 3 2)].

Lemma ethernet_frame_roundtrip_witness :
  ∃ bufs, serialize demo_frame = Ok bufs ∧ text bufs = frame_text demo_frame ∧
    ∀ bufs', text bufs' = text bufs → owned bufs' → packed bufs' →
      ∃ f', parse (mkEthernetFrame blank_header []) bufs' = Ok (f', true) ∧ f' ≡ demo_frame.
Proof.
  apply ethernet_frame_roundtrip; [|done|by vm_compute].
  repeat split; try done; repeat constructor; done.
Defined.
