(* ===== verification/IPv4.v ===== *)
(** IPv4 headers and datagrams (src/util/ipv4_header.hh,
    src/util/ipv4_header.cc, src/util/ipv4_datagram.hh). *)

From S2P Require Import Prelude Ref Parser Wire Checksum.

(** * The header *)

Record IPv4Header : Type := mkIPv4Header {
  ver : Z;
  hlen : Z;
  tos : Z;
  len : Z;
  id : Z;
  df : bool;
  mf : bool;
  offset : Z;
  ttl : Z;
  proto : Z;
  cksum : Z;
  src : Z;
  dst : Z;
}.

Module IPv4Header.

Definition LENGTH : Z := 20.
Definition DEFAULT_TTL : Z := 128.
Definition PROTO_TCP : Z := 6.

(** The default member initialisers. *)
Definition new : IPv4Header :=
  mkIPv4Header 4 (LENGTH / 4) 0 0 0 true false 0 DEFAULT_TTL PROTO_TCP 0 0 0.

Definition with_cksum (c : Z) (h : IPv4Header) : IPv4Header :=
  mkIPv4Header (ver h) (hlen h) (tos h) (len h) (id h) (df h) (mf h) (offset h) (ttl h) (proto h)
    c (src h) (dst h).

Definition serialize (h : IPv4Header) (s : Serializer) : result Serializer :=
  if bool_decide (ver h ≠ 4) then Err (Throw "wrong IP version")
  else
    let first_byte := u8 (Z.lor (Z.shiftl (ver h) 4) (Z.land (hlen h) 15)) in
    let s := Serializer.integer 1 first_byte s in
    let s := Serializer.integer 1 (tos h) s in
    let s := Serializer.integer 2 (len h) s in
    let s := Serializer.integer 2 (id h) s in
    let fo_val :=
      u16 (Z.lor (Z.lor (if df h then 16384 else 0) (if mf h then 8192 else 0))
             (Z.land (offset h) 8191)) in
    let s := Serializer.integer 2 fo_val s in
    let s := Serializer.integer 1 (ttl h) s in
    let s := Serializer.integer 1 (proto h) s in
    let s := Serializer.integer 2 (cksum h) s in
    let s := Serializer.integer 4 (src h) s in
    let s := Serializer.integer 4 (dst h) s in
    Ok s.

Definition payload_length (h : IPv4Header) : Z := u16 (len h - 4 * hlen h).

Definition pseudo_checksum (h : IPv4Header) : Z :=
  let pcksum := u32 (Z.shiftr (src h) 16 + u16 (src h)) in
  let pcksum := u32 (pcksum + u32 (Z.shiftr (dst h) 16 + u16 (dst h))) in
  let pcksum := u32 (pcksum + proto h) in
  u32 (pcksum + payload_length h).

Definition compute_checksum (h : IPv4Header) : result IPv4Header :=
  let h := with_cksum 0 h in
  s ← serialize h Serializer.new;
  let check := InternetChecksum.add_all (Ref.get <$> Serializer.finish s) (InternetChecksum.new 0) in
  c ← InternetChecksum.value check;
  Ok (with_cksum c h).

(** The reads of [parse]. *)
Definition parse_fields (h : IPv4Header) : parsing IPv4Header :=
  first_byte ← Parser.integer 1 0;
  let ver := Z.shiftr first_byte 4 in
  let hlen := Z.land first_byte 15 in
  tos ← Parser.integer 1 (tos h);
  len ← Parser.integer 2 (len h);
  id ← Parser.integer 2 (id h);
  fo_val ← Parser.integer 2 0;
  let df := bool_decide (Z.land fo_val 16384 ≠ 0) in
  let mf := bool_decide (Z.land fo_val 8192 ≠ 0) in
  let offset := Z.land fo_val 8191 in
  ttl ← Parser.integer 1 (ttl h);
  proto ← Parser.integer 1 (proto h);
  cksum ← Parser.integer 2 (cksum h);
  src ← Parser.integer 4 (src h);
  dst ← Parser.integer 4 (dst h);
  mret (mkIPv4Header ver hlen tos len id df mf offset ttl proto cksum src dst).

(** Its checks. *)
Definition verify (h : IPv4Header) : parsing IPv4Header :=
  _ ← (if bool_decide (ver h ≠ 4) then Parser.set_error else mret ());
  _ ← (if bool_decide (hlen h < 5) then Parser.set_error else mret ());
  err ← Parser.get_error;
  if (err : bool) then mret h
  else
    _ ← Parser.remove_prefix (u64 (hlen h * 4 - LENGTH));
    let given_cksum := cksum h in
    h ← lift (compute_checksum h);
    _ ← (if bool_decide (cksum h ≠ given_cksum) then Parser.set_error else mret ());
    mret h.

Definition parse (h : IPv4Header) : parsing IPv4Header :=
  h ← parse_fields h; verify h.

End IPv4Header.

(** * Datagrams *)

Record IPv4Datagram : Type := mkIPv4Datagram {
  header : IPv4Header;
  payload : list (Ref bytes);
}.

Module IPv4Datagram.

Definition new : IPv4Datagram := mkIPv4Datagram IPv4Header.new [].

Definition parse (d : IPv4Datagram) : parsing IPv4Datagram :=
  header ← IPv4Header.parse (header d);
  _ ← Parser.truncate (IPv4Header.payload_length header);
  payload ← Parser.all_remaining;
  mret (mkIPv4Datagram header payload).

Definition serialize (d : IPv4Datagram) (s : Serializer) : result Serializer :=
  s ← IPv4Header.serialize (header d) s;
  Ok (Serializer.buffer_refs (payload d) s).

(** [clone] of src/util/helpers.hh, and what copying a datagram does. *)
Definition clone (d : IPv4Datagram) : IPv4Datagram :=
  mkIPv4Datagram (header d) (Ref.copy <$> payload d).

End IPv4Datagram.

(** * The header on the wire *)

Definition fo_val (h : IPv4Header) : Z :=
  u16 (Z.lor (Z.lor (if df h then 16384 else 0) (if mf h then 8192 else 0)) (Z.land (offset h) 8191)).

Definition header_text (h : IPv4Header) : bytes :=
  Serializer.integer_bytes 1 (u8 (Z.lor (Z.shiftl (ver h) 4) (Z.land (hlen h) 15)))
  ++ Serializer.integer_bytes 1 (tos h) ++ Serializer.integer_bytes 2 (len h)
  ++ Serializer.integer_bytes 2 (id h) ++ Serializer.integer_bytes 2 (fo_val h)
  ++ Serializer.integer_bytes 1 (ttl h) ++ Serializer.integer_bytes 1 (proto h)
  ++ Serializer.integer_bytes 2 (cksum h) ++ Serializer.integer_bytes 4 (src h)
  ++ Serializer.integer_bytes 4 (dst h).

Lemma zlen_header_text h : zlen (header_text h) = 20.
Proof. unfold header_text. by rewrite !zlen_app, !zlen_integer_bytes. Qed.

(** The fields are in range for their types, and the header length covers the
    fixed part. *)
Record fields_ok (h : IPv4Header) : Prop := mkFieldsOk {
  fo_ver : ver h = 4;
  fo_hlen : 5 ≤ hlen h < 16;
  fo_tos : is_u8 (tos h);
  fo_len : is_u16 (len h);
  fo_id : is_u16 (id h);
  fo_offset : 0 ≤ offset h < 2 ^ 13;
  fo_ttl : is_u8 (ttl h);
  fo_proto : is_u8 (proto h);
  fo_cksum : is_u16 (cksum h);
  fo_src : is_u32 (src h);
  fo_dst : is_u32 (dst h);
}.

Lemma ipv4_header_spell h s :
  ver h = 4 → ∃ s', IPv4Header.serialize h s = Ok s' ∧ spell s' = spell s ++ header_text h ∧
    output_ s' = output_ s.
Proof.
  intros Hv. unfold IPv4Header.serialize. rewrite bool_decide_false by lia.
  eexists. split; [done|]. split; [|done]. rewrite !integer_spell. unfold header_text, fo_val.
  by rewrite <- !app_assoc.
Qed.

(** The checksum the header should have. *)
Definition header_checksum (h : IPv4Header) : Z := checksum 0 (header_text (IPv4Header.with_cksum 0 h)).

Lemma compute_checksum_ok h :
  ver h = 4 → IPv4Header.compute_checksum h = Ok (IPv4Header.with_cksum (header_checksum h) h).
Proof.
  intros Hv. unfold IPv4Header.compute_checksum.
  destruct (ipv4_header_spell (IPv4Header.with_cksum 0 h) Serializer.new Hv) as (s&->&Hs&_).
  cbn [mbind result_bind]. pose proof (finish_text s) as Ht. rewrite Hs in Ht.
  change (spell Serializer.new) with (@nil byte) in Ht. simpl in Ht.
  rewrite checksum_all_ok; fold (text (Serializer.finish s)); rewrite ?Ht; [done|lia|].
  rewrite zlen_header_text. lia.
Qed.

(** The flag bits of the fragment word. *)
Lemma fo_val_land h m :
  0 ≤ m < 2 ^ 16 →
  Z.land (fo_val h) m = Z.lor (Z.lor (if df h then Z.land 16384 m else 0)
    (if mf h then Z.land 8192 m else 0)) (Z.land (offset h) (Z.land 8191 m)).
Proof.
  intros Hm. unfold fo_val, u16. rewrite <- Z.land_ones by lia.
  rewrite <- Z.land_assoc. assert (Z.land (Z.ones 16) m = m) as ->.
  { rewrite Z.land_comm, Z.land_ones by lia. by apply Z.mod_small. }
  rewrite !Z.land_lor_distr_l, <- Z.land_assoc. by destruct (df h), (mf h).
Qed.

Lemma fo_val_decode h :
  0 ≤ offset h < 2 ^ 13 →
  bool_decide (Z.land (fo_val h) 16384 ≠ 0) = df h ∧
  bool_decide (Z.land (fo_val h) 8192 ≠ 0) = mf h ∧ Z.land (fo_val h) 8191 = offset h.
Proof.
  intros Ho. rewrite !fo_val_land by lia.
  change (Z.land 16384 16384) with 16384. change (Z.land 8192 16384) with 0.
  change (Z.land 8191 16384) with 0. change (Z.land 16384 8192) with 0.
  change (Z.land 8192 8192) with 8192. change (Z.land 8191 8192) with 0.
  change (Z.land 16384 8191) with 0. change (Z.land 8192 8191) with 0.
  change (Z.land 8191 8191) with (Z.ones 13). rewrite Z.land_0_r.
  split_and!; [by destruct (df h), (mf h)|by destruct (df h), (mf h)|].
  rewrite Z.land_ones, Z.mod_small by lia. by destruct (df h), (mf h).
Qed.

Lemma first_byte_decode h :
  ver h = 4 → 5 ≤ hlen h < 16 →
  let b := u8 (Z.lor (Z.shiftl (ver h) 4) (Z.land (hlen h) 15)) in
  Z.shiftr b 4 = 4 ∧ Z.land b 15 = hlen h.
Proof.
  intros -> Hl. change 15 with (Z.ones 4). rewrite Z.land_ones, (Z.mod_small (hlen h)) by lia.
  rewrite lor_shiftl_add by lia. rewrite u8_small by (unfold is_u8; lia). cbv zeta.
  rewrite Z.shiftr_div_pow2, Z.land_ones by lia. split; word.
Qed.

Lemma fields_reads old h : fields_ok h → reads (IPv4Header.parse_fields old) (header_text h) h.
Proof.
  intros []. unfold IPv4Header.parse_fields, header_text, is_u8, is_u16, is_u32 in *.
  destruct (first_byte_decode h) as [Hver Hhlen]; [done..|].
  destruct (fo_val_decode h) as (Hdf&Hmf&Hoff); [done|].
  assert (is_u16 (fo_val h)) as Hfo by apply u16_range. unfold is_u16 in Hfo.
  pose proof (u8_range (Z.lor (Z.shiftl (ver h) 4) (Z.land (hlen h) 15))) as Hb. unfold is_u8 in Hb.
  eapply reads_bind; [apply (reads_integer 1); lia|].
  eapply reads_bind; [apply (reads_integer 1); lia|].
  eapply reads_bind; [apply (reads_integer 2); lia|].
  eapply reads_bind; [apply (reads_integer 2); lia|].
  eapply reads_bind; [apply (reads_integer 2); lia|].
  eapply reads_bind; [apply (reads_integer 1); lia|].
  eapply reads_bind; [apply (reads_integer 1); lia|].
  eapply reads_bind; [apply (reads_integer 2); lia|].
  eapply reads_bind; [apply (reads_integer 4); lia|].
  eapply reads_bind_nil; [apply (reads_integer 4); lia|].
  cbv beta zeta. rewrite Hver, Hhlen, Hdf, Hmf, Hoff. rewrite <- fo_ver0. destruct h. apply reads_ret.
Qed.

Lemma header_checksum_range h : is_u16 (header_checksum h).
Proof.
  pose proof (checksum_range 0 (header_text (IPv4Header.with_cksum 0 h)) ltac:(done)).
  unfold is_u16, header_checksum. lia.
Qed.

Lemma with_cksum_fields c h : is_u16 c → fields_ok h → fields_ok (IPv4Header.with_cksum c h).
Proof. by intros ? []. Qed.

(** The checks skip the options and compare the checksum of the fixed part. *)
Lemma verify_ok h opts p rest :
  fields_ok h → zlen opts = 4 * hlen h - 20 → at_ p (opts ++ rest) →
  ∃ p', IPv4Header.verify h p = Ok (IPv4Header.with_cksum (header_checksum h) h, p') ∧
    bl_ok (input_ p') ∧ remaining (input_ p') = rest ∧
    error_ p' = bool_decide (header_checksum h ≠ cksum h).
Proof.
  intros [Hv Hl] Ho Hp. unfold IPv4Header.verify. rewrite !bool_decide_false by lia.
  unfold IPv4Header.LENGTH. rewrite u64_small by (unfold is_u64; lia).
  destruct (reads_remove_prefix (hlen h * 4 - 20) opts ltac:(unfold is_u64; lia) ltac:(lia) p rest Hp)
    as (p1&E1&Hp1&He1&Hr1).
  unfold mbind, parsing_bind, mret, parsing_ret, Parser.get_error.
  destruct Hp as (_&->&_). rewrite E1. unfold lift. rewrite compute_checksum_ok by done.
  cbn [mbind result_bind].
  cbn [cksum IPv4Header.with_cksum]. case_bool_decide; eexists; (split; [done|]); by split_and!.
Qed.

Lemma with_cksum_id h : IPv4Header.with_cksum (cksum h) h = h.
Proof. by destruct h. Qed.

(** Reading a header with its options, which are skipped. *)
Lemma ipv4_header_reads old h opts :
  fields_ok h → zlen opts = 4 * hlen h - 20 → cksum h = header_checksum h →
  reads (IPv4Header.parse old) (header_text h ++ opts) h.
Proof.
  intros F Ho Hc. unfold IPv4Header.parse. eapply reads_bind; [by apply fields_reads|].
  intros p rest Hp. destruct (verify_ok h opts p rest F Ho Hp) as (p'&He&?&?&Herr).
  rewrite <- Hc, with_cksum_id in He. rewrite bool_decide_false in Herr by auto.
  exists p'. split; [done|]. by split_and!.
Qed.

(** Guards that set the error flag protect what follows them. *)
Lemma safe_checks {A} b1 b2 (m1 m2 : parsing A) :
  safe m1 → (b1 = false → b2 = false → safe m2) →
  safe (_ ← (if b1 then Parser.set_error else mret ());
    _ ← (if b2 then Parser.set_error else mret ());
    err ← Parser.get_error; if (err : bool) then m1 else m2).
Proof.
  intros H1 H2 p Hp. unfold mbind, parsing_bind, mret, parsing_ret, Parser.get_error, Parser.set_error.
  destruct b1, b2; simpl; try (by apply H1). destruct (error_ p); [by apply H1|by apply H2].
Qed.

Lemma ipv4_header_safe old : safe (IPv4Header.parse old).
Proof.
  apply safe_bind; [unfold IPv4Header.parse_fields; safe_fields|].
  intros h. apply safe_checks; [apply safe_ret|]. intros Hv%bool_decide_eq_false _.
  apply safe_bind; [apply safe_remove_prefix, u64_range|]. intros _. apply safe_bind.
  { eapply safe_lift, compute_checksum_ok. by destruct (decide (ver h = 4)). }
  eauto with wire.
Qed.

(** ** What an accepted header guarantees *)

(** The ranges that the reads alone give. *)
Record ranges_ok (h : IPv4Header) : Prop := mkRangesOk {
  ro_hlen : hlen h < 16;
  ro_tos : is_u8 (tos h);
  ro_len : is_u16 (len h);
  ro_id : is_u16 (id h);
  ro_offset : 0 ≤ offset h < 2 ^ 13;
  ro_ttl : is_u8 (ttl h);
  ro_proto : is_u8 (proto h);
  ro_cksum : is_u16 (cksum h);
  ro_src : is_u32 (src h);
  ro_dst : is_u32 (dst h);
}.

Lemma land_ones_lt x n : 0 ≤ n → 0 ≤ Z.land x (Z.ones n) < 2 ^ n.
Proof. intros. rewrite Z.land_ones by done. apply Z.mod_pos_bound. lia. Qed.

Ltac returns_field H :=
  eapply returns_bind; [apply returns_integer; lia|intros ?; sticky_fields|intros ? H; cbv beta zeta].

Lemma fields_sound old : returns (IPv4Header.parse_fields old) ranges_ok.
Proof.
  unfold IPv4Header.parse_fields.
  returns_field Hb. returns_field Ht. returns_field Hl. returns_field Hi. returns_field Hf.
  returns_field Httl. returns_field Hp. returns_field Hc. returns_field Hs. returns_field Hd.
  apply returns_ret. split; cbn; try done.
  - apply (land_ones_lt _ 4). done.
  - apply (land_ones_lt _ 13). done.
Qed.

Lemma header_sound old :
  returns (IPv4Header.parse old) (λ h, fields_ok h ∧ cksum h = header_checksum h).
Proof.
  eapply returns_bind; [apply fields_sound|intros; unfold IPv4Header.verify; sticky_fields|].
  intros h R. unfold IPv4Header.verify.
  eapply returns_bind; [apply returns_guard|intros; sticky_fields|intros _ Hv%bool_decide_eq_false].
  eapply returns_bind; [apply returns_guard|intros; sticky_fields|intros _ Hl%bool_decide_eq_false].
  eapply returns_bind; [apply returns_get_error|intros; sticky_fields|intros err ->].
  eapply returns_bind; [apply returns_true|intros; sticky_fields|intros _ _].
  assert (ver h = 4) as Hv4 by (destruct (decide (ver h = 4)); done).
  eapply (returns_bind _ _ (λ h', h' = IPv4Header.with_cksum (header_checksum h) h)).
  { apply returns_lift. intros h' He. rewrite compute_checksum_ok in He by done. congruence. }
  { intros; sticky_fields. }
  intros h' ->. eapply returns_bind; [apply returns_guard|intros; sticky_fields|].
  intros _ Hc%bool_decide_eq_false. apply returns_ret.
  assert (fields_ok h) as F by (destruct R; split; done || lia).
  split; [apply with_cksum_fields; [apply header_checksum_range|done]|done].
Qed.

Lemma datagram_sound old bufs d :
  run_parser (IPv4Datagram.parse old) bufs = Ok (d, true) →
  fields_ok (header d) ∧ cksum (header d) = header_checksum (header d).
Proof.
  apply (run_returns _ (λ d, fields_ok (header d) ∧ cksum (header d) = header_checksum (header d))).
  eapply returns_bind; [apply header_sound|intros; sticky_fields|]. intros h Hh.
  eapply returns_bind; [apply returns_true|intros; sticky_fields|]. intros _ _.
  eapply returns_bind; [apply returns_true|intros; sticky_fields|]. intros out _.
  by apply returns_ret.
Qed.

#[export] Instance IPv4Datagram_wire : Wire IPv4Datagram := {
  wire_serialize := IPv4Datagram.serialize;
  wire_parse := IPv4Datagram.parse;
}.

(** A header as [serialize] writes it, with the checksum [compute_checksum]
    gives it. *)
Definition header_ok (h : IPv4Header) : Prop :=
  fields_ok h ∧ hlen h = 5 ∧ cksum h = header_checksum h.

(** ** Datagrams *)

(** Datagrams that differ only in how their payload is cut into buffers and
    who owns them. *)
#[export] Instance datagram_equiv : Equiv IPv4Datagram := λ d e,
  header d = header e ∧ text (payload d) = text (payload e).

#[export] Instance datagram_equivalence : Equivalence (≡@{IPv4Datagram}).
Proof.
  split.
  - by intros d.
  - by intros d e [? ?].
  - intros d e f [? ?] [? ?]. split; congruence.
Qed.

Definition datagram_text (d : IPv4Datagram) : bytes := header_text (header d) ++ text (payload d).

#[export] Instance datagram_text_proper : Proper ((≡) ==> (=)) datagram_text.
Proof. intros d e [Hh Hp]. unfold datagram_text. by rewrite Hh, Hp. Qed.

Lemma datagram_clone_equiv d : IPv4Datagram.clone d ≡ d.
Proof. split; [done|]. apply text_copy. Qed.

Definition datagram_ok (d : IPv4Datagram) : Prop :=
  header_ok (header d) ∧ len (header d) = 20 + zlen (text (payload d)).

#[export] Instance datagram_ok_proper : Proper ((≡) ==> iff) datagram_ok.
Proof. intros d e [Hh Hp]. unfold datagram_ok. by rewrite Hh, Hp. Qed.

Lemma datagram_serialize_ok d s :
  ver (header d) = 4 → ser_ok s →
  ∃ s', IPv4Datagram.serialize d s = Ok s' ∧ ser_ok s' ∧ spell s' = spell s ++ datagram_text d.
Proof.
  intros Hv Hs. unfold IPv4Datagram.serialize.
  destruct (ipv4_header_spell (header d) s Hv) as (s1&->&E1&O1). cbn [mbind result_bind].
  destruct (buffer_refs_spell (payload d) s1) as [E2 Hs2]; [unfold ser_ok; by rewrite O1|].
  eexists. split; [done|]. split; [done|]. by rewrite E2, E1, <- app_assoc.
Qed.

(** [truncate] that has nothing to cut. *)
Lemma truncate_nop n p : bl_ok (input_ p) → zlen (remaining (input_ p)) ≤ n →
  Parser.truncate n p = Ok ((), p).
Proof.
  intros Hp Hn. unfold Parser.truncate, BufferList.truncate. rewrite (bl_size _ Hp).
  rewrite bool_decide_true by done. by destruct p.
Qed.

Lemma payload_length_ok h : is_u16 (len h) → hlen h = 5 → 20 ≤ len h →
  IPv4Header.payload_length h = len h - 20.
Proof. intros Hl Hh ?. unfold IPv4Header.payload_length. rewrite Hh. word. Qed.

Lemma datagram_parse_ok old d p :
  datagram_ok d → at_ p (datagram_text d) →
  ∃ out p', IPv4Datagram.parse old p = Ok (mkIPv4Datagram (header d) out, p') ∧
    error_ p' = false ∧ text out = text (payload d) ∧ owned out ∧ packed out.
Proof.
  intros [(F&Hh&Hc) Hl] Hp. unfold datagram_text in Hp.
  destruct (ipv4_header_reads (header old) (header d) [] F) with p (text (payload d)) as (p1&E1&Hp1);
    [by rewrite Hh|done|by rewrite app_nil_r|].
  destruct (all_remaining_ok p1 _ Hp1) as (out&E2&Hout). destruct Hp1 as (Hp1&Herr&Hrem).
  exists out, p1. split; [|done].
  unfold IPv4Datagram.parse, mbind, parsing_bind. rewrite E1, truncate_nop, E2; [done..|].
  rewrite Hrem, payload_length_ok; [lia|apply F|done|zlen].
Qed.

(** A datagram off the wire. *)
Lemma parse_datagram_ok old d bufs :
  datagram_ok d → text bufs = datagram_text d → owned bufs → packed bufs →
  ∃ out, parse old bufs = Ok (mkIPv4Datagram (header d) out, true) ∧
    text out = text (payload d) ∧ owned out ∧ packed out.
Proof.
  intros Hd Ht Hw Hn. destruct (parser_make_ok bufs Hw Hn) as (p&He&Hp).
  { rewrite Ht. unfold datagram_text. rewrite zlen_app, zlen_header_text. destruct Hd as [[F _] Hl].
    destruct F. unfold is_u16 in *. lia. }
  rewrite Ht in Hp. destruct (datagram_parse_ok old d p Hd Hp) as (out&p'&Hpe&Herr&Hout).
  exists out. split; [|exact Hout].
  unfold parse, run_parser. rewrite He, bind_Ok_l. cbn [wire_parse IPv4Datagram_wire].
  rewrite Hpe. unfold Parser.has_error. by rewrite Herr.
Qed.

Lemma serialize_datagram_ok d :
  ver (header d) = 4 → ∃ bufs, serialize d = Ok bufs ∧ text bufs = datagram_text d ∧ nonempty bufs.
Proof.
  intros Hv. destruct (datagram_serialize_ok d Serializer.new Hv ser_ok_new) as (s&Hs&Hok&Hsp).
  exists (Serializer.finish s). unfold serialize. cbn [wire_serialize IPv4Datagram_wire].
  rewrite Hs, bind_Ok_l, finish_text, Hsp. split; [done|]. split; [done|]. by apply serializer_flush_ok.
Qed.

(** The pseudo-header's sum: four address halves, the protocol, the length. *)
Lemma pseudo_checksum_range h :
  is_u32 (src h) → is_u32 (dst h) → is_u8 (proto h) →
  0 ≤ IPv4Header.pseudo_checksum h ≤ 327930.
Proof.
  intros Hs Hd Hp. unfold IPv4Header.pseudo_checksum.
  pose proof (u16_range (len h - 4 * hlen h)) as Hl. fold (IPv4Header.payload_length h) in Hl.
  rewrite !Z.shiftr_div_pow2 by lia. word.
Qed.

(** * Properties *)

(** Parsing a header accepts it exactly when the checksum it carries is
    the Internet checksum of its fixed part with a zeroed checksum field;
    either way every field is read as written and the options are skipped,
    however the bytes are cut into buffers. *)
Theorem ipv4_header_parse (old h : IPv4Header) (opts rest : bytes) bufs :
  fields_ok h → zlen opts = 4 * hlen h - 20 → text bufs = header_text h ++ opts ++ rest →
  owned bufs → packed bufs → zlen (text bufs) < 2 ^ 64 →
  run_parser (IPv4Header.parse old) bufs =
    Ok (IPv4Header.with_cksum (header_checksum h) h, bool_decide (cksum h = header_checksum h)).
Proof.
  intros F Ho Ht Hw Hn Hb. destruct (parser_make_ok bufs Hw Hn Hb) as (p&He&Hp). rewrite Ht in Hp.
  destruct (fields_reads old h F p _ Hp) as (p1&E1&Hp1).
  destruct (verify_ok h opts p1 rest F Ho Hp1) as (p2&E2&_&_&Herr).
  unfold run_parser. rewrite He. cbn [mbind result_bind].
  unfold IPv4Header.parse, mbind, parsing_bind. rewrite E1, E2. unfold Parser.has_error.
  rewrite Herr. do 2 f_equal. destruct (decide (cksum h = header_checksum h)) as [Hc|Hc].
  - by rewrite bool_decide_false, bool_decide_true by auto.
  - by rewrite bool_decide_true, bool_decide_false by auto.
Qed.

Definition demo_header : IPv4Header :=
  IPv4Header.with_cksum 20000 (mkIPv4Header 4 6 0 (24 + 5) 17 true false 0 64 6 0 3232235777 167772161).

Lemma ipv4_header_parse_witness :
  run_parser (IPv4Header.parse IPv4Header.new)
    [Owned (take 7 (header_text demo_header)); Owned (drop 7 (header_text demo_header));
      Owned (slice demo_stream 0 9)]
  = Ok (IPv4Header.with_cksum (header_checksum demo_header) demo_header, false).
Proof.
  apply (ipv4_header_parse IPv4Header.new demo_header (slice demo_stream 0 4) (slice demo_stream 4 5));
    [|done|by vm_compute|repeat constructor|apply nonempty_packed; by repeat constructor|by vm_compute].
  split; vm_compute; done.
Defined.

(** A datagram whose length field is right and whose checksum was computed
    survives the wire: serialized, copied and cut into buffers in any way, it
    parses back without error into an equivalent datagram. *)
Theorem ipv4_datagram_roundtrip (d old : IPv4Datagram) :
  fields_ok (header d) → hlen (header d) = 5 → len (header d) = 20 + zlen (text (payload d)) →
  ∃ h, IPv4Header.compute_checksum (header d) = Ok h ∧
    let d := mkIPv4Datagram h (payload d) in
    ∃ bufs, serialize d = Ok bufs ∧ text bufs = datagram_text d ∧
      ∀ bufs', text bufs' = text bufs → owned bufs' → packed bufs' →
        ∃ d', parse old bufs' = Ok (d', true) ∧ d' ≡ d.
Proof.
  intros F Hh Hl. eexists. split; [apply compute_checksum_ok, F|]. cbv zeta.
  set (c := header_checksum (header d)). set (d1 := mkIPv4Datagram _ (payload d)).
  assert (datagram_ok d1) as Hd by (split; [split; [apply with_cksum_fields; [apply header_checksum_range|done]|done]|done]).
  destruct (serialize_datagram_ok d1) as (bufs&Hs&Ht&_); [apply F|].
  exists bufs. split; [done|]. split; [done|]. rewrite Ht. intros bufs' Ht' Hw Hn.
  destruct (parse_datagram_ok old d1 bufs' Hd Ht' Hw Hn) as (out&Hp&Hout&_).
  exists (mkIPv4Datagram (header d1) out). split; [done|by split].
Qed.

Definition demo_datagram : IPv4Datagram :=
  mkIPv4Datagram (mkIPv4Header 4 5 0 25 17 true false 0 64 6 0 3232235777 167772161)
    [Borrowed (slice demo_stream 0 5)].

Lemma demo_datagram_fields : fields_ok (header demo_datagram).
Proof. split; vm_compute; done. Qed.

Lemma ipv4_datagram_roundtrip_witness :
  ∃ h, IPv4Header.compute_checksum (header demo_datagram) = Ok h ∧
    let d := mkIPv4Datagram h (payload demo_datagram) in
    ∃ bufs, serialize d = Ok bufs ∧ text bufs = datagram_text d ∧
      ∀ bufs', text bufs' = text bufs → owned bufs' → packed bufs' →
        ∃ d', parse IPv4Datagram.new bufs' = Ok (d', true) ∧ d' ≡ d.
Proof. apply ipv4_datagram_roundtrip; [apply demo_datagram_fields|done|done]. Defined.

(** * What parsing can throw *)

Lemma truncate_loop_keeps len bufs : owned bufs → Forall (λ r, zlen (Ref.get r) < 2 ^ 64) bufs → len < 2 ^ 64 →
  ∀ n, 0 ≤ n < len → ∃ kept, BufferList.truncate_loop n len bufs = Ok kept ∧ (bufs ≠ [] → kept ≠ []).
Proof.
  intros Ho Hz Hlen. induction bufs as [|x bufs IH]; intros n Hn; [by exists []|].
  apply Forall_cons in Ho as [Hx Ho]. apply Forall_cons in Hz as [Hxz Hz]. cbn [BufferList.truncate_loop].
  assert (0 ≤ zlen (Ref.get x)) as Hx0 by zlen. case_bool_decide as Hlt.
  { destruct (IH Ho Hz (u64 (n + zlen (Ref.get x)))) as (kept&->&_); [|by eexists].
    pose proof (u64_range (n + zlen (Ref.get x))) as Hr. unfold is_u64 in Hr. lia. }
  case_bool_decide as Heq; [by eexists|].
  assert (u64 (len - n) = len - n) as Hd by (apply u64_small; unfold is_u64; lia). rewrite Hd.
  destruct (decide (n + zlen (Ref.get x) < 2 ^ 64)) as [Hw|Hw].
  - rewrite u64_small in Hlt, Heq by (unfold is_u64; lia). rewrite !bool_decide_false, bool_decide_true by lia.
    rewrite bool_decide_true by lia. destruct x; [|done]. by eexists.
  - rewrite bool_decide_false, !bool_decide_true by lia. destruct x; [|done]. by eexists.
Qed.

(** What is left of a buffer list after [truncate] is dumped, or the offset into
    its front buffer lies beyond its end. *)
Lemma truncate_dumps len bl : bl_ok bl → 0 ≤ len < 2 ^ 64 →
  ∃ bl', BufferList.truncate len bl = Ok bl' ∧
    ((∃ out, BufferList.dump_all bl' = Ok out) ∨ BufferList.dump_all bl' = Err (Throw "out_of_range")).
Proof.
  intros R Hlen. unfold BufferList.truncate. case_bool_decide as Hsz.
  { exists bl. split; [done|]. left. unfold BufferList.dump_all, BufferList.empty. case_bool_decide as He; [by eexists|].
    destruct (bl_front bl R) as (x&rest&->&Hs&_); [intros Hr; apply He; by rewrite (bl_size _ R), Hr|].
    case_bool_decide; [|by eexists]. rewrite substr_from_ok by lia. by eexists. }
  case_bool_decide as H0. { eexists. split; [done|]. left. by eexists. }
  destruct (truncate_loop_keeps len (buffer_ bl) (bl_owned _ R) (bl_sizes _ R) ltac:(lia) 0 ltac:(lia)) as (kept&->&Hk).
  rewrite bind_Ok_l. eexists. split; [done|]. unfold BufferList.dump_all, BufferList.empty. cbn [size_ buffer_ skip_].
  rewrite bool_decide_false by done. destruct (bl_front bl R) as (x&rest&Hb&_).
  { intros Hr. pose proof (bl_size _ R) as Hs. rewrite Hr, zlen_nil in Hs. lia. }
  destruct kept as [|front kept]; [by destruct Hk; [rewrite Hb|]|].
  case_bool_decide; [|left; by eexists]. unfold substr_from. case_bool_decide; [by right|left; by eexists].
Qed.

(** Parsing a datagram from buffers that fit returns, or throws when the offset
    of the header is beyond the front buffer that truncation left. *)
Lemma datagram_parse_throws old bufs :
  owned bufs → packed bufs → zlen (text bufs) < 2 ^ 64 →
  (∃ r, @parse IPv4Datagram _ old bufs = Ok r) ∨ @parse IPv4Datagram _ old bufs = Err (Throw "out_of_range").
Proof.
  intros Ho Hp Hb. destruct (parser_make_ok bufs Ho Hp Hb) as (p&Hm&Hok&_).
  unfold parse, run_parser. rewrite Hm, bind_Ok_l. cbn [wire_parse IPv4Datagram_wire]. unfold IPv4Datagram.parse.
  destruct (ipv4_header_safe (header old) p Hok) as (h&p1&Hh&Hok1).
  unfold mbind, parsing_bind. rewrite Hh. cbv beta iota.
  destruct (truncate_dumps (IPv4Header.payload_length h) (input_ p1) Hok1) as (bl&Ht&Hd).
  { pose proof (u16_range (len h - 4 * hlen h)) as Hr. unfold is_u16 in Hr. unfold IPv4Header.payload_length. lia. }
  unfold Parser.truncate. rewrite Ht. cbn. unfold Parser.all_remaining. cbn.
  destruct Hd as [[out ->]| ->]; [left; by eexists|by right].
Qed.

(** * Padding *)

(** A datagram followed by link-layer padding: [truncate] forgets that the
    header has been read off the front buffer, so a payload that shares its
    buffer with the header is lost, or parsing throws. *)
Definition padded (pad : bytes) (cut : bool) : result (IPv4Datagram * bool) :=
  h ← IPv4Header.compute_checksum (header demo_datagram);
  bufs ← serialize (mkIPv4Datagram h (payload demo_datagram));
  let t := text bufs in
  parse IPv4Datagram.new
    (Owned <$> (if cut then [take 20 t; drop 20 t ++ pad] else [t ++ pad])).

Example padding_throws : padded [Byte.x00] false = Err (Throw "out_of_range").
Proof. by vm_compute. Qed.

Example padding_dropped :
  ∃ h, padded [Byte.x00] true = Ok (mkIPv4Datagram h [Owned (slice demo_stream 0 5)], true).
Proof. eexists. by vm_compute. Qed.
