(* ===== verification/TCPSegment.v ===== *)
(** TCP segments (src/util/tcp_segment.hh, src/util/tcp_segment.cc,
    src/util/udinfo.hh): the message of two peers with the ports and the
    checksum of the TCP header. *)

From S2P Require Import Prelude WrappingIntegers TCPMessages Ref Parser Wire Checksum.

Record UserDatagramInfo : Type := mkUserDatagramInfo {
  src_port : Z;
  dst_port : Z;
  cksum : Z;
}.

(** The message's two [Ref]s are carried by value: a segment that is parsed
    into owns them. *)
Record TCPSegment : Type := mkTCPSegment {
  message : TCPMessage;
  udinfo : UserDatagramInfo;
}.

Module TCPSegment.

Definition HEADER_LENGTH : Z := 20.

Definition new : TCPSegment :=
  mkTCPSegment
    (mkTCPMessage (mkTCPSenderMessage (mkWrap32 0) false [] false false)
       (mkTCPReceiverMessage None 0 false))
    (mkUserDatagramInfo 0 0 0).

Definition with_cksum (c : Z) (seg : TCPSegment) : TCPSegment :=
  mkTCPSegment (message seg) (mkUserDatagramInfo (src_port (udinfo seg)) (dst_port (udinfo seg)) c).

Definition with_payload (payload : bytes) (seg : TCPSegment) : TCPSegment :=
  let s := sender (message seg) in
  mkTCPSegment
    (mkTCPMessage (mkTCPSenderMessage (seqno s) (SYN s) payload (FIN s) (RST s)) (receiver (message seg)))
    (udinfo seg).

(** The reads of [parse]: the data offset and the segment without its
    payload.  [raw32] and [octet] keep their last value where a read fails. *)
Definition parse_fields (seg : TCPSegment) : parsing (Z * TCPSegment) :=
  src_port ← Parser.integer 2 (src_port (udinfo seg));
  dst_port ← Parser.integer 2 (dst_port (udinfo seg));
  raw32 ← Parser.integer 4 0;
  let seqno := Wrap32.of_raw raw32 in
  raw32 ← Parser.integer 4 raw32;
  let ackno := Some (Wrap32.of_raw raw32) in
  octet ← Parser.integer 1 0;
  let data_offset := Z.shiftr octet 4 in
  octet ← Parser.integer 1 octet;
  let ackno := if bool_decide (Z.land octet 16 = 0) then None else ackno in
  let rst := bool_decide (Z.land octet 4 ≠ 0) in
  let syn := bool_decide (Z.land octet 2 ≠ 0) in
  let fin := bool_decide (Z.land octet 1 ≠ 0) in
  window_size ← Parser.integer 2 (window_size (receiver (message seg)));
  cksum ← Parser.integer 2 (cksum (udinfo seg));
  raw16 ← Parser.integer 2 0;
  mret (data_offset,
    mkTCPSegment
      (mkTCPMessage
         (mkTCPSenderMessage seqno syn (payload (sender (message seg))) fin rst)
         (mkTCPReceiverMessage ackno window_size rst))
      (mkUserDatagramInfo src_port dst_port cksum)).

Definition parse (datagram_layer_pseudo_checksum : Z) (seg : TCPSegment) : parsing TCPSegment :=
  views ← Parser.buffer;
  let check := InternetChecksum.add_all views (InternetChecksum.new datagram_layer_pseudo_checksum) in
  value ← lift (InternetChecksum.value check);
  if bool_decide (value ≠ 0) then _ ← Parser.set_error; mret seg
  else
    '(data_offset, seg) ← parse_fields seg;
    if bool_decide (data_offset < Z.shiftr HEADER_LENGTH 2) then _ ← Parser.set_error; mret seg
    else
      _ ← Parser.remove_prefix (u64 (data_offset * 4 - HEADER_LENGTH));
      payload ← Parser.concatenate_all_remaining;
      mret (with_payload payload seg).

Definition serialize (seg : TCPSegment) (s : Serializer) : Serializer :=
  let m := sender (message seg) in
  let r := receiver (message seg) in
  let s := Serializer.integer 2 (src_port (udinfo seg)) s in
  let s := Serializer.integer 2 (dst_port (udinfo seg)) s in
  let s := Serializer.integer 4 (raw_value_ (seqno m)) s in
  let s := Serializer.integer 4 (raw_value_ (default (mkWrap32 0) (ackno r))) s in
  let s := Serializer.integer 1 (Z.shiftl (Z.shiftr HEADER_LENGTH 2) 4) s in
  let reset := RST m || rRST r in
  let flags :=
    u8 (Z.lor (Z.lor (Z.lor (if bool_decide (ackno r ≠ None) then 16 else 0)
      (if reset then 4 else 0)) (if SYN m then 2 else 0)) (if FIN m then 1 else 0)) in
  let s := Serializer.integer 1 flags s in
  let s := Serializer.integer 2 (window_size r) s in
  let s := Serializer.integer 2 (cksum (udinfo seg)) s in
  let s := Serializer.integer 2 0 s in
  Serializer.buffer_string (payload m) s.

Definition compute_checksum (datagram_layer_pseudo_checksum : Z) (seg : TCPSegment) : result TCPSegment :=
  let seg := with_cksum 0 seg in
  let s := serialize seg Serializer.new in
  let check := InternetChecksum.add_all (Ref.get <$> Serializer.finish s)
    (InternetChecksum.new datagram_layer_pseudo_checksum) in
  c ← InternetChecksum.value check;
  Ok (with_cksum c seg).

End TCPSegment.

(** * The segment on the wire *)

Definition flags_octet (seg : TCPSegment) : Z :=
  u8 (Z.lor (Z.lor (Z.lor (if bool_decide (ackno (receiver (message seg)) ≠ None) then 16 else 0)
    (if RST (sender (message seg)) || rRST (receiver (message seg)) then 4 else 0))
    (if SYN (sender (message seg)) then 2 else 0)) (if FIN (sender (message seg)) then 1 else 0)).

(** The ports, the sequence numbers, the window: all before the checksum, with
    a data offset of [doff] words. *)
Definition front_text (doff : Z) (seg : TCPSegment) : bytes :=
  Serializer.integer_bytes 2 (src_port (udinfo seg))
  ++ Serializer.integer_bytes 2 (dst_port (udinfo seg))
  ++ Serializer.integer_bytes 4 (raw_value_ (seqno (sender (message seg))))
  ++ Serializer.integer_bytes 4 (raw_value_ (default (mkWrap32 0) (ackno (receiver (message seg)))))
  ++ Serializer.integer_bytes 1 (Z.shiftl doff 4)
  ++ Serializer.integer_bytes 1 (flags_octet seg)
  ++ Serializer.integer_bytes 2 (window_size (receiver (message seg))).

(** The fixed part of the header. *)
Definition header_text (doff urgent : Z) (seg : TCPSegment) : bytes :=
  front_text doff seg ++ Serializer.integer_bytes 2 (cksum (udinfo seg))
  ++ Serializer.integer_bytes 2 urgent.

Definition segment_text (seg : TCPSegment) : bytes :=
  header_text 5 0 seg ++ payload (sender (message seg)).

Lemma zlen_front_text doff seg : zlen (front_text doff seg) = 16.
Proof. unfold front_text. by rewrite !zlen_app, !zlen_integer_bytes. Qed.
Lemma zlen_segment_header doff urgent seg : zlen (header_text doff urgent seg) = 20.
Proof. unfold header_text. by rewrite !zlen_app, zlen_front_text, !zlen_integer_bytes. Qed.

(** The fields are in range for their types. *)
Record fields_ok (seg : TCPSegment) : Prop := mkFieldsOk {
  fo_src_port : is_u16 (src_port (udinfo seg));
  fo_dst_port : is_u16 (dst_port (udinfo seg));
  fo_cksum : is_u16 (cksum (udinfo seg));
  fo_seqno : wf (seqno (sender (message seg)));
  fo_ackno : ∀ a, ackno (receiver (message seg)) = Some a → wf a;
  fo_window : is_u16 (window_size (receiver (message seg)));
}.

(** TCP has one reset flag: a segment carries both messages' flags as one. *)
Definition normal (seg : TCPSegment) : TCPSegment :=
  let m := sender (message seg) in
  let r := receiver (message seg) in
  let rst := RST m || rRST r in
  mkTCPSegment
    (mkTCPMessage (mkTCPSenderMessage (seqno m) (SYN m) (payload m) (FIN m) rst)
       (mkTCPReceiverMessage (ackno r) (window_size r) rst)) (udinfo seg).

Lemma segment_spell seg s :
  ser_ok s → spell (TCPSegment.serialize seg s) = spell s ++ segment_text seg ∧
    ser_ok (TCPSegment.serialize seg s).
Proof.
  intros Hs. unfold TCPSegment.serialize. cbv zeta.
  match goal with |- context [Serializer.buffer_string ?p ?s1] =>
    destruct (buffer_string_spell p s1) as [-> ?]; [exact Hs|] end.
  split; [|done]. rewrite !integer_spell. unfold segment_text, header_text, front_text, flags_octet.
  by rewrite <- !app_assoc.
Qed.

(** * Parsing *)

Lemma doff_decode doff : 0 ≤ doff < 16 → Z.shiftr (Z.shiftl doff 4) 4 = doff.
Proof. intros. rewrite Z.shiftr_shiftl_l by lia. apply Z.shiftl_0_r. Qed.

Lemma flags_decode seg :
  let f := flags_octet seg in
  let m := sender (message seg) in
  let r := receiver (message seg) in
  0 ≤ f < 2 ^ 8 ∧
  bool_decide (Z.land f 16 = 0) = bool_decide (ackno r = None) ∧
  bool_decide (Z.land f 4 ≠ 0) = RST m || rRST r ∧
  bool_decide (Z.land f 2 ≠ 0) = SYN m ∧ bool_decide (Z.land f 1 ≠ 0) = FIN m.
Proof.
  unfold flags_octet. cbv zeta. destruct (ackno (receiver (message seg))).
  - rewrite bool_decide_true, (bool_decide_false (Some _ = None)) by done.
    by destruct (_ || _), (SYN _), (FIN _).
  - rewrite bool_decide_false, (bool_decide_true (None = None)) by auto.
    by destruct (_ || _), (SYN _), (FIN _).
Qed.

Lemma of_raw_id w : wf w → Wrap32.of_raw (raw_value_ w) = w.
Proof. intros Hw. unfold Wrap32.of_raw. rewrite u32_small by done. by destruct w. Qed.

Lemma parse_fields_reads old seg doff urgent :
  fields_ok seg → 0 ≤ doff < 16 → is_u16 urgent →
  reads (TCPSegment.parse_fields old) (header_text doff urgent seg)
    (doff, TCPSegment.with_payload (payload (sender (message old))) (normal seg)).
Proof.
  intros F Hd Hu. pose proof (flags_decode seg) as (Hf&Ha&Hr&Hs&Hn). cbv zeta in *.
  pose proof (doff_decode doff Hd) as Hdoff. destruct F as [F1 F2 F3 F4 F5 F6].
  assert (is_u32 (raw_value_ (default (mkWrap32 0) (ackno (receiver (message seg)))))) as F5'.
  { destruct (ackno (receiver (message seg))); [by apply F5|done]. }
  assert (0 ≤ Z.shiftl doff 4 < 2 ^ 8) as Hd' by (rewrite Z.shiftl_mul_pow2; lia).
  unfold wf, is_u16, is_u32 in *.
  unfold TCPSegment.parse_fields, header_text, front_text. rewrite <- !app_assoc.
  eapply reads_bind; [apply (reads_integer 2); lia|].
  eapply reads_bind; [apply (reads_integer 2); lia|].
  eapply reads_bind; [apply (reads_integer 4); lia|].
  eapply reads_bind; [apply (reads_integer 4); lia|].
  eapply reads_bind; [apply (reads_integer 1); lia|].
  eapply reads_bind; [apply (reads_integer 1); lia|].
  eapply reads_bind; [apply (reads_integer 2); lia|].
  eapply reads_bind; [apply (reads_integer 2); lia|].
  eapply reads_bind_nil; [apply (reads_integer 2); lia|].
  cbv beta zeta. rewrite Ha, Hr, Hs, Hn, Hdoff, of_raw_id by done.
  assert ((if bool_decide (ackno (receiver (message seg)) = None) then None
    else Some (Wrap32.of_raw (raw_value_ (default (mkWrap32 0) (ackno (receiver (message seg)))))))
    = ackno (receiver (message seg))) as ->.
  { destruct (ackno (receiver (message seg))); [|done]. rewrite bool_decide_false by done.
    simpl. by rewrite of_raw_id by eauto. }
  destruct seg as [? []]. apply reads_ret.
Qed.

Lemma parse_ok old pseudo p seg doff urgent opts :
  fields_ok seg → 0 ≤ doff < 16 → is_u16 urgent → (5 ≤ doff → zlen opts = 4 * doff - 20) →
  let t := header_text doff urgent seg ++ opts ++ payload (sender (message seg)) in
  0 ≤ pseudo → pseudo + 65280 * zlen t < 2 ^ 32 → at_ p t →
  ∃ seg' p', TCPSegment.parse pseudo old p = Ok (seg', p') ∧
    (seg', negb (error_ p')) =
      if bool_decide (checksum pseudo t ≠ 0) then (old, false)
      else if bool_decide (doff < 5)
      then (TCPSegment.with_payload (payload (sender (message old))) (normal seg), false)
      else (normal seg, true).
Proof.
  intros F Hd Hu Ho t Hp Hb Hat. unfold TCPSegment.parse, mbind, parsing_bind.
  destruct (buffer_ok p t) as (vs&->&Hvs); [apply Hat..|].
  unfold lift. rewrite checksum_all_ok, Hvs by (rewrite ?Hvs; lia). cbn [mbind result_bind].
  case_bool_decide; [by eexists _, _|].
  destruct (parse_fields_reads old seg doff urgent F Hd Hu p _ Hat) as (p1&->&Hp1).
  change (Z.shiftr TCPSegment.HEADER_LENGTH 2) with 5. case_bool_decide; [by eexists _, _|].
  unfold TCPSegment.HEADER_LENGTH. rewrite u64_small by (unfold is_u64; lia).
  destruct (reads_remove_prefix (doff * 4 - 20) opts ltac:(unfold is_u64; lia) ltac:(lia) p1 _ Hp1)
    as (p2&->&Hp2).
  rewrite (concatenate_ok p2 _ Hp2). eexists _, _. split; [done|]. destruct Hp2 as (_&->&_).
  by destruct seg as [[[] []] ?].
Qed.

Lemma value_total c : is_u32 (sum_ c) → ∃ v, InternetChecksum.value c = Ok v.
Proof. intros. eexists. by apply value_ok. Qed.

(** Parsing never throws, whatever the bytes. *)
Lemma safe_parse pseudo old : is_u32 pseudo → safe (TCPSegment.parse pseudo old).
Proof.
  intros Hp p Hat. unfold TCPSegment.parse.
  destruct (buffer_ok p _ Hat eq_refl) as (vs&E&_).
  unfold mbind at 1. unfold parsing_bind at 1. rewrite E. revert p Hat E.
  destruct (value_total (InternetChecksum.add_all vs (InternetChecksum.new pseudo))) as [v Hv];
    [by apply add_all_u32|].
  intros p Hat _. cbv beta zeta. revert p Hat. change (safe (v ← lift (InternetChecksum.value
    (InternetChecksum.add_all vs (InternetChecksum.new pseudo)));
    if bool_decide (v ≠ 0) then _ ← Parser.set_error; mret old
    else
      '(data_offset, seg) ← TCPSegment.parse_fields old;
      if bool_decide (data_offset < Z.shiftr TCPSegment.HEADER_LENGTH 2) then _ ← Parser.set_error; mret seg
      else
        _ ← Parser.remove_prefix (u64 (data_offset * 4 - TCPSegment.HEADER_LENGTH));
        payload ← Parser.concatenate_all_remaining;
        mret (TCPSegment.with_payload payload seg))).
  apply safe_bind; [by eapply safe_lift|]. intros w. case_bool_decide; [safe_fields|].
  apply safe_bind; [unfold TCPSegment.parse_fields; safe_fields|]. intros [doff seg].
  case_bool_decide; [safe_fields|]. apply safe_bind; [apply safe_remove_prefix, u64_range|].
  intros _. safe_fields.
Qed.

(** * The checksum *)

Lemma with_cksum_ok c seg : is_u16 c → fields_ok seg → fields_ok (TCPSegment.with_cksum c seg).
Proof. by intros ? []. Qed.

Lemma segment_text_cksum c seg :
  segment_text (TCPSegment.with_cksum c seg) =
    front_text 5 seg ++ field c ++ field 0 ++ payload (sender (message seg)).
Proof. unfold segment_text, header_text. rewrite <- !field_integer, <- !app_assoc. done. Qed.

(** The checksum the segment should carry. *)
Definition segment_checksum (pseudo : Z) (seg : TCPSegment) : Z :=
  checksum pseudo (segment_text (TCPSegment.with_cksum 0 seg)).

Lemma zlen_segment_text seg : zlen (segment_text seg) = 20 + zlen (payload (sender (message seg))).
Proof. unfold segment_text. by rewrite zlen_app, zlen_segment_header. Qed.

Lemma segment_compute_checksum_ok pseudo seg :
  0 ≤ pseudo → pseudo + 65280 * zlen (segment_text seg) < 2 ^ 32 →
  TCPSegment.compute_checksum pseudo seg =
    Ok (TCPSegment.with_cksum (segment_checksum pseudo seg) seg).
Proof.
  intros Hp Hb. unfold TCPSegment.compute_checksum.
  pose proof (finish_text (TCPSegment.serialize (TCPSegment.with_cksum 0 seg) Serializer.new)) as Ht.
  destruct (segment_spell (TCPSegment.with_cksum 0 seg) Serializer.new ser_ok_new) as [Hs _].
  rewrite Hs in Ht. change (spell Serializer.new) with (@nil byte) in Ht. simpl in Ht.
  rewrite checksum_all_ok; [|done|].
  - unfold text in Ht. rewrite Ht. done.
  - unfold text in Ht. rewrite Ht, zlen_segment_text. rewrite zlen_segment_text in Hb. exact Hb.
Qed.

Lemma segment_checksum_valid pseudo seg :
  0 ≤ pseudo →
  checksum pseudo (segment_text (TCPSegment.with_cksum (segment_checksum pseudo seg) seg)) = 0.
Proof.
  intros Hp. unfold segment_checksum. rewrite !segment_text_cksum.
  apply checksum_complete; [done|]. by rewrite zlen_front_text.
Qed.

Lemma segment_checksum_range pseudo seg : 0 ≤ pseudo → is_u16 (segment_checksum pseudo seg).
Proof.
  intros Hp. pose proof (checksum_range pseudo (segment_text (TCPSegment.with_cksum 0 seg)) Hp).
  unfold is_u16, segment_checksum. lia.
Qed.

(** [parse( seg, buffers, pseudo )] of src/util/helpers.hh. *)
Definition parse_segment (pseudo : Z) (seg : TCPSegment) (buffers : list (Ref bytes))
    : result (TCPSegment * bool) :=
  run_parser (TCPSegment.parse pseudo seg) buffers.

(** [serialize( seg )] of src/util/helpers.hh. *)
Definition serialize_segment (seg : TCPSegment) : list (Ref bytes) :=
  Serializer.finish (TCPSegment.serialize seg Serializer.new).

Lemma serialize_segment_ok seg :
  text (serialize_segment seg) = segment_text seg ∧ nonempty (serialize_segment seg).
Proof.
  destruct (segment_spell seg Serializer.new ser_ok_new) as [Hs Hok].
  unfold serialize_segment. rewrite finish_text, Hs. split; [done|]. by apply serializer_flush_ok.
Qed.

Lemma parse_segment_ok old pseudo bufs seg doff urgent opts :
  fields_ok seg → 0 ≤ doff < 16 → is_u16 urgent → (5 ≤ doff → zlen opts = 4 * doff - 20) →
  text bufs = header_text doff urgent seg ++ opts ++ payload (sender (message seg)) →
  0 ≤ pseudo → pseudo + 65280 * zlen (text bufs) < 2 ^ 32 → owned bufs → packed bufs →
  parse_segment pseudo old bufs = Ok (
    if bool_decide (checksum pseudo (text bufs) ≠ 0) then (old, false)
    else if bool_decide (doff < 5)
    then (TCPSegment.with_payload (payload (sender (message old))) (normal seg), false)
    else (normal seg, true)).
Proof.
  intros F Hd Hu Ho Ht Hp Hb Hw Hn.
  destruct (parser_make_ok bufs Hw Hn ltac:(lia)) as (p&He&Hat). rewrite Ht in *.
  destruct (parse_ok old pseudo p seg doff urgent opts) as (seg'&p'&Hpe&Hr); try done.
  unfold parse_segment, run_parser. rewrite He. cbn [mbind result_bind]. rewrite Hpe.
  unfold Parser.has_error. by rewrite Hr.
Qed.

(** A segment with its checksum parses back, however it is cut. *)
Lemma parse_serialized old pseudo seg bufs :
  fields_ok seg → 0 ≤ pseudo → pseudo + 65280 * zlen (segment_text seg) < 2 ^ 32 →
  let seg1 := TCPSegment.with_cksum (segment_checksum pseudo seg) seg in
  text bufs = segment_text seg1 → owned bufs → packed bufs →
  parse_segment pseudo old bufs = Ok (normal seg1, true).
Proof.
  intros F Hp Hb seg1 Ht Hw Hn.
  rewrite (parse_segment_ok old pseudo bufs seg1 5 0 []); try done.
  - rewrite Ht; unfold seg1; rewrite segment_checksum_valid by done. done.
  - apply with_cksum_ok; [by apply segment_checksum_range|done].
  - rewrite Ht, zlen_segment_text. rewrite zlen_segment_text in Hb. exact Hb.
Qed.

(** * Properties *)

(** What [parse] does with a segment, whatever its header options, urgent
    pointer and cut into buffers: it leaves the object alone and reports an
    error when the Internet checksum over pseudo-header and segment is not
    zero, reports an error when the data offset does not cover the fixed
    header, and else reads every field and the payload as written, the two
    messages sharing one reset flag. *)
Theorem tcp_segment_parse (old seg : TCPSegment) pseudo bufs doff urgent opts :
  fields_ok seg → 0 ≤ doff < 16 → is_u16 urgent → (5 ≤ doff → zlen opts = 4 * doff - 20) →
  text bufs = header_text doff urgent seg ++ opts ++ payload (sender (message seg)) →
  0 ≤ pseudo → pseudo + 65280 * zlen (text bufs) < 2 ^ 32 → owned bufs → packed bufs →
  parse_segment pseudo old bufs = Ok (
    if bool_decide (checksum pseudo (text bufs) ≠ 0) then (old, false)
    else if bool_decide (doff < 5)
    then (TCPSegment.with_payload (payload (sender (message old))) (normal seg), false)
    else (normal seg, true)).
Proof. apply parse_segment_ok. Qed.

Definition demo_segment : TCPSegment :=
  mkTCPSegment
    (mkTCPMessage (mkTCPSenderMessage (mkWrap32 4000000000) true (slice demo_stream 0 5) false true)
       (mkTCPReceiverMessage (Some (mkWrap32 17)) 64000 false))
    (mkUserDatagramInfo 4321 80 9).

Lemma demo_segment_fields : fields_ok demo_segment.
Proof. split; [done..| |done]. intros a [= <-]. by vm_compute. Qed.

Lemma tcp_segment_parse_witness :
  parse_segment 70000 TCPSegment.new
    [Owned (header_text 6 1 demo_segment ++ [Byte.x01]);
      Owned ([Byte.x01; Byte.x01; Byte.x00] ++ slice demo_stream 0 5)]
  = Ok (TCPSegment.new, false).
Proof.
  etransitivity.
  - apply (tcp_segment_parse TCPSegment.new demo_segment 70000 _ 6 1
      [Byte.x01; Byte.x01; Byte.x01; Byte.x00]); [apply demo_segment_fields|done..| | | | |].
    + by vm_compute.
    + done.
    + by vm_compute.
    + repeat constructor.
    + repeat constructor; by vm_compute.
  - by vm_compute.
Defined.

(** A segment survives the wire: with the checksum [compute_checksum] gives
    it, serialized, copied and cut into buffers in any way, it parses back
    without error, checksum verified, into the same ports, sequence numbers,
    flags, window and payload. *)
Theorem tcp_segment_roundtrip (old seg : TCPSegment) pseudo :
  fields_ok seg → 0 ≤ pseudo →
  pseudo + 65280 * (20 + zlen (payload (sender (message seg)))) < 2 ^ 32 →
  ∃ seg', TCPSegment.compute_checksum pseudo seg = Ok seg' ∧
    ∀ bufs, text bufs = text (serialize_segment seg') → owned bufs → packed bufs →
      parse_segment pseudo old bufs = Ok (normal seg', true).
Proof.
  rewrite <- zlen_segment_text. intros F Hp Hb. eexists.
  split; [by apply segment_compute_checksum_ok|]. intros bufs Ht. revert Ht.
  rewrite (proj1 (serialize_segment_ok _)). by apply parse_serialized.
Qed.

Lemma tcp_segment_roundtrip_witness :
  ∃ seg', TCPSegment.compute_checksum 70000 demo_segment = Ok seg' ∧
    ∀ bufs, text bufs = text (serialize_segment seg') → owned bufs → packed bufs →
      parse_segment 70000 TCPSegment.new bufs = Ok (normal seg', true).
Proof. apply tcp_segment_roundtrip; [apply demo_segment_fields|done|by vm_compute]. Defined.
