(* ===== verification/ARPMessage.v ===== *)
(** ARP messages (src/util/arp_message.hh, src/util/arp_message.cc). *)

From S2P Require Import Prelude Ref Parser Wire Ethernet.

Record ARPMessage : Type := mkARPMessage {
  hardware_type : Z;
  protocol_type : Z;
  hardware_address_size : Z;
  protocol_address_size : Z;
  opcode : Z;
  sender_ethernet_address : EthernetAddress;
  sender_ip_address : Z;
  target_ethernet_address : EthernetAddress;
  target_ip_address : Z;
}.

Module ARPMessage.

Definition LENGTH : Z := 28.
Definition TYPE_ETHERNET : Z := 1.
Definition OPCODE_REQUEST : Z := 1.
Definition OPCODE_REPLY : Z := 2.

(** The default member initialisers; the sizes are those of an Ethernet and an
    IPv4 address. *)
Definition new : ARPMessage :=
  mkARPMessage TYPE_ETHERNET EthernetHeader.TYPE_IPv4 6 4 0 zero_address 0 zero_address 0.

Definition supported (m : ARPMessage) : bool :=
  bool_decide (hardware_type m = TYPE_ETHERNET)
  && bool_decide (protocol_type m = EthernetHeader.TYPE_IPv4)
  && bool_decide (hardware_address_size m = 6)
  && bool_decide (protocol_address_size m = 4)
  && (bool_decide (opcode m = OPCODE_REQUEST) || bool_decide (opcode m = OPCODE_REPLY)).

(** The fields [supported] looks at. *)
Definition parse_kind (m : ARPMessage) : parsing ARPMessage :=
  hardware_type ← Parser.integer 2 (hardware_type m);
  protocol_type ← Parser.integer 2 (protocol_type m);
  hardware_address_size ← Parser.integer 1 (hardware_address_size m);
  protocol_address_size ← Parser.integer 1 (protocol_address_size m);
  opcode ← Parser.integer 2 (opcode m);
  mret (mkARPMessage hardware_type protocol_type hardware_address_size protocol_address_size opcode
    (sender_ethernet_address m) (sender_ip_address m)
    (target_ethernet_address m) (target_ip_address m)).

Definition parse (m : ARPMessage) : parsing ARPMessage :=
  m ← parse_kind m;
  if negb (supported m) then _ ← Parser.set_error; mret m
  else
    sender_ethernet_address ← integers 1 (sender_ethernet_address m);
    sender_ip_address ← Parser.integer 4 (sender_ip_address m);
    target_ethernet_address ← integers 1 (target_ethernet_address m);
    target_ip_address ← Parser.integer 4 (target_ip_address m);
    mret (mkARPMessage (hardware_type m) (protocol_type m) (hardware_address_size m)
      (protocol_address_size m) (opcode m)
      sender_ethernet_address sender_ip_address target_ethernet_address target_ip_address).

Definition serialize (m : ARPMessage) (s : Serializer) : result Serializer :=
  if negb (supported m) then Err (Throw "ARPMessage: unsupported field combination")
  else
    let s := Serializer.integer 2 (hardware_type m) s in
    let s := Serializer.integer 2 (protocol_type m) s in
    let s := Serializer.integer 1 (hardware_address_size m) s in
    let s := Serializer.integer 1 (protocol_address_size m) s in
    let s := Serializer.integer 2 (opcode m) s in
    let s := serialize_integers 1 (sender_ethernet_address m) s in
    let s := Serializer.integer 4 (sender_ip_address m) s in
    let s := serialize_integers 1 (target_ethernet_address m) s in
    let s := Serializer.integer 4 (target_ip_address m) s in
    Ok s.

End ARPMessage.

(** * Correctness *)

(** The five fields that say what kind of message it is, and the addresses. *)
Definition kind_text (m : ARPMessage) : bytes :=
  Serializer.integer_bytes 2 (hardware_type m)
  ++ Serializer.integer_bytes 2 (protocol_type m)
  ++ Serializer.integer_bytes 1 (hardware_address_size m)
  ++ Serializer.integer_bytes 1 (protocol_address_size m)
  ++ Serializer.integer_bytes 2 (opcode m).
Definition address_text (m : ARPMessage) : bytes :=
  integers_text 1 (sender_ethernet_address m)
  ++ Serializer.integer_bytes 4 (sender_ip_address m)
  ++ integers_text 1 (target_ethernet_address m)
  ++ Serializer.integer_bytes 4 (target_ip_address m).
Definition message_text (m : ARPMessage) : bytes := kind_text m ++ address_text m.

Record kind_ok (m : ARPMessage) : Prop := mkKindOk {
  ko_hardware : is_u16 (hardware_type m);
  ko_protocol : is_u16 (protocol_type m);
  ko_hardware_size : is_u8 (hardware_address_size m);
  ko_protocol_size : is_u8 (protocol_address_size m);
  ko_opcode : is_u16 (opcode m);
}.

Record message_ok (m : ARPMessage) : Prop := mkMessageOk {
  mo_supported : ARPMessage.supported m = true;
  mo_sender : address_ok (sender_ethernet_address m);
  mo_sender_ip : is_u32 (sender_ip_address m);
  mo_target : address_ok (target_ethernet_address m);
  mo_target_ip : is_u32 (target_ip_address m);
}.

Definition message_shape (m : ARPMessage) : Prop :=
  length (sender_ethernet_address m) = 6%nat ∧ length (target_ethernet_address m) = 6%nat.

(** What [supported] tests. *)
Lemma supported_spec m :
  ARPMessage.supported m = true ↔
  hardware_type m = 1 ∧ protocol_type m = 2048 ∧ hardware_address_size m = 6 ∧
  protocol_address_size m = 4 ∧ (opcode m = 1 ∨ opcode m = 2).
Proof.
  unfold ARPMessage.supported, ARPMessage.TYPE_ETHERNET, EthernetHeader.TYPE_IPv4,
    ARPMessage.OPCODE_REQUEST, ARPMessage.OPCODE_REPLY.
  rewrite !andb_true_iff, orb_true_iff, !bool_decide_eq_true. tauto.
Qed.

Lemma supported_kind m : ARPMessage.supported m = true → kind_ok m.
Proof. intros (H1&H2&H3&H4&H5)%supported_spec. split; unfold is_u16, is_u8; lia. Qed.

(** [m]'s kind with the addresses of [old]. *)
Definition with_kind (m old : ARPMessage) : ARPMessage :=
  mkARPMessage (hardware_type m) (protocol_type m) (hardware_address_size m)
    (protocol_address_size m) (opcode m)
    (sender_ethernet_address old) (sender_ip_address old)
    (target_ethernet_address old) (target_ip_address old).

Lemma with_kind_supported m old : ARPMessage.supported (with_kind m old) = ARPMessage.supported m.
Proof. done. Qed.

Lemma kind_reads old m : kind_ok m → reads (ARPMessage.parse_kind old) (kind_text m) (with_kind m old).
Proof.
  intros [K1 K2 K3 K4 K5]. unfold is_u8, is_u16 in *. unfold ARPMessage.parse_kind, kind_text.
  eapply reads_bind; [apply (reads_integer 2); lia|].
  eapply reads_bind; [apply (reads_integer 2); lia|].
  eapply reads_bind; [apply (reads_integer 1); lia|].
  eapply reads_bind; [apply (reads_integer 1); lia|].
  eapply reads_bind_nil; [apply (reads_integer 2); lia|apply reads_ret].
Qed.

Lemma message_reads old m :
  message_ok m → message_shape old → reads (ARPMessage.parse old) (message_text m) m.
Proof.
  intros [Hs [Hl Hf] Hi [Hl' Hf'] Hi'] [Ho Ho']. unfold is_u32 in *.
  unfold ARPMessage.parse, message_text, address_text.
  eapply reads_bind; [by apply kind_reads, supported_kind|].
  cbv beta zeta. rewrite with_kind_supported, Hs. cbn [negb].
  eapply reads_bind; [apply reads_integers; [lia|simpl; congruence|done]|].
  eapply reads_bind; [apply (reads_integer 4); lia|].
  eapply reads_bind; [apply reads_integers; [lia|simpl; congruence|done]|].
  eapply reads_bind_nil; [apply (reads_integer 4); lia|].
  destruct m. apply reads_ret.
Qed.

Lemma message_safe old : safe (ARPMessage.parse old).
Proof. unfold ARPMessage.parse, ARPMessage.parse_kind. safe_fields. Qed.

Lemma message_serialize_ok m s :
  ARPMessage.supported m = true → ser_ok s →
  ∃ s', ARPMessage.serialize m s = Ok s' ∧ ser_ok s' ∧ spell s' = spell s ++ message_text m ∧
    output_ s' = output_ s.
Proof.
  intros Hm Hs. unfold ARPMessage.serialize. rewrite Hm. cbn [negb]. eexists. split; [done|].
  unfold message_text, kind_text, address_text, ser_ok.
  rewrite integer_spell. simpl output_.
  repeat match goal with |- context [serialize_integers ?w ?vs ?s] =>
    destruct (serialize_integers_spell w vs s) as [-> ->] end.
  rewrite ?integer_spell. simpl output_.
  match goal with |- context [serialize_integers ?w ?vs ?s] =>
    destruct (serialize_integers_spell w vs s) as [-> ->] end.
  rewrite !integer_spell, <- !app_assoc. split; [exact Hs|]. done.
Qed.

(** A message is serialized into one buffer. *)
Lemma serialize_message m :
  ARPMessage.supported m = true →
  (s ← ARPMessage.serialize m Serializer.new; Ok (Serializer.finish s)) = Ok [Owned (message_text m)].
Proof.
  intros Hm. destruct (message_serialize_ok m Serializer.new Hm ser_ok_new) as (s&->&_&Hs&Ho).
  rewrite bind_Ok_l. unfold Serializer.finish, Serializer.flush. unfold spell in Hs. rewrite Ho in Hs.
  simpl in Hs. rewrite Hs, Ho. rewrite bool_decide_true; [done|]. unfold message_text, kind_text. done.
Qed.

#[export] Instance ARPMessage_wire : Wire ARPMessage := {
  wire_serialize := ARPMessage.serialize;
  wire_parse := ARPMessage.parse;
}.

#[export] Instance ARPMessage_wire_spec : WireSpec ARPMessage.
Proof.
  refine {| wire_ok := message_ok; wire_shape := message_shape; wire_text := message_text |}.
  - intros m s Hm Hs. destruct (message_serialize_ok m s (mo_supported _ Hm) Hs) as (s'&?&?&?&_). by exists s'.
  - intros m old. apply message_reads.
  - apply message_safe.
Defined.

Lemma zlen_kind_text m : zlen (kind_text m) = 8.
Proof. unfold kind_text. by rewrite !zlen_app, !zlen_integer_bytes. Qed.

Lemma zlen_integers_text vs : zlen (integers_text 1 vs) = zlen vs.
Proof.
  unfold integers_text. induction vs as [|v vs IH]; [done|].
  cbn [mbind list_bind]. rewrite zlen_app, IH, zlen_integer_bytes, zlen_cons. simpl. lia.
Qed.

Lemma zlen_message_text m : message_ok m → zlen (message_text m) = ARPMessage.LENGTH.
Proof.
  intros [_ [Hl _] _ [Hl' _] _]. unfold message_text, address_text.
  rewrite !zlen_app, zlen_kind_text, !zlen_integers_text, !zlen_integer_bytes.
  unfold zlen. rewrite Hl, Hl'. done.
Qed.

(** * Properties *)

(** ARP messages survive the wire, and only supported ones do: serializing
    a supported message gives 28 bytes that parse back into it, with the rest
    of the buffers (link-layer padding) ignored; serializing any other throws,
    and parsing one reports an error and keeps the old addresses. *)
Theorem arp_message_roundtrip (m old : ARPMessage) :
  (message_ok m → message_shape old →
    ∃ bufs, serialize m = Ok bufs ∧ zlen (text bufs) = 28 ∧
      ∀ bufs' pad, text bufs' = text bufs ++ pad → owned bufs' → packed bufs' →
        zlen (text bufs') < 2 ^ 64 → parse old bufs' = Ok (m, true)) ∧
  (ARPMessage.supported m = false → (∃ what, serialize m = Err (Throw what)) ∧
    (kind_ok m → ∀ bufs rest, text bufs = kind_text m ++ rest → owned bufs → packed bufs →
      zlen (text bufs) < 2 ^ 64 →
      ∃ m', parse old bufs = Ok (m', false) ∧
        sender_ethernet_address m' = sender_ethernet_address old ∧
        target_ethernet_address m' = target_ethernet_address old)).
Proof.
  split.
  - intros Hm Ho. destruct (serialize_ok m) as (bufs&He&Ht&_); [exact Hm|]. exists bufs.
    split; [done|]. rewrite Ht. split; [by apply zlen_message_text|].
    intros bufs' pad Ht' Hw Hn Hb. by apply (run_reads _ _ _ pad Hw Hn Hb _ (message_reads old m Hm Ho)).
  - intros Hm. split.
    { unfold serialize. simpl. unfold ARPMessage.serialize. rewrite Hm. by eexists. }
    intros K bufs rest Ht Hw Hn Hb.
    destruct (parser_make_ok bufs Hw Hn Hb) as (p&He&Hp). rewrite Ht in Hp.
    destruct (kind_reads old m K p _ Hp) as (p1&Hk&Hp1).
    unfold parse, run_parser. rewrite He. cbn [mbind result_bind]. simpl wire_parse.
    unfold ARPMessage.parse, mbind, parsing_bind. rewrite Hk, with_kind_supported, Hm.
    eexists. by split.
Qed.

Definition demo_request : ARPMessage :=
  mkARPMessage 1 2048 6 4 1 [2; 0; 0; 0; 0; 7] 167772161 zero_address 167772162.

Lemma demo_request_ok : message_ok demo_request.
Proof.
  split; try done; (split; [done|]); repeat constructor; done.
Qed.

Lemma arp_message_roundtrip_witness :
  ∃ bufs, serialize demo_request = Ok bufs ∧ zlen (text bufs) = 28 ∧
    ∀ bufs' pad, text bufs' = text bufs ++ pad → owned bufs' → packed bufs' →
      zlen (text bufs') < 2 ^ 64 → parse ARPMessage.new bufs' = Ok (demo_request, true).
Proof.
  apply (proj1 (arp_message_roundtrip demo_request ARPMessage.new)); [apply demo_request_ok|by split].
Defined.
