(* ===== verification/Address.v ===== *)
(** Socket addresses (src/util/address.hh, src/util/address.cc), as the bytes
    of the [sockaddr_storage] they wrap, with the layout of Linux on a
    little-endian machine. *)

From stdpp Require Import pretty.
From S2P Require Import Prelude Parser.

(** * The C library *)

Definition AF_INET : Z := 2.
Definition AF_INET6 : Z := 10.
Definition AF_PACKET : Z := 17.
Definition AI_NUMERICHOST : Z := 4.
Definition AI_ALL : Z := 16.
Definition AI_NUMERICSERV : Z := 1024.

Definition STORAGE_SIZE : Z := 128.
Definition SOCKADDR_IN_SIZE : Z := 16.
Definition SOCKADDR_IN6_SIZE : Z := 28.
Definition SOCKADDR_LL_SIZE : Z := 20.

(** The [struct sockaddr_in] of an address and a port, in network order. *)
Definition sockaddr_in (ip port : Z) : bytes :=
  [byte_of_Z AF_INET; Byte.x00] ++ Serializer.integer_bytes 2 port
  ++ Serializer.integer_bytes 4 ip ++ replicate 8 Byte.x00.

Record addrinfo : Type := mkAddrinfo {
  ai_flags : Z;
  ai_family : Z;
}.

(** The resolver: [getaddrinfo] gives the addresses found or an error code,
    [getnameinfo] (with the numeric flags) the host and service strings or an
    error code. *)
Class Resolver : Type := {
  getaddrinfo : string → string → addrinfo → list bytes + Z;
  getnameinfo : bytes → Z → string * string + Z;
  inet_ntoa : Z → string;
}.

(** What the manual pages say of numeric IPv4 addresses: the dotted quad of an
    address and the decimal numeral of a port are resolved to that address and
    port, and are what a numeric lookup of them gives.  [inet_ntoa] takes the
    address in host order here. *)
Class ResolverSpec `{Resolver} : Prop := {
  getaddrinfo_numeric ip port :
    is_u32 ip → is_u16 port →
    ∃ rest, getaddrinfo (inet_ntoa ip) (pretty (Z.to_N port))
      (mkAddrinfo (Z.lor AI_NUMERICHOST AI_NUMERICSERV) AF_INET) = inl (sockaddr_in ip port :: rest);
  getnameinfo_numeric ip port storage :
    is_u32 ip → is_u16 port → ztake SOCKADDR_IN_SIZE storage = sockaddr_in ip port →
    getnameinfo storage SOCKADDR_IN_SIZE = inl (inet_ntoa ip, pretty (Z.to_N port));
}.

(** [std::stoi] on a string of decimal digits. *)
Definition digit (c : Ascii.ascii) : option Z :=
  let n := Z.of_nat (Ascii.nat_of_ascii c) in
  if bool_decide (48 <= n) && bool_decide (n <= 57) then Some (n - 48) else None.

Fixpoint digits (acc : Z) (s : string) : Z :=
  match s with
  | EmptyString => acc
  | String c s => match digit c with Some d => digits (10 * acc + d) s | None => acc end
  end.

Definition stoi (s : string) : result Z :=
  match s with
  | String c _ => match digit c with Some _ => Ok (digits 0 s) | None => Err (Throw "stoi") end
  | EmptyString => Err (Throw "stoi")
  end.

(** * The class *)

Record Address : Type := mkAddress {
  _size : Z;
  _address : bytes;
}.

#[export] Instance Address_eq_dec : EqDecision Address.
Proof. solve_decision. Defined.

Module Address.

(** [Address( const sockaddr*, size_t )]: copies into zeroed storage. *)
Definition of_sockaddr (addr : bytes) (size : Z) : result Address :=
  if bool_decide (size > STORAGE_SIZE) then Err (Throw "invalid sockaddr size")
  else Ok (mkAddress size (ztake size addr ++ replicate (Z.to_nat (STORAGE_SIZE - size)) Byte.x00)).

Definition make_hints (ai_flags ai_family : Z) : addrinfo := mkAddrinfo ai_flags ai_family.

(** [storage.ss_family]. *)
Definition ss_family (a : Address) : Z :=
  match _address a with
  | b0 :: b1 :: _ => byte_to_Z b0 + 256 * byte_to_Z b1
  | _ => 0
  end.

(** The big-endian number in some bytes. *)
Definition be (s : bytes) : Z := foldl (λ acc b, 256 * acc + byte_to_Z b) 0 s.

Definition ipv4_numeric (a : Address) : result Z :=
  if bool_decide (ss_family a ≠ AF_INET) || bool_decide (_size a ≠ SOCKADDR_IN_SIZE)
  then Err (Throw "ipv4_numeric called on non-IPV4 address")
  else Ok (be (ztake 4 (zdrop 4 (_address a)))).

Definition from_ipv4_numeric (ip_address : Z) : result Address :=
  of_sockaddr (sockaddr_in ip_address 0) SOCKADDR_IN_SIZE.

(** [operator==]: compares [_size] bytes. *)
Definition eqb (a other : Address) : bool :=
  if bool_decide (_size a ≠ _size other) then false
  else bool_decide (ztake (_size a) (_address a) = ztake (_size a) (_address other)).

(** [as<sockaddr_type>()], by the type's size and family. *)
Definition as_ (type_size family : Z) (a : Address) : result bytes :=
  if bool_decide (type_size < _size a) || bool_decide (ss_family a ≠ family)
  then Err (Throw "Address::as() conversion failure")
  else Ok (_address a).

Section resolver.
Context `{Resolver}.

Definition resolve (node service : string) (hints : addrinfo) : result Address :=
  match getaddrinfo node service hints with
  | inr gai_ret => Err (Throw "getaddrinfo")
  | inl [] => Err (Throw "getaddrinfo returned successfully but with no results")
  | inl (ai_addr :: _) => of_sockaddr ai_addr (zlen ai_addr)
  end.

(** [Address( hostname, service )] and [Address( ip, port )]. *)
Definition of_names (hostname service : string) : result Address :=
  resolve hostname service (make_hints AI_ALL AF_INET).
Definition of_ip_port (ip : string) (port : Z) : result Address :=
  resolve ip (pretty (Z.to_N port)) (make_hints (Z.lor AI_NUMERICHOST AI_NUMERICSERV) AF_INET).

Definition ip_port (a : Address) : result (string * Z) :=
  if bool_decide (ss_family a ≠ AF_INET) && bool_decide (ss_family a ≠ AF_INET6)
  then Err (Throw "Address::ip_port() called on non-Internet address")
  else
    match getnameinfo (_address a) (_size a) with
    | inr gni_ret => Err (Throw "getnameinfo")
    | inl (ip, port) => port ← stoi port; Ok (ip, u16 port)
    end.

Definition ip (a : Address) : result string := fst <$> ip_port a.
Definition port (a : Address) : result Z := snd <$> ip_port a.

Definition to_string (a : Address) : result string :=
  if bool_decide (ss_family a = AF_INET) || bool_decide (ss_family a = AF_INET6)
  then
    ip_and_port ← ip_port a;
    Ok (ip_and_port.1 +:+ ":" +:+ pretty (Z.to_N ip_and_port.2))
  else Ok "(non-Internet address)".

End resolver.
End Address.

(** * Decimal numerals *)

Fixpoint all_digits (s : string) : Prop :=
  match s with EmptyString => True | String c s => digit c ≠ None ∧ all_digits s end.

Lemma digit_char x : (x < 10)%N → digit (pretty_N_char x) = Some (Z.of_N x).
Proof.
  intros Hx. assert (∃ k : nat, x = N.of_nat k ∧ (k < 10)%nat) as (k&->&Hk) by (exists (N.to_nat x); lia).
  do 10 (destruct k as [|k]; [done|]). lia.
Qed.

Lemma pretty_go_digits x s :
  digits 0 (pretty_N_go x s) = digits (Z.of_N x) s ∧ (all_digits s → all_digits (pretty_N_go x s)).
Proof.
  revert s. induction (N.lt_wf_0 x) as [x _ IH]; intros s.
  assert (x = 0 ∨ 0 < x)%N as [->|Hx] by lia; [by rewrite pretty_N_go_0|].
  rewrite pretty_N_go_step by done.
  assert (digit (pretty_N_char (x `mod` 10)) = Some (Z.of_N (x `mod` 10))) as Hd
    by (apply digit_char, N.mod_lt; lia).
  destruct (IH (x `div` 10)%N ltac:(by apply N.div_lt) (String (pretty_N_char (x `mod` 10)) s)) as [E A].
  split.
  - rewrite E. cbn [digits]. rewrite Hd. f_equal. pose proof (N.div_mod x 10). lia.
  - intros Hs. apply A. cbn [all_digits]. rewrite Hd. done.
Qed.

Lemma pretty_digits n : digits 0 (pretty n) = Z.of_N n ∧ all_digits (pretty n).
Proof.
  unfold pretty, pretty_N. case_decide as Hn; [by subst|].
  destruct (pretty_go_digits n "") as [E A]. split; [exact E|]. by apply A.
Qed.

Lemma stoi_pretty n : stoi (pretty n) = Ok (Z.of_N n).
Proof.
  destruct (pretty_digits n) as [E A]. unfold stoi. destruct (pretty n) as [|c s] eqn:Hp.
  - unfold pretty, pretty_N in Hp. case_decide; [done|].
    assert (∀ x s, s ≠ "" → pretty_N_go x s ≠ "") as Hne.
    { intros x. induction (N.lt_wf_0 x) as [x _ IH]; intros s Hs.
      assert (x = 0 ∨ 0 < x)%N as [->|Hx] by lia; [by rewrite pretty_N_go_0|].
      rewrite pretty_N_go_step by done. apply IH; [by apply N.div_lt|done]. }
    rewrite pretty_N_go_step in Hp by lia. by apply Hne in Hp.
  - destruct A as [A _]. destruct (digit c); [|done]. by rewrite E.
Qed.

(** * IPv4 addresses *)

(** The [Address] of an IPv4 address and port. *)
Definition inet (ip port : Z) : Address :=
  mkAddress SOCKADDR_IN_SIZE (sockaddr_in ip port ++ replicate 112 Byte.x00).

Lemma of_sockaddr_in ip port : Address.of_sockaddr (sockaddr_in ip port) SOCKADDR_IN_SIZE = Ok (inet ip port).
Proof. done. Qed.

Lemma be_integer_bytes n v acc :
  foldl (λ acc b, 256 * acc + byte_to_Z b) acc (Serializer.integer_bytes n v)
    = acc * 256 ^ Z.of_nat n + v `mod` 256 ^ Z.of_nat n.
Proof.
  revert acc. induction n as [|n IH]; intros acc.
  { simpl. rewrite Z.mod_1_r. lia. }
  cbn [Serializer.integer_bytes foldl]. rewrite IH, byte_to_of_Z, Z.shiftr_div_pow2 by lia.
  replace (Z.of_nat (S n)) with (Z.of_nat n + 1) by lia.
  rewrite Z.pow_add_r by lia. change (256 ^ 1) with 256.
  assert (2 ^ (Z.of_nat n * 8) = 256 ^ Z.of_nat n) as ->.
  { change 256 with (2 ^ 8). rewrite <- Z.pow_mul_r by lia. f_equal. lia. }
  rewrite Z.rem_mul_r by lia. unfold u8. change (2 ^ 8) with 256. lia.
Qed.

Lemma inet_numeric ip port : is_u32 ip → Address.ipv4_numeric (inet ip port) = Ok ip.
Proof.
  intros Hip. unfold Address.ipv4_numeric. rewrite !bool_decide_false by auto. cbn [orb]. f_equal.
  change (Address.be (Serializer.integer_bytes 4 ip) = ip). unfold Address.be.
  rewrite be_integer_bytes. by apply Z.mod_small.
Qed.

Lemma sockaddr_in_inj ip port ip' port' :
  is_u32 ip → is_u16 port → is_u32 ip' → is_u16 port' →
  sockaddr_in ip port = sockaddr_in ip' port' → ip = ip' ∧ port = port'.
Proof.
  intros Hi Hp Hi' Hp' Heq. unfold sockaddr_in in Heq. apply app_inj_1 in Heq as [_ Heq]; [|done].
  apply app_inj_1 in Heq as [Hport Heq]; [|done]. apply app_inj_1 in Heq as [Hip _]; [|done].
  apply (f_equal (foldl (λ acc b, 256 * acc + byte_to_Z b) 0)) in Hport, Hip.
  rewrite !be_integer_bytes in Hport, Hip.
  change (256 ^ Z.of_nat 4) with (2 ^ 32) in *. change (256 ^ Z.of_nat 2) with (2 ^ 16) in *.
  rewrite !Z.mod_small in Hport, Hip by done. lia.
Qed.

Lemma inet_eqb ip port ip' port' :
  is_u32 ip → is_u16 port → is_u32 ip' → is_u16 port' →
  Address.eqb (inet ip port) (inet ip' port') = bool_decide (ip = ip' ∧ port = port').
Proof.
  intros. unfold Address.eqb. rewrite bool_decide_false by auto. apply bool_decide_ext.
  change (sockaddr_in ip port = sockaddr_in ip' port' ↔ ip = ip' ∧ port = port').
  split; [by apply sockaddr_in_inj|]. by intros [-> ->].
Qed.

Section resolver.
Context `{ResolverSpec}.

Lemma of_ip_port_ok ip port :
  is_u32 ip → is_u16 port → Address.of_ip_port (inet_ntoa ip) port = Ok (inet ip port).
Proof.
  intros Hi Hp. unfold Address.of_ip_port, Address.resolve, Address.make_hints.
  by destruct (getaddrinfo_numeric ip port Hi Hp) as (rest&->).
Qed.

Lemma inet_ip_port ip port :
  is_u32 ip → is_u16 port → Address.ip_port (inet ip port) = Ok (inet_ntoa ip, port).
Proof.
  intros Hi Hp. unfold Address.ip_port. rewrite (bool_decide_false (_ ≠ AF_INET)) by auto. cbn [andb].
  rewrite (getnameinfo_numeric ip port _ Hi Hp) by done. rewrite stoi_pretty. cbn [mbind result_bind].
  unfold is_u16 in Hp. rewrite Z2N.id by lia. by rewrite u16_small.
Qed.

Lemma inet_port ip port : is_u32 ip → is_u16 port → Address.port (inet ip port) = Ok port.
Proof. intros. unfold Address.port. by rewrite inet_ip_port. Qed.

End resolver.

(** * A resolver of dotted quads *)

Module DottedQuad.

Definition dot : Ascii.ascii := Ascii.ascii_of_nat 46.
Fixpoint after_dot (s : string) : string :=
  match s with
  | EmptyString => EmptyString
  | String c s => if bool_decide (c = dot) then s else after_dot s
  end.

Definition quad (a b c d : Z) : string :=
  pretty (Z.to_N a) +:+ String dot (pretty (Z.to_N b) +:+ String dot
    (pretty (Z.to_N c) +:+ String dot (pretty (Z.to_N d)))).
Definition inet_ntoa (ip : Z) : string :=
  quad (ip / 16777216) ((ip / 65536) `mod` 256) ((ip / 256) `mod` 256) (ip `mod` 256).

Definition read_quad (s : string) : Z :=
  let b := after_dot s in
  let c := after_dot b in
  let d := after_dot c in
  digits 0 s * 16777216 + digits 0 b * 65536 + digits 0 c * 256 + digits 0 d.

#[local] Instance resolver : Resolver := {
  getaddrinfo node service _ := inl [sockaddr_in (read_quad node) (digits 0 service)];
  getnameinfo storage _ :=
    inl (inet_ntoa (Address.be (ztake 4 (zdrop 4 storage))),
         pretty (Z.to_N (Address.be (ztake 2 (zdrop 2 storage)))));
  Address.inet_ntoa := inet_ntoa;
}.

Lemma digits_dot acc s rest : all_digits s → digits acc (s +:+ String dot rest) = digits acc s.
Proof.
  revert acc. induction s as [|c s IH]; intros acc Hs; [done|]. destruct Hs as [Hc Hs].
  change (String c s +:+ String dot rest) with (String c (s +:+ String dot rest)).
  cbn [digits]. destruct (digit c); [by apply IH|done].
Qed.
Lemma after_dot_digits s rest : all_digits s → after_dot (s +:+ String dot rest) = rest.
Proof.
  induction s as [|c s IH]; intros Hs; [done|]. destruct Hs as [Hc Hs].
  change (String c s +:+ String dot rest) with (String c (s +:+ String dot rest)).
  cbn [after_dot]. rewrite bool_decide_false; [by apply IH|]. by intros ->.
Qed.

Lemma read_quad_ok ip : is_u32 ip → read_quad (inet_ntoa ip) = ip.
Proof.
  intros Hi. unfold read_quad, inet_ntoa, quad.
  rewrite !after_dot_digits, !digits_dot by apply pretty_digits.
  rewrite !(proj1 (pretty_digits _)). unfold is_u32 in Hi.
  rewrite !Z2N.id by (apply Z.div_pos || apply Z.mod_pos_bound; lia).
  change 16777216 with (256 * (256 * 256)). change 65536 with (256 * 256).
  rewrite <- !Z.div_div by lia. Z.div_mod_to_equations. lia.
Qed.

#[local] Instance resolver_spec : ResolverSpec.
Proof.
  split.
  - intros ip port Hi Hp. exists []. simpl. rewrite read_quad_ok by done.
    rewrite (proj1 (pretty_digits _)). unfold is_u16 in Hp. by rewrite Z2N.id by lia.
  - intros ip port storage Hi Hp Hs. simpl.
    assert (∀ k n, 0 ≤ k → k + n ≤ 16 →
      ztake n (zdrop k storage) = ztake n (zdrop k (sockaddr_in ip port))) as Hcut.
    { intros k n Hk Hn. rewrite <- Hs. unfold SOCKADDR_IN_SIZE.
      rewrite zdrop_ztake, ztake_ztake by lia. f_equal. lia. }
    rewrite !Hcut by lia.
    change (ztake 4 (zdrop 4 (sockaddr_in ip port))) with (Serializer.integer_bytes 4 ip).
    change (ztake 2 (zdrop 2 (sockaddr_in ip port))) with (Serializer.integer_bytes 2 port).
    unfold Address.be. rewrite !be_integer_bytes. do 2 f_equal.
    + f_equal. by apply Z.mod_small.
    + do 2 f_equal. by apply Z.mod_small.
Qed.

End DottedQuad.

(** * Properties *)

(** An IPv4 address keeps its identity through every form the code gives
    it: built from the dotted quad and the port, or from the number, it reads
    back as that number, quad and port, and two such addresses compare equal
    exactly when both address and port agree. *)
Theorem address_roundtrip `{ResolverSpec} (addr p : Z) :
  is_u32 addr → is_u16 p →
  ∃ a b, Address.of_ip_port (inet_ntoa addr) p = Ok a ∧ Address.ipv4_numeric a = Ok addr ∧
    Address.ip_port a = Ok (inet_ntoa addr, p) ∧
    Address.from_ipv4_numeric addr = Ok b ∧ Address.ipv4_numeric b = Ok addr ∧
    Address.eqb a b = bool_decide (p = 0).
Proof.
  intros Hi Hp. exists (inet addr p), (inet addr 0). split; [by apply of_ip_port_ok|].
  split; [by apply inet_numeric|]. split; [by apply inet_ip_port|]. split; [done|].
  split; [by apply inet_numeric|]. rewrite inet_eqb by done. apply bool_decide_ext. tauto.
Qed.

Lemma address_roundtrip_witness :
  let R := DottedQuad.resolver in
  ∃ a b, Address.of_ip_port "192.168.0.1" 80 = Ok a ∧ Address.ipv4_numeric a = Ok 3232235521 ∧
    Address.ip_port a = Ok ("192.168.0.1", 80) ∧
    Address.from_ipv4_numeric 3232235521 = Ok b ∧ Address.ipv4_numeric b = Ok 3232235521 ∧
    Address.eqb a b = bool_decide (80 = 0).
Proof.
  intros R. change "192.168.0.1" with (DottedQuad.inet_ntoa 3232235521).
  apply (@address_roundtrip DottedQuad.resolver DottedQuad.resolver_spec 3232235521 80); done.
Defined.
