(* ===== verification/TCPOverIP.v ===== *)
(** TCP messages in IPv4 datagrams (src/util/fd_adapter.hh,
    src/util/tcp_over_ip.hh, src/util/tcp_over_ip.cc, [FdAdapterConfig] of
    src/util/tcp_config.hh). *)

From S2P Require Import Prelude WrappingIntegers TCPMessages Ref Parser Wire Checksum IPv4 TCPSegment Address.

Record FdAdapterConfig : Type := mkFdAdapterConfig {
  source : Address;
  destination : Address;
  loss_rate_dn : Z;
  loss_rate_up : Z;
}.

Record FdAdapterBase : Type := mkFdAdapterBase {
  _cfg : FdAdapterConfig;
  _listen : bool;
}.

Module FdAdapterBase.

Definition set_listening (l : bool) (a : FdAdapterBase) : FdAdapterBase := mkFdAdapterBase (_cfg a) l.
Definition listening (a : FdAdapterBase) : bool := _listen a.
Definition config (a : FdAdapterBase) : FdAdapterConfig := _cfg a.

(** Writes through [config_mutable()]. *)
Definition set_source (x : Address) (a : FdAdapterBase) : FdAdapterBase :=
  mkFdAdapterBase (mkFdAdapterConfig x (destination (_cfg a)) (loss_rate_dn (_cfg a)) (loss_rate_up (_cfg a)))
    (_listen a).
Definition set_destination (x : Address) (a : FdAdapterBase) : FdAdapterBase :=
  mkFdAdapterBase (mkFdAdapterConfig (source (_cfg a)) x (loss_rate_dn (_cfg a)) (loss_rate_up (_cfg a)))
    (_listen a).

End FdAdapterBase.
Import FdAdapterBase.

Module TCPOverIPv4Adapter.
Section adapter.
Context `{Resolver}.

(** The part of [unwrap_tcp_in_ip] that answers a SYN while listening. *)
Definition adopt (h : IPv4Header) (tcp_seg : TCPSegment) (a : FdAdapterBase) : result FdAdapterBase :=
  port ← Address.port (source (config a));
  src ← Address.of_ip_port (inet_ntoa (dst h)) port;
  let a := set_source src a in
  dst ← Address.of_ip_port (inet_ntoa (IPv4.src h)) (src_port (udinfo tcp_seg));
  let a := set_destination dst a in
  Ok (set_listening false a).

Definition unwrap_tcp_in_ip (ip_dgram : IPv4Datagram) (a : FdAdapterBase)
    : result (option TCPMessage * FdAdapterBase) :=
  let h := header ip_dgram in
  other_dst ← (if listening a then Ok false
    else n ← Address.ipv4_numeric (source (config a)); Ok (bool_decide (dst h ≠ n)));
  if (other_dst : bool) then Ok (None, a) else
  other_src ← (if listening a then Ok false
    else n ← Address.ipv4_numeric (destination (config a)); Ok (bool_decide (src h ≠ n)));
  if (other_src : bool) then Ok (None, a) else
  if bool_decide (proto h ≠ IPv4Header.PROTO_TCP) then Ok (None, a) else
  '(tcp_seg, ok) ← parse_segment (IPv4Header.pseudo_checksum h) TCPSegment.new (payload ip_dgram);
  if negb (ok : bool) then Ok (None, a) else
  our_port ← Address.port (source (config a));
  if bool_decide (dst_port (udinfo tcp_seg) ≠ our_port) then Ok (None, a) else
  let m := sender (message tcp_seg) in
  if listening a && negb (SYN m && negb (RST m)) then Ok (None, a) else
  a ← (if listening a then adopt h tcp_seg a else Ok a);
  peer_port ← Address.port (destination (config a));
  if bool_decide (src_port (udinfo tcp_seg) ≠ peer_port) then Ok (None, a) else
  Ok (Some (message tcp_seg), a).

Definition wrap_tcp_in_ip (msg : TCPMessage) (a : FdAdapterBase) : result IPv4Datagram :=
  let payload_size := zlen (TCPMessages.payload (sender msg)) in
  sport ← Address.port (source (config a));
  dport ← Address.port (destination (config a));
  let seg := mkTCPSegment msg (mkUserDatagramInfo sport dport 0) in
  src ← Address.ipv4_numeric (source (config a));
  dst ← Address.ipv4_numeric (destination (config a));
  let h := IPv4Header.new in
  let h := mkIPv4Header (ver h) (hlen h) (tos h) (u16 (u64 (hlen h * 4 + 20 + payload_size)))
    (id h) (df h) (mf h) (offset h) (ttl h) (proto h) (IPv4.cksum h) src dst in
  seg ← TCPSegment.compute_checksum (IPv4Header.pseudo_checksum h) seg;
  h ← IPv4Header.compute_checksum h;
  Ok (mkIPv4Datagram h (serialize_segment seg)).

End adapter.
End TCPOverIPv4Adapter.
Import TCPOverIPv4Adapter.

(** * Correctness *)

(** A message TCP can put in one datagram. *)
Record message_ok (msg : TCPMessage) : Prop := mkMessageOk {
  mo_seqno : wf (seqno (sender msg));
  mo_ackno : ∀ a, ackno (receiver msg) = Some a → wf a;
  mo_window : is_u16 (window_size (receiver msg));
  mo_payload : zlen (TCPMessages.payload (sender msg)) ≤ 65495;
}.

(** TCP has one reset flag for both directions. *)
Definition normal_message (msg : TCPMessage) : TCPMessage :=
  message (normal (mkTCPSegment msg (mkUserDatagramInfo 0 0 0))).

Definition wrapped_header (src dst : Z) (msg : TCPMessage) : IPv4Header :=
  mkIPv4Header 4 5 0 (40 + zlen (TCPMessages.payload (sender msg))) 0 true false 0 128 6 0 src dst.
Definition wrapped_segment (sport dport : Z) (msg : TCPMessage) : TCPSegment :=
  mkTCPSegment msg (mkUserDatagramInfo sport dport 0).

Lemma wrapped_header_fields src dst msg :
  is_u32 src → is_u32 dst → message_ok msg → IPv4.fields_ok (wrapped_header src dst msg).
Proof.
  intros Hs Hd [_ _ _ Hp]. split; simpl; try done.
  pose proof (zlen_nonneg (TCPMessages.payload (sender msg))). unfold is_u16. lia.
Qed.

Lemma wrapped_segment_fields sport dport msg :
  is_u16 sport → is_u16 dport → message_ok msg → TCPSegment.fields_ok (wrapped_segment sport dport msg).
Proof. by intros ?? []. Qed.

(** The adapter talks from one IPv4 address and port to another. *)
Definition connects (a : FdAdapterBase) (src sport dst dport : Z) : Prop :=
  source (_cfg a) = inet src sport ∧ destination (_cfg a) = inet dst dport.

(** Runs a chain of calls whose outcomes are known. *)
Ltac outcomes :=
  repeat first [ rewrite bind_Ok_l | progress cbv beta iota
               | rewrite (bool_decide_false (_ ≠ _)) by auto ].

Section wire.
Context `{ResolverSpec}.
Context (saddr sport daddr dport : Z).
Context (Hsa : is_u32 saddr) (Hsp : is_u16 sport) (Hda : is_u32 daddr) (Hdp : is_u16 dport).

(** The pseudo-header of the datagram that carries [msg]. *)
Definition wrapped_pseudo (msg : TCPMessage) : Z :=
  IPv4Header.pseudo_checksum (wrapped_header saddr daddr msg).

(** The datagram [wrap_tcp_in_ip] makes. *)
Definition wrapped (msg : TCPMessage) : IPv4Datagram :=
  let h := wrapped_header saddr daddr msg in
  let seg := wrapped_segment sport dport msg in
  mkIPv4Datagram (IPv4Header.with_cksum (header_checksum h) h)
    (serialize_segment (TCPSegment.with_cksum (segment_checksum (wrapped_pseudo msg) seg) seg)).

Lemma wrapped_pseudo_ok msg :
  message_ok msg →
  0 ≤ wrapped_pseudo msg ∧
  wrapped_pseudo msg + 65280 * zlen (segment_text (wrapped_segment sport dport msg)) < 2 ^ 32.
Proof.
  intros [_ _ _ Hp]. pose proof (pseudo_checksum_range (wrapped_header saddr daddr msg) Hsa Hda ltac:(done)).
  fold (wrapped_pseudo msg) in *. rewrite zlen_segment_text. simpl. lia.
Qed.

Lemma wrapped_len msg :
  message_ok msg →
  u16 (u64 (hlen IPv4Header.new * 4 + 20 + zlen (TCPMessages.payload (sender msg))))
    = 40 + zlen (TCPMessages.payload (sender msg)).
Proof.
  intros Hm. pose proof (mo_payload _ Hm). change (hlen IPv4Header.new) with 5.
  pose proof (zlen_nonneg (TCPMessages.payload (sender msg))).
  rewrite u64_small, u16_small by (unfold is_u16, is_u64; lia). lia.
Qed.

Lemma wrap_parts msg a :
  connects a saddr sport daddr dport → message_ok msg →
  wrap_tcp_in_ip msg a =
    (seg ← TCPSegment.compute_checksum (wrapped_pseudo msg) (wrapped_segment sport dport msg);
     h ← IPv4Header.compute_checksum (wrapped_header saddr daddr msg);
     Ok (mkIPv4Datagram h (serialize_segment seg))).
Proof.
  intros [Hs Hd] Hm. unfold wrap_tcp_in_ip, config. rewrite Hs, Hd.
  rewrite !inet_port, !inet_numeric by done. cbn [mbind result_bind].
  rewrite wrapped_len by done. reflexivity.
Qed.

Lemma wrap_ok msg a :
  connects a saddr sport daddr dport → message_ok msg → wrap_tcp_in_ip msg a = Ok (wrapped msg).
Proof.
  intros Ha Hm. rewrite (wrap_parts msg a Ha Hm). destruct (wrapped_pseudo_ok msg Hm) as [Hp Hb].
  rewrite segment_compute_checksum_ok, bind_Ok_l by done.
  by rewrite IPv4.compute_checksum_ok, bind_Ok_l by reflexivity.
Qed.

(** The segment as the other side reads it. *)
Definition received (msg : TCPMessage) : TCPSegment :=
  normal (TCPSegment.with_cksum (segment_checksum (wrapped_pseudo msg) (wrapped_segment sport dport msg))
    (wrapped_segment sport dport msg)).

Lemma parse_wrapped msg bufs :
  message_ok msg → text bufs = text (payload (wrapped msg)) → owned bufs → packed bufs →
  parse_segment (IPv4Header.pseudo_checksum (header (wrapped msg))) TCPSegment.new bufs
    = Ok (received msg, true).
Proof.
  intros Hm Ht Hw Hn. destruct (wrapped_pseudo_ok msg Hm) as [Hp Hb].
  apply (parse_serialized TCPSegment.new (wrapped_pseudo msg)); try done.
  - by apply wrapped_segment_fields.
  - rewrite Ht. apply serialize_segment_ok.
Qed.

Lemma wrapped_datagram_ok msg : message_ok msg → datagram_ok (wrapped msg).
Proof.
  intros Hm. pose proof (wrapped_header_fields saddr daddr msg Hsa Hda Hm) as F.
  split; [split; [|done]|].
  - apply with_cksum_fields; [apply header_checksum_range|done].
  - change (payload (wrapped msg)) with (serialize_segment (TCPSegment.with_cksum
      (segment_checksum (wrapped_pseudo msg) (wrapped_segment sport dport msg)) (wrapped_segment sport dport msg))).
    rewrite (proj1 (serialize_segment_ok _)), zlen_segment_text. simpl. lia.
Qed.

(** What the other side looks at is as in the datagram made for the message. *)
Definition bears (d : IPv4Datagram) (msg : TCPMessage) : Prop :=
  (dst (header d) = daddr ∧ src (header d) = saddr ∧ proto (header d) = 6) ∧
  IPv4Header.pseudo_checksum (header d) = wrapped_pseudo msg ∧ text (payload d) = text (payload (wrapped msg)).

Lemma bears_wrapped msg : bears (wrapped msg) msg.
Proof. done. Qed.
Lemma bears_equiv d e msg : d ≡ e → bears e msg → bears d msg.
Proof. intros [Hh Ht]. unfold bears. by rewrite Hh, Ht. Qed.

(** A datagram off the wire that carries the message. *)
Definition carries (d : IPv4Datagram) (msg : TCPMessage) : Prop :=
  bears d msg ∧ owned (payload d) ∧ packed (payload d).

Lemma carries_header d msg :
  carries d msg → dst (header d) = daddr ∧ src (header d) = saddr ∧ proto (header d) = 6.
Proof. by intros ((?&_)&_). Qed.

Lemma carries_parse d msg :
  carries d msg → message_ok msg →
  parse_segment (IPv4Header.pseudo_checksum (header d)) TCPSegment.new (payload d) = Ok (received msg, true).
Proof. intros ((_&->&?)&?&?) Hm. by apply parse_wrapped. Qed.

(** The adapter of the other side accepts it. *)
Lemma unwrap_connected d msg b :
  carries d msg → message_ok msg → _listen b = false → connects b daddr dport saddr sport →
  unwrap_tcp_in_ip d b = Ok (Some (normal_message msg), b).
Proof.
  intros Hc Hm Hl [Hs Hd]. destruct (carries_header d msg Hc) as (E1&E2&E3).
  pose proof (carries_parse d msg Hc Hm) as Hp.
  unfold unwrap_tcp_in_ip, listening, config.
  rewrite Hl, Hs, Hd, !inet_numeric, !inet_port, E1, E2, E3 by done. outcomes.
  rewrite Hp. cbn [negb]. cbn [negb andb]. outcomes.
  rewrite Hd, inet_port by done. by outcomes.
Qed.

(** A listening adapter takes the peer of the first SYN. *)
Definition connected (b : FdAdapterBase) : FdAdapterBase :=
  set_listening false (set_destination (inet saddr sport) (set_source (inet daddr dport) b)).

Lemma unwrap_listening d msg b ip :
  carries d msg → message_ok msg → _listen b = true → is_u32 ip → source (_cfg b) = inet ip dport →
  unwrap_tcp_in_ip d b =
    if SYN (sender msg) && negb (RST (sender msg) || rRST (receiver msg))
    then Ok (Some (normal_message msg), connected b) else Ok (None, b).
Proof.
  intros Hc Hm Hl Hip Hs. destruct (carries_header d msg Hc) as (E1&E2&E3).
  pose proof (carries_parse d msg Hc Hm) as Hp.
  unfold unwrap_tcp_in_ip, adopt, listening, config. rewrite Hl, Hs, !inet_port, E1, E2, E3 by done.
  outcomes. rewrite Hp. cbn [negb]. outcomes. cbn [andb].
  change (SYN (sender (message (received msg)))) with (SYN (sender msg)).
  change (RST (sender (message (received msg)))) with (RST (sender msg) || rRST (receiver msg)).
  destruct (SYN (sender msg) && _); cbn [negb]; [|done].
  rewrite !of_ip_port_ok by done. outcomes. cbn [destination _cfg set_listening set_destination].
  rewrite inet_port by done. by outcomes.
Qed.

Lemma wrapped_length msg bufs :
  serialize (wrapped msg) = Ok bufs →
  zlen (text bufs) = 40 + zlen (TCPMessages.payload (sender msg)).
Proof.
  intros Hs. destruct (serialize_datagram_ok (wrapped msg) eq_refl) as (bufs'&Hs'&Ht&_). rewrite Hs in Hs'. injection Hs' as <-.
  rewrite Ht. unfold datagram_text. rewrite zlen_app, zlen_header_text.
  change (payload (wrapped msg)) with (serialize_segment (TCPSegment.with_cksum
    (segment_checksum (wrapped_pseudo msg) (wrapped_segment sport dport msg)) (wrapped_segment sport dport msg))).
  rewrite (proj1 (serialize_segment_ok _)), zlen_segment_text. simpl. lia.
Qed.

(** The datagram arrives. *)
Lemma wrapped_arrives msg :
  message_ok msg →
  ∃ bufs, serialize (wrapped msg) = Ok bufs ∧
    ∀ bufs', text bufs' = text bufs → owned bufs' → packed bufs' →
      ∃ d, parse IPv4Datagram.new bufs' = Ok (d, true) ∧ carries d msg.
Proof.
  intros Hm. pose proof (wrapped_datagram_ok msg Hm) as Hok.
  destruct (serialize_datagram_ok (wrapped msg) eq_refl) as (bufs&Hs&Ht&_).
  exists bufs. split; [done|]. rewrite Ht. intros bufs' Ht' Hw Hn.
  destruct (parse_datagram_ok IPv4Datagram.new _ bufs' Hok Ht' Hw Hn) as (out&Hp&Hout&?&?).
  exists (mkIPv4Datagram (header (wrapped msg)) out). split; [done|]. split; [|done]. by eapply bears_equiv; [split|apply bears_wrapped].
Qed.
End wire.

(** ** Filtering *)

Section filter.
Context `{ResolverSpec}.
Context (addr port peer peer_port : Z).
Context (Ha : is_u32 addr) (Hp : is_u16 port) (Hpa : is_u32 peer) (Hpp : is_u16 peer_port).

(** A datagram as the layer below hands it up. *)
Definition arrived (d : IPv4Datagram) : Prop :=
  is_u32 (IPv4Header.pseudo_checksum (header d)) ∧
  owned (payload d) ∧ packed (payload d) ∧ zlen (text (payload d)) < 2 ^ 64.

Lemma parse_segment_total d :
  arrived d → ∃ seg ok, parse_segment (IPv4Header.pseudo_checksum (header d)) TCPSegment.new (payload d)
    = Ok (seg, ok).
Proof. intros (?&?&?&?). apply run_safe; [by apply safe_parse|done..]. Qed.

(** What the datagram holds for this connection. *)
Definition for_us (d : IPv4Datagram) (seg : TCPSegment) : Prop :=
  dst (header d) = addr ∧ src (header d) = peer ∧ proto (header d) = 6 ∧
  parse_segment (IPv4Header.pseudo_checksum (header d)) TCPSegment.new (payload d) = Ok (seg, true) ∧
  dst_port (udinfo seg) = port ∧ src_port (udinfo seg) = peer_port.

Ltac rejected := by eexists; split; [done|split; [done|naive_solver]].

Lemma unwrap_filter d b :
  arrived d → _listen b = false → connects b addr port peer peer_port →
  ∃ m, unwrap_tcp_in_ip d b = Ok (m, b) ∧
    (∀ msg, m = Some msg → ∃ seg, for_us d seg ∧ msg = message seg) ∧
    (∀ seg, for_us d seg → m = Some (message seg)).
Proof.
  intros Hd Hl [Hs Ht]. destruct (parse_segment_total d Hd) as (seg&ok&Hseg). unfold for_us.
  unfold unwrap_tcp_in_ip, listening, config.
  rewrite Hl, Hs, Ht, !inet_numeric, !inet_port by done.
  repeat first [rewrite bind_Ok_l | progress cbv beta iota].
  case_bool_decide; [rejected|].
  repeat first [rewrite bind_Ok_l | progress cbv beta iota].
  case_bool_decide; [rejected|].
  case_bool_decide; [rejected|].
  rewrite Hseg. repeat first [rewrite bind_Ok_l | progress cbv beta iota].
  destruct ok; cbn [negb andb]; [|by eexists; split; [done|split; [done|naive_solver]]].
  case_bool_decide; [rejected|].
  repeat first [rewrite bind_Ok_l | progress cbv beta iota]. rewrite Ht, inet_port, bind_Ok_l by done.
  case_bool_decide; [rejected|].
  eexists; split; [done|]. split; [|naive_solver].
  intros msg [= <-]. exists seg. split_and!; try done; by apply dec_stable.
Qed.
End filter.

(** * Properties *)

(** A TCP message that one adapter wraps comes out of the other: the
    datagram, serialized, copied and cut into buffers in any way, parses with
    both checksums verified, and the adapter of the connection's other end
    hands over the same message (its two reset flags as the one the header
    has); a listening adapter on that port takes it exactly when it is a SYN
    without reset, and then records both ends' addresses. *)
Theorem tcp_over_ip_roundtrip `{ResolverSpec} saddr sport daddr dport (msg : TCPMessage) (a : FdAdapterBase) :
  is_u32 saddr → is_u16 sport → is_u32 daddr → is_u16 dport →
  message_ok msg → connects a saddr sport daddr dport →
  ∃ dgram bufs, wrap_tcp_in_ip msg a = Ok dgram ∧ serialize dgram = Ok bufs ∧
    ∀ bufs', text bufs' = text bufs → owned bufs' → packed bufs' →
      ∃ d, parse IPv4Datagram.new bufs' = Ok (d, true) ∧
        (∀ b, _listen b = false → connects b daddr dport saddr sport →
          unwrap_tcp_in_ip d b = Ok (Some (normal_message msg), b)) ∧
        (∀ b ip, _listen b = true → is_u32 ip → source (_cfg b) = inet ip dport →
          unwrap_tcp_in_ip d b =
            if SYN (sender msg) && negb (RST (sender msg) || rRST (receiver msg))
            then Ok (Some (normal_message msg), connected saddr sport daddr dport b) else Ok (None, b)).
Proof.
  intros Hsa Hsp Hda Hdp Hm Ha.
  destruct (wrapped_arrives saddr sport daddr dport Hsa Hda msg Hm) as (bufs&Hs&Hb).
  exists (wrapped saddr sport daddr dport msg), bufs. split; [by apply wrap_ok|]. split; [done|].
  intros bufs' Ht Hw Hn. destruct (Hb bufs' Ht Hw Hn) as (d&Hd&Hc). exists d. split; [done|].
  split; intros; [by apply (unwrap_connected saddr sport daddr dport)|by eapply unwrap_listening].
Qed.

Definition demo_message : TCPMessage :=
  mkTCPMessage (mkTCPSenderMessage (mkWrap32 4000000000) true (slice demo_stream 0 5) false false)
    (mkTCPReceiverMessage None 64000 false).
Definition demo_adapter : FdAdapterBase :=
  mkFdAdapterBase (mkFdAdapterConfig (inet 167772161 4000) (inet 167772162 80) 0 0) false.

Lemma tcp_over_ip_roundtrip_witness :
  let R := DottedQuad.resolver in
  ∃ dgram bufs, wrap_tcp_in_ip demo_message demo_adapter = Ok dgram ∧ serialize dgram = Ok bufs ∧
    ∀ bufs', text bufs' = text bufs → owned bufs' → packed bufs' →
      ∃ d, parse IPv4Datagram.new bufs' = Ok (d, true) ∧
        (∀ b, _listen b = false → connects b 167772162 80 167772161 4000 →
          unwrap_tcp_in_ip d b = Ok (Some (normal_message demo_message), b)) ∧
        (∀ b ip, _listen b = true → is_u32 ip → source (_cfg b) = inet ip 80 →
          unwrap_tcp_in_ip d b =
            if SYN (sender demo_message) && negb (RST (sender demo_message) || rRST (receiver demo_message))
            then Ok (Some (normal_message demo_message), connected 167772161 4000 167772162 80 b)
            else Ok (None, b)).
Proof.
  intros R. apply (@tcp_over_ip_roundtrip R DottedQuad.resolver_spec); done.
Defined.

(** A connected adapter hands over a message exactly when the datagram is
    addressed from its peer to it, claims TCP, and holds a segment that parses
    with both ports of the connection; any other datagram is dropped, never an
    exception, and the adapter's state does not change. *)
Theorem tcp_over_ip_filter `{ResolverSpec} addr port peer peer_port (d : IPv4Datagram) (b : FdAdapterBase) :
  is_u32 addr → is_u16 port → is_u32 peer → is_u16 peer_port →
  arrived d → _listen b = false → connects b addr port peer peer_port →
  ∃ m, unwrap_tcp_in_ip d b = Ok (m, b) ∧
    (∀ msg, m = Some msg → ∃ seg, for_us addr port peer peer_port d seg ∧ msg = message seg) ∧
    (∀ seg, for_us addr port peer peer_port d seg → m = Some (message seg)).
Proof. intros. by apply unwrap_filter. Qed.

Definition demo_stray : IPv4Datagram :=
  mkIPv4Datagram (wrapped_header 167772162 167772161 demo_message)
    [Owned (slice demo_stream 0 13)].

Lemma tcp_over_ip_filter_witness :
  let R := DottedQuad.resolver in
  ∃ m, unwrap_tcp_in_ip demo_stray demo_adapter = Ok (m, demo_adapter) ∧
    (∀ msg, m = Some msg →
      ∃ seg, for_us 167772161 4000 167772162 80 demo_stray seg ∧ msg = message seg) ∧
    (∀ seg, for_us 167772161 4000 167772162 80 demo_stray seg → m = Some (message seg)).
Proof.
  intros R. apply (@tcp_over_ip_filter R DottedQuad.resolver_spec); try done.
  split; [by vm_compute|]. split; [by repeat constructor|]. split; [by repeat constructor|].
  by vm_compute.
Defined.
