(* ===== verification/WireSize.v ===== *)
(** What parsing yields, whatever the bytes: fields in range for their types,
    and no more bytes than were there. *)

From S2P Require Import Prelude WrappingIntegers TCPMessages Ref Parser Wire IPv4 TCPSegment Address TCPOverIP.
Import TCPOverIPv4Adapter.

(** * Sizes *)

(** The bytes in the buffers of a parser. *)
Definition held (p : Parser) : Z := zlen (text (buffer_ (input_ p))).

(** Steps do not add to them. *)
Definition shrinks {A} (m : parsing A) : Prop := ∀ p a p', m p = Ok (a, p') → held p' ≤ held p.

Lemma shrinks_bind {A B} (m : parsing A) (f : A → parsing B) :
  shrinks m → (∀ a, shrinks (f a)) → shrinks (m ≫= f).
Proof.
  intros Hm Hf p b p' (a&p1&H1&H2)%bind_inv. etransitivity; [by eapply Hf|by eapply Hm].
Qed.
Lemma shrinks_ret {A} (a : A) : shrinks (mret a).
Proof. by intros p b p' [= <- <-]. Qed.
Lemma shrinks_set_error : shrinks Parser.set_error.
Proof. by intros p b p' [= <- <-]. Qed.
Lemma shrinks_get_error : shrinks Parser.get_error.
Proof. by intros p b p' [= <- <-]. Qed.
Lemma shrinks_check_size n : shrinks (Parser.check_size n).
Proof. by intros p b p' [= <- <-]. Qed.
Lemma shrinks_lift {A} (m : result A) : shrinks (lift m).
Proof. intros p a p' He. unfold lift in He. destruct m; [|done]. by injection He as <- <-. Qed.

Lemma remove_prefix_held fuel len bl bl' :
  BufferList.remove_prefix_loop fuel len bl = Ok bl' → zlen (text (buffer_ bl')) ≤ zlen (text (buffer_ bl)).
Proof.
  revert len bl. induction fuel as [|fuel IH]; intros len bl; cbn [BufferList.remove_prefix_loop]; [done|].
  destruct (buffer_ bl) as [|front rest] eqn:Hb; [intros [= <-]; by rewrite Hb|].
  case_bool_decide; [|intros [= <-]; by rewrite Hb]. intros (view&_&He)%bind_Ok. cbv zeta in He.
  case_bool_decide; apply IH in He; cbn [buffer_] in He; [|done].
  rewrite text_cons, zlen_app. zlen.
Qed.
Lemma shrinks_remove_prefix n : shrinks (Parser.remove_prefix n).
Proof. intros p a p' (bl&He&[= <- <-])%bind_Ok. by apply remove_prefix_held in He. Qed.

Lemma truncate_held so_far len bufs kept :
  BufferList.truncate_loop so_far len bufs = Ok kept → zlen (text kept) ≤ zlen (text bufs).
Proof.
  revert so_far kept. induction bufs as [|x bufs IH]; intros so_far kept; cbn [BufferList.truncate_loop].
  { by intros [= <-]. }
  rewrite text_cons, zlen_app. assert (0 ≤ zlen (text bufs)) by zlen.
  case_bool_decide.
  { intros (k&Hk%IH&[= <-])%bind_Ok. rewrite text_cons, zlen_app. lia. }
  case_bool_decide.
  { intros [= <-]. rewrite text_cons, text_nil, app_nil_r. lia. }
  case_bool_decide as Hz; [done|]. case_bool_decide; [|done]. case_bool_decide as Hlt; [|done]. cbn [orb negb].
  intros (s&Hs&[= <-])%bind_Ok. rewrite text_cons, text_nil, app_nil_r. cbn [Ref.get].
  assert (s = Ref.get x) as -> by (destruct x; [by injection Hs as <-|done]).
  rewrite zlen_resize; [lia|apply u64_range].
Qed.
Lemma shrinks_truncate n : shrinks (Parser.truncate n).
Proof.
  intros p a p' (bl&He&[= <- <-])%bind_Ok. unfold held, BufferList.truncate in *. cbn [input_].
  case_bool_decide; [by injection He as <-|]. case_bool_decide; [injection He as <-; cbn; zlen|].
  apply bind_Ok in He as (kept&Hk&[= <-]). by apply truncate_held in Hk.
Qed.

Lemma dump_held bl out : BufferList.dump_all bl = Ok out → zlen (text out) ≤ zlen (text (buffer_ bl)).
Proof.
  unfold BufferList.dump_all. destruct (BufferList.empty bl); [intros [= <-]; rewrite text_nil; zlen|].
  destruct (buffer_ bl) as [|front rest]; [done|]. case_bool_decide; [|by intros [= <-]].
  intros (s&Hs&[= <-])%bind_Ok. rewrite !text_cons, !zlen_app. unfold substr_from in Hs.
  case_bool_decide; [done|]. injection Hs as <-. cbn [Ref.get]. zlen.
Qed.

(** The rest of the input. *)
Lemma all_remaining_held p out p' :
  Parser.all_remaining p = Ok (out, p') → p' = p ∧ zlen (text out) ≤ held p.
Proof. intros (o&He%dump_held&[= <- <-])%bind_Ok. done. Qed.
Lemma shrinks_all_remaining : shrinks Parser.all_remaining.
Proof. by intros p out p' [-> _]%all_remaining_held. Qed.
Lemma concatenate_held p s p' :
  Parser.concatenate_all_remaining p = Ok (s, p') → zlen s ≤ held p.
Proof.
  intros (out&p1&[-> Hl]%all_remaining_held&He)%bind_inv. destruct out as [|front rest].
  - injection He as <- <-. unfold held. zlen.
  - injection He as <- <-. by rewrite text_cons in Hl.
Qed.

Lemma shrinks_next_byte : shrinks Parser.next_byte.
Proof.
  intros p b p' He. unfold Parser.next_byte in He. apply bind_Ok in He as ([|c view]&_&He); [done|].
  apply bind_Ok in He as (bl&Hb&[= <- <-]). by apply remove_prefix_held in Hb.
Qed.
Lemma shrinks_integer_loop n w acc : shrinks (Parser.integer_loop n w acc).
Proof.
  revert acc. induction n as [|n IH]; intros acc; cbn [Parser.integer_loop]; [apply shrinks_ret|].
  by apply shrinks_bind; [apply shrinks_next_byte|].
Qed.
Lemma shrinks_integer w old : shrinks (Parser.integer w old).
Proof.
  apply shrinks_bind; [apply shrinks_check_size|]. intros _. apply shrinks_bind; [apply shrinks_get_error|].
  intros []; [apply shrinks_ret|]. case_bool_decide; [apply shrinks_next_byte|apply shrinks_integer_loop].
Qed.

Ltac shrinks_fields :=
  repeat (cbv beta zeta;
    lazymatch goal with
    | |- shrinks (mbind _ _) => apply shrinks_bind; [|intros ?]
    | |- shrinks (Parser.integer _ _) => apply shrinks_integer
    | |- shrinks (mret _) => apply shrinks_ret
    | |- shrinks (if ?b then _ else _) => destruct b
    | |- shrinks Parser.set_error => apply shrinks_set_error
    | |- shrinks Parser.get_error => apply shrinks_get_error
    | |- shrinks (lift _) => apply shrinks_lift
    | |- shrinks (Parser.remove_prefix _) => apply shrinks_remove_prefix
    | |- shrinks (Parser.truncate _) => apply shrinks_truncate
    end).

Lemma make_held bufs p : Parser.make bufs = Ok p → held p = zlen (text bufs).
Proof.
  intros (bl&He&[= <-])%bind_Ok. unfold BufferList.make in He. unfold held. cbn [input_].
  assert (∀ bl0, BufferList.fill bufs bl0 = Ok bl → buffer_ bl = buffer_ bl0 ++ bufs) as Hfill.
  { clear He. induction bufs as [|x bufs IH]; intros bl0; cbn [BufferList.fill].
    - intros [= ->]. by rewrite app_nil_r.
    - destruct (Ref.is_borrowed x); [done|]. intros Hb%IH. cbn in Hb. by rewrite <- app_assoc in Hb. }
  by rewrite (Hfill _ He).
Qed.

(** * Datagrams and segments *)

Lemma datagram_size old bufs d ok :
  run_parser (IPv4Datagram.parse old) bufs = Ok (d, ok) → zlen (text (IPv4.payload d)) ≤ zlen (text bufs).
Proof.
  intros (p&Hp&He)%bind_Ok. rewrite <- (make_held _ _ Hp).
  destruct (IPv4Datagram.parse old p) as [[d' p']|] eqn:E; [|done]. injection He as -> _.
  unfold IPv4Datagram.parse in E. apply bind_inv in E as (h&p1&H1&E). apply bind_inv in E as ([]&p2&H2&E).
  apply bind_inv in E as (out&p3&[-> Ho]%all_remaining_held&[= <- <-]). cbn.
  apply shrinks_truncate in H2. etransitivity; [exact Ho|]. etransitivity; [exact H2|].
  assert (shrinks (IPv4Header.parse (header old))) as Hs; [|by apply Hs in H1].
  unfold IPv4Header.parse, IPv4Header.parse_fields, IPv4Header.verify. shrinks_fields.
Qed.

(** A segment that was parsed. *)
Record segment_fields (seg : TCPSegment) : Prop := mkSegmentFields {
  sf_seqno : wf (seqno (sender (message seg)));
  sf_ackno a : ackno (receiver (message seg)) = Some a → wf a;
  sf_window : is_u16 (window_size (receiver (message seg)));
}.

Lemma segment_fields_sound old : returns (TCPSegment.parse_fields old) (λ r, segment_fields r.2).
Proof.
  unfold TCPSegment.parse_fields.
  returns_field Hsp. returns_field Hdp. returns_field Hs. returns_field Ha. returns_field Ho.
  returns_field Hf. returns_field Hw. returns_field Hc. returns_field Hu.
  assert (∀ v, 0 ≤ v < 256 ^ 4 → wf (Wrap32.of_raw v)) as Hraw by (intros v Hv; apply u32_range).
  apply returns_ret. split; cbn [snd message sender receiver seqno ackno window_size].
  - by apply Hraw.
  - intros w. case_bool_decide; [done|]. intros [= <-]. by apply Hraw.
  - exact Hw.
Qed.

Lemma sticky_concatenate : sticky Parser.concatenate_all_remaining.
Proof. apply sticky_bind; [apply sticky_all_remaining|]. intros []; apply sticky_ret. Qed.
Lemma sticky_buffer : sticky Parser.buffer.
Proof. intros p a p' (vs&_&[= <- <-])%bind_Ok. done. Qed.

Lemma segment_sound pseudo old bufs seg :
  parse_segment pseudo old bufs = Ok (seg, true) →
  segment_fields seg ∧ zlen (TCPMessages.payload (sender (message seg))) ≤ zlen (text bufs).
Proof.
  intros (p&Hp&He)%bind_Ok. rewrite <- (make_held _ _ Hp).
  destruct (TCPSegment.parse pseudo old p) as [[s p']|] eqn:E; [|done]. injection He as -> Herr.
  unfold Parser.has_error in Herr. apply negb_true_iff in Herr.
  unfold TCPSegment.parse in E. apply bind_inv in E as (vs&p1&H1&E).
  assert (p1 = p) as -> by (by apply bind_Ok in H1 as (?&_&[= _ <-])).
  apply bind_inv in E as (v&p2&H2&E).
  assert (p2 = p) as -> by (unfold lift in H2; by apply bind_Ok in H2 as (?&_&[= _ <-])).
  case_bool_decide.
  { apply bind_inv in E as ([]&p3&[= <-]&[= _ <-]). done. }
  apply bind_inv in E as ([doff s]&p3&H3&E). cbv beta in E. case_bool_decide.
  { apply bind_inv in E as ([]&p4&[= <-]&[= _ <-]). done. }
  apply bind_inv in E as ([]&p4&H4&E). apply bind_inv in E as (body&p5&H5&[= <- <-]).
  pose proof (sticky_concatenate _ _ _ H5 Herr) as He4. pose proof (sticky_remove_prefix _ _ _ _ H4 He4) as He3.
  pose proof (segment_fields_sound _ _ _ _ H3 He3) as [F1 F2 F3]. split; [by split|]. cbn.
  apply concatenate_held in H5. apply shrinks_remove_prefix in H4.
  assert (shrinks (TCPSegment.parse_fields old)) as Hs; [|apply Hs in H3; lia].
  unfold TCPSegment.parse_fields. shrinks_fields.
Qed.

(** The message of a datagram. *)
Lemma unwrap_sound `{Resolver} d a m a' :
  unwrap_tcp_in_ip d a = Ok (Some m, a') →
  wf (seqno (sender m)) ∧ (∀ x, ackno (receiver m) = Some x → wf x) ∧ is_u16 (window_size (receiver m)) ∧
  zlen (TCPMessages.payload (sender m)) ≤ zlen (text (payload d)).
Proof.
  unfold unwrap_tcp_in_ip. intros Hu.
  repeat match type of Hu with
  | mbind _ ?x = Ok _ => destruct x as [?|?] eqn:?; [rewrite bind_Ok_l in Hu|done]
  | (if ?b then _ else _) = Ok _ => destruct b eqn:?; [done|]
  | (let '(_, _) := ?p in _) = Ok _ => destruct p
  end.
  all: injection Hu as <- <-.
  all: match goal with Hp : parse_segment _ _ _ = Ok (?seg, ?ok), Hn : negb ?ok = false |- _ =>
    apply negb_false_iff in Hn; subst ok; apply segment_sound in Hp as [[F1 F2 F3] Hl] end.
  all: by split_and!.
Qed.
