(* ===== verification/ARPTable.v ===== *)
(** The ARP cache (src/src/arp_table.hh, src/src/arp_table.cc).  The
    [unordered_map] is a finite map: its entries age independently, so the
    order in which [tick] visits them does not matter. *)

From S2P Require Import Prelude Timer Ethernet.

Record Entry : Type := mkEntry {
  mac : EthernetAddress;
  ttl : Timer;
}.

Record ARPTable : Type := mkARPTable { entries_ : gmap Z Entry }.

Module ARPTable.

Definition new : ARPTable := mkARPTable ∅.

(** The default member initialisers of [Entry]. *)
Definition new_entry : Entry := mkEntry zero_address (Timer.new NetworkTimer.ARP_ENTRY_TIMEOUT).

Definition add_entry (ip : Z) (mac : EthernetAddress) (t : ARPTable) : ARPTable :=
  let entry := default new_entry (entries_ t !! ip) in
  mkARPTable (<[ip := mkEntry mac (Timer.start (ttl entry))]> (entries_ t)).

Definition remove_entry (ip : Z) (t : ARPTable) : ARPTable := mkARPTable (delete ip (entries_ t)).

Definition lookup (ip : Z) (t : ARPTable) : option EthernetAddress * ARPTable :=
  match entries_ t !! ip with
  | None => (None, t)
  | Some e =>
      if Timer.is_expired (ttl e) then (None, mkARPTable (delete ip (entries_ t)))
      else (Some (mac e), t)
  end.

(** One turn of the loop of [tick]. *)
Definition tick_entry (ms_since_last_tick : Z) (e : Entry) : option Entry :=
  let e := mkEntry (mac e) (Timer.tick ms_since_last_tick (ttl e)) in
  if Timer.is_expired (ttl e) then None else Some e.

Definition tick (ms_since_last_tick : Z) (t : ARPTable) : ARPTable :=
  mkARPTable (omap (tick_entry ms_since_last_tick) (entries_ t)).

Definition size (t : ARPTable) : Z := Z.of_nat (base.size (entries_ t)).
Definition empty (t : ARPTable) : bool := bool_decide (entries_ t = ∅).

End ARPTable.

(** * Invariant *)

(** Every entry is alive: its timer runs and has not reached the timeout. *)
Definition entry_ok (e : Entry) : Prop :=
  running_ (ttl e) = true ∧ timeout_ms_ (ttl e) = NetworkTimer.ARP_ENTRY_TIMEOUT ∧
  0 ≤ elapsed_ms_ (ttl e) < NetworkTimer.ARP_ENTRY_TIMEOUT.

Definition table_ok (t : ARPTable) : Prop := map_Forall (λ _, entry_ok) (entries_ t).

(** A tick that does not make a 64-bit counter wrap. *)
Definition tick_ok (ms : Z) : Prop := 0 ≤ ms < 2 ^ 63.

Lemma new_ok : table_ok ARPTable.new.
Proof. apply map_Forall_empty. Qed.

Lemma entry_fresh t ip m :
  table_ok t →
  entry_ok (mkEntry m (Timer.start (ttl (default ARPTable.new_entry (entries_ t !! ip))))).
Proof.
  intros Ht. destruct (entries_ t !! ip) as [e|] eqn:He; [|done].
  destruct (Ht _ _ He) as (_&Hm&_). by split_and!.
Qed.

Lemma add_entry_ok ip m t : table_ok t → table_ok (ARPTable.add_entry ip m t).
Proof. intros Ht. apply map_Forall_insert_2; [by apply entry_fresh|done]. Qed.

Lemma remove_entry_ok ip t : table_ok t → table_ok (ARPTable.remove_entry ip t).
Proof. apply map_Forall_delete. Qed.

Lemma not_expired e : entry_ok e → Timer.is_expired (ttl e) = false.
Proof.
  intros (_&Hm&He). unfold Timer.is_expired. rewrite Hm, bool_decide_false by lia.
  by rewrite andb_false_r.
Qed.

(** In a table that is ticked, [lookup] never has to evict. *)
Lemma lookup_ok ip t : table_ok t → ARPTable.lookup ip t = (mac <$> entries_ t !! ip, t).
Proof.
  intros Ht. unfold ARPTable.lookup. destruct (entries_ t !! ip) as [e|] eqn:He; [|done].
  by rewrite not_expired by by apply (Ht ip).
Qed.

Lemma tick_entry_spec ms e :
  entry_ok e → tick_ok ms →
  ARPTable.tick_entry ms e =
    if bool_decide (elapsed_ms_ (ttl e) + ms < NetworkTimer.ARP_ENTRY_TIMEOUT)
    then Some (mkEntry (mac e) (mkTimer NetworkTimer.ARP_ENTRY_TIMEOUT (elapsed_ms_ (ttl e) + ms) true))
    else None.
Proof.
  intros (Hr&Hm&He) Hms. unfold ARPTable.tick_entry, NetworkTimer.ARP_ENTRY_TIMEOUT, tick_ok in *.
  cbn [mac ttl]. rewrite tick_running by lia || done. unfold Timer.is_expired. cbn. rewrite Hm.
  case_bool_decide; case_bool_decide; lia || done.
Qed.

Lemma tick_table_ok ms t : table_ok t → tick_ok ms → table_ok (ARPTable.tick ms t).
Proof.
  intros Ht Hms ip e He. unfold ARPTable.tick in He. cbn [entries_] in He.
  rewrite lookup_omap in He. destruct (entries_ t !! ip) as [e0|] eqn:He0; [|done]. simpl in He.
  pose proof (Ht _ _ He0) as Hok. pose proof Hok as (_&_&?). rewrite tick_entry_spec in He by done.
  case_bool_decide; [|done]. injection He as <-. unfold tick_ok in *. split_and!; done || (simpl; lia).
Qed.

Create HintDb arp discriminated.
#[export] Hint Resolve new_ok add_entry_ok remove_entry_ok tick_table_ok : arp.

(** * What the cache answers *)

Inductive op : Type :=
  | Add (ip : Z) (mac : EthernetAddress)
  | Remove (ip : Z)
  | Lookup (ip : Z)
  | Tick (ms : Z).

Definition op_ok (o : op) : Prop := match o with Tick ms => tick_ok ms | _ => True end.

Definition run_op (o : op) (t : ARPTable) : ARPTable :=
  match o with
  | Add ip m => ARPTable.add_entry ip m t
  | Remove ip => ARPTable.remove_entry ip t
  | Lookup ip => (ARPTable.lookup ip t).2
  | Tick ms => ARPTable.tick ms t
  end.

(** The table after some operations, the last one first. *)
Fixpoint run (history : list op) : ARPTable :=
  match history with
  | [] => ARPTable.new
  | o :: history => run_op o (run history)
  end.

(** What the history, the last operation first, says of [ip]: the last address
    added for it, unless it was removed or [ARP_ENTRY_TIMEOUT] has passed
    since; [age] is the time since the point of the history being read. *)
Fixpoint heard (ip age : Z) (history : list op) : option EthernetAddress :=
  match history with
  | [] => None
  | Add ip' m :: history =>
      if bool_decide (ip' = ip)
      then if bool_decide (age < NetworkTimer.ARP_ENTRY_TIMEOUT) then Some m else None
      else heard ip age history
  | Remove ip' :: history => if bool_decide (ip' = ip) then None else heard ip age history
  | Lookup _ :: history => heard ip age history
  | Tick ms :: history => heard ip (age + ms) history
  end.

Lemma run_ok history : Forall op_ok history → table_ok (run history).
Proof.
  induction 1 as [|[] history Ho Hh IH]; cbn [run run_op] in *; auto with arp.
  by rewrite lookup_ok.
Qed.

Lemma run_heard ip age history :
  Forall op_ok history → 0 ≤ age →
  heard ip age history =
    e ← entries_ (run history) !! ip;
    if bool_decide (elapsed_ms_ (ttl e) + age < NetworkTimer.ARP_ENTRY_TIMEOUT)
    then Some (mac e) else None.
Proof.
  intros Hh. revert age. induction Hh as [|o history Ho Hh IH]; intros age Ha; [done|].
  pose proof (run_ok history Hh) as Ht. destruct o as [ip' m|ip'|ip'|ms]; cbn [heard run run_op].
  - unfold ARPTable.add_entry. cbn [entries_]. case_bool_decide as Hip.
    + subst. rewrite lookup_insert, decide_True by done. done.
    + rewrite lookup_insert_ne by done. by apply IH.
  - unfold ARPTable.remove_entry. cbn [entries_]. case_bool_decide as Hip.
    + subst. by rewrite lookup_delete, decide_True by done.
    + rewrite lookup_delete_ne by done. by apply IH.
  - rewrite lookup_ok by done. by apply IH.
  - cbn in Ho. rewrite IH by (unfold tick_ok in Ho; lia). unfold ARPTable.tick. cbn [entries_].
    rewrite lookup_omap. destruct (entries_ (run history) !! ip) as [e|] eqn:He; [|done]. simpl.
    pose proof (Ht _ _ He) as Hok. rewrite tick_entry_spec by done. unfold tick_ok in Ho.
    destruct (decide (elapsed_ms_ (ttl e) + ms < NetworkTimer.ARP_ENTRY_TIMEOUT)).
    + rewrite (bool_decide_true (_ + ms < _)) by done. simpl.
      by replace (elapsed_ms_ (ttl e) + ms + age) with (elapsed_ms_ (ttl e) + (age + ms)) by lia.
    + rewrite (bool_decide_false (_ + ms < _)) by done. simpl. by rewrite bool_decide_false by lia.
Qed.

(** * Properties *)

(** After any sequence of operations, the cache answers with the last
    Ethernet address added for an IP address, exactly if it was not removed and
    less than [ARP_ENTRY_TIMEOUT] has passed since it was added. *)
Theorem arp_table_lookup (history : list op) ip :
  Forall op_ok history → (ARPTable.lookup ip (run history)).1 = heard ip 0 history.
Proof.
  intros Hh. rewrite run_heard by done. pose proof (run_ok history Hh) as Ht.
  rewrite lookup_ok by done. destruct (entries_ (run history) !! ip) as [e|] eqn:He; [|done]. simpl.
  destruct (Ht _ _ He) as (_&_&?). by rewrite bool_decide_true by lia.
Qed.

Lemma arp_table_lookup_witness :
  (ARPTable.lookup 7 (run [Tick 29999; Lookup 7; Add 7 [2; 0; 0; 0; 0; 9]; Tick 100; Add 7 zero_address])).1
    = Some [2; 0; 0; 0; 0; 9].
Proof.
  rewrite (arp_table_lookup [Tick 29999; Lookup 7; Add 7 [2; 0; 0; 0; 0; 9]; Tick 100; Add 7 zero_address]).
  - by vm_compute.
  - repeat constructor; done.
Defined.
