(* ===== verification/ARPMessageQueue.v ===== *)
(** The datagrams that wait for an ARP reply (src/src/arp_message_queue.hh,
    src/src/arp_message_queue.cc).  The order in which an [unordered_map] is
    iterated is a parameter of [tick]; the timeout callback is a function on a
    world [W] that holds whatever it changes. *)

From S2P Require Import Prelude Timer Ref Parser IPv4 Address.

Record PendingDatagram : Type := mkPendingDatagram {
  dgram : IPv4Datagram;
  next_hop : Address;
  timer : Timer;
}.

Record ARPMessageQueue (W : Type) : Type := mkARPMessageQueue {
  pending_ : gmap Z (list PendingDatagram);
  on_timeout_ : option (Address → W → result W);
}.
Arguments mkARPMessageQueue {W} _ _.
Arguments pending_ {W} _.
Arguments on_timeout_ {W} _.

Module ARPMessageQueue.
Section queue.
Context {W : Type}.
Implicit Types q : ARPMessageQueue W.

Definition new : ARPMessageQueue W := mkARPMessageQueue ∅ None.

Definition set_callback (cb : Address → W → result W) q : ARPMessageQueue W :=
  mkARPMessageQueue (pending_ q) (Some cb).

Definition add_pending (d : IPv4Datagram) (hop : Address) q : result (ARPMessageQueue W) :=
  ip ← Address.ipv4_numeric hop;
  let queue := default [] (pending_ q !! ip) in
  let pending :=
    mkPendingDatagram (IPv4Datagram.clone d) hop (Timer.start (Timer.new NetworkTimer.ARP_REQUEST_TIMEOUT)) in
  Ok (mkARPMessageQueue (<[ip := queue ++ [pending]]> (pending_ q)) (on_timeout_ q)).

Definition pop_pending (ip : Z) q : list PendingDatagram * ARPMessageQueue W :=
  match pending_ q !! ip with
  | None => ([], q)
  | Some out => (out, mkARPMessageQueue (delete ip (pending_ q)) (on_timeout_ q))
  end.

Definition has_pending (ip : Z) q : bool :=
  match pending_ q !! ip with
  | None => false
  | Some queue => bool_decide (queue ≠ [])
  end.

(** The loop of [tick] over the keys in [order]. *)
Fixpoint tick_loop (ms_since_last_tick : Z) (order : list Z) q (w : W)
    : result (ARPMessageQueue W * W) :=
  match order with
  | [] => Ok (q, w)
  | ip :: order =>
      match pending_ q !! ip with
      | None => tick_loop ms_since_last_tick order q w
      | Some [] =>
          tick_loop ms_since_last_tick order
            (mkARPMessageQueue (delete ip (pending_ q)) (on_timeout_ q)) w
      | Some (head :: queue) =>
          let t := Timer.tick ms_since_last_tick (timer head) in
          if Timer.is_expired t then
            let q := mkARPMessageQueue (delete ip (pending_ q)) (on_timeout_ q) in
            w ← match on_timeout_ q with Some cb => cb (next_hop head) w | None => Ok w end;
            tick_loop ms_since_last_tick order q w
          else
            let head := mkPendingDatagram (dgram head) (next_hop head) t in
            tick_loop ms_since_last_tick order
              (mkARPMessageQueue (<[ip := head :: queue]> (pending_ q)) (on_timeout_ q)) w
      end
  end.

(** [order] is the iteration order of the map. *)
Definition tick (ms_since_last_tick : Z) (order : list Z) q (w : W)
    : result (ARPMessageQueue W * W) :=
  tick_loop ms_since_last_tick order q w.

Definition size q : Z := map_fold (λ _ queue total, total + zlen queue) 0 (pending_ q).

Definition empty q : bool := bool_decide (pending_ q = ∅).

End queue.
End ARPMessageQueue.

(** * Invariant *)

(** A head of a queue: its timer runs and has not reached the timeout. *)
Definition head_ok (p : PendingDatagram) : Prop :=
  running_ (timer p) = true ∧ timeout_ms_ (timer p) = NetworkTimer.ARP_REQUEST_TIMEOUT ∧
  0 ≤ elapsed_ms_ (timer p) < NetworkTimer.ARP_REQUEST_TIMEOUT.

(** A queue of datagrams waiting for [ip]. *)
Definition list_ok (ip : Z) (l : list PendingDatagram) : Prop :=
  l ≠ [] ∧ Forall (λ p, head_ok p ∧ Address.ipv4_numeric (next_hop p) = Ok ip) l.

Definition lists_ok (m : gmap Z (list PendingDatagram)) : Prop := map_Forall list_ok m.

Lemma lists_ok_empty : lists_ok ∅.
Proof. apply map_Forall_empty. Qed.

Section queue.
Context {W : Type}.
Implicit Types (q : ARPMessageQueue W) (m : gmap Z (list PendingDatagram)).

(** ** [add_pending] and [pop_pending] *)

Definition waiting (d : IPv4Datagram) (hop : Address) : PendingDatagram :=
  mkPendingDatagram (IPv4Datagram.clone d) hop (mkTimer NetworkTimer.ARP_REQUEST_TIMEOUT 0 true).

Lemma add_pending_ok d hop ip q :
  Address.ipv4_numeric hop = Ok ip →
  ARPMessageQueue.add_pending d hop q =
    Ok (mkARPMessageQueue (<[ip := default [] (pending_ q !! ip) ++ [waiting d hop]]> (pending_ q))
          (on_timeout_ q)).
Proof. intros Hip. unfold ARPMessageQueue.add_pending. by rewrite Hip. Qed.

Lemma add_pending_lists_ok d hop ip m :
  lists_ok m → Address.ipv4_numeric hop = Ok ip →
  lists_ok (<[ip := default [] (m !! ip) ++ [waiting d hop]]> m).
Proof.
  intros Hm Hip. apply map_Forall_insert_2; [|done]. split; [by destruct (default [] (m !! ip))|].
  apply Forall_app. split; [|by constructor; [split; [by split_and!|]|constructor]].
  destruct (m !! ip) as [l|] eqn:Hl; [by apply (Hm _ _ Hl)|by constructor].
Qed.

Lemma has_pending_ok ip q :
  lists_ok (pending_ q) → ARPMessageQueue.has_pending ip q = bool_decide (is_Some (pending_ q !! ip)).
Proof.
  intros Hm. unfold ARPMessageQueue.has_pending. destruct (pending_ q !! ip) as [l|] eqn:Hl; [|done].
  destruct (Hm _ _ Hl) as [Hne _]. rewrite !bool_decide_true by done. done.
Qed.

Lemma pop_pending_ok ip q :
  ARPMessageQueue.pop_pending ip q =
    (default [] (pending_ q !! ip), mkARPMessageQueue (delete ip (pending_ q)) (on_timeout_ q)).
Proof.
  unfold ARPMessageQueue.pop_pending. destruct (pending_ q !! ip) as [l|] eqn:Hl; [done|]. simpl.
  rewrite delete_id by done. by destruct q.
Qed.

(** ** [tick] *)

(** What a tick leaves of one queue, and whom it reports. *)
Definition age_list (ms : Z) (l : list PendingDatagram) : option (list PendingDatagram) :=
  match l with
  | [] => None
  | head :: l =>
      let t := Timer.tick ms (timer head) in
      if Timer.is_expired t then None
      else Some (mkPendingDatagram (dgram head) (next_hop head) t :: l)
  end.
Definition expired_hop (ms : Z) (l : list PendingDatagram) : option Address :=
  match l with
  | [] => None
  | head :: _ => if Timer.is_expired (Timer.tick ms (timer head)) then Some (next_hop head) else None
  end.

(** The next hops a tick reports, in the order of the iteration. *)
Definition expired_hops (ms : Z) (order : list Z) m : list Address :=
  omap (λ ip, l ← m !! ip; expired_hop ms l) order.

Fixpoint notify (cb : option (Address → W → result W)) (hops : list Address) (w : W) : result W :=
  match hops with
  | [] => Ok w
  | hop :: hops =>
      w ← match cb with Some cb => cb hop w | None => Ok w end;
      notify cb hops w
  end.

(** The map after the keys in [order] have been visited. *)
Definition visited (ms : Z) (order : list Z) m : gmap Z (list PendingDatagram) :=
  map_imap (λ ip l, if bool_decide (ip ∈ order) then age_list ms l else Some l) m.

Lemma visited_nil ms m : visited ms [] m = m.
Proof.
  apply map_eq. intros ip. unfold visited. rewrite map_lookup_imap.
  destruct (m !! ip); cbn [mbind option_bind]; [|done]. by rewrite bool_decide_false by apply not_elem_of_nil.
Qed.

Lemma visited_cons ms ip order m :
  ip ∉ order →
  visited ms (ip :: order) m = visited ms order (partial_alter (λ l, l ≫= age_list ms) ip m).
Proof.
  intros Hip. apply map_eq. intros k. unfold visited. rewrite !map_lookup_imap.
  destruct (decide (k = ip)) as [->|Hk].
  - rewrite lookup_partial_alter, decide_True by done. destruct (m !! ip) as [l|]; cbn [mbind option_bind]; [|done].
    rewrite bool_decide_true by by left.
    destruct (age_list ms l); cbn [mbind option_bind]; [|done]. by rewrite bool_decide_false.
  - rewrite lookup_partial_alter_ne by done. destruct (m !! k) as [l|]; cbn [mbind option_bind]; [|done].
    assert (bool_decide (k ∈ ip :: order) = bool_decide (k ∈ order)) as ->; [|done].
    apply bool_decide_ext. rewrite elem_of_cons; naive_solver.
Qed.

Lemma expired_hops_alter ms ip order m f :
  ip ∉ order → expired_hops ms order (partial_alter f ip m) = expired_hops ms order m.
Proof.
  intros Hip. unfold expired_hops. induction order as [|k order IH]; [done|].
  apply not_elem_of_cons in Hip as [Hk Hip]. cbn [omap list_omap].
  rewrite lookup_partial_alter_ne by done. by rewrite IH.
Qed.

Lemma alter_delete m ip l ms :
  m !! ip = Some l → age_list ms l = None →
  partial_alter (λ l, l ≫= age_list ms) ip m = delete ip m.
Proof.
  intros Hl Ha. unfold delete, map_delete. apply partial_alter_ext. rewrite Hl.
  intros x [= <-]. simpl. done.
Qed.

Lemma alter_insert m ip l l' ms :
  m !! ip = Some l → age_list ms l = Some l' →
  partial_alter (λ l, l ≫= age_list ms) ip m = <[ip := l']> m.
Proof.
  intros Hl Ha. unfold insert, map_insert. apply partial_alter_ext. rewrite Hl.
  intros x [= <-]. simpl. done.
Qed.

Lemma alter_none m ip ms :
  m !! ip = None → partial_alter (λ l, l ≫= age_list ms) ip m = m.
Proof.
  intros Hl. apply map_eq. intros k. destruct (decide (k = ip)) as [->|Hk].
  - rewrite lookup_partial_alter, decide_True by done. by rewrite Hl.
  - by rewrite lookup_partial_alter_ne.
Qed.

Lemma tick_loop_spec ms order q w :
  NoDup order →
  ARPMessageQueue.tick_loop ms order q w =
    (w ← notify (on_timeout_ q) (expired_hops ms order (pending_ q)) w;
     Ok (mkARPMessageQueue (visited ms order (pending_ q)) (on_timeout_ q), w)).
Proof.
  intros Hnd. revert q w. induction Hnd as [|ip order Hip Hnd IH]; intros q w.
  { simpl. rewrite visited_nil. by destruct q. }
  rewrite visited_cons by done. cbn [ARPMessageQueue.tick_loop].
  unfold expired_hops at 1. cbn [omap list_omap]. fold (expired_hops ms order (pending_ q)).
  destruct (pending_ q !! ip) as [[|head l]|] eqn:Hl.
  - rewrite IH. cbn [pending_ on_timeout_ mbind option_bind expired_hop].
    by rewrite (alter_delete _ _ _ ms Hl) by done; unfold delete, map_delete; rewrite expired_hops_alter.
  - cbn [mbind option_bind expired_hop]. destruct (Timer.is_expired _) eqn:He.
    + cbn [notify on_timeout_]. rewrite (alter_delete _ _ _ ms Hl) by (simpl; by rewrite He).
      destruct (match on_timeout_ q with Some cb => cb (next_hop head) w | None => Ok w end)
        as [w'|e]; simpl; [|done].
      rewrite IH. cbn [pending_ on_timeout_]. unfold delete, map_delete. by rewrite expired_hops_alter.
    + rewrite IH. cbn [pending_ on_timeout_].
      rewrite (alter_insert _ _ _ (mkPendingDatagram (dgram head) (next_hop head)
        (Timer.tick ms (timer head)) :: l) ms Hl) by (simpl; by rewrite He).
      unfold insert, map_insert. by rewrite expired_hops_alter.
  - rewrite IH. cbn [mbind option_bind]. by rewrite alter_none.
Qed.
End queue.

(** An iteration order of the map: each key once. *)
Definition iterates (order : list Z) (m : gmap Z (list PendingDatagram)) : Prop :=
  NoDup order ∧ ∀ ip, is_Some (m !! ip) → ip ∈ order.

Lemma visited_all ms order m : iterates order m → visited ms order m = omap (age_list ms) m.
Proof.
  intros [_ Ho]. apply map_eq. intros ip. unfold visited. rewrite map_lookup_imap, lookup_omap.
  destruct (m !! ip) eqn:Hm; cbn [mbind option_bind]; [|done].
  rewrite bool_decide_true; [done|]. apply Ho. by rewrite Hm.
Qed.

(** How long the head of a queue has waited. *)
Definition head_age (l : list PendingDatagram) : Z :=
  match l with [] => 0 | head :: _ => elapsed_ms_ (timer head) end.

Definition tick_ok (ms : Z) : Prop := 0 ≤ ms < 2 ^ 63.

Lemma head_tick ms p :
  head_ok p → tick_ok ms →
  Timer.tick ms (timer p) = mkTimer NetworkTimer.ARP_REQUEST_TIMEOUT (elapsed_ms_ (timer p) + ms) true ∧
  Timer.is_expired (Timer.tick ms (timer p)) =
    bool_decide (elapsed_ms_ (timer p) + ms >= NetworkTimer.ARP_REQUEST_TIMEOUT).
Proof.
  intros (Hr&Hm&He) Hms. unfold tick_ok, NetworkTimer.ARP_REQUEST_TIMEOUT in *.
  rewrite tick_running, Hm by (done || lia). done.
Qed.

Lemma expired_hop_spec ms ip l :
  list_ok ip l → tick_ok ms →
  expired_hop ms l =
    if bool_decide (head_age l + ms >= NetworkTimer.ARP_REQUEST_TIMEOUT)
    then next_hop <$> hd_error l else None.
Proof.
  intros [Hne Hl] Hms. destruct l as [|head l]; [done|]. apply Forall_cons in Hl as [[Hh _] _].
  cbn [expired_hop head_age hd_error fmap option_fmap option_map].
  by rewrite (proj2 (head_tick ms head Hh Hms)).
Qed.

Lemma age_list_spec ms ip l :
  list_ok ip l → tick_ok ms →
  if bool_decide (head_age l + ms >= NetworkTimer.ARP_REQUEST_TIMEOUT) then age_list ms l = None
  else ∃ l', age_list ms l = Some l' ∧ list_ok ip l' ∧ dgram <$> l' = dgram <$> l ∧
    next_hop <$> l' = next_hop <$> l ∧ head_age l' = head_age l + ms.
Proof.
  intros [Hne Hl] Hms. destruct l as [|head l]; [done|]. apply Forall_cons in Hl as [[Hh Hip] Hl].
  destruct (head_tick ms head Hh Hms) as [Ht He]. cbn [age_list head_age]. rewrite He.
  case_bool_decide as Hage; [done|]. rewrite Ht. eexists. split; [done|].
  split; [|by split_and!]. split; [done|]. constructor; [|done]. split; [|done].
  destruct Hh as (_&_&?). unfold tick_ok in Hms. split_and!; simpl; done || lia.
Qed.

Lemma tick_lists_ok ms m : lists_ok m → tick_ok ms → lists_ok (omap (age_list ms) m).
Proof.
  intros Hm Hms ip l' Hl. rewrite lookup_omap in Hl. destruct (m !! ip) as [l|] eqn:He; [|done].
  simpl in Hl. pose proof (age_list_spec ms ip l (Hm _ _ He) Hms) as Ha.
  case_bool_decide; [congruence|]. destruct Ha as (l2&Ha&Hok&_). congruence.
Qed.

(** * Properties *)

(** One tick, in whatever order the map is iterated, drops exactly the
    queues whose head has now waited [ARP_REQUEST_TIMEOUT], keeps the others
    with every datagram in place and the head older by the tick, and calls the
    callback once for each dropped queue with the next hop of its head. *)
Theorem arp_queue_tick {W} ms order (q : ARPMessageQueue W) (w : W) :
  lists_ok (pending_ q) → tick_ok ms → iterates order (pending_ q) →
  let late l := bool_decide (head_age l + ms >= NetworkTimer.ARP_REQUEST_TIMEOUT) in
  let hops :=
    omap (λ ip, l ← pending_ q !! ip; if late l then next_hop <$> hd_error l else None) order in
  ∃ m, ARPMessageQueue.tick ms order q w =
      (w ← notify (on_timeout_ q) hops w; Ok (mkARPMessageQueue m (on_timeout_ q), w)) ∧
    lists_ok m ∧
    ∀ ip, match pending_ q !! ip with
          | None => m !! ip = None
          | Some l =>
              if late l then m !! ip = None
              else ∃ l', m !! ip = Some l' ∧ dgram <$> l' = dgram <$> l ∧
                next_hop <$> l' = next_hop <$> l ∧ head_age l' = head_age l + ms
          end.
Proof.
  intros Hq Hms Ho late hops. exists (omap (age_list ms) (pending_ q)). split; [|split].
  - unfold ARPMessageQueue.tick. rewrite tick_loop_spec, visited_all by (done || apply Ho).
    assert (expired_hops ms order (pending_ q) = hops) as ->; [|done].
    unfold expired_hops, hops. apply list_omap_ext, Forall_Forall2_diag, Forall_true. intros ip.
    destruct (pending_ q !! ip) as [l|] eqn:Hl; [|done].
    simpl. by apply (expired_hop_spec ms ip); [apply Hq|].
  - by apply tick_lists_ok.
  - intros ip. rewrite lookup_omap. destruct (pending_ q !! ip) as [l|] eqn:Hl; [|done]. simpl.
    pose proof (age_list_spec ms ip l (Hq _ _ Hl) Hms) as Ha. unfold late.
    case_bool_decide; [done|]. destruct Ha as (l'&?&_&?&?&?). by exists l'.
Qed.

Definition demo_pending (ip age : Z) : PendingDatagram :=
  mkPendingDatagram IPv4Datagram.new (inet ip 0) (mkTimer NetworkTimer.ARP_REQUEST_TIMEOUT age true).
Definition demo_queue : ARPMessageQueue (list Address) :=
  mkARPMessageQueue {[7 := [demo_pending 7 4000]; 9 := [demo_pending 9 100; demo_pending 9 0]]}
    (Some (λ hop w, Ok (w ++ [hop]))).

Lemma demo_queue_lookup ip l :
  pending_ demo_queue !! ip = Some l →
  (ip = 7 ∧ l = [demo_pending 7 4000]) ∨ (ip = 9 ∧ l = [demo_pending 9 100; demo_pending 9 0]).
Proof.
  unfold demo_queue. cbn [pending_]. intros Hl.
  apply lookup_insert_Some in Hl as [[<- <-]|[_ Hl]]; [by left|].
  apply lookup_singleton_Some in Hl as [<- <-]. by right.
Qed.

Lemma demo_queue_ok : lists_ok (pending_ demo_queue).
Proof.
  intros ip l [[-> ->]|[-> ->]]%demo_queue_lookup; (split; [done|]); repeat constructor; done.
Qed.

Lemma arp_queue_tick_witness :
  ARPMessageQueue.tick 1000 [9; 7] demo_queue [] =
    Ok (mkARPMessageQueue {[9 := [demo_pending 9 1100; demo_pending 9 0]]} (on_timeout_ demo_queue),
        [inet 7 0]) ∧
  ∃ m, ARPMessageQueue.tick 1000 [9; 7] demo_queue [] =
    (w ← notify (on_timeout_ demo_queue)
       (omap (λ ip, l ← pending_ demo_queue !! ip;
          if bool_decide (head_age l + 1000 >= NetworkTimer.ARP_REQUEST_TIMEOUT)
          then next_hop <$> hd_error l else None) [9; 7]) [];
     Ok (mkARPMessageQueue m (on_timeout_ demo_queue), w)).
Proof.
  split; [done|].
  destruct (arp_queue_tick 1000 [9; 7] demo_queue [] demo_queue_ok) as (m&He&_).
  - done.
  - split; [by repeat constructor; set_solver|].
    intros ip [l [[-> _]|[-> _]]%demo_queue_lookup]; set_solver.
  - by exists m.
Defined.
