(* ===== verification/NetworkInterface.v ===== *)
(** The network interface between IP and Ethernet
    (src/src/network_interface.hh, src/src/network_interface.cc).  The frames
    given to the [OutputPort] are kept in the order of transmission. *)

From S2P Require Import Prelude Timer Ref Parser Wire Ethernet IPv4 ARPMessage Address ARPTable ARPMessageQueue.

(** The frames transmitted so far: what the ARP timeout callback changes. *)
Abbreviation port := (list EthernetFrame).

Record NetworkInterface : Type := mkNetworkInterface {
  name_ : string;
  port_ : port;
  ethernet_address_ : EthernetAddress;
  ip_address_ : Address;
  arp_table_ : ARPTable;
  arp_queue_ : ARPMessageQueue port;
  datagrams_received_ : list IPv4Datagram;
  initialized_ : bool;
}.

Module NetworkInterface.
Implicit Types i : NetworkInterface.

Definition new (name : string) (ethernet_address : EthernetAddress) (ip_address : Address) : NetworkInterface :=
  mkNetworkInterface name [] ethernet_address ip_address ARPTable.new ARPMessageQueue.new [] false.

Definition with_port p i :=
  mkNetworkInterface (name_ i) p (ethernet_address_ i) (ip_address_ i) (arp_table_ i) (arp_queue_ i)
    (datagrams_received_ i) (initialized_ i).
Definition with_table t i :=
  mkNetworkInterface (name_ i) (port_ i) (ethernet_address_ i) (ip_address_ i) t (arp_queue_ i)
    (datagrams_received_ i) (initialized_ i).
Definition with_queue q i :=
  mkNetworkInterface (name_ i) (port_ i) (ethernet_address_ i) (ip_address_ i) (arp_table_ i) q
    (datagrams_received_ i) (initialized_ i).
Definition with_received d i :=
  mkNetworkInterface (name_ i) (port_ i) (ethernet_address_ i) (ip_address_ i) (arp_table_ i) (arp_queue_ i)
    d (initialized_ i).

Definition transmit (frame : EthernetFrame) i : NetworkInterface := with_port (port_ i ++ [frame]) i.

Definition make_frame (type : Z) (src dst : EthernetAddress) (payload : list (Ref bytes)) : EthernetFrame :=
  mkEthernetFrame (mkEthernetHeader dst src type) payload.

Definition send_ipv4 (dgram : IPv4Datagram) (dst : EthernetAddress) i : result NetworkInterface :=
  payload ← serialize dgram;
  Ok (transmit (make_frame EthernetHeader.TYPE_IPv4 (ethernet_address_ i) dst payload) i).

(** The request frame of [send_arp_request]. *)
Definition arp_request (ethernet_address : EthernetAddress) (ip_address next_hop : Address)
    : result EthernetFrame :=
  sender_ip ← Address.ipv4_numeric ip_address;
  target_ip ← Address.ipv4_numeric next_hop;
  let req := mkARPMessage ARPMessage.TYPE_ETHERNET EthernetHeader.TYPE_IPv4 6 4 ARPMessage.OPCODE_REQUEST
    ethernet_address sender_ip zero_address target_ip in
  payload ← serialize req;
  Ok (make_frame EthernetHeader.TYPE_ARP ethernet_address ETHERNET_BROADCAST payload).

Definition send_arp_request (next_hop : Address) i : result NetworkInterface :=
  frame ← arp_request (ethernet_address_ i) (ip_address_ i) next_hop;
  Ok (transmit frame i).

Definition send_arp_reply (request : ARPMessage) i : result NetworkInterface :=
  sender_ip ← Address.ipv4_numeric (ip_address_ i);
  let reply := mkARPMessage ARPMessage.TYPE_ETHERNET EthernetHeader.TYPE_IPv4 6 4 ARPMessage.OPCODE_REPLY
    (ethernet_address_ i) sender_ip (sender_ethernet_address request) (sender_ip_address request) in
  payload ← serialize reply;
  Ok (transmit (make_frame EthernetHeader.TYPE_ARP (ethernet_address_ i)
    (sender_ethernet_address request) payload) i).

(** The callback [initialize] registers: it resends the request through
    [weak_from_this()], which is empty unless a [shared_ptr] owns the object. *)
Definition on_timeout (owned_by_shared_ptr : bool) (ethernet_address : EthernetAddress) (ip_address : Address)
    (next_hop : Address) (p : port) : result port :=
  if owned_by_shared_ptr then
    frame ← arp_request ethernet_address ip_address next_hop;
    Ok (p ++ [frame])
  else Ok p.

Definition initialize (owned_by_shared_ptr : bool) i : NetworkInterface :=
  if initialized_ i then i
  else
    mkNetworkInterface (name_ i) (port_ i) (ethernet_address_ i) (ip_address_ i) (arp_table_ i)
      (ARPMessageQueue.set_callback
         (on_timeout owned_by_shared_ptr (ethernet_address_ i) (ip_address_ i)) (arp_queue_ i))
      (datagrams_received_ i) true.

(** The loop of [flush_pending_for]. *)
Fixpoint send_all (ds : list PendingDatagram) (dst : EthernetAddress) i : result NetworkInterface :=
  match ds with
  | [] => Ok i
  | pending :: ds => i ← send_ipv4 (dgram pending) dst i; send_all ds dst i
  end.

Definition flush_pending_for (ip : Z) i : result NetworkInterface :=
  let '(mac, t) := ARPTable.lookup ip (arp_table_ i) in
  let i := with_table t i in
  match mac with
  | None => Ok i
  | Some mac =>
      let '(ds, q) := ARPMessageQueue.pop_pending ip (arp_queue_ i) in
      send_all ds mac (with_queue q i)
  end.

Definition send_datagram (d : IPv4Datagram) (next_hop : Address) i : result NetworkInterface :=
  ip ← Address.ipv4_numeric next_hop;
  let '(mac, t) := ARPTable.lookup ip (arp_table_ i) in
  let i := with_table t i in
  match mac with
  | Some mac => send_ipv4 d mac i
  | None =>
      let already_querying := ARPMessageQueue.has_pending ip (arp_queue_ i) in
      q ← ARPMessageQueue.add_pending d next_hop (arp_queue_ i);
      let i := with_queue q i in
      if negb already_querying then send_arp_request next_hop i else Ok i
  end.

(** The ARP case of [recv_frame]. *)
Definition recv_arp (msg : ARPMessage) i : result NetworkInterface :=
  let i := with_table (ARPTable.add_entry (sender_ip_address msg) (sender_ethernet_address msg)
    (arp_table_ i)) i in
  for_us ← (if bool_decide (opcode msg = ARPMessage.OPCODE_REQUEST)
    then our_ip ← Address.ipv4_numeric (ip_address_ i); Ok (bool_decide (target_ip_address msg = our_ip))
    else Ok false);
  i ← (if (for_us : bool) then send_arp_reply msg i else Ok i);
  flush_pending_for (sender_ip_address msg) i.

Definition recv_frame (frame : EthernetFrame) i : result NetworkInterface :=
  let h := Ethernet.header frame in
  if bool_decide (Ethernet.dst h ≠ ethernet_address_ i) && bool_decide (Ethernet.dst h ≠ ETHERNET_BROADCAST)
  then Ok i
  else if bool_decide (type h = EthernetHeader.TYPE_IPv4) then
    '(d, ok) ← parse IPv4Datagram.new (Ethernet.payload frame);
    if (ok : bool) then Ok (with_received (datagrams_received_ i ++ [d]) i) else Ok i
  else if bool_decide (type h = EthernetHeader.TYPE_ARP) then
    '(msg, ok) ← parse ARPMessage.new (Ethernet.payload frame);
    if (ok : bool) then recv_arp msg i else Ok i
  else Ok i.

(** [order] is the order in which the map of waiting datagrams is iterated. *)
Definition tick (ms_since_last_tick : Z) (order : list Z) i : result NetworkInterface :=
  let i := with_table (ARPTable.tick ms_since_last_tick (arp_table_ i)) i in
  '(q, p) ← ARPMessageQueue.tick ms_since_last_tick order (arp_queue_ i) (port_ i);
  Ok (with_port p (with_queue q i)).

End NetworkInterface.
Import NetworkInterface.

(** * The frames an interface sends *)

Definition bytes_of {A} `{Wire A} (a : A) : list (Ref bytes) :=
  match serialize a with Ok bufs => bufs | Err _ => [] end.

(** The frame that carries [d] to [mac]. *)
Definition dgram_frame (src mac : EthernetAddress) (d : IPv4Datagram) : EthernetFrame :=
  make_frame EthernetHeader.TYPE_IPv4 src mac (bytes_of d).

Definition request_message (eth : EthernetAddress) (ip target : Z) : ARPMessage :=
  mkARPMessage 1 2048 6 4 1 eth ip zero_address target.
Definition reply_message (eth : EthernetAddress) (ip : Z) (request : ARPMessage) : ARPMessage :=
  mkARPMessage 1 2048 6 4 2 eth ip (sender_ethernet_address request) (sender_ip_address request).

Definition arp_frame (src dst : EthernetAddress) (m : ARPMessage) : EthernetFrame :=
  make_frame EthernetHeader.TYPE_ARP src dst [Owned (message_text m)].
Definition request_frame (eth : EthernetAddress) (ip target : Z) : EthernetFrame :=
  arp_frame eth ETHERNET_BROADCAST (request_message eth ip target).
Definition reply_frame (eth : EthernetAddress) (ip : Z) (request : ARPMessage) : EthernetFrame :=
  arp_frame eth (sender_ethernet_address request) (reply_message eth ip request).

Lemma bytes_of_dgram d :
  ver (header d) = 4 → serialize d = Ok (bytes_of d) ∧ text (bytes_of d) = datagram_text d.
Proof.
  intros Hv. destruct (datagram_serialize_ok d Serializer.new Hv ser_ok_new) as (s&Hs&_&Hsp).
  unfold bytes_of, serialize. cbn [wire_serialize IPv4Datagram_wire]. rewrite Hs, bind_Ok_l.
  split; [done|]. by rewrite finish_text, Hsp.
Qed.

Lemma serialize_arp m : ARPMessage.supported m = true → serialize m = Ok [Owned (message_text m)].
Proof. apply serialize_message. Qed.

Lemma arp_request_ok eth addr hop ip target :
  Address.ipv4_numeric addr = Ok ip → Address.ipv4_numeric hop = Ok target →
  arp_request eth addr hop = Ok (request_frame eth ip target).
Proof.
  intros Ha Hh. unfold arp_request. rewrite Ha, Hh, !bind_Ok_l.
  rewrite serialize_arp, bind_Ok_l by done. done.
Qed.

(** * The invariant *)

(** What a timeout sends for a next hop. *)
Definition callback_ok (eth : EthernetAddress) (addr : Address) (cb : option (Address → port → result port)) : Prop :=
  cb = None ∨ ∃ owned, cb = Some (on_timeout owned eth addr).

(** Whether timeouts are reported to the interface. *)
Definition resends (i : NetworkInterface) : Prop :=
  on_timeout_ (arp_queue_ i) = Some (on_timeout true (ethernet_address_ i) (ip_address_ i)).

Record iface_ok (ip : Z) (i : NetworkInterface) : Prop := mkIfaceOk {
  io_ip : Address.ipv4_numeric (ip_address_ i) = Ok ip;
  io_table : table_ok (arp_table_ i);
  io_queue : lists_ok (pending_ (arp_queue_ i));
  io_ver : map_Forall (λ _, Forall (λ p, ver (header (dgram p)) = 4)) (pending_ (arp_queue_ i));
  io_disjoint : ∀ k, is_Some (entries_ (arp_table_ i) !! k) → pending_ (arp_queue_ i) !! k = None;
  io_callback : callback_ok (ethernet_address_ i) (ip_address_ i) (on_timeout_ (arp_queue_ i));
  io_received : Forall (λ d, fields_ok (header d)) (datagrams_received_ i);
}.

(** The parts of an interface that never change. *)
Definition same_config (i i' : NetworkInterface) : Prop :=
  name_ i' = name_ i ∧ ethernet_address_ i' = ethernet_address_ i ∧ ip_address_ i' = ip_address_ i ∧
  initialized_ i' = initialized_ i ∧ on_timeout_ (arp_queue_ i') = on_timeout_ (arp_queue_ i).

Lemma new_iface_ok name eth addr ip :
  Address.ipv4_numeric addr = Ok ip → iface_ok ip (new name eth addr).
Proof.
  intros Ha. split; try done. by left.
Qed.

Lemma initialize_ok b ip i : iface_ok ip i → iface_ok ip (initialize b i).
Proof.
  intros []. unfold initialize. destruct (initialized_ i); split; try done.
  right. by exists b.
Qed.

(** * The operations on a well-formed interface *)

Section iface.
Context (ip : Z).
Implicit Types i : NetworkInterface.

Abbreviation mac_of i k := (mac <$> entries_ (arp_table_ i) !! k).
Abbreviation waiting_for i k := (default [] (pending_ (arp_queue_ i) !! k)).

Lemma lookup_iface k i : iface_ok ip i → ARPTable.lookup k (arp_table_ i) = (mac_of i k, arp_table_ i).
Proof. intros []. by apply lookup_ok. Qed.

Lemma send_ipv4_ok d m i :
  ver (header d) = 4 → send_ipv4 d m i = Ok (transmit (dgram_frame (ethernet_address_ i) m d) i).
Proof.
  intros Hv. unfold send_ipv4. destruct (bytes_of_dgram d Hv) as [-> _]. by rewrite bind_Ok_l.
Qed.

Lemma send_all_ok ds m i :
  Forall (λ p, ver (header (dgram p)) = 4) ds →
  send_all ds m i =
    Ok (with_port (port_ i ++ ((λ p, dgram_frame (ethernet_address_ i) m (dgram p)) <$> ds)) i).
Proof.
  intros Hds. revert i. induction Hds as [|p ds Hp Hds IH]; intros i; simpl.
  { rewrite app_nil_r. by destruct i. }
  rewrite send_ipv4_ok by done. simpl. rewrite IH. f_equal. unfold with_port. simpl.
  by rewrite <- app_assoc.
Qed.

Lemma waiting_ver i k : iface_ok ip i → Forall (λ p, ver (header (dgram p)) = 4) (waiting_for i k).
Proof.
  intros H. destruct (pending_ (arp_queue_ i) !! k) as [l|] eqn:Hl; [|constructor].
  by apply (io_ver _ _ H _ _ Hl).
Qed.

(** ** [send_datagram] *)

(** The interface after a datagram was sent towards [hop]. *)
Definition sent d hop target i : NetworkInterface :=
  match mac_of i target with
  | Some m => transmit (dgram_frame (ethernet_address_ i) m d) i
  | None =>
      with_port
        (port_ i ++ if bool_decide (is_Some (pending_ (arp_queue_ i) !! target)) then []
                    else [request_frame (ethernet_address_ i) ip target])
        (with_queue
          (mkARPMessageQueue (<[target := waiting_for i target ++ [waiting d hop]]> (pending_ (arp_queue_ i)))
             (on_timeout_ (arp_queue_ i))) i)
  end.

Lemma send_datagram_ok d hop target i :
  iface_ok ip i → ver (header d) = 4 → Address.ipv4_numeric hop = Ok target →
  send_datagram d hop i = Ok (sent d hop target i).
Proof.
  intros H Hv Hh. unfold send_datagram, sent. rewrite Hh, bind_Ok_l, lookup_iface by done.
  replace (with_table (arp_table_ i) i) with i by by destruct i.
  destruct (mac_of i target) as [m|]; [by apply send_ipv4_ok|].
  rewrite (add_pending_ok d hop target) by done. rewrite bind_Ok_l.
  rewrite has_pending_ok by apply H. case_bool_decide; cbn [negb].
  - rewrite app_nil_r. by destruct i.
  - unfold send_arp_request. cbn [ethernet_address_ ip_address_ with_queue].
    rewrite (arp_request_ok _ _ _ ip target) by (done || apply H). by rewrite bind_Ok_l.
Qed.

Lemma sent_ok d hop target i :
  iface_ok ip i → ver (header d) = 4 → Address.ipv4_numeric hop = Ok target →
  iface_ok ip (sent d hop target i) ∧ same_config i (sent d hop target i).
Proof.
  intros H Hv Hh. unfold sent. destruct (mac_of i target) as [m|] eqn:Hm; [by split; [destruct H|]|].
  pose proof (waiting_ver i target H) as Hw. split; [|done].
  destruct H as [? ? ? Hver Hdis ? ?]. split; try done; cbn.
  - by apply add_pending_lists_ok.
  - apply map_Forall_insert_2; [|done]. apply Forall_app. split; [done|]. by apply Forall_singleton.
  - intros k Hk. rewrite lookup_insert_ne; [by apply Hdis|]. intros <-.
    destruct (entries_ (arp_table_ i) !! target); [done|]. by destruct Hk.
Qed.

(** ** [recv_frame] *)

(** The interface after it learned from an ARP message. *)
Definition for_us (msg : ARPMessage) : bool :=
  bool_decide (opcode msg = ARPMessage.OPCODE_REQUEST) && bool_decide (target_ip_address msg = ip).

Definition learned (msg : ARPMessage) i : NetworkInterface :=
  let eth := ethernet_address_ i in
  let k := sender_ip_address msg in
  with_port
    (port_ i ++ (if for_us msg then [reply_frame eth ip msg] else []) ++
      ((λ p, dgram_frame eth (sender_ethernet_address msg) (dgram p)) <$> waiting_for i k))
    (with_queue (mkARPMessageQueue (delete k (pending_ (arp_queue_ i))) (on_timeout_ (arp_queue_ i)))
      (with_table (ARPTable.add_entry k (sender_ethernet_address msg) (arp_table_ i)) i)).

Lemma send_arp_reply_ok msg i :
  Address.ipv4_numeric (ip_address_ i) = Ok ip →
  send_arp_reply msg i = Ok (transmit (reply_frame (ethernet_address_ i) ip msg) i).
Proof.
  intros Ha. unfold send_arp_reply. rewrite Ha, bind_Ok_l.
  rewrite serialize_arp, bind_Ok_l by done. done.
Qed.

Lemma flush_pending_ok k m i :
  table_ok (arp_table_ i) → mac_of i k = Some m →
  Forall (λ p, ver (header (dgram p)) = 4) (waiting_for i k) →
  flush_pending_for k i =
    Ok (with_port (port_ i ++ ((λ p, dgram_frame (ethernet_address_ i) m (dgram p)) <$> waiting_for i k))
      (with_queue (mkARPMessageQueue (delete k (pending_ (arp_queue_ i))) (on_timeout_ (arp_queue_ i))) i)).
Proof.
  intros Ht Hm Hw. unfold flush_pending_for. rewrite lookup_ok by done. rewrite Hm.
  replace (with_table (arp_table_ i) i) with i by by destruct i.
  rewrite pop_pending_ok. by rewrite send_all_ok.
Qed.

Lemma recv_arp_ok msg i : iface_ok ip i → recv_arp msg i = Ok (learned msg i).
Proof.
  intros H. unfold recv_arp, learned, for_us. cbv zeta. set (i1 := with_table _ i).
  pose proof (waiting_ver i (sender_ip_address msg) H) as Hw. pose proof (io_ip _ _ H) as Ha.
  assert (table_ok (arp_table_ i1)) as Ht by apply add_entry_ok, H.
  assert (mac_of i1 (sender_ip_address msg) = Some (sender_ethernet_address msg)) as Hm.
  { unfold i1, ARPTable.add_entry. cbn. by rewrite lookup_insert, decide_True. }
  case_bool_decide; cbn [andb].
  - change (ip_address_ i1) with (ip_address_ i). rewrite Ha, !bind_Ok_l. case_bool_decide.
    + rewrite send_arp_reply_ok, bind_Ok_l by done. rewrite (flush_pending_ok _ (sender_ethernet_address msg)) by done.
      by cbn [port_ transmit with_port]; rewrite <- app_assoc.
    + rewrite bind_Ok_l. by rewrite (flush_pending_ok _ (sender_ethernet_address msg)).
  - rewrite !bind_Ok_l. by rewrite (flush_pending_ok _ (sender_ethernet_address msg)).
Qed.

Lemma learned_ok msg i : iface_ok ip i → iface_ok ip (learned msg i) ∧ same_config i (learned msg i).
Proof.
  intros H. split; [|done]. destruct H as [? ? ? ? Hdis ? ?]. split; try done; cbn.
  - by apply add_entry_ok.
  - by apply map_Forall_delete.
  - by apply map_Forall_delete.
  - intros k Hk. destruct (decide (k = sender_ip_address msg)) as [->|Hne].
    + by rewrite lookup_delete, decide_True.
    + rewrite lookup_delete_ne by done. apply Hdis. by rewrite lookup_insert_ne in Hk.
Qed.

(** ** [tick] *)

(** The requests a tick sends again when timeouts are reported. *)
Definition retries (ms : Z) (order : list Z) i : list EthernetFrame :=
  omap (λ k, l ← pending_ (arp_queue_ i) !! k;
    if bool_decide (head_age l + ms >= NetworkTimer.ARP_REQUEST_TIMEOUT)
    then Some (request_frame (ethernet_address_ i) ip k) else None) order.

(** The interface after a tick that sent [frames]. *)
Definition ticked (ms : Z) (frames : list EthernetFrame) i : NetworkInterface :=
  with_port (port_ i ++ frames)
    (with_queue
      (mkARPMessageQueue (omap (age_list ms) (pending_ (arp_queue_ i))) (on_timeout_ (arp_queue_ i)))
      (with_table (ARPTable.tick ms (arp_table_ i)) i)).

Lemma notify_silent (cb : option (Address → port → result port)) hops p :
  cb = None ∨ (∃ eth addr, cb = Some (on_timeout false eth addr)) → notify cb hops p = Ok p.
Proof.
  intros Hcb. induction hops as [|hop hops IH]; [done|]. cbn [notify].
  destruct Hcb as [Hcb|(eth&addr&Hcb)]; subst cb; exact IH.
Qed.

Lemma notify_resend ms order eth addr m p :
  lists_ok m → ARPMessageQueue.tick_ok ms → Address.ipv4_numeric addr = Ok ip →
  notify (Some (on_timeout true eth addr)) (expired_hops ms order m) p =
    Ok (p ++ omap (λ k, l ← m !! k;
      if bool_decide (head_age l + ms >= NetworkTimer.ARP_REQUEST_TIMEOUT)
      then Some (request_frame eth ip k) else None) order).
Proof.
  intros Hm Hms Ha. revert p. induction order as [|k order IH]; intros p.
  { cbn. by rewrite app_nil_r. }
  unfold expired_hops in *. cbn [omap list_omap]. destruct (m !! k) as [l|] eqn:Hl; [|apply IH].
  cbn [mbind option_bind]. rewrite (expired_hop_spec ms k) by (done || by apply Hm).
  case_bool_decide; [|apply IH]. destruct (Hm _ _ Hl) as [Hne Hf].
  destruct l as [|head l]; [done|]. apply Forall_cons in Hf as [[_ Hh] _].
  cbn [hd_error fmap option_fmap option_map notify].
  change (on_timeout true eth addr (next_hop head) p)
    with (frame ← arp_request eth addr (next_hop head); Ok (p ++ [frame])).
  rewrite (arp_request_ok _ _ _ ip k) by done. rewrite !bind_Ok_l. rewrite IH. by rewrite <- app_assoc.
Qed.

Lemma iface_tick_ok ms order i :
  iface_ok ip i → ARPMessageQueue.tick_ok ms → iterates order (pending_ (arp_queue_ i)) →
  ∃ frames, tick ms order i = Ok (ticked ms frames i) ∧ (frames = [] ∨ frames = retries ms order i) ∧
    (resends i → frames = retries ms order i).
Proof.
  intros H Hms Ho. unfold tick, ARPMessageQueue.tick.
  cbn [arp_queue_ port_ with_table]. rewrite tick_loop_spec, visited_all by (done || apply Ho).
  destruct (io_callback _ _ H) as [Hcb|[[] Hcb]].
  - rewrite notify_silent, !bind_Ok_l by by left. exists []. split; [|split; [by left|]].
    + unfold ticked. by rewrite app_nil_r.
    + unfold resends. by rewrite Hcb.
  - rewrite Hcb, notify_resend, !bind_Ok_l by (done || apply H). exists (retries ms order i).
    split; [|by split; [right|]]. unfold ticked. by rewrite Hcb.
  - rewrite notify_silent, !bind_Ok_l by (right; eauto). exists []. split; [|split; [by left|]].
    + unfold ticked. by rewrite app_nil_r.
    + unfold resends. rewrite Hcb. intros Heq.
      assert (on_timeout false (ethernet_address_ i) (ip_address_ i) (inet 0 0) []
        = on_timeout true (ethernet_address_ i) (ip_address_ i) (inet 0 0) []) as Hc by congruence.
      unfold on_timeout in Hc. by rewrite (arp_request_ok _ _ _ ip 0) in Hc by (done || apply H).
Qed.

Lemma ticked_ok ms frames i :
  iface_ok ip i → ARPMessageQueue.tick_ok ms →
  iface_ok ip (ticked ms frames i) ∧ same_config i (ticked ms frames i).
Proof.
  intros H Hms. split; [|done]. destruct H as [? ? Hl Hv Hdis ? ?]. split; try done; cbn.
  - by apply tick_table_ok.
  - by apply tick_lists_ok.
  - intros k l Hk. rewrite lookup_omap in Hk. destruct (pending_ (arp_queue_ i) !! k) as [l0|] eqn:H0; [|done].
    simpl in Hk. pose proof (age_list_spec ms k l0 (Hl _ _ H0) Hms) as Ha.
    case_bool_decide; [congruence|]. destruct Ha as (l'&Ha&_&Hd&_). simplify_eq.
    assert (Forall (λ d, ver (header d) = 4) (dgram <$> l)) as Hx
      by (rewrite Hd; apply Forall_fmap; apply (Hv _ _ H0)).
    apply Forall_fmap in Hx. exact Hx.
  - intros k Hk. rewrite lookup_omap in Hk. rewrite lookup_omap, Hdis; [done|].
    destruct (entries_ (arp_table_ i) !! k); [done|]. by destruct Hk.
Qed.
End iface.

(** * On the link *)

(** [f'] is [f] after a trip over the wire: the same header and payload bytes,
    in owned buffers cut anyhow. *)
Definition wired (f f' : EthernetFrame) : Prop :=
  f' ≡ f ∧ owned (Ethernet.payload f') ∧ packed (Ethernet.payload f').

Lemma wired_arp src dst m f' :
  ARPMessage.message_ok m → wired (arp_frame src dst m) f' →
  Ethernet.header f' = mkEthernetHeader dst src EthernetHeader.TYPE_ARP ∧
  parse ARPMessage.new (Ethernet.payload f') = Ok (m, true).
Proof.
  intros Hm ([Hh Ht]&Hw&Hn). split; [done|].
  assert (text (Ethernet.payload f') = message_text m) as Ht' by (rewrite Ht; apply app_nil_r).
  apply (parse_serialize_ok m); try done. change (wire_text m) with (message_text m).
  rewrite zlen_message_text by done. done.
Qed.

Lemma wired_dgram src dst d f' :
  datagram_ok d → wired (dgram_frame src dst d) f' →
  Ethernet.header f' = mkEthernetHeader dst src EthernetHeader.TYPE_IPv4 ∧
  ∃ d', parse IPv4Datagram.new (Ethernet.payload f') = Ok (d', true) ∧ d' ≡ d.
Proof.
  intros Hd ([Hh Ht]&Hw&Hn). split; [done|].
  destruct (bytes_of_dgram d) as [_ Htext]; [apply Hd|].
  destruct (parse_datagram_ok IPv4Datagram.new d (Ethernet.payload f') Hd) as (out&Hp&Hout&_&_);
    [by rewrite Ht|done|done|].
  exists (mkIPv4Datagram (header d) out). split; [done|by split].
Qed.

Lemma addressed (dst eth : EthernetAddress) :
  dst = eth ∨ dst = ETHERNET_BROADCAST →
  bool_decide (dst ≠ eth) && bool_decide (dst ≠ ETHERNET_BROADCAST) = false.
Proof. intros Hd. apply andb_false_iff. destruct Hd; [left|right]; apply bool_decide_false; auto. Qed.

(** Frames of [recv_frame] by case. *)
Lemma recv_frame_arp f i src dst msg :
  Ethernet.header f = mkEthernetHeader dst src EthernetHeader.TYPE_ARP →
  dst = ethernet_address_ i ∨ dst = ETHERNET_BROADCAST →
  parse ARPMessage.new (Ethernet.payload f) = Ok (msg, true) → recv_frame f i = recv_arp msg i.
Proof.
  intros Hh Hd Hp. unfold recv_frame. rewrite Hh. cbn [Ethernet.dst type].
  rewrite addressed by done.
  rewrite bool_decide_false by done. rewrite bool_decide_true by done. by rewrite Hp.
Qed.

Lemma recv_frame_ipv4 f i src dst d ok :
  Ethernet.header f = mkEthernetHeader dst src EthernetHeader.TYPE_IPv4 →
  dst = ethernet_address_ i ∨ dst = ETHERNET_BROADCAST →
  parse IPv4Datagram.new (Ethernet.payload f) = Ok (d, ok) →
  recv_frame f i = Ok (if ok then with_received (datagrams_received_ i ++ [d]) i else i).
Proof.
  intros Hh Hd Hp. unfold recv_frame. rewrite Hh. cbn [Ethernet.dst type].
  rewrite addressed by done.
  rewrite bool_decide_true by done. rewrite Hp. by destruct ok.
Qed.

Lemma with_received_ok ip ds i :
  iface_ok ip i → Forall (λ d, fields_ok (header d)) ds → iface_ok ip (with_received ds i).
Proof. by intros [] ?. Qed.

Lemma received_iface_ok ip d i :
  iface_ok ip i → fields_ok (header d) → iface_ok ip (with_received (datagrams_received_ i ++ [d]) i).
Proof.
  intros H Hd. apply with_received_ok; [done|]. apply Forall_app. split; [apply H|by constructor].
Qed.

(** What [recv_frame] does with any frame whose payload does not make parsing
    throw: nothing, a datagram received, or an ARP message learned. *)
Definition digestible (f : EthernetFrame) : Prop :=
  (type (Ethernet.header f) = EthernetHeader.TYPE_IPv4 →
    ∃ r, parse IPv4Datagram.new (Ethernet.payload f) = Ok r) ∧
  owned (Ethernet.payload f) ∧ packed (Ethernet.payload f) ∧ zlen (text (Ethernet.payload f)) < 2 ^ 64.

Lemma recv_frame_cases ip f i :
  iface_ok ip i → digestible f →
  recv_frame f i = Ok i ∨
  (∃ d, fields_ok (header d) ∧ recv_frame f i = Ok (with_received (datagrams_received_ i ++ [d]) i)) ∨
  (∃ msg, recv_frame f i = Ok (learned ip msg i)).
Proof.
  intros H (H4&Hw&Hn&Hb). unfold recv_frame. destruct (_ && _); [by left|].
  case_bool_decide as Ht.
  { destruct (H4 Ht) as ([d ok]&Hp). rewrite Hp, bind_Ok_l. destruct ok; [right; left|by left].
    exists d. split; [|done]. by apply (datagram_sound IPv4Datagram.new (Ethernet.payload f)). }
  case_bool_decide; [|by left].
  destruct (run_safe (ARPMessage.parse ARPMessage.new) (Ethernet.payload f)) as (msg&ok&He);
    [apply message_safe|done..|].
  unfold parse. cbn [wire_parse ARPMessage_wire]. rewrite He, bind_Ok_l.
  destruct ok; [|by left]. right; right. exists msg. by apply recv_arp_ok.
Qed.

(** Any frame as it comes off a link: owned buffers, filled from the front. *)
Definition intact (f : EthernetFrame) : Prop :=
  owned (Ethernet.payload f) ∧ packed (Ethernet.payload f) ∧ zlen (text (Ethernet.payload f)) < 2 ^ 64.

Lemma intact_cases f i :
  intact f → digestible f ∨ recv_frame f i = Ok i ∨
  type (Ethernet.header f) = EthernetHeader.TYPE_IPv4 ∧
    parse IPv4Datagram.new (Ethernet.payload f) = Err (Throw "out_of_range") ∧
    recv_frame f i = Err (Throw "out_of_range").
Proof.
  intros (Hw&Hn&Hb). destruct (decide (type (Ethernet.header f) = EthernetHeader.TYPE_IPv4)) as [Ht|Ht]; [|by left].
  destruct (datagram_parse_throws IPv4Datagram.new _ Hw Hn Hb) as [Hp|Hp]; [by left|right].
  unfold recv_frame. destruct (_ && _); [by left|right]. rewrite bool_decide_true, Hp by done. done.
Qed.

(** The interface after a frame came in.  When [recv_frame] throws, that is
    parsing, before anything has changed. *)
Definition after_frame (f : EthernetFrame) (i : NetworkInterface) : NetworkInterface :=
  match recv_frame f i with Ok i' => i' | Err _ => i end.

(** * No datagram is lost *)

(** The datagrams on their way, as bytes: in frames, in queues. *)
Definition carried (frames : list EthernetFrame) : list bytes :=
  omap (λ f, if bool_decide (type (Ethernet.header f) = EthernetHeader.TYPE_IPv4)
             then Some (text (Ethernet.payload f)) else None) frames.
Definition texts (l : list PendingDatagram) : list bytes := (λ p, datagram_text (dgram p)) <$> l.
Definition held (m : gmap Z (list PendingDatagram)) : list bytes := map_to_list m ≫= (λ kl, texts kl.2).

(** The queues that a tick drops. *)
Definition timed_out (ms : Z) (m : gmap Z (list PendingDatagram)) : gmap Z (list PendingDatagram) :=
  filter (λ kl, head_age kl.2 + ms >= NetworkTimer.ARP_REQUEST_TIMEOUT) m.

Lemma held_insert k l m : m !! k = None → held (<[k := l]> m) ≡ₚ texts l ++ held m.
Proof. intros Hk. unfold held. by rewrite map_to_list_insert. Qed.

Lemma held_delete k m : held m ≡ₚ texts (default [] (m !! k)) ++ held (delete k m).
Proof.
  destruct (m !! k) as [l|] eqn:Hl; [|by rewrite delete_id].
  rewrite <- held_insert by (by rewrite lookup_delete, decide_True). by rewrite insert_delete_id.
Qed.

Lemma held_append k l m : held (<[k := default [] (m !! k) ++ l]> m) ≡ₚ held m ++ texts l.
Proof.
  rewrite <- insert_delete_eq, held_insert by (by rewrite lookup_delete, decide_True).
  rewrite (held_delete k m). unfold texts. rewrite fmap_app. solve_Permutation.
Qed.

Lemma held_tick ms m :
  lists_ok m → ARPMessageQueue.tick_ok ms → held m ≡ₚ held (omap (age_list ms) m) ++ held (timed_out ms m).
Proof.
  intros Hm Hms. induction m as [|k l m Hk IH] using map_ind; [done|].
  assert (list_ok k l) as Hl by (apply (Hm k); by rewrite lookup_insert, decide_True).
  assert (lists_ok m) as Hm'.
  { intros j l' Hj. apply Hm. rewrite lookup_insert_ne; [done|congruence]. }
  specialize (IH Hm'). rewrite held_insert by done. unfold timed_out in *. rewrite IH.
  pose proof (age_list_spec ms k l Hl Hms) as Ha. case_bool_decide as Hlate.
  - rewrite (map_filter_insert_True _ m k l Hlate). rewrite held_insert.
    2: { by apply map_lookup_filter_None; left. }
    rewrite omap_insert_None by done. rewrite delete_id by by rewrite lookup_omap, Hk.
    solve_Permutation.
  - rewrite map_filter_insert_False by done. rewrite (delete_id m k Hk).
    destruct Ha as (l'&Hl'&_&Hd&_). rewrite (omap_insert_Some _ _ _ _ _ Hl'), held_insert.
    2: { by rewrite lookup_omap, Hk. }
    assert (texts l' = texts l) as ->; [|solve_Permutation].
    unfold texts. rewrite !(list_fmap_compose dgram datagram_text), Hd. done.
Qed.

(** The executions of an interface: what was submitted, what timed out waiting
    for ARP, and the interface now. *)
Inductive runs (ip : Z) (i0 : NetworkInterface) : list IPv4Datagram → list bytes → NetworkInterface → Prop :=
  | runs_start : runs ip i0 [] [] i0
  | runs_send submitted lost i d hop target i' :
      runs ip i0 submitted lost i →
      ver (header d) = 4 → Address.ipv4_numeric hop = Ok target →
      send_datagram d hop i = Ok i' → runs ip i0 (submitted ++ [d]) lost i'
  | runs_receive submitted lost i f :
      runs ip i0 submitted lost i → intact f →
      runs ip i0 submitted lost (after_frame f i)
  | runs_tick submitted lost i ms order i' :
      runs ip i0 submitted lost i →
      ARPMessageQueue.tick_ok ms → iterates order (pending_ (arp_queue_ i)) →
      tick ms order i = Ok i' →
      runs ip i0 submitted (lost ++ held (timed_out ms (pending_ (arp_queue_ i)))) i'.

Lemma carried_app l k : carried (l ++ k) = carried l ++ carried k.
Proof. unfold carried. by rewrite omap_app. Qed.

Lemma carried_dgram src m d : ver (header d) = 4 → carried [dgram_frame src m d] = [datagram_text d].
Proof.
  intros Hv. unfold carried. cbn [omap list_omap]. rewrite bool_decide_true by done. cbn.
  f_equal. apply bytes_of_dgram, Hv.
Qed.

Lemma carried_dgrams src m l :
  Forall (λ p, ver (header (dgram p)) = 4) l → carried ((λ p, dgram_frame src m (dgram p)) <$> l) = texts l.
Proof.
  induction 1 as [|p l Hp _ IH]; [done|]. rewrite fmap_cons.
  change (?x :: ?k) with ([x] ++ k). rewrite carried_app, IH, carried_dgram by done. done.
Qed.

Lemma carried_retries ip ms order i : carried (retries ip ms order i) = [].
Proof.
  unfold retries. induction order as [|k order IH]; [done|]. cbn [omap list_omap].
  destruct (pending_ (arp_queue_ i) !! k); [|done]. cbn [mbind option_bind]. case_bool_decide; [|done].
  change (?x :: ?k) with ([x] ++ k). by rewrite carried_app, IH.
Qed.

(** Where the datagrams of an interface are. *)
Definition anywhere (lost : list bytes) (i : NetworkInterface) : list bytes :=
  carried (port_ i) ++ held (pending_ (arp_queue_ i)) ++ lost.

Lemma texts_waiting d hop : texts [waiting d hop] = [datagram_text d].
Proof. unfold texts. simpl. f_equal. apply datagram_text_proper, datagram_clone_equiv. Qed.

Lemma anywhere_sent ip lost d hop target i :
  iface_ok ip i → ver (header d) = 4 →
  anywhere lost (sent ip d hop target i) ≡ₚ anywhere lost i ++ [datagram_text d].
Proof.
  intros H Hv. unfold anywhere, sent. destruct (mac <$> _) as [m|];
    cbn [port_ transmit with_port with_queue arp_queue_ pending_].
  - rewrite carried_app, carried_dgram by done. solve_Permutation.
  - rewrite carried_app, held_append, texts_waiting.
    assert (carried (if bool_decide (is_Some (pending_ (arp_queue_ i) !! target)) then []
      else [request_frame (ethernet_address_ i) ip target]) = []) as -> by by case_bool_decide.
    rewrite app_nil_r. solve_Permutation.
Qed.

Lemma anywhere_learned ip lost msg i :
  iface_ok ip i → anywhere lost (learned ip msg i) ≡ₚ anywhere lost i.
Proof.
  intros H. unfold anywhere, learned. cbn. rewrite !carried_app.
  assert (carried (if for_us ip msg then [reply_frame (ethernet_address_ i) ip msg] else []) = []) as ->
    by by destruct (for_us ip msg).
  rewrite carried_dgrams by by eapply waiting_ver.
  rewrite (held_delete (sender_ip_address msg) (pending_ (arp_queue_ i))). solve_Permutation.
Qed.

Lemma anywhere_ticked ip lost ms frames i :
  iface_ok ip i → ARPMessageQueue.tick_ok ms → carried frames = [] →
  anywhere (lost ++ held (timed_out ms (pending_ (arp_queue_ i)))) (ticked ms frames i) ≡ₚ anywhere lost i.
Proof.
  intros H Hms Hf. unfold anywhere, ticked. cbn. rewrite carried_app, Hf.
  rewrite (held_tick ms (pending_ (arp_queue_ i))) by (done || apply H). solve_Permutation.
Qed.

Lemma runs_ok ip i0 submitted lost i :
  iface_ok ip i0 → anywhere [] i0 = [] → runs ip i0 submitted lost i →
  iface_ok ip i ∧ anywhere lost i ≡ₚ datagram_text <$> submitted.
Proof.
  intros H0 Hz. induction 1 as [|submitted lost i d hop target i' _ [H P] Hv Hh He
    |submitted lost i f _ [H P] Hf|submitted lost i ms order i' _ [H P] Hms Ho He].
  - split; [done|]. by rewrite Hz.
  - rewrite (send_datagram_ok ip d hop target) in He by done. injection He as <-.
    split; [by apply sent_ok|]. rewrite anywhere_sent, P, fmap_app by done. done.
  - unfold after_frame. destruct (intact_cases f i Hf) as [Hd|[E|(_&_&E)]]; [|by rewrite E..].
    destruct (recv_frame_cases ip f i H Hd) as [E|[(d&Hfd&E)|(msg&E)]]; rewrite E.
    + done.
    + split; [by apply received_iface_ok|exact P].
    + split; [by apply learned_ok|]. by rewrite anywhere_learned.
  - destruct (iface_tick_ok ip ms order i H Hms Ho) as (frames&E&Hf&_). rewrite E in He. injection He as <-.
    split; [by apply ticked_ok|]. rewrite anywhere_ticked; [done..|].
    destruct Hf as [->| ->]; [done|apply carried_retries].
Qed.

(** * Properties *)

(** Sending a datagram never fails: when the ARP cache knows the next
    hop's Ethernet address, one frame with the datagram goes to it; else the
    datagram joins the end of that next hop's queue, no other queue changes,
    and an ARP request is broadcast exactly if the queue was empty. *)
Theorem interface_send ip (i : NetworkInterface) d hop target :
  iface_ok ip i → ver (header d) = 4 → Address.ipv4_numeric hop = Ok target →
  ∃ i', send_datagram d hop i = Ok i' ∧ iface_ok ip i' ∧ same_config i i' ∧
    datagrams_received_ i' = datagrams_received_ i ∧
    let queue := default [] (pending_ (arp_queue_ i) !! target) in
    match (ARPTable.lookup target (arp_table_ i)).1 with
    | Some m =>
        port_ i' = port_ i ++ [dgram_frame (ethernet_address_ i) m d] ∧
        pending_ (arp_queue_ i') = pending_ (arp_queue_ i)
    | None =>
        port_ i' = port_ i ++
          (if bool_decide (queue = []) then [request_frame (ethernet_address_ i) ip target] else []) ∧
        pending_ (arp_queue_ i') !! target = Some (queue ++ [waiting d hop]) ∧
        ∀ k, k ≠ target → pending_ (arp_queue_ i') !! k = pending_ (arp_queue_ i) !! k
    end.
Proof.
  intros H Hv Hh. exists (sent ip d hop target i). split; [by apply send_datagram_ok|].
  destruct (sent_ok ip d hop target i H Hv Hh) as [Hok Hs]. split; [done|]. split; [done|].
  rewrite lookup_iface with (ip := ip) by done. cbn [fst]. unfold sent.
  destruct (mac <$> _) as [m|]; [done|].
  cbn [port_ with_port with_queue arp_queue_ pending_ datagrams_received_]. split; [done|]. split; [|split].
  - destruct (pending_ (arp_queue_ i) !! target) as [l|] eqn:Hl; [|done].
    destruct (io_queue _ _ H _ _ Hl) as [Hne _]. cbn [default from_option]. 
    by rewrite bool_decide_true, bool_decide_false by done.
  - by rewrite lookup_insert, decide_True.
  - intros k Hk. by rewrite lookup_insert_ne.
Qed.

Definition demo_addr (last : Z) : Address := inet (167772160 + last) 0.
Definition demo_mac (last : Z) : EthernetAddress := [2; 0; 0; 0; 0; last].
Definition demo_iface (last : Z) : NetworkInterface :=
  initialize true (new "eth0" (demo_mac last) (demo_addr last)).

Lemma demo_iface_ok last : 0 ≤ last < 256 → iface_ok (167772160 + last) (demo_iface last).
Proof.
  intros Hl. apply initialize_ok, new_iface_ok, inet_numeric. unfold is_u32. lia.
Qed.

Lemma interface_send_witness :
  ∃ i', send_datagram demo_datagram (demo_addr 2) (demo_iface 1) = Ok i' ∧ iface_ok 167772161 i' ∧
    port_ i' = [request_frame (demo_mac 1) 167772161 167772162].
Proof.
  destruct (interface_send 167772161 (demo_iface 1) demo_datagram (demo_addr 2) 167772162)
    as (i'&He&Hok&_&_&Hp&_); [by apply (demo_iface_ok 1)|done|by apply inet_numeric|].
  by exists i'.
Defined.

(** C25: receiving a frame with an ARP message for this interface (or
    broadcast): the sender's mapping is cached; a request for the interface's
    own address is answered with its Ethernet address; every datagram that
    waited for the sender is sent to it, in the order it was submitted, and
    waits no more; nothing else changes.  A frame addressed elsewhere changes
    nothing at all, and a datagram is handed up exactly when it parses. *)
Theorem interface_receive ip (i : NetworkInterface) f :
  iface_ok ip i → digestible f →
  let h := Ethernet.header f in
  let mine := Ethernet.dst h = ethernet_address_ i ∨ Ethernet.dst h = ETHERNET_BROADCAST in
  ∃ i', recv_frame f i = Ok i' ∧ iface_ok ip i' ∧ same_config i i' ∧
    (¬ mine → i' = i) ∧
    (mine → type h = EthernetHeader.TYPE_IPv4 →
      ∀ d ok, parse IPv4Datagram.new (Ethernet.payload f) = Ok (d, ok) →
        i' = if ok then with_received (datagrams_received_ i ++ [d]) i else i) ∧
    (mine → type h = EthernetHeader.TYPE_ARP →
      ∀ msg, parse ARPMessage.new (Ethernet.payload f) = Ok (msg, true) →
        let k := sender_ip_address msg in
        let m := sender_ethernet_address msg in
        (ARPTable.lookup k (arp_table_ i')).1 = Some m ∧
        (∀ k', k' ≠ k → entries_ (arp_table_ i') !! k' = entries_ (arp_table_ i) !! k') ∧
        port_ i' = port_ i ++
          (if bool_decide (opcode msg = ARPMessage.OPCODE_REQUEST ∧ target_ip_address msg = ip)
           then [reply_frame (ethernet_address_ i) ip msg] else []) ++
          ((λ p, dgram_frame (ethernet_address_ i) m (dgram p)) <$>
            default [] (pending_ (arp_queue_ i) !! k)) ∧
        pending_ (arp_queue_ i') = delete k (pending_ (arp_queue_ i)) ∧
        datagrams_received_ i' = datagrams_received_ i).
Proof.
  intros H Hf h mine.
  assert (∃ i', recv_frame f i = Ok i' ∧ iface_ok ip i' ∧ same_config i i') as (i'&He&Hok&Hs).
  { destruct (recv_frame_cases ip f i H Hf) as [E|[(d&Hfd&E)|(msg&E)]]; rewrite E; eexists;
      (split; [done|]); [done|by split; [apply received_iface_ok|]|by apply learned_ok]. }
  exists i'. split; [done|]. split; [done|]. split; [done|].
  assert (h = mkEthernetHeader (Ethernet.dst h) (Ethernet.src h) (type h)) as Hh by by destruct h.
  split; [|split].
  - intros Hm. unfold recv_frame in He. fold h in He. unfold mine in Hm.
    rewrite !bool_decide_true in He by tauto. by injection He.
  - intros Hm Ht d ok Hp. rewrite Ht in Hh.
    rewrite (recv_frame_ipv4 f i (Ethernet.src h) (Ethernet.dst h) d ok Hh Hm Hp) in He. by injection He.
  - intros Hm Ht msg Hp k m. rewrite Ht in Hh.
    rewrite (recv_frame_arp f i (Ethernet.src h) (Ethernet.dst h) msg Hh Hm Hp) in He.
    rewrite (recv_arp_ok ip) in He by done. injection He as <-.
    rewrite lookup_iface with (ip := ip) by (by apply learned_ok). unfold learned. cbn.
    split; [by rewrite lookup_insert, decide_True|].
    split; [intros k' Hk; by rewrite lookup_insert_ne|]. split; [|done].
    unfold for_us. rewrite <- bool_decide_and. done.
Qed.

Definition demo_arp_frame : EthernetFrame :=
  mkEthernetFrame (mkEthernetHeader ETHERNET_BROADCAST (demo_mac 2) EthernetHeader.TYPE_ARP)
    [Owned (message_text (request_message (demo_mac 2) 167772162 167772161))].

Lemma interface_receive_witness :
  ∃ i', recv_frame demo_arp_frame (demo_iface 1) = Ok i' ∧ iface_ok 167772161 i' ∧
    port_ i' = [reply_frame (demo_mac 1) 167772161 (request_message (demo_mac 2) 167772162 167772161)].
Proof.
  destruct (interface_receive 167772161 (demo_iface 1) demo_arp_frame) as (i'&He&Hok&_&_&_&Ha).
  - by apply (demo_iface_ok 1).
  - split; [done|]. split; [by repeat constructor|]. split; [by repeat constructor|done].
  - exists i'. split; [done|]. split; [done|].
    destruct (Ha (or_intror eq_refl) eq_refl (request_message (demo_mac 2) 167772162 167772161))
      as (_&_&Hp&_); [by vm_compute|]. rewrite Hp. by vm_compute.
Defined.

(** C20: no datagram is lost, duplicated or made up: in every execution, on
    datagrams of version 4 and whatever frames come in, the datagrams submitted
    are, as a multiset, those in the frames sent, those waiting in the queues and
    those dropped with a queue whose ARP request timed out.  The next sending or
    tick does not fail; receiving a frame fails only when the payload is an IPv4
    datagram whose parsing throws, as one with padding can, which leaves the
    interface as it was. *)
Theorem interface_conserves ip name eth addr shared submitted lost i :
  Address.ipv4_numeric addr = Ok ip →
  runs ip (initialize shared (new name eth addr)) submitted lost i →
  iface_ok ip i ∧
  carried (port_ i) ++ held (pending_ (arp_queue_ i)) ++ lost ≡ₚ datagram_text <$> submitted ∧
  (∀ d hop target, ver (header d) = 4 → Address.ipv4_numeric hop = Ok target →
    ∃ i', send_datagram d hop i = Ok i') ∧
  (∀ f, digestible f → ∃ i', recv_frame f i = Ok i') ∧
  (∀ f, intact f → (∃ i', recv_frame f i = Ok i') ∨
    type (Ethernet.header f) = EthernetHeader.TYPE_IPv4 ∧
    parse IPv4Datagram.new (Ethernet.payload f) = Err (Throw "out_of_range") ∧
    recv_frame f i = Err (Throw "out_of_range")) ∧
  (∀ ms order, ARPMessageQueue.tick_ok ms → iterates order (pending_ (arp_queue_ i)) →
    ∃ i', tick ms order i = Ok i').
Proof.
  intros Ha Hr.
  destruct (runs_ok ip _ submitted lost i (initialize_ok shared ip _ (new_iface_ok name eth addr ip Ha)))
    as [H P]; [by destruct shared|done|].
  assert (∀ f, digestible f → ∃ i', recv_frame f i = Ok i') as Hrecv.
  { intros f Hf. destruct (recv_frame_cases ip f i H Hf) as [E|[(d&Hfd&E)|(msg&E)]]; eauto. }
  split; [done|]. split; [exact P|]. split; [|split; [done|split]].
  - intros d hop target Hv Hh. eexists. by apply (send_datagram_ok ip).
  - intros f Hf. destruct (intact_cases f i Hf) as [Hd|[E|E]]; [left; auto|left; eauto|by right].
  - intros ms order Hms Ho. destruct (iface_tick_ok ip ms order i H Hms Ho) as (frames&E&_). eauto.
Qed.

Definition demo_valid_datagram : IPv4Datagram :=
  mkIPv4Datagram (IPv4Header.with_cksum (header_checksum (header demo_datagram)) (header demo_datagram))
    (payload demo_datagram).

(** A datagram with a byte of padding in one buffer. *)
Definition padded_frame : EthernetFrame :=
  mkEthernetFrame (mkEthernetHeader (demo_mac 1) (demo_mac 2) EthernetHeader.TYPE_IPv4)
    [Owned (datagram_text demo_valid_datagram ++ [Byte.x00])].

Lemma padded_frame_intact : intact padded_frame.
Proof. split; [by repeat constructor|]. split; [split; [right|done]|]; by vm_compute. Qed.

Example padded_frame_throws :
  match send_datagram demo_datagram (demo_addr 2) (demo_iface 1) with
  | Ok i => recv_frame padded_frame i = Err (Throw "out_of_range")
  | Err _ => False
  end.
Proof. by vm_compute. Qed.

Lemma interface_conserves_witness :
  ∃ i, send_datagram demo_datagram (demo_addr 2) (demo_iface 1) = Ok i ∧
    recv_frame padded_frame i = Err (Throw "out_of_range") ∧ iface_ok 167772161 i ∧
    carried (port_ i) ++ held (pending_ (arp_queue_ i)) ++ [] ≡ₚ [datagram_text demo_datagram].
Proof.
  pose proof padded_frame_throws as Hf.
  destruct (send_datagram demo_datagram (demo_addr 2) (demo_iface 1)) as [i|e] eqn:Hi; [|done].
  assert (after_frame padded_frame i = i) as Ha by (unfold after_frame; by rewrite Hf).
  destruct (interface_conserves 167772161 "eth0" (demo_mac 1) (demo_addr 1) true [demo_datagram] []
    (after_frame padded_frame i)) as (Hok&P&_).
  - by apply inet_numeric.
  - apply runs_receive; [|exact padded_frame_intact].
    apply (runs_send _ _ [] [] (demo_iface 1) demo_datagram (demo_addr 2) 167772162 i).
    + apply runs_start.
    + done.
    + by apply inet_numeric.
    + exact Hi.
  - rewrite Ha in Hok, P. by exists i.
Defined.

(** C21: ARP resolution delivers: on a link where frames arrive intact (in
    buffers cut anyhow), a datagram for a neighbour whose Ethernet address is
    unknown makes the sender broadcast a request, the neighbour answers it, the
    answer releases the datagram, and the neighbour hands it up: one equivalent
    datagram. *)
Theorem arp_resolution_delivers ipA ipB (A B : NetworkInterface) d hop :
  iface_ok ipA A → iface_ok ipB B → is_u32 ipA → is_u32 ipB →
  address_ok (ethernet_address_ A) → address_ok (ethernet_address_ B) →
  (ARPTable.lookup ipB (arp_table_ A)).1 = None → pending_ (arp_queue_ A) !! ipB = None →
  Address.ipv4_numeric hop = Ok ipB → datagram_ok d →
  ∃ A1 request, send_datagram d hop A = Ok A1 ∧ port_ A1 = port_ A ++ [request] ∧
  ∀ request', wired request request' → ∃ B1 reply flushed, recv_frame request' B = Ok B1 ∧
    port_ B1 = port_ B ++ reply :: flushed ∧
  ∀ reply', wired reply reply' → ∃ A2 data, recv_frame reply' A1 = Ok A2 ∧
    port_ A2 = port_ A1 ++ [data] ∧
  ∀ data', wired data data' → ∃ B2 d', recv_frame data' B1 = Ok B2 ∧
    datagrams_received_ B2 = datagrams_received_ B ++ [d'] ∧ d' ≡ d.
Proof.
  intros HA HB HipA HipB HmA HmB Hun Hq Hh Hd. rewrite (lookup_iface ipA) in Hun by done.
  assert (ver (header d) = 4) as Hv by apply Hd. simpl in Hun.
  set (A1 := sent ipA d hop ipB A). destruct (sent_ok ipA d hop ipB A HA Hv Hh) as [HA1 _].
  fold A1 in HA1. set (req := request_message (ethernet_address_ A) ipA ipB).
  assert (ARPMessage.message_ok req) as Hreq by (split; try done; split; [done|by repeat constructor]).
  assert (port_ A1 = port_ A ++ [request_frame (ethernet_address_ A) ipA ipB] ∧
    pending_ (arp_queue_ A1) = <[ipB := [waiting d hop]]> (pending_ (arp_queue_ A)) ∧
    ethernet_address_ A1 = ethernet_address_ A) as (HpA&HqA&HeA).
  { unfold A1, sent. rewrite Hun, Hq. done. }
  exists A1, (request_frame (ethernet_address_ A) ipA ipB).
  split; [by apply send_datagram_ok|]. split; [done|]. intros request' Hw.
  destruct (wired_arp _ _ req request' Hreq Hw) as [Hhd Hp].
  exists (learned ipB req B). set (rep := reply_message (ethernet_address_ B) ipB req).
  assert (ARPMessage.message_ok rep) as Hrep by by split.
  exists (reply_frame (ethernet_address_ B) ipB req). eexists.
  split; [rewrite (recv_frame_arp _ _ _ _ _ Hhd ltac:(by right) Hp); by apply recv_arp_ok|].
  split. { unfold learned, for_us. cbn. by rewrite !bool_decide_true. }
  intros reply' Hw'. destruct (wired_arp _ _ rep reply' Hrep Hw') as [Hhd' Hp'].
  exists (learned ipA rep A1), (dgram_frame (ethernet_address_ A) (ethernet_address_ B) (IPv4Datagram.clone d)).
  split; [rewrite (recv_frame_arp _ _ _ _ _ Hhd' ltac:(by left) Hp'); by apply recv_arp_ok|].
  split. { unfold learned. cbn. by rewrite HeA, HqA, lookup_insert, decide_True by done. }
  intros data' Hw2. assert (datagram_ok (IPv4Datagram.clone d)) as Hcl by by rewrite (datagram_clone_equiv d).
  destruct (wired_dgram _ _ _ data' Hcl Hw2) as [Hhd2 (d'&Hp2&Hd')].
  eexists _, d'. split; [by rewrite (recv_frame_ipv4 _ (learned ipB req B) _ _ _ _ Hhd2 ltac:(by left) Hp2)|].
  split; [done|]. by rewrite Hd', (datagram_clone_equiv d).
Qed.

Lemma demo_valid_datagram_ok : datagram_ok demo_valid_datagram.
Proof.
  split; [split; [|done]|done]. apply with_cksum_fields; [apply header_checksum_range|apply demo_datagram_fields].
Qed.

Lemma arp_resolution_delivers_witness :
  ∃ A1 request, send_datagram demo_valid_datagram (demo_addr 2) (demo_iface 1) = Ok A1 ∧
    port_ A1 = [request] ∧
  ∀ request', wired request request' → ∃ B1 reply flushed, recv_frame request' (demo_iface 2) = Ok B1 ∧
    port_ B1 = reply :: flushed ∧
  ∀ reply', wired reply reply' → ∃ A2 data, recv_frame reply' A1 = Ok A2 ∧
    port_ A2 = port_ A1 ++ [data] ∧
  ∀ data', wired data data' → ∃ B2 d', recv_frame data' B1 = Ok B2 ∧
    datagrams_received_ B2 = [d'] ∧ d' ≡ demo_valid_datagram.
Proof.
  apply (arp_resolution_delivers 167772161 167772162 (demo_iface 1) (demo_iface 2)
    demo_valid_datagram (demo_addr 2)); try done.
  - by apply (demo_iface_ok 1).
  - by apply (demo_iface_ok 2).
  - split; [done|]. by repeat constructor.
  - split; [done|]. by repeat constructor.
Defined.
