(* ===== verification/Router.v ===== *)
(** The router (src/src/router.hh, src/src/router.cc).  Its interfaces are
    distinct objects. *)

From S2P Require Import Prelude Ref Parser Wire Address ARPTable ARPMessageQueue NetworkInterface IPv4.
Import NetworkInterface.NetworkInterface.

Record RouteEntry : Type := mkRouteEntry {
  prefix : Z;
  prefix_length : Z;
  next_hop : option Address;
  interface_num : nat;
}.

Record Router : Type := mkRouter {
  interfaces_ : list NetworkInterface;
  routes_ : list RouteEntry;
}.

Module Router.

Definition new : Router := mkRouter [] [].

Definition add_interface (i : NetworkInterface) (r : Router) : nat * Router :=
  (length (interfaces_ r), mkRouter (interfaces_ r ++ [i]) (routes_ r)).

Definition interface (n : nat) (r : Router) : result NetworkInterface :=
  match interfaces_ r !! n with Some i => Ok i | None => Err (Throw "out_of_range") end.

(** [upper_bound] with the insertion: before the first shorter prefix. *)
Fixpoint insert_route (entry : RouteEntry) (routes : list RouteEntry) : list RouteEntry :=
  match routes with
  | [] => [entry]
  | e :: rest =>
      if bool_decide (prefix_length entry > prefix_length e) then entry :: routes
      else e :: insert_route entry rest
  end.

Definition add_route (route_prefix prefix_length : Z) (next_hop : option Address) (interface_num : nat)
    (r : Router) : Router :=
  if bool_decide (prefix_length > 32) then r
  else
    let entry := mkRouteEntry route_prefix prefix_length next_hop interface_num in
    mkRouter (interfaces_ r) (insert_route entry (routes_ r)).

Definition mask (e : RouteEntry) : Z :=
  if bool_decide (prefix_length e = 0) then 0
  else u32 (Z.shiftl (u32 (Z.lnot 0)) (32 - prefix_length e)).

Fixpoint find_route (destination : Z) (routes : list RouteEntry) : option RouteEntry :=
  match routes with
  | [] => None
  | e :: routes =>
      if bool_decide (Z.land destination (mask e) = Z.land (prefix e) (mask e)) then Some e
      else find_route destination routes
  end.

Definition with_ttl (t : Z) (h : IPv4Header) : IPv4Header :=
  mkIPv4Header (ver h) (hlen h) (tos h) (len h) (id h) (df h) (mf h) (offset h) t (proto h) (cksum h)
    (src h) (dst h).

Definition set_interface (n : nat) (i : NetworkInterface) (r : Router) : Router :=
  mkRouter (<[n := i]> (interfaces_ r)) (routes_ r).

Definition forward (d : IPv4Datagram) (arrived_on : nat) (r : Router) : result Router :=
  if bool_decide (ttl (header d) <= 1) then Ok r
  else
    match find_route (dst (header d)) (routes_ r) with
    | None => Ok r
    | Some e =>
        if bool_decide (interface_num e = arrived_on) && bool_decide (next_hop e ≠ None) then Ok r
        else
          let h := with_ttl (u8 (ttl (header d) - 1)) (header d) in
          h ← IPv4Header.compute_checksum h;
          direct ← Address.from_ipv4_numeric (dst h);
          let hop := default direct (next_hop e) in
          match interfaces_ r !! interface_num e with
          | None => Err (Undefined "operator[] past the end")
          | Some i =>
              i ← send_datagram (mkIPv4Datagram h (payload d)) hop i;
              Ok (set_interface (interface_num e) i r)
          end
    end.

Definition pop (n : nat) (r : Router) : Router :=
  match interfaces_ r !! n with
  | Some i => set_interface n (with_received (tail (datagrams_received_ i)) i) r
  | None => r
  end.

(** The inner loop of [route]; a turn empties the queue by one. *)
Fixpoint drain (fuel : nat) (i : nat) (r : Router) : result Router :=
  match fuel with
  | O => Err OutOfFuel
  | S fuel =>
      match interfaces_ r !! i with
      | None => Err (Undefined "operator[] past the end")
      | Some x =>
          match datagrams_received_ x with
          | [] => Ok r
          | front :: _ => r ← forward front i r; drain fuel i (pop i r)
          end
      end
  end.

(** The outer loop of [route]. *)
Fixpoint route_loop (is_ : list nat) (r : Router) : result Router :=
  match is_ with
  | [] => Ok r
  | i :: is_ =>
      let queue := match interfaces_ r !! i with Some x => datagrams_received_ x | None => [] end in
      r ← drain (S (length queue)) i r;
      route_loop is_ r
  end.

Definition route (r : Router) : result Router := route_loop (seq 0 (length (interfaces_ r))) r.

End Router.

(** * Longest-prefix match *)

(** The leading [prefix_length] bits agree. *)
Definition matches (destination : Z) (e : RouteEntry) : Prop :=
  destination / 2 ^ (32 - prefix_length e) = prefix e / 2 ^ (32 - prefix_length e).

Lemma mask_ones e :
  0 ≤ prefix_length e ≤ 32 →
  Router.mask e = Z.shiftl (Z.ones (32 - (32 - prefix_length e))) (32 - prefix_length e).
Proof.
  intros Hl. unfold Router.mask. generalize dependent (prefix_length e). intros n Hn.
  assert (∃ k, n = Z.of_nat k ∧ (k < 33)%nat) as (k&->&Hk) by (exists (Z.to_nat n); lia).
  do 33 (destruct k as [|k]; [done|]). lia.
Qed.

Lemma masked_iff e a :
  0 ≤ prefix_length e ≤ 32 → is_u32 a → is_u32 (prefix e) →
  Z.land a (Router.mask e) = Z.land (prefix e) (Router.mask e) ↔ matches a e.
Proof.
  intros Hl Ha Hp. rewrite mask_ones by done. rewrite !land_high_mask by (done || lia).
  unfold matches. rewrite !Z.shiftl_mul_pow2 by lia. pose proof (Z.pow_pos_nonneg 2 (32 - prefix_length e)).
  nia.
Qed.

(** A well-formed entry of the table. *)
Definition entry_ok (e : RouteEntry) : Prop := is_u32 (prefix e) ∧ 0 ≤ prefix_length e ≤ 32.

Definition longer (a b : RouteEntry) : Prop := prefix_length b ≤ prefix_length a.

Lemma insert_route_elem e e' routes :
  e' ∈ Router.insert_route e routes ↔ e' = e ∨ e' ∈ routes.
Proof.
  induction routes as [|x routes IH]; simpl.
  - rewrite elem_of_cons, elem_of_nil. tauto.
  - case_bool_decide; rewrite ?elem_of_cons, ?IH, ?elem_of_cons; tauto.
Qed.

Lemma insert_route_sorted e routes :
  StronglySorted longer routes → StronglySorted longer (Router.insert_route e routes).
Proof.
  induction 1 as [|x routes Hs IH Hf]; simpl; [by repeat constructor|]. case_bool_decide as Hx.
  - constructor; [by constructor|]. constructor; [unfold longer; lia|].
    eapply Forall_impl; [done|]. unfold longer. simpl. lia.
  - constructor; [done|]. apply Forall_forall. intros y [->|Hy]%insert_route_elem; [unfold longer; lia|].
    rewrite Forall_forall in Hf. by apply Hf.
Qed.

Lemma find_route_elem a routes e : Router.find_route a routes = Some e → e ∈ routes.
Proof.
  induction routes as [|x routes IH]; simpl; [done|]. case_bool_decide.
  - intros [= ->]. by left.
  - intros H'. right. by apply IH.
Qed.

(** Inserting a route changes the lookup only where the new route is a match
    with a strictly longer prefix. *)
Lemma find_insert a e routes :
  StronglySorted longer routes →
  let hit := bool_decide (Z.land a (Router.mask e) = Z.land (prefix e) (Router.mask e)) in
  Router.find_route a (Router.insert_route e routes) =
    match Router.find_route a routes with
    | None => if hit then Some e else None
    | Some e' => if hit && bool_decide (prefix_length e > prefix_length e') then Some e else Some e'
    end.
Proof.
  intros Hs hit. induction Hs as [|x routes Hs IH Hf]; cbn [Router.insert_route]; [done|].
  case_bool_decide as Hx.
  - cbn [Router.find_route]. fold hit.
    assert (∀ e', Router.find_route a (x :: routes) = Some e' → prefix_length e > prefix_length e') as Hlt.
    { intros e' He'%find_route_elem. apply elem_of_cons in He' as [->|He']; [lia|].
      rewrite Forall_forall in Hf. specialize (Hf e' He'). unfold longer in Hf. lia. }
    cbn [Router.find_route] in Hlt. destruct hit.
    + destruct (if bool_decide _ then _ else _) as [e'|]; [|done].
      rewrite (bool_decide_true (_ > _)) by by apply Hlt. done.
    + cbn [andb]. by destruct (if bool_decide _ then _ else _).
  - cbn [Router.find_route]. case_bool_decide; [|exact IH].
    rewrite (bool_decide_false (_ > _)) by done. by rewrite andb_false_r.
Qed.

(** ** The table built by [add_route] *)

Definition add (e : RouteEntry) (r : Router) : Router :=
  Router.add_route (prefix e) (prefix_length e) (next_hop e) (interface_num e) r.

(** The router after some routes were added, in order. *)
Definition add_all (es : list RouteEntry) (r : Router) : Router := foldl (λ r e, add e r) r es.

Lemma add_all_snoc es e r : add_all (es ++ [e]) r = add e (add_all es r).
Proof. unfold add_all. by rewrite foldl_app. Qed.

Lemma add_routes e r :
  routes_ (add e r) =
    if bool_decide (prefix_length e > 32) then routes_ r else Router.insert_route e (routes_ r).
Proof. unfold add, Router.add_route. case_bool_decide; [done|]. by destruct e. Qed.

Lemma add_all_sorted es r :
  StronglySorted longer (routes_ r) → StronglySorted longer (routes_ (add_all es r)).
Proof.
  intros Hs. induction es as [|e es IH] using rev_ind; [done|]. rewrite add_all_snoc, add_routes.
  case_bool_decide; [done|]. by apply insert_route_sorted.
Qed.

(** [e] is the first longest match for [a] in [es]. *)
Definition best_match (a : Z) (es : list RouteEntry) (e : RouteEntry) : Prop :=
  ∃ before after, es = before ++ e :: after ∧ prefix_length e ≤ 32 ∧ matches a e ∧
    (∀ e', e' ∈ before → prefix_length e' ≤ 32 → matches a e' → prefix_length e' < prefix_length e) ∧
    (∀ e', e' ∈ after → prefix_length e' ≤ 32 → matches a e' → prefix_length e' ≤ prefix_length e).

Definition no_match (a : Z) (es : list RouteEntry) : Prop :=
  ∀ e, e ∈ es → prefix_length e ≤ 32 → ¬ matches a e.

Lemma best_match_snoc a es e0 e :
  best_match a es e0 →
  (prefix_length e ≤ 32 → matches a e → prefix_length e ≤ prefix_length e0) →
  best_match a (es ++ [e]) e0.
Proof.
  intros (b&c&->&Hl&Hm&Hb&Hc) He. exists b, (c ++ [e]). split; [by rewrite <- app_assoc|].
  split; [done|]. split; [done|]. split; [done|].
  intros e' [Hin|Hin]%elem_of_app; [by apply Hc|]. apply list_elem_of_singleton in Hin. by subst.
Qed.

Lemma best_match_new a es e0 e :
  (best_match a es e0 ∧ prefix_length e0 < prefix_length e) ∨ no_match a es →
  prefix_length e ≤ 32 → matches a e → best_match a (es ++ [e]) e.
Proof.
  intros He Hl Hm. exists es, []. split; [done|]. split; [done|]. split; [done|]. split; [|set_solver].
  intros e' Hin Hl' Hm'. destruct He as [[(b&c&->&_&_&Hb&Hc) Hlt]|Hno].
  - apply elem_of_app in Hin as [Hin|Hin]; [specialize (Hb e' Hin Hl' Hm'); lia|].
    apply elem_of_cons in Hin as [->|Hin]; [done|]. specialize (Hc e' Hin Hl' Hm'). lia.
  - by destruct (Hno e' Hin Hl').
Qed.

Definition added_ok (e : RouteEntry) : Prop := is_u32 (prefix e) ∧ is_u8 (prefix_length e).

Lemma find_route_best a es r :
  is_u32 a → Forall added_ok es → routes_ r = [] →
  match Router.find_route a (routes_ (add_all es r)) with
  | None => no_match a es
  | Some e => best_match a es e
  end.
Proof.
  intros Ha Hes Hr. induction es as [|e es IH] using rev_ind.
  { cbn. rewrite Hr. simpl. intros e He. by apply elem_of_nil in He. }
  apply Forall_app in Hes as [Hes He]. apply Forall_cons in He as [[Hp Hl] _]. specialize (IH Hes).
  rewrite add_all_snoc, add_routes. unfold is_u8 in Hl.
  assert (no_match a es → ¬ (prefix_length e ≤ 32 ∧ matches a e) → no_match a (es ++ [e])) as Hno.
  { intros Hn Hm e' [Hin|Hin]%elem_of_app; [by apply Hn|].
    apply list_elem_of_singleton in Hin as ->. tauto. }
  case_bool_decide as H32.
  { destruct (Router.find_route a _) as [e0|]; [apply best_match_snoc; [done|lia]|].
    apply Hno; [done|lia]. }
  rewrite find_insert by (apply add_all_sorted; rewrite Hr; constructor).
  pose proof (masked_iff e a ltac:(lia) Ha Hp) as Hm.
  destruct (Router.find_route a _) as [e0|].
  - case_bool_decide as Hhit; cbn [andb].
    + case_bool_decide as Hlt.
      * eapply best_match_new; [left; split; [done|lia]|lia|by apply Hm].
      * apply best_match_snoc; [done|lia].
    + apply best_match_snoc; [done|]. intros _ Hx%Hm. done.
  - case_bool_decide as Hhit.
    + apply (best_match_new _ _ e); [by right|lia|by apply Hm].
    + apply Hno; [done|]. intros [_ Hx%Hm]. done.
Qed.

(** * Forwarding *)

(** A router whose interfaces are well formed and whose table names existing
    interfaces and IPv4 next hops. *)
Record router_ok (r : Router) : Prop := mkRouterOk {
  rt_interfaces : Forall (λ i, ∃ ip, iface_ok ip i) (interfaces_ r);
  rt_num : Forall (λ e, interface_num e < length (interfaces_ r))%nat (routes_ r);
  rt_hops : Forall (λ e, ∀ hop, next_hop e = Some hop → ∃ t, Address.ipv4_numeric hop = Ok t) (routes_ r);
}.

(** The decision [forward] makes: the interface and the next hop's address. *)
Definition decision (r : Router) (d : IPv4Datagram) (arrived_on : nat) : option (nat * Address) :=
  if bool_decide (ttl (header d) <= 1) then None
  else
    e ← Router.find_route (dst (header d)) (routes_ r);
    if bool_decide (interface_num e = arrived_on ∧ next_hop e ≠ None) then None
    else Some (interface_num e, default (inet (dst (header d)) 0) (next_hop e)).

(** The datagram that goes on: one hop less to live, a new checksum. *)
Definition forwarded (d : IPv4Datagram) : IPv4Datagram :=
  let h := Router.with_ttl (ttl (header d) - 1) (header d) in
  mkIPv4Datagram (IPv4Header.with_cksum (header_checksum h) h) (payload d).

Lemma with_ttl_fields t h : is_u8 t → fields_ok h → fields_ok (Router.with_ttl t h).
Proof. by intros ? []. Qed.

Lemma forwarded_fields d :
  fields_ok (header d) → 1 < ttl (header d) → fields_ok (header (forwarded d)).
Proof.
  intros F Ht. unfold forwarded. cbn [header]. apply with_cksum_fields; [apply header_checksum_range|].
  apply with_ttl_fields; [|done]. destruct F. unfold is_u8 in *. lia.
Qed.

Lemma decision_ok r d n m hop :
  router_ok r → is_u32 (dst (header d)) → decision r d n = Some (m, hop) →
  1 < ttl (header d) ∧ (∃ i ip, interfaces_ r !! m = Some i ∧ iface_ok ip i) ∧
  ∃ t, Address.ipv4_numeric hop = Ok t.
Proof.
  intros [Hi Hn Hh] Hd. unfold decision. case_bool_decide as Httl; [done|].
  destruct (Router.find_route _ _) as [e|] eqn:He; [|done]. apply find_route_elem in He. simpl.
  case_bool_decide as Hb; [done|]. intros [= <- <-]. split; [lia|].
  rewrite Forall_forall in Hn, Hh. split.
  - apply Hn, lookup_lt_is_Some_2 in He as [i Hl]. exists i.
    rewrite Forall_lookup in Hi. destruct (Hi _ _ Hl) as [ip Hip]. eauto.
  - destruct (next_hop e) as [hop|] eqn:Hhop; simpl; [by apply (Hh e)|].
    eexists. by apply inet_numeric.
Qed.

(** [forward] carries the decision out. *)
Lemma forward_eq r d n :
  fields_ok (header d) →
  Router.forward d n r =
    match decision r d n with
    | None => Ok r
    | Some (m, hop) =>
        match interfaces_ r !! m with
        | None => Err (Undefined "operator[] past the end")
        | Some i => i ← send_datagram (forwarded d) hop i; Ok (Router.set_interface m i r)
        end
    end.
Proof.
  intros F. unfold Router.forward, decision. case_bool_decide as Httl; [done|].
  destruct (Router.find_route _ _) as [e|] eqn:He; [|done]. cbn [mbind option_bind].
  rewrite <- bool_decide_and. case_bool_decide; [done|].
  rewrite u8_small by (destruct F; unfold is_u8 in *; lia).
  rewrite compute_checksum_ok, bind_Ok_l by apply F. done.
Qed.

Lemma forward_ok r d n :
  router_ok r → fields_ok (header d) →
  match decision r d n with
  | None => Router.forward d n r = Ok r
  | Some (m, hop) => ∃ i i' ip, interfaces_ r !! m = Some i ∧ iface_ok ip i ∧ iface_ok ip i' ∧
      same_config i i' ∧ datagrams_received_ i' = datagrams_received_ i ∧
      send_datagram (forwarded d) hop i = Ok i' ∧
      Router.forward d n r = Ok (Router.set_interface m i' r)
  end.
Proof.
  intros H F. rewrite forward_eq by done. destruct (decision r d n) as [[m hop]|] eqn:Hd; [|done].
  destruct (decision_ok r d n m hop H) as (Httl&(i&ip&Hi&Hok)&(t&Ht)); [apply F|done|].
  assert (ver (header (forwarded d)) = 4) as Hv by apply F.
  destruct (sent_ok ip (forwarded d) hop t i Hok Hv Ht) as [Hok' Hs].
  exists i, (sent ip (forwarded d) hop t i), ip. rewrite Hi.
  rewrite (send_datagram_ok ip (forwarded d) hop t) by done. rewrite bind_Ok_l.
  do 4 (split; [done|]). split; [|done]. unfold sent. by destruct (mac <$> _).
Qed.

(** [forward] keeps the router well formed and the received datagrams in
    place. *)
Definition received (r : Router) : list (list IPv4Datagram) := datagrams_received_ <$> interfaces_ r.

Lemma set_interface_ok m i i' ip r :
  router_ok r → interfaces_ r !! m = Some i → iface_ok ip i' → router_ok (Router.set_interface m i' r).
Proof.
  intros [Hi Hn Hh] Hm Hok. split; unfold Router.set_interface; cbn; [|by rewrite length_insert|done].
  apply Forall_insert; [done|by exists ip].
Qed.

Lemma forward_inv r d n :
  router_ok r → fields_ok (header d) →
  ∃ r', Router.forward d n r = Ok r' ∧ router_ok r' ∧ received r' = received r ∧ routes_ r' = routes_ r.
Proof.
  intros H F. pose proof (forward_ok r d n H F) as Hf. destruct (decision r d n) as [[m hop]|]; [|eauto].
  destruct Hf as (i&i'&ip&Hi&Hok&Hok'&_&Hr&_&->). eexists. split; [done|].
  split; [by eapply set_interface_ok|]. split; [|done].
  unfold received, Router.set_interface. cbn. rewrite list_fmap_insert, Hr.
  apply list_insert_id. by rewrite list_lookup_fmap, Hi.
Qed.

Lemma pop_ok n r x d ds :
  router_ok r → interfaces_ r !! n = Some x → datagrams_received_ x = d :: ds →
  router_ok (Router.pop n r) ∧ received (Router.pop n r) = <[n := ds]> (received r) ∧
  routes_ (Router.pop n r) = routes_ r ∧ length (interfaces_ (Router.pop n r)) = length (interfaces_ r).
Proof.
  intros H Hx Hd. unfold Router.pop. rewrite Hx, Hd. cbn [tail].
  destruct H as [Hi Hn Hh]. rewrite Forall_lookup in Hi. destruct (Hi _ _ Hx) as [ip Hip].
  assert (iface_ok ip (with_received ds x)) as Hok.
  { apply with_received_ok; [done|]. pose proof (io_received _ _ Hip) as Hr. rewrite Hd in Hr.
    by apply Forall_cons in Hr as [_ Hr]. }
  split; [|split; [|split]].
  - eapply set_interface_ok; [|done|done]. split; [by apply Forall_lookup|done..].
  - unfold received, Router.set_interface. cbn. by rewrite list_fmap_insert.
  - done.
  - unfold Router.set_interface. cbn. by rewrite length_insert.
Qed.

(** ** [route] *)

(** The router with its input queues emptied. *)
Definition quiet (r : Router) : Router := mkRouter (with_received [] <$> interfaces_ r) (routes_ r).

Fixpoint forwards (ds : list (nat * IPv4Datagram)) (r : Router) : result Router :=
  match ds with
  | [] => Ok r
  | (n, d) :: ds => r ← Router.forward d n r; forwards ds r
  end.

Lemma forwards_app ds es r : forwards (ds ++ es) r = (r ← forwards ds r; forwards es r).
Proof.
  revert r. induction ds as [|[n d] ds IH]; intros r; [done|]. cbn [forwards app].
  destruct (Router.forward d n r) as [r'|e]; [apply IH|done].
Qed.

(** What was received plays no part in forwarding. *)
Lemma forward_quiet r d n r' :
  router_ok r → fields_ok (header d) → Router.forward d n r = Ok r' →
  Router.forward d n (quiet r) = Ok (quiet r').
Proof.
  intros H F He. pose proof (forward_ok r d n H F) as Hf. rewrite forward_eq by done.
  change (decision (quiet r) d n) with (decision r d n).
  destruct (decision r d n) as [[m hop]|] eqn:Hd; [|by rewrite Hf in He; injection He as <-].
  destruct Hf as (i&i'&ip&Hi&Hok&_&_&_&Hs&Hf). rewrite Hf in He. injection He as <-.
  destruct (decision_ok r d n m hop H) as (_&_&(t&Ht)); [apply F|done|].
  assert (ver (header (forwarded d)) = 4) as Hv by apply F.
  rewrite (send_datagram_ok ip _ _ t) in Hs by done. injection Hs as <-.
  unfold quiet at 1. cbn [interfaces_]. rewrite list_lookup_fmap, Hi. cbn [fmap option_fmap option_map].
  rewrite (send_datagram_ok ip _ _ t) by (done || by apply with_received_ok).
  rewrite bind_Ok_l. unfold quiet, Router.set_interface. cbn. rewrite list_fmap_insert.
  do 3 f_equal. unfold sent. cbn. by destruct (mac <$> _).
Qed.

Lemma quiet_pop n r : quiet (Router.pop n r) = quiet r.
Proof.
  unfold Router.pop. destruct (interfaces_ r !! n) as [x|] eqn:Hx; [|done].
  unfold quiet, Router.set_interface. cbn. f_equal. rewrite list_fmap_insert.
  apply list_insert_id. by rewrite list_lookup_fmap, Hx.
Qed.

Lemma received_lookup r n x : interfaces_ r !! n = Some x → received r !! n = Some (datagrams_received_ x).
Proof. intros Hx. unfold received. by rewrite list_lookup_fmap, Hx. Qed.

Lemma received_inv r n ds :
  received r !! n = Some ds → ∃ x, interfaces_ r !! n = Some x ∧ datagrams_received_ x = ds.
Proof.
  unfold received. rewrite list_lookup_fmap. destruct (interfaces_ r !! n) as [x|]; [|done].
  intros [= <-]. by exists x.
Qed.

Lemma drain_step fuel n r x :
  interfaces_ r !! n = Some x →
  Router.drain (S fuel) n r =
    match datagrams_received_ x with
    | [] => Ok r
    | front :: _ => r ← Router.forward front n r; Router.drain fuel n (Router.pop n r)
    end.
Proof. intros Hx. cbn [Router.drain]. by rewrite Hx. Qed.

Lemma list_bind_ext_in {A B} (f g : A → list B) l :
  (∀ x, x ∈ l → f x = g x) → l ≫= f = l ≫= g.
Proof.
  induction l as [|x l IH]; intros Hfg; [done|]. cbn [mbind list_bind].
  rewrite (Hfg x) by left. f_equal. apply IH. intros y Hy. apply Hfg. by right.
Qed.

(** The inner loop forwards what interface [n] received, in order. *)
Lemma drain_ok n ds r :
  router_ok r → received r !! n = Some ds →
  ∃ r', Router.drain (S (length ds)) n r = Ok r' ∧ router_ok r' ∧ received r' = <[n := []]> (received r) ∧
    forwards ((n,.) <$> ds) (quiet r) = Ok (quiet r').
Proof.
  revert r. induction ds as [|d ds IH]; intros r H (x&Hx&Hn)%received_inv; rewrite (drain_step _ n r x Hx), Hn.
  - exists r. split; [done|]. split; [done|]. split; [|done]. symmetry. apply list_insert_id.
    rewrite (received_lookup r n x Hx). by rewrite Hn.
  - assert (fields_ok (header d)) as F.
    { destruct H as [Hi _ _]. rewrite Forall_lookup in Hi. destruct (Hi _ _ Hx) as [ip Hip].
      pose proof (io_received _ _ Hip) as Hr. rewrite Hn in Hr. by apply Forall_cons in Hr as [Hr _]. }
    destruct (forward_inv r d n H F) as (r1&He&H1&Hr1&_). rewrite He, bind_Ok_l.
    assert (∃ x1, interfaces_ r1 !! n = Some x1 ∧ datagrams_received_ x1 = d :: ds) as (x1&Hx1&Hd1).
    { apply received_inv. by rewrite Hr1, (received_lookup r n x Hx), Hn. }
    destruct (pop_ok n r1 x1 d ds H1 Hx1 Hd1) as (H2&Hr2&_&_).
    assert (n < length (received r1))%nat as Hlt.
    { apply lookup_lt_is_Some. rewrite (received_lookup r1 n x1 Hx1). done. }
    destruct (IH (Router.pop n r1) H2) as (r'&He'&H'&Hr'&Hf).
    { rewrite Hr2. by apply list_lookup_insert_eq. }
    exists r'. split; [done|]. split; [done|]. split.
    + rewrite Hr', Hr2, list_insert_insert, decide_True by done. by rewrite Hr1.
    + cbn [fmap list_fmap forwards]. rewrite (forward_quiet r d n r1 H F He), bind_Ok_l.
      by rewrite quiet_pop in Hf.
Qed.

Lemma route_loop_ok ns r :
  NoDup ns → router_ok r → Forall (λ n, n < length (interfaces_ r))%nat ns →
  ∃ r', Router.route_loop ns r = Ok r' ∧ router_ok r' ∧ length (received r') = length (received r) ∧
    (∀ k, received r' !! k = if bool_decide (k ∈ ns) then Some [] else received r !! k) ∧
    forwards (ns ≫= λ n, (n,.) <$> default [] (received r !! n)) (quiet r) = Ok (quiet r').
Proof.
  intros Hnd. revert r. induction Hnd as [|n ns Hn Hnd IH]; intros r H Hlt; cbn [Router.route_loop].
  { exists r. do 3 (split; [done|]). split; [|done]. intros k.
    by rewrite bool_decide_false by apply not_elem_of_nil. }
  apply Forall_cons in Hlt as [Hl Hlt]. apply lookup_lt_is_Some_2 in Hl as [x Hx]. rewrite Hx.
  destruct (drain_ok n (datagrams_received_ x) r H (received_lookup r n x Hx)) as (r1&->&H1&Hr1&Hf1).
  rewrite bind_Ok_l.
  assert (length (interfaces_ r1) = length (interfaces_ r)) as Hlen.
  { apply (f_equal length) in Hr1. unfold received in Hr1. by rewrite length_insert, !length_fmap in Hr1. }
  assert (n < length (received r))%nat as Hlt'.
  { apply lookup_lt_is_Some. rewrite (received_lookup r n x Hx). done. }
  destruct (IH r1 H1) as (r'&He&H'&Hlen'&Hr'&Hf'); [by rewrite Hlen|].
  exists r'. split; [done|]. split; [done|]. split; [by rewrite Hlen', Hr1, length_insert|]. split.
  - intros k. rewrite Hr', Hr1. destruct (decide (k = n)) as [->|Hk].
    + rewrite bool_decide_false by done. rewrite list_lookup_insert_eq by done.
      by rewrite bool_decide_true by left.
    + rewrite list_lookup_insert_ne by done.
      assert (bool_decide (k ∈ n :: ns) = bool_decide (k ∈ ns)) as ->; [|done].
      apply bool_decide_ext. rewrite elem_of_cons. tauto.
  - cbn [mbind list_bind]. rewrite forwards_app, (received_lookup r n x Hx).
    change (default [] (Some (datagrams_received_ x))) with (datagrams_received_ x). rewrite Hf1, bind_Ok_l, <- Hf'. f_equal. apply list_bind_ext_in. intros k Hk.
    rewrite Hr1. rewrite list_lookup_insert_ne; [done|]. by intros ->.
Qed.

Lemma quiet_id r : Forall (λ ds, ds = []) (received r) → quiet r = r.
Proof.
  destruct r as [is_ rs]. unfold received, quiet. cbn [interfaces_ routes_]. intros H%Forall_fmap. f_equal.
  induction H as [|x is_ Hx _ IH]; [done|]. rewrite fmap_cons, IH. f_equal.
  destruct x. cbn in Hx. by subst.
Qed.

Lemma route_ok r :
  router_ok r →
  ∃ r', Router.route r = Ok r' ∧ router_ok r' ∧ Forall (λ ds, ds = []) (received r') ∧
    forwards (seq 0 (length (interfaces_ r)) ≫= λ n, (n,.) <$> default [] (received r !! n)) (quiet r)
      = Ok r'.
Proof.
  intros H. destruct (route_loop_ok (seq 0 (length (interfaces_ r))) r) as (r'&He&H'&Hlen&Hr'&Hf);
    [apply NoDup_seq|done|apply Forall_forall; intros n Hn%elem_of_seq; lia|].
  assert (Forall (λ ds, ds = []) (received r')) as Hall.
  { apply Forall_lookup. intros k ds Hk. rewrite Hr' in Hk. case_bool_decide as Hin; [congruence|].
    apply lookup_lt_Some in Hk. unfold received in Hk. rewrite length_fmap in Hk.
    destruct Hin. apply elem_of_seq. lia. }
  exists r'. do 3 (split; [done|]). rewrite Hf. f_equal. by apply quiet_id.
Qed.

(** A router that received nothing but one datagram forwards it. *)
Lemma bind_one {A B} (f : A → list B) l n x :
  l !! n = Some x → (∀ k y, l !! k = Some y → k ≠ n → f y = []) → l ≫= f = f x.
Proof.
  revert n. induction l as [|y l IH]; intros n Hn Hf; [done|]. cbn [mbind list_bind]. destruct n as [|n].
  - injection Hn as ->. assert (l ≫= f = []) as ->; [|by rewrite app_nil_r].
    assert (∀ k z, l !! k = Some z → f z = []) as Hall by (intros k z Hz; by apply (Hf (S k))).
    clear -Hall. induction l as [|z l IH]; [done|]. cbn [mbind list_bind]. rewrite (Hall 0%nat z) by done.
    apply IH. intros k. apply (Hall (S k)).
  - rewrite (Hf 0%nat y) by done. apply (IH n); [done|]. intros k z Hz Hk. apply (Hf (S k)); [done|lia].
Qed.

Lemma route_one r n i d :
  router_ok r → Forall (λ ds, ds = []) (received r) → interfaces_ r !! n = Some i → fields_ok (header d) →
  Router.route (Router.set_interface n (with_received [d] i) r) = Router.forward d n r.
Proof.
  intros H He Hi F. set (r1 := Router.set_interface n _ r).
  assert (router_ok r1) as H1.
  { destruct H as [Hf ? ?]. rewrite Forall_lookup in Hf. destruct (Hf _ _ Hi) as [ip Hip].
    eapply set_interface_ok; [|done|apply with_received_ok; [done|by constructor]]. split; [by apply Forall_lookup|done..]. }
  pose proof (lookup_lt_Some _ _ _ Hi) as Hlt.
  assert (received r1 = <[n := [d]]> (received r)) as Hr1 by (unfold received; cbn; by rewrite list_fmap_insert).
  destruct (route_ok r1 H1) as (r'&->&_&_&Hf). rewrite <- Hf.
  assert (quiet r1 = r) as ->.
  { transitivity (quiet r); [|by apply quiet_id]. unfold r1, quiet, Router.set_interface. cbn. f_equal. rewrite list_fmap_insert.
    apply list_insert_id. by rewrite list_lookup_fmap, Hi. }
  rewrite (bind_one _ _ n n).
  - rewrite Hr1, list_lookup_insert_eq by (unfold received; by rewrite length_fmap). cbn.
    by destruct (Router.forward d n r).
  - unfold r1, Router.set_interface. cbn. rewrite length_insert. apply lookup_seq. lia.
  - intros k j Hk Hj. apply lookup_seq in Hk as [-> _]. cbn in *. rewrite Hr1, list_lookup_insert_ne by done.
    destruct (received r !! k) as [ds|] eqn:Hds; [|done]. rewrite Forall_lookup in He. by rewrite (He _ _ Hds).
Qed.

(** * Properties *)

(** C22: [find_route] is a longest-prefix match: on the table that any sequence
    of [add_route] calls builds, it gives the first-added of the matching
    routes with the longest prefix, ignoring those longer than 32 bits, and
    none exactly when no route matches. *)
Theorem find_route_longest_prefix (es : list RouteEntry) (r : Router) destination :
  is_u32 destination → Forall added_ok es → routes_ r = [] →
  match Router.find_route destination (routes_ (add_all es r)) with
  | None => no_match destination es
  | Some e => best_match destination es e
  end.
Proof. apply find_route_best. Qed.

Definition demo_routes : list RouteEntry :=
  [mkRouteEntry 0 0 (Some (inet 167772161 0)) 0;
   mkRouteEntry 167772160 8 None 1;
   mkRouteEntry 167772160 33 None 0;
   mkRouteEntry 167837696 16 None 2;
   mkRouteEntry 167837697 16 None 0].

Lemma demo_routes_ok : Forall added_ok demo_routes.
Proof. by repeat constructor. Qed.

Lemma find_route_longest_prefix_witness :
  Router.find_route 167837705 (routes_ (add_all demo_routes Router.new))
    = Some (mkRouteEntry 167837696 16 None 2) ∧
  best_match 167837705 demo_routes (mkRouteEntry 167837696 16 None 2).
Proof.
  split; [done|].
  exact (find_route_longest_prefix demo_routes Router.new 167837705 ltac:(done) demo_routes_ok eq_refl).
Defined.

(** C23: forwarding never fails and never reaches past the interfaces: a
    datagram whose time to live is spent, that no route matches, or whose
    next-hop route leads back where it came from is dropped without effect;
    any other is sent by the route's interface, to the route's next hop or its
    own destination, with one hop less to live, the checksum that goes with
    it, and everything else as it was; no other interface changes. *)
Theorem router_forward (r : Router) d arrived_on :
  router_ok r → fields_ok (header d) →
  ∃ r', Router.forward d arrived_on r = Ok r' ∧ router_ok r' ∧ routes_ r' = routes_ r ∧
    match Router.find_route (dst (header d)) (routes_ r) with
    | None => r' = r
    | Some e =>
        if bool_decide (ttl (header d) <= 1 ∨ (interface_num e = arrived_on ∧ next_hop e ≠ None))
        then r' = r
        else ∃ i i' d',
          interfaces_ r !! interface_num e = Some i ∧
          send_datagram d' (default (inet (dst (header d)) 0) (next_hop e)) i = Ok i' ∧
          interfaces_ r' = <[interface_num e := i']> (interfaces_ r) ∧
          payload d' = payload d ∧ fields_ok (header d') ∧
          cksum (header d') = header_checksum (header d') ∧
          Router.with_ttl (ttl (header d) - 1) (IPv4Header.with_cksum (cksum (header d')) (header d))
            = header d'
    end.
Proof.
  intros H F. destruct (forward_inv r d arrived_on H F) as (r'&He&Hok&_&Hr).
  exists r'. split; [done|]. split; [done|]. split; [done|].
  pose proof (forward_ok r d arrived_on H F) as Hf. unfold decision in Hf.
  destruct (Router.find_route _ _) as [e|].
  - destruct (decide (ttl (header d) ≤ 1)) as [Ht|Ht].
    { rewrite !bool_decide_true in * by tauto. rewrite Hf in He. by injection He. }
    rewrite (bool_decide_false (ttl _ ≤ 1)) in Hf by done. cbn [mbind option_bind] in Hf.
    destruct (decide (interface_num e = arrived_on ∧ next_hop e ≠ None)) as [Hb|Hb].
    { rewrite !bool_decide_true in * by tauto. rewrite Hf in He. by injection He. }
    rewrite bool_decide_false in Hf by done. rewrite bool_decide_false by tauto.
    destruct Hf as (i&i'&ip&Hi&_&_&_&_&Hs&Hf). rewrite Hf in He. injection He as <-.
    exists i, i', (forwarded d). split; [done|]. split; [done|]. split; [done|]. split; [done|].
    split; [apply forwarded_fields; [done|lia]|]. split; [done|]. done.
  - assert (Router.forward d arrived_on r = Ok r) as Hd by by case_bool_decide.
    rewrite Hd in He. by injection He.
Qed.

Definition demo_router : Router :=
  add_all [mkRouteEntry 167772160 8 None 1; mkRouteEntry 0 0 (Some (demo_addr 9)) 0]
    (mkRouter [demo_iface 1; demo_iface 2] []).

Lemma demo_router_ok : router_ok demo_router.
Proof.
  split.
  - repeat constructor; eexists; [by apply (demo_iface_ok 1)|by apply (demo_iface_ok 2)].
  - repeat constructor.
  - repeat constructor; intros hop [= <-]. eexists. by apply inet_numeric.
Qed.

Lemma router_forward_witness :
  ∃ r', Router.forward demo_datagram 0 demo_router = Ok r' ∧ router_ok r' ∧
    ∃ i' d', interfaces_ r' = [demo_iface 1; i'] ∧ payload d' = payload demo_datagram ∧
      ttl (header d') = 63.
Proof.
  destruct (router_forward demo_router demo_datagram 0 demo_router_ok demo_datagram_fields)
    as (r'&He&Hok&_&Hf).
  change (Router.find_route _ _) with (Some (mkRouteEntry 167772160 8 None 1)) in Hf. simpl in Hf.
  destruct Hf as (i&i'&d'&_&_&Hi&Hp&_&_&Hh).
  exists r'. split; [done|]. split; [done|]. exists i', d'. split; [done|]. split; [done|]. by rewrite <- Hh.
Defined.

(** C24: [route] drains every interface: it always returns, no datagram stays in
    an input queue, and the outcome is that of forwarding every received
    datagram, interface by interface, in the order of arrival. *)
Theorem router_route (r : Router) :
  router_ok r →
  ∃ r', Router.route r = Ok r' ∧ router_ok r' ∧ Forall (λ ds, ds = []) (received r') ∧
    forwards (seq 0 (length (interfaces_ r)) ≫= λ n, (n,.) <$> default [] (received r !! n)) (quiet r)
      = Ok r'.
Proof. apply route_ok. Qed.

Definition busy_router : Router :=
  Router.set_interface 0 (with_received [demo_datagram; demo_datagram] (demo_iface 1)) demo_router.

Lemma busy_router_ok : router_ok busy_router.
Proof.
  apply (set_interface_ok 0 (demo_iface 1) _ 167772161); [apply demo_router_ok|done|].
  apply with_received_ok; [by apply (demo_iface_ok 1)|].
  repeat constructor; apply demo_datagram_fields.
Qed.

Lemma router_route_witness :
  ∃ r', Router.route busy_router = Ok r' ∧
    forwards [(0%nat, demo_datagram); (0%nat, demo_datagram)] demo_router = Ok r'.
Proof.
  destruct (router_route busy_router busy_router_ok) as (r'&He&_&_&Hf). exists r'. split; [done|]. exact Hf.
Defined.
