(* ===== verification/ObjectPool.v ===== *)
(** A pool of reusable objects (src/util/object_pool.hh).  The deque only grows
    at its end, which keeps references to its elements valid: a borrowed
    reference is the index of its element.  The mutex makes each operation
    one step.  The creator and the resetter are pure functions here. *)

From S2P Require Import Prelude.

Section pool.
Context {T : Type}.

Record ObjectWrapper : Type := mkObjectWrapper {
  obj : T;
  is_borrowed : bool;
}.

Record GeneralObjectPool : Type := mkGeneralObjectPool {
  max_size_ : Z;
  pool_ : list ObjectWrapper;
  creator_ : () → T;
  resetter_ : T → T;
}.
End pool.
Arguments ObjectWrapper : clear implicits.
Arguments GeneralObjectPool : clear implicits.

Module GeneralObjectPool.
Section pool.
Context {T : Type}.
Implicit Types p : GeneralObjectPool T.

(** The default for [max_size]. *)
Definition NO_LIMIT : Z := 2 ^ 64 - 1.

Definition new (creator : () → T) (resetter : T → T) (initial_size max_size : Z) : GeneralObjectPool T :=
  mkGeneralObjectPool max_size (replicate (Z.to_nat initial_size) (mkObjectWrapper (creator ()) false))
    creator resetter.

Definition with_pool ws p : GeneralObjectPool T :=
  mkGeneralObjectPool (max_size_ p) ws (creator_ p) (resetter_ p).

(** [find_if] for a wrapper that is not borrowed. *)
Fixpoint find_free (ws : list (ObjectWrapper T)) : option nat :=
  match ws with
  | [] => None
  | w :: ws => if negb (is_borrowed w) then Some 0%nat else S <$> find_free ws
  end.

Definition set_borrowed (b : bool) (w : ObjectWrapper T) : ObjectWrapper T := mkObjectWrapper (obj w) b.

(** The index of the object lent. *)
Definition borrow p : result (nat * GeneralObjectPool T) :=
  match find_free (pool_ p) with
  | Some n => Ok (n, with_pool (alter (set_borrowed true) n (pool_ p)) p)
  | None =>
      if bool_decide (zlen (pool_ p) < max_size_ p)
      then Ok (length (pool_ p), with_pool (pool_ p ++ [mkObjectWrapper (creator_ p ()) true]) p)
      else Err (Throw "Object pool is full")
  end.

(** [return_object( obj )], by the index of the element at that address, or
    past the end for an object that is not in the pool. *)
Definition return_object (n : nat) p : result (GeneralObjectPool T) :=
  match pool_ p !! n with
  | Some w => Ok (with_pool (<[n := mkObjectWrapper (resetter_ p (obj w)) false]> (pool_ p)) p)
  | None => Err (Throw "Object not found in pool")
  end.

Definition size p : Z := zlen (pool_ p).
Definition borrowed_count p : Z := zlen (filter (λ w, is_borrowed w = true) (pool_ p)).
Definition available_count p : Z := zlen (filter (λ w, is_borrowed w = false) (pool_ p)).

End pool.
End GeneralObjectPool.
Import GeneralObjectPool.

(** * Lemmas *)

Section pool.
Context {T : Type}.
Implicit Types (p : GeneralObjectPool T) (ws : list (ObjectWrapper T)).

Lemma find_free_Some ws n :
  find_free ws = Some n → (∃ w, ws !! n = Some w ∧ is_borrowed w = false) ∧
    ∀ m w, (m < n)%nat → ws !! m = Some w → is_borrowed w = true.
Proof.
  revert n. induction ws as [|[x b] ws IH]; intros n; simpl; [done|]. destruct b; simpl.
  - destruct (find_free ws) as [k|]; [|done]. intros [= <-]. destruct (IH k eq_refl) as [Hk Hlt].
    split; [done|]. intros [|m] w Hm; simpl; [by intros [= <-]|]. apply Hlt. lia.
  - intros [= <-]. split; [by eexists|]. lia.
Qed.

Lemma find_free_None ws : find_free ws = None → Forall (λ w, is_borrowed w = true) ws.
Proof.
  induction ws as [|[x b] ws IH]; simpl; [constructor|]. destruct b; simpl; [|done].
  destruct (find_free ws); [done|]. intros _. constructor; [done|]. by apply IH.
Qed.

(** Which objects are lent, by index. *)
Definition lent p : list nat :=
  filter (λ n, is_borrowed <$> pool_ p !! n = Some true) (seq 0 (length (pool_ p))).

Lemma lent_spec p n : n ∈ lent p ↔ is_borrowed <$> pool_ p !! n = Some true.
Proof.
  unfold lent. rewrite list_elem_of_filter, elem_of_seq. split; [by intros [? _]|].
  intros H. split; [done|]. destruct (pool_ p !! n) eqn:Hn; [|done]. apply lookup_lt_Some in Hn. lia.
Qed.

Lemma counts p : borrowed_count p + available_count p = size p.
Proof.
  unfold borrowed_count, available_count, size. induction (pool_ p) as [|[x b] ws IH]; [done|].
  rewrite !filter_cons. destruct b; simpl; rewrite !zlen_cons; lia.
Qed.

(** What [borrow] does. *)
Lemma borrow_cases p :
  match borrow p with
  | Ok (n, p') =>
      is_borrowed <$> pool_ p !! n ≠ Some true ∧
      (∀ m, is_borrowed <$> pool_ p' !! m = if bool_decide (m = n) then Some true else is_borrowed <$> pool_ p !! m) ∧
      (∀ m w, pool_ p !! m = Some w → obj <$> pool_ p' !! m = Some (obj w)) ∧
      (size p' = size p ∨ (size p' = size p + 1 ∧ size p < max_size_ p)) ∧ max_size_ p' = max_size_ p
  | Err e => e = Throw "Object pool is full" ∧ max_size_ p ≤ size p ∧ borrowed_count p = size p
  end.
Proof.
  unfold borrow. destruct (find_free (pool_ p)) as [n|] eqn:Hf.
  - destruct (find_free_Some _ _ Hf) as [(w&Hw&Hb) _]. cbn.
    split; [rewrite Hw; simpl; congruence|]. split; [|split; [|split; [|done]]].
    + intros m. case_bool_decide as Hm; [subst|].
      * by rewrite list_lookup_alter_eq, Hw.
      * by rewrite list_lookup_alter_ne by auto.
    + intros m w' Hm. destruct (decide (m = n)) as [->|Hne].
      * by rewrite list_lookup_alter_eq, Hm.
      * by rewrite list_lookup_alter_ne, Hm by auto.
    + left. unfold size. cbn. unfold zlen. by rewrite length_alter.
  - pose proof (find_free_None _ Hf) as Hall. case_bool_decide as Hs; cbn.
    + rewrite lookup_ge_None_2 by lia. split; [done|]. split; [|split; [|split; [|done]]].
      * intros m. case_bool_decide as Hm; [subst|].
        { rewrite lookup_app_r, Nat.sub_diag by lia. done. }
        destruct (decide (m < length (pool_ p))%nat).
        { by rewrite lookup_app_l. }
        rewrite !lookup_ge_None_2; [done|lia|]. rewrite length_app. simpl. lia.
      * intros m w Hm. rewrite lookup_app_l by (by eapply lookup_lt_Some). by rewrite Hm.
      * right. unfold size. cbn. rewrite zlen_app. done.
    + clear Hf. split; [done|]. unfold size, borrowed_count. split; [lia|]. clear Hs.
      induction Hall as [|w ws Hw _ IH]; [done|]. rewrite filter_cons, decide_True by done.
      rewrite !zlen_cons. by f_equal.
Qed.

(** What [return_object] does. *)
Lemma return_cases p n :
  match return_object n p with
  | Ok p' =>
      (n < length (pool_ p))%nat ∧
      (∀ m, is_borrowed <$> pool_ p' !! m = if bool_decide (m = n) then Some false else is_borrowed <$> pool_ p !! m) ∧
      (∀ w, pool_ p !! n = Some w → obj <$> pool_ p' !! n = Some (resetter_ p (obj w))) ∧
      (∀ m, m ≠ n → pool_ p' !! m = pool_ p !! m) ∧
      size p' = size p ∧ max_size_ p' = max_size_ p
  | Err e => e = Throw "Object not found in pool" ∧ pool_ p !! n = None
  end.
Proof.
  unfold return_object. destruct (pool_ p !! n) as [w|] eqn:Hw; [|done]. cbn.
  pose proof (lookup_lt_Some _ _ _ Hw) as Hlt. split; [done|]. split; [|split; [|split; [|split; [|done]]]].
  - intros m. case_bool_decide as Hm; [subst|].
    + by rewrite list_lookup_insert_eq.
    + by rewrite list_lookup_insert_ne by auto.
  - intros w' [= <-]. by rewrite list_lookup_insert_eq.
  - intros m Hm. by rewrite list_lookup_insert_ne by auto.
  - unfold size. cbn. unfold zlen. by rewrite length_insert.
Qed.

(** The executions of a pool: the references out, most recent first. *)
Inductive runs (p0 : GeneralObjectPool T) : list nat → GeneralObjectPool T → Prop :=
  | runs_new : runs p0 [] p0
  | runs_borrow out p n p' : runs p0 out p → borrow p = Ok (n, p') → runs p0 (n :: out) p'
  | runs_return out1 n out2 p p' :
      runs p0 (out1 ++ n :: out2) p → return_object n p = Ok p' → runs p0 (out1 ++ out2) p'.

Lemma runs_lent creator resetter initial max out p :
  runs (new creator resetter initial max) out p →
  NoDup out ∧ (∀ n, n ∈ out ↔ is_borrowed <$> pool_ p !! n = Some true) ∧
  max_size_ p = max ∧ size p ≤ Z.max (Z.of_nat (Z.to_nat initial)) max.
Proof.
  induction 1 as [|out p n p' _ (Hnd&Hout&Hm&Hs) He|out1 n out2 p p' _ (Hnd&Hout&Hm&Hs) He].
  - split; [constructor|]. split; [|split; [done|]].
    + intros n. cbn. split; [by intros ?%elem_of_nil|].
      destruct (replicate _ _ !! n) eqn:Hn; [|done]. apply lookup_replicate in Hn as [-> _]. done.
    + unfold size. cbn. rewrite zlen_replicate. lia.
  - pose proof (borrow_cases p) as Hc. rewrite He in Hc. destruct Hc as (Hn&Hb&_&Hsz&Hm').
    split; [constructor; [by rewrite Hout|done]|]. split; [|split; [congruence|lia]].
    intros m. rewrite elem_of_cons, Hb, Hout. case_bool_decide; naive_solver.
  - pose proof (return_cases p n) as Hc. rewrite He in Hc. destruct Hc as (_&Hb&_&_&Hsz&Hm').
    apply NoDup_app in Hnd as (H1&H12&H2). apply NoDup_cons in H2 as [Hn H2].
    assert (n ∉ out1) as Hn1 by (intros Hin; by destruct (H12 n Hin); left).
    split; [apply NoDup_app; split_and!; [done| |done]; intros x Hx1 Hx2; destruct (H12 x Hx1); by right|].
    split; [|split; [congruence|lia]].
    intros m. rewrite Hb. specialize (Hout m). rewrite elem_of_app, elem_of_cons in Hout.
    rewrite elem_of_app. case_bool_decide as Hmn; [subst; naive_solver|]. rewrite <- Hout. naive_solver.
Qed.

Lemma lent_NoDup p : NoDup (lent p).
Proof. apply NoDup_filter, NoDup_seq. Qed.

Lemma list_filter_ext_in {A} (P Q : A → Prop) `{∀ x, Decision (P x)} `{∀ x, Decision (Q x)} (l : list A) :
  (∀ x, x ∈ l → P x ↔ Q x) → filter P l = filter Q l.
Proof.
  induction l as [|x l IH]; intros Hl; [done|]. rewrite !filter_cons.
  rewrite IH by (intros; apply Hl; by right). pose proof (Hl x ltac:(by left)).
  do 2 case_decide; tauto || done.
Qed.

Lemma borrowed_count_lent p : borrowed_count p = zlen (lent p).
Proof.
  unfold borrowed_count, lent. generalize (pool_ p). intros ws.
  induction ws as [|w ws IH] using rev_ind; [done|].
  rewrite length_app, seq_app, !filter_app. simpl. rewrite !zlen_app. f_equal.
  - rewrite IH. f_equal. apply list_filter_ext_in. intros n Hn%elem_of_seq. by rewrite lookup_app_l by lia.
  - rewrite !filter_cons, !filter_nil. rewrite lookup_app_r, Nat.sub_diag by lia. simpl.
    destruct w as [x []]; simpl; by rewrite ?decide_True, ?decide_False by done.
Qed.
End pool.

(** * Properties *)

(** A pool never lends an object twice: in every execution the references
    out are distinct, they are exactly the objects marked borrowed, and
    [borrowed_count] counts them; the pool holds at most the limit (or the
    initial size); a borrow fails exactly when every object is lent and the
    limit is reached, and lends an object nobody holds, in the state its last
    return left it, with every other object untouched. *)
Theorem object_pool_exclusive {T} (creator : () → T) resetter initial max out (p : GeneralObjectPool T) :
  runs (new creator resetter initial max) out p →
  NoDup out ∧ borrowed_count p = zlen out ∧ available_count p = size p - zlen out ∧
  size p ≤ Z.max (Z.of_nat (Z.to_nat initial)) max ∧
  match borrow p with
  | Ok (n, p') => (n ∉ out) ∧ ∀ m w, pool_ p !! m = Some w → obj <$> pool_ p' !! m = Some (obj w)
  | Err e => e = Throw "Object pool is full" ∧ max ≤ size p ∧ size p = zlen out
  end ∧
  ∀ n, n ∈ out → ∃ p', return_object n p = Ok p' ∧ borrowed_count p' = borrowed_count p - 1.
Proof.
  intros Hr. destruct (runs_lent _ _ _ _ _ _ Hr) as (Hnd&Hout&Hm&Hs).
  assert (∀ (q : GeneralObjectPool T) l, NoDup l → (∀ n, n ∈ l ↔ is_borrowed <$> pool_ q !! n = Some true) → borrowed_count q = zlen l)
    as Hcount.
  { intros q l Hl Hiff. rewrite borrowed_count_lent. unfold zlen. f_equal. apply Permutation_length.
    apply NoDup_Permutation; [apply lent_NoDup|done|]. intros n. by rewrite lent_spec, Hiff. }
  pose proof (Hcount p out Hnd Hout) as Hb. pose proof (counts p) as Hc.
  split; [done|]. split; [done|]. split; [lia|]. split; [done|]. split.
  - pose proof (borrow_cases p) as Hbo. destruct (borrow p) as [[n p']|e].
    + destruct Hbo as (Hn&_&Ho&_). split; [by rewrite Hout|done].
    + destruct Hbo as (->&?&?). split; [done|]. lia.
  - intros n Hn. pose proof (return_cases p n) as Hre. unfold return_object in *.
    apply Hout in Hn as Hl. destruct (pool_ p !! n) as [w|] eqn:Hw; [|done].
    eexists. split; [done|]. destruct Hre as (_&Hb'&_). apply elem_of_Permutation in Hn as [k Hk].
    rewrite Hk in Hnd. apply NoDup_cons in Hnd as [Hnk Hk']. rewrite (Hcount _ k Hk').
    + rewrite Hb. assert (zlen out = 1 + zlen k) as ->; [|lia].
      rewrite <- (zlen_cons n). unfold zlen. by rewrite Hk.
    + intros m. rewrite Hb'. case_bool_decide; [subst; naive_solver|].
      rewrite <- Hout, Hk, elem_of_cons. naive_solver.
Qed.

Definition demo_pool : GeneralObjectPool Z := new (λ _, 7) (λ _, 0) 1 2.

Lemma object_pool_exclusive_witness :
  ∃ p, runs demo_pool [1%nat; 0%nat] p ∧ borrowed_count p = 2 ∧ borrow p = Err (Throw "Object pool is full").
Proof.
  assert (∃ p1 p, borrow demo_pool = Ok (0%nat, p1) ∧ borrow p1 = Ok (1%nat, p)) as (p1&p&H1&H2)
    by (eexists _, _; by vm_compute).
  assert (runs demo_pool [1%nat; 0%nat] p) as Hr.
  { eapply runs_borrow; [|exact H2]. eapply runs_borrow; [|exact H1]. apply runs_new. }
  exists p. split; [done|]. destruct (object_pool_exclusive (λ _, 7) (λ _, 0) 1 2 [1%nat; 0%nat] p Hr)
    as (_&Hb&_). split; [done|]. vm_compute in H1, H2. simplify_eq. by vm_compute.
Defined.
