(* ===== verification/WorkerPool.v ===== *)
(** The bounded blocking queue and the worker pool of the demo servers
    (src/demo/bounded_queue.hh, src/demo/worker_pool.hh).  A critical section
    is one step; a thread whose wait predicate is false blocks on the condition
    variable until it is notified or wakes spuriously. *)

From S2P Require Import Prelude.

(** * The queue *)

Record BoundedBlockingQueue (T : Type) : Type := mkBoundedBlockingQueue {
  q_ : list T;
  capacity_ : Z;
  closed_ : bool;
}.
Arguments mkBoundedBlockingQueue {T} _ _ _.
Arguments q_ {T} _.
Arguments capacity_ {T} _.
Arguments closed_ {T} _.

Module BoundedBlockingQueue.
Section queue.
Context {T : Type}.
Implicit Types q : BoundedBlockingQueue T.

Definition new (capacity : Z) : BoundedBlockingQueue T := mkBoundedBlockingQueue [] capacity false.

(** The critical section of [push]: [None] while the wait predicate is false,
    else what the call returns; the caller then notifies a consumer if the
    item was taken. *)
Definition push (item : T) q : option (bool * BoundedBlockingQueue T) :=
  if negb (bool_decide (zlen (q_ q) < capacity_ q) || closed_ q) then None
  else if closed_ q then Some (false, q)
  else Some (true, mkBoundedBlockingQueue (q_ q ++ [item]) (capacity_ q) (closed_ q)).

(** The critical section of [pop]; it notifies a producer if it took an item. *)
Definition pop q : option (option T * BoundedBlockingQueue T) :=
  if negb (bool_decide (q_ q ≠ []) || closed_ q) then None
  else
    match q_ q with
    | [] => Some (None, q)
    | item :: rest => Some (Some item, mkBoundedBlockingQueue rest (capacity_ q) (closed_ q))
    end.

(** [close] then notifies every waiter. *)
Definition close q : BoundedBlockingQueue T := mkBoundedBlockingQueue (q_ q) (capacity_ q) true.

End queue.
End BoundedBlockingQueue.
Import BoundedBlockingQueue.

(** * The threads *)

(** A worker's place in [run]. *)
Inductive worker (T : Type) : Type :=
  | Popping                (* about to take the lock in [pop] *)
  | Waiting                (* blocked on [not_empty_] *)
  | Handling (item : T)    (* in the handler *)
  | Exited.                (* [run] has returned *)
Arguments Popping {T}.
Arguments Waiting {T}.
Arguments Handling {T} item.
Arguments Exited {T}.

(** A call of [submit]. *)
Inductive submission (T : Type) : Type :=
  | Pushing (item : T)     (* about to take the lock in [push] *)
  | Blocked (item : T)     (* blocked on [not_full_] *)
  | Returned (accepted : bool).
Arguments Pushing {T} item.
Arguments Blocked {T} item.
Arguments Returned {T} accepted.

Record WorkerPool (T : Type) : Type := mkWorkerPool {
  queue_ : BoundedBlockingQueue T;
  workers_ : list (worker T);
  submissions_ : list (submission T);
  accepted_ : list T;   (* what [submit] took, in order *)
  handled_ : list T;    (* what handlers have finished, in order *)
  closing_ : nat;       (* calls of [close] between their critical section and [notify_all] *)
}.
Arguments mkWorkerPool {T} _ _ _ _ _ _.
Arguments queue_ {T} _.
Arguments workers_ {T} _.
Arguments submissions_ {T} _.
Arguments accepted_ {T} _.
Arguments handled_ {T} _.
Arguments closing_ {T} _.

Module WorkerPool.
Section pool.
Context {T : Type}.
Implicit Types (s : WorkerPool T) (ws : list (worker T)) (ps : list (submission T)).

Definition new (worker_count queue_capacity : Z) : WorkerPool T :=
  mkWorkerPool (BoundedBlockingQueue.new queue_capacity) (replicate (Z.to_nat worker_count) Popping) [] [] [] 0.

(** [notify_one] wakes some waiter if there is one. *)
Definition notify_worker ws ws' : Prop :=
  (ws' = ws ∧ ∀ i, ws !! i ≠ Some Waiting) ∨ (∃ i, ws !! i = Some Waiting ∧ ws' = <[i := Popping]> ws).
Definition notify_submission ps ps' : Prop :=
  (ps' = ps ∧ ∀ i x, ps !! i ≠ Some (Blocked x)) ∨
  (∃ i x, ps !! i = Some (Blocked x) ∧ ps' = <[i := Pushing x]> ps).

(** [notify_all]. *)
Definition wake_worker (w : worker T) : worker T := match w with Waiting => Popping | _ => w end.
Definition wake_submission (p : submission T) : submission T :=
  match p with Blocked x => Pushing x | _ => p end.

(** The steps the threads make by themselves.  A handler returns or throws;
    [run] catches the exception, so both end the item the same way. *)
Inductive step : WorkerPool T → WorkerPool T → Prop :=
  | step_take q ws ps acc hd cl i x q' ps' :
      ws !! i = Some Popping → pop q = Some (Some x, q') → notify_submission ps ps' →
      step (mkWorkerPool q ws ps acc hd cl) (mkWorkerPool q' (<[i := Handling x]> ws) ps' acc hd cl)
  | step_exit q ws ps acc hd cl i q' :
      ws !! i = Some Popping → pop q = Some (None, q') →
      step (mkWorkerPool q ws ps acc hd cl) (mkWorkerPool q' (<[i := Exited]> ws) ps acc hd cl)
  | step_wait q ws ps acc hd cl i :
      ws !! i = Some Popping → pop q = None →
      step (mkWorkerPool q ws ps acc hd cl) (mkWorkerPool q (<[i := Waiting]> ws) ps acc hd cl)
  | step_handled q ws ps acc hd cl i x :
      ws !! i = Some (Handling x) →
      step (mkWorkerPool q ws ps acc hd cl) (mkWorkerPool q (<[i := Popping]> ws) ps acc (hd ++ [x]) cl)
  | step_push q ws ps acc hd cl i x q' ws' :
      ps !! i = Some (Pushing x) → push x q = Some (true, q') → notify_worker ws ws' →
      step (mkWorkerPool q ws ps acc hd cl)
        (mkWorkerPool q' ws' (<[i := Returned true]> ps) (acc ++ [x]) hd cl)
  | step_reject q ws ps acc hd cl i x q' :
      ps !! i = Some (Pushing x) → push x q = Some (false, q') →
      step (mkWorkerPool q ws ps acc hd cl) (mkWorkerPool q' ws (<[i := Returned false]> ps) acc hd cl)
  | step_block q ws ps acc hd cl i x :
      ps !! i = Some (Pushing x) → push x q = None →
      step (mkWorkerPool q ws ps acc hd cl) (mkWorkerPool q ws (<[i := Blocked x]> ps) acc hd cl)
  | step_notify_all q ws ps acc hd cl :
      step (mkWorkerPool q ws ps acc hd (S cl))
        (mkWorkerPool q (wake_worker <$> ws) (wake_submission <$> ps) acc hd cl).

(** What the program around and the scheduler do: [submit] is called,
    [shutdown] closes the queue
    (its [notify_all] is a step of its own), a waiter wakes spuriously. *)
Inductive event : WorkerPool T → WorkerPool T → Prop :=
  | event_submit q ws ps acc hd cl x :
      event (mkWorkerPool q ws ps acc hd cl) (mkWorkerPool q ws (ps ++ [Pushing x]) acc hd cl)
  | event_close q ws ps acc hd cl :
      event (mkWorkerPool q ws ps acc hd cl)
        (mkWorkerPool (close q) ws ps acc hd (S cl))
  | event_wake_worker q ws ps acc hd cl i :
      ws !! i = Some Waiting →
      event (mkWorkerPool q ws ps acc hd cl) (mkWorkerPool q (<[i := Popping]> ws) ps acc hd cl)
  | event_wake_submission q ws ps acc hd cl i x :
      ps !! i = Some (Blocked x) →
      event (mkWorkerPool q ws ps acc hd cl) (mkWorkerPool q ws (<[i := Pushing x]> ps) acc hd cl).

Inductive reachable (worker_count queue_capacity : Z) : WorkerPool T → Prop :=
  | reachable_new : reachable worker_count queue_capacity (new worker_count queue_capacity)
  | reachable_step s s' :
      reachable worker_count queue_capacity s → step s s' → reachable worker_count queue_capacity s'
  | reachable_event s s' :
      reachable worker_count queue_capacity s → event s s' → reachable worker_count queue_capacity s'.

End pool.
End WorkerPool.
Import WorkerPool.

(** * The invariant *)

(** Counting threads of a kind. *)
Fixpoint count {A} (f : A → bool) (l : list A) : Z :=
  match l with [] => 0 | x :: l => Z.b2z (f x) + count f l end.

Lemma count_nonneg {A} (f : A → bool) l : 0 ≤ count f l.
Proof. induction l as [|x l IH]; simpl; [done|]. destruct (f x); simpl; lia. Qed.

Lemma count_insert {A} (f : A → bool) l i x y :
  l !! i = Some x → count f (<[i := y]> l) = count f l - Z.b2z (f x) + Z.b2z (f y).
Proof.
  revert i. induction l as [|z l IH]; intros [|i] Hi; try done; simpl in *.
  - injection Hi as ->. lia.
  - rewrite (IH i Hi). lia.
Qed.

Lemma count_app {A} (f : A → bool) l k : count f (l ++ k) = count f l + count f k.
Proof. induction l as [|x l IH]; simpl; lia. Qed.

Lemma count_pos {A} (f : A → bool) l i x : l !! i = Some x → f x = true → 1 ≤ count f l.
Proof.
  revert i. induction l as [|z l IH]; intros [|i] Hi Hx; try done; simpl in *.
  - injection Hi as ->. rewrite Hx. pose proof (count_nonneg f l). simpl. lia.
  - pose proof (IH i Hi Hx). destruct (f z); simpl; lia.
Qed.

Lemma count_0 {A} (f : A → bool) l : count f l = 0 → ∀ i x, l !! i = Some x → f x = false.
Proof.
  intros H0 i x Hi. destruct (f x) eqn:Hx; [|done]. pose proof (count_pos f l i x Hi Hx). lia.
Qed.

Lemma count_none {A} (f : A → bool) l : (∀ i x, l !! i = Some x → f x = false) → count f l = 0.
Proof.
  induction l as [|x l IH]; intros Hl; [done|]. simpl. rewrite (Hl 0%nat x) by done.
  rewrite IH; [done|]. intros i y Hi. by apply (Hl (S i)).
Qed.

Definition is_waiting {T} (w : worker T) : bool := match w with Waiting => true | _ => false end.
Definition is_popping {T} (w : worker T) : bool := match w with Popping => true | _ => false end.
Definition is_exited {T} (w : worker T) : bool := match w with Exited => true | _ => false end.
Definition is_blocked {T} (p : submission T) : bool := match p with Blocked _ => true | _ => false end.
Definition is_pushing {T} (p : submission T) : bool := match p with Pushing _ => true | _ => false end.

(** The items in the handlers. *)
Definition hand {T} (w : worker T) : list T := match w with Handling x => [x] | _ => [] end.
Definition in_hand {T} (ws : list (worker T)) : list T := ws ≫= hand.

Lemma in_hand_insert {T} (ws : list (worker T)) i w w' :
  ws !! i = Some w → hand w ++ in_hand (<[i := w']> ws) ≡ₚ hand w' ++ in_hand ws.
Proof.
  revert i. induction ws as [|v ws IH]; intros [|i] Hi; try done; unfold in_hand in *; simpl in *.
  - injection Hi as ->. solve_Permutation.
  - rewrite (Permutation_app_comm (hand v)), app_assoc, (IH i Hi). solve_Permutation.
Qed.

Section pool.
Context {T : Type} (worker_count queue_capacity : Z).
Implicit Types (s : WorkerPool T).

(** No wakeup is lost: while a worker waits, there are no more items than
    workers already awake to take them; while a submission is blocked, there
    is no more room than submissions awake to use it; and workers exit only
    once the queue is closed and empty. *)
Record pool_ok s : Prop := mkPoolOk {
  po_capacity : capacity_ (queue_ s) = queue_capacity;
  po_bound : zlen (q_ (queue_ s)) ≤ Z.max 0 queue_capacity;
  po_fifo : ∃ taken, accepted_ s = taken ++ q_ (queue_ s) ∧ taken ≡ₚ handled_ s ++ in_hand (workers_ s);
  po_workers : length (workers_ s) = Z.to_nat worker_count;
  po_waiting : closing_ s = 0%nat → 0 < count is_waiting (workers_ s) →
    closed_ (queue_ s) = false ∧ zlen (q_ (queue_ s)) ≤ count is_popping (workers_ s);
  po_blocked : closing_ s = 0%nat → 0 < count is_blocked (submissions_ s) →
    closed_ (queue_ s) = false ∧
    queue_capacity - zlen (q_ (queue_ s)) ≤ count is_pushing (submissions_ s);
  po_exited : 0 < count is_exited (workers_ s) → closed_ (queue_ s) = true ∧ q_ (queue_ s) = [];
}.

(** What the critical sections do. *)
Lemma pop_inv (q : BoundedBlockingQueue T) :
  match pop q with
  | Some (Some x, q') => q_ q = x :: q_ q' ∧ capacity_ q' = capacity_ q ∧ closed_ q' = closed_ q
  | Some (None, q') => q' = q ∧ q_ q = [] ∧ closed_ q = true
  | None => q_ q = [] ∧ closed_ q = false
  end.
Proof.
  unfold pop. rewrite bool_decide_ne_nil. by destruct q as [[|x l] cap []].
Qed.

Lemma push_inv x (q : BoundedBlockingQueue T) :
  match push x q with
  | Some (true, q') =>
      q_ q' = q_ q ++ [x] ∧ capacity_ q' = capacity_ q ∧ closed_ q' = false ∧ closed_ q = false ∧
      zlen (q_ q) < capacity_ q
  | Some (false, q') => q' = q ∧ closed_ q = true
  | None => closed_ q = false ∧ capacity_ q ≤ zlen (q_ q)
  end.
Proof.
  unfold push. case_bool_decide; destruct (closed_ q) eqn:Hc; cbn; try done; rewrite ?Hc; auto with lia.
Qed.

Lemma notify_worker_inv (ws ws' : list (worker T)) :
  notify_worker ws ws' →
  in_hand ws' ≡ₚ in_hand ws ∧ length ws' = length ws ∧ count is_exited ws' = count is_exited ws ∧
  ((ws' = ws ∧ count is_waiting ws = 0) ∨
   (count is_waiting ws' = count is_waiting ws - 1 ∧ count is_popping ws' = count is_popping ws + 1)).
Proof.
  intros [[-> Hn]|(i&Hi&->)].
  - split_and!; try done. left. split; [done|]. apply count_none. intros i [] Hi; try done. by destruct (Hn i).
  - split; [apply (in_hand_insert ws i Waiting Popping Hi)|]. split; [apply length_insert|].
    rewrite !(count_insert _ _ _ _ _ Hi). simpl. split; [lia|right; lia].
Qed.

Lemma notify_submission_inv (ps ps' : list (submission T)) :
  notify_submission ps ps' →
  (ps' = ps ∧ count is_blocked ps = 0) ∨
  (count is_blocked ps' = count is_blocked ps - 1 ∧ count is_pushing ps' = count is_pushing ps + 1).
Proof.
  intros [[-> Hn]|(i&x&Hi&->)].
  - left. split; [done|]. apply count_none. intros i [] Hi; try done. by destruct (Hn i item).
  - right. rewrite !(count_insert _ _ _ _ _ Hi). simpl. lia.
Qed.

Lemma notify_worker_total (ws : list (worker T)) : ∃ ws', notify_worker ws ws'.
Proof.
  destruct (decide (Exists (λ w, is_waiting w = true) ws)) as [He|Hn].
  - apply Exists_exists in He as (w&(i&Hi)%list_elem_of_lookup&Hw). destruct w; try done.
    exists (<[i := Popping]> ws). right. by exists i.
  - exists ws. left. split; [done|]. intros i Hi. apply Hn, Exists_exists. exists Waiting.
    split; [by eapply list_elem_of_lookup_2|done].
Qed.

Lemma notify_submission_total (ps : list (submission T)) : ∃ ps', notify_submission ps ps'.
Proof.
  destruct (decide (Exists (λ p, is_blocked p = true) ps)) as [He|Hn].
  - apply Exists_exists in He as (p&(i&Hi)%list_elem_of_lookup&Hp). destruct p as [|x|]; try done.
    exists (<[i := Pushing x]> ps). right. by exists i, x.
  - exists ps. left. split; [done|]. intros i x Hi. apply Hn, Exists_exists. exists (Blocked x).
    split; [by eapply list_elem_of_lookup_2|done].
Qed.

Lemma pool_new : pool_ok (WorkerPool.new worker_count queue_capacity).
Proof.
  assert (∀ f : worker T → bool, f Popping = false → count f (replicate (Z.to_nat worker_count) Popping) = 0) as H0.
  { intros f Hf. apply count_none. intros i w [-> _]%lookup_replicate. done. }
  split; cbn; rewrite ?H0 by done; try done; try lia; try (change (zlen (@nil T)) with 0; lia).
  - exists []. split; [done|]. unfold in_hand.
    assert (∀ n, replicate n (@Popping T) ≫= hand = []) as ->; [|done].
    intros n. induction n as [|n IH]; [done|exact IH].
  - by rewrite length_replicate.
Qed.

Lemma count_fmap {A B} (f : B → bool) (g : A → B) l : count f (g <$> l) = count (f ∘ g) l.
Proof. induction l as [|x l IH]; [done|]. rewrite fmap_cons. cbn [count]. by rewrite IH. Qed.

Lemma in_hand_wake (ws : list (worker T)) : in_hand (wake_worker <$> ws) = in_hand ws.
Proof.
  unfold in_hand. induction ws as [|w ws IH]; [done|]. rewrite fmap_cons, !bind_cons, IH. by destruct w.
Qed.

Lemma awake_workers (ws : list (worker T)) :
  count is_waiting (wake_worker <$> ws) = 0 ∧ count is_exited (wake_worker <$> ws) = count is_exited ws.
Proof.
  rewrite !count_fmap. split; [apply count_none; by intros i []|].
  induction ws as [|w ws IH]; [done|]. cbn [count]. rewrite IH. by destruct w.
Qed.

Lemma awake_submissions (ps : list (submission T)) : count is_blocked (wake_submission <$> ps) = 0.
Proof. rewrite count_fmap. apply count_none. by intros i []. Qed.

Ltac counts Hi := rewrite ?(count_insert _ _ _ _ _ Hi); cbn.

Lemma pool_step s s' : pool_ok s → step s s' → pool_ok s'.
Proof.
  intros [Hc Hb (taken&Hacc&Htk) Hl Hw Hbl He] Hs.
  destruct Hs as [q ws ps acc hd cl i x q' ps' Hi Hp Hn|q ws ps acc hd cl i q' Hi Hp|q ws ps acc hd cl i Hi Hp
    |q ws ps acc hd cl i x Hi|q ws ps acc hd cl i x q' ws' Hi Hp Hn|q ws ps acc hd cl i x q' Hi Hp
    |q ws ps acc hd cl i x Hi Hp|q ws ps acc hd cl]; cbn in *;
    try pose proof (pop_inv q) as Hq; try pose proof (push_inv x q) as Hq2; rewrite ?Hp in *.
  - destruct Hq as (Hq&Hq1&Hq2'). rewrite Hq, zlen_cons in *.
    pose proof (count_pos is_popping _ _ _ Hi eq_refl).
    pose proof (in_hand_insert ws i Popping (Handling x) Hi) as Hh. simpl in Hh.
    apply notify_submission_inv in Hn.
    split; cbn; rewrite ?length_insert, ?Hq1, ?Hq2'; counts Hi; try done; try lia.
    + exists (taken ++ [x]). rewrite <- app_assoc. split; [done|]. rewrite Htk, Hh. solve_Permutation.
    + intros Hz Hx. destruct Hw; [done|lia|]. split; [done|lia].
    + intros Hz Hx. destruct Hn as [[-> ?]|?]; [lia|]. destruct Hbl; [done|lia|]. split; [done|lia].
    + intros Hx. destruct He as [? [=]]; lia.
  - destruct Hq as (->&Hq&Hq1). 
    pose proof (in_hand_insert ws i Popping Exited Hi) as Hh. simpl in Hh.
    split; cbn; rewrite ?length_insert; counts Hi; try done; try lia.
    + exists taken. split; [done|]. by rewrite Hh.
    + intros Hz Hx. destruct Hw; [done|lia|congruence].
  - destruct Hq as (Hq&Hq1). pose proof (in_hand_insert ws i Popping Waiting Hi) as Hh. simpl in Hh.
    pose proof (count_pos is_popping _ _ _ Hi eq_refl).
    split; cbn; rewrite ?length_insert; counts Hi; try done; try lia.
    + exists taken. split; [done|]. by rewrite Hh.
    + intros _ _. rewrite Hq. split; [done|]. change (zlen (@nil T)) with 0. lia.
    + intros Hx. apply He. lia.
  - pose proof (in_hand_insert ws i (Handling x) Popping Hi) as Hh. simpl in Hh.
    split; cbn; rewrite ?length_insert; counts Hi; try done; try lia.
    + exists taken. split; [done|]. rewrite Htk, <- Hh. solve_Permutation.
    + intros Hz Hx. destruct Hw; [done|lia|]. split; [done|lia].
    + intros Hx. apply He. lia.
  - destruct Hq2 as (Hq1&Hq3&Hq4&Hq5&Hq6). apply notify_worker_inv in Hn as (Hh&Hlen&Hex&Hn).
    pose proof (count_pos is_pushing _ _ _ Hi eq_refl).
    split; cbn; rewrite ?Hlen, ?Hq1, ?zlen_app, ?Hex; counts Hi; try done; try lia;
      change (zlen [x]) with 1.
    + lia.
    + exists taken. rewrite Hacc, <- app_assoc. split; [done|]. by rewrite Hh.
    + intros Hz Hx. split; [done|]. destruct Hn as [[-> ?]|?]; [lia|]. destruct Hw; [done|lia|lia].
    + intros Hz Hx. split; [done|]. destruct Hbl; [done|lia|lia].
    + intros Hx. destruct He; [done|congruence].
  - destruct Hq2 as (->&Hq2).
    split; cbn; rewrite ?length_insert; counts Hi; try done; try lia; try (by exists taken).
    intros Hz Hx. destruct Hbl; [done|lia|congruence].
  - destruct Hq2 as (Hq1&Hq2). pose proof (count_pos is_pushing _ _ _ Hi eq_refl).
    split; cbn; rewrite ?length_insert; counts Hi; try done; try lia; try (by exists taken).
    intros _ _. split; [done|lia].
  - destruct (awake_workers ws) as [Hw0 He0].
    split; cbn [queue_ workers_ submissions_ accepted_ handled_ closing_]; try done.
    + exists taken. by rewrite in_hand_wake.
    + by rewrite length_fmap.
    + lia.
    + rewrite awake_submissions. lia.
    + rewrite He0. done.
Qed.

Lemma pool_event s s' : pool_ok s → event s s' → pool_ok s'.
Proof.
  intros [Hc Hb (taken&Hacc&Htk) Hl Hw Hbl He] Hs.
  destruct Hs as [q ws ps acc hd cl x|q ws ps acc hd cl|q ws ps acc hd cl i Hi|q ws ps acc hd cl i x Hi]; cbn in *.
  - split; cbn; rewrite ?count_app; cbn; rewrite ?Z.add_0_r; try done; [by exists taken|].
    intros Hz Hx. destruct Hbl; [done|lia|]. split; [done|lia].
  - split; cbn; try done; [by exists taken|]. intros Hx. split; [done|by apply He].
  - pose proof (in_hand_insert ws i Waiting Popping Hi) as Hh. simpl in Hh.
    split; cbn; rewrite ?length_insert; counts Hi; try done; try lia.
    + exists taken. split; [done|]. by rewrite Hh.
    + intros Hz Hx. destruct Hw; [done|lia|]. split; [done|lia].
    + intros Hx. apply He. lia.
  - split; cbn; counts Hi; try done; try lia; [by exists taken|].
    intros Hz Hx. destruct Hbl; [done|lia|]. split; [done|lia].
Qed.

Lemma reachable_pool_ok s : reachable worker_count queue_capacity s → pool_ok s.
Proof.
  induction 1; [apply pool_new|by eapply pool_step|by eapply pool_event].
Qed.

(** ** Progress *)

Definition quiescent s : Prop := ∀ s', ¬ step s s'.

Lemma popping_steps q ws ps acc hd cl i :
  ws !! i = Some (@Popping T) → ∃ s', step (mkWorkerPool q ws ps acc hd cl) s'.
Proof.
  intros Hi. destruct (pop q) as [[[x|] q']|] eqn:Hp.
  - destruct (notify_submission_total ps) as [ps' Hn]. eexists. by eapply step_take.
  - eexists. by eapply step_exit.
  - eexists. by eapply step_wait.
Qed.

Lemma pushing_steps q ws ps acc hd cl i x :
  ps !! i = Some (@Pushing T x) → ∃ s', step (mkWorkerPool q ws ps acc hd cl) s'.
Proof.
  intros Hi. destruct (push x q) as [[[] q']|] eqn:Hp.
  - destruct (notify_worker_total ws) as [ws' Hn]. eexists. by eapply step_push.
  - eexists. by eapply step_reject.
  - eexists. by eapply step_block.
Qed.

Lemma quiescent_threads s :
  quiescent s →
  closing_ s = 0%nat ∧
  count is_popping (workers_ s) = 0 ∧ in_hand (workers_ s) = [] ∧ count is_pushing (submissions_ s) = 0.
Proof.
  destruct s as [q ws ps acc hd cl]. intros Hq. cbn. split; [|split; [|split]].
  - destruct cl as [|cl]; [done|]. exfalso. eapply Hq. apply step_notify_all.
  - apply count_none. intros i [] Hi; try done. destruct (popping_steps q ws ps acc hd cl i Hi) as [s' Hs].
    by destruct (Hq s').
  - assert (∀ i x, ws !! i ≠ Some (Handling x)) as Hn.
    { intros i x Hi. eapply Hq. by eapply step_handled. }
    clear Hq. unfold in_hand. induction ws as [|w ws IH]; [done|]. cbn [mbind list_bind].
    rewrite IH by (intros i x; apply (Hn (S i))). destruct w; try done. by destruct (Hn 0%nat item).
  - apply count_none. intros i [] Hi; try done. destruct (pushing_steps q ws ps acc hd cl i item Hi) as [s' Hs].
    by destruct (Hq s').
Qed.

Lemma all_workers (ws : list (worker T)) :
  count is_popping ws = 0 → in_hand ws = [] →
  count is_waiting ws + count is_exited ws = zlen ws.
Proof.
  induction ws as [|w ws IH]; [done|]. unfold in_hand in *. cbn [count mbind list_bind]. rewrite zlen_cons.
  pose proof (count_nonneg is_popping ws). destruct w; cbn; intros; try done; specialize (IH ltac:(lia) ltac:(done)); lia.
Qed.

(** A pool at rest has done everything it accepted, holds nobody back, and
    after [close] every worker has left. *)
Lemma quiescent_done s :
  pool_ok s → 0 < worker_count → 0 < queue_capacity → quiescent s →
  q_ (queue_ s) = [] ∧ handled_ s ≡ₚ accepted_ s ∧ count is_blocked (submissions_ s) = 0 ∧
  (closed_ (queue_ s) = true → count is_exited (workers_ s) = worker_count).
Proof.
  intros [Hc Hb (taken&Hacc&Htk) Hl Hw Hbl He] Hwc Hcap Hq.
  destruct (quiescent_threads s Hq) as (H0&H1&H2&H3). specialize (Hw H0). specialize (Hbl H0). pose proof (all_workers _ H1 H2) as Hall.
  pose proof (count_nonneg is_waiting (workers_ s)). pose proof (count_nonneg is_exited (workers_ s)).
  pose proof (count_nonneg is_blocked (submissions_ s)).
  assert (zlen (workers_ s) = worker_count) as Hz by (unfold zlen; rewrite Hl; lia).
  assert (q_ (queue_ s) = []) as Hempty.
  { destruct (decide (0 < count is_waiting (workers_ s))) as [Hpos|Hpos].
    - destruct (Hw Hpos) as [_ Hx]. apply zlen_0. pose proof (zlen_nonneg (q_ (queue_ s))). lia.
    - apply He. lia. }
  split; [done|]. rewrite H2, app_nil_r in Htk. rewrite Hempty, app_nil_r in Hacc.
  split; [by rewrite Hacc, Htk|]. rewrite Hempty in Hbl. change (zlen (@nil T)) with 0 in Hbl. split.
  - destruct (decide (0 < count is_blocked (submissions_ s))) as [Hpos|Hpos]; [|lia].
    destruct (Hbl Hpos). lia.
  - intros Hcl. destruct (decide (0 < count is_waiting (workers_ s))) as [Hpos|Hpos]; [|lia].
    destruct (Hw Hpos). congruence.
Qed.

(** ** Termination *)

Definition worker_weight (w : worker T) : Z :=
  match w with Popping => 2 | Waiting => 1 | Handling _ => 3 | Exited => 0 end.
Definition submission_weight (p : submission T) : Z :=
  match p with Pushing _ => 5 | Blocked _ => 4 | Returned _ => 0 end.

Fixpoint total {A} (f : A → Z) (l : list A) : Z := match l with [] => 0 | x :: l => f x + total f l end.

Lemma total_insert {A} (f : A → Z) l i x y :
  l !! i = Some x → total f (<[i := y]> l) = total f l - f x + f y.
Proof.
  revert i. induction l as [|z l IH]; intros [|i] Hi; try done; simpl in *.
  - injection Hi as ->. lia.
  - rewrite (IH i Hi). lia.
Qed.

Lemma total_nonneg {A} (f : A → Z) l : (∀ x, 0 ≤ f x) → 0 ≤ total f l.
Proof. intros Hf. induction l as [|x l IH]; simpl; [done|]. specialize (Hf x). lia. Qed.

(** Work left, with the wakeups it can cause. *)
Definition work s : Z :=
  3 * zlen (q_ (queue_ s)) + total worker_weight (workers_ s) + total submission_weight (submissions_ s) +
  Z.of_nat (closing_ s) * (1 + zlen (workers_ s) + zlen (submissions_ s)).

Lemma work_nonneg s : 0 ≤ work s.
Proof.
  unfold work. pose proof (total_nonneg worker_weight (workers_ s)) as H1.
  pose proof (total_nonneg submission_weight (submissions_ s)) as H2.
  pose proof (zlen_nonneg (q_ (queue_ s))). pose proof (zlen_nonneg (workers_ s)).
  pose proof (zlen_nonneg (submissions_ s)). specialize (H1 ltac:(by intros [])). specialize (H2 ltac:(by intros [])). nia.
Qed.

Lemma total_wake (ws : list (worker T)) (ps : list (submission T)) :
  total worker_weight (wake_worker <$> ws) ≤ total worker_weight ws + zlen ws ∧
  total submission_weight (wake_submission <$> ps) ≤ total submission_weight ps + zlen ps.
Proof.
  split; [induction ws as [|w ws IH]|induction ps as [|p ps IH]]; try done;
    rewrite fmap_cons, zlen_cons; cbn [total]; [destruct w|destruct p]; cbn in *; lia.
Qed.

Lemma zlen_insert {A} (l : list A) i x : zlen (<[i := x]> l) = zlen l.
Proof. unfold zlen. by rewrite length_insert. Qed.

Lemma work_decreases s s' : step s s' → work s' < work s.
Proof.
  intros Hs. destruct Hs as [q ws ps acc hd cl i x q' ps' Hi Hp Hn|q ws ps acc hd cl i q' Hi Hp|q ws ps acc hd cl i Hi Hp
    |q ws ps acc hd cl i x Hi|q ws ps acc hd cl i x q' ws' Hi Hp Hn|q ws ps acc hd cl i x q' Hi Hp
    |q ws ps acc hd cl i x Hi Hp|q ws ps acc hd cl]; unfold work; cbn [queue_ workers_ submissions_ closing_];
    try pose proof (pop_inv q) as Hq; try pose proof (push_inv x q) as Hq2; rewrite ?Hp in *;
    rewrite ?zlen_insert, ?(total_insert _ _ _ _ _ Hi); cbn [worker_weight submission_weight]; try lia.
  - destruct Hq as (Hq&_). rewrite Hq, zlen_cons.
    destruct Hn as [[-> _]|(j&y&Hj&->)]; [lia|]. rewrite zlen_insert, (total_insert _ _ _ _ _ Hj). cbn. lia.
  - destruct Hq as (->&_). lia.
  - destruct Hq2 as (Hq3&_). rewrite Hq3, zlen_app. change (zlen [x]) with 1.
    destruct Hn as [[-> _]|(j&Hj&->)]; [lia|]. rewrite zlen_insert, (total_insert _ _ _ _ _ Hj). cbn. lia.
  - destruct Hq2 as (->&_). lia.
  - rewrite !zlen_fmap. pose proof (total_wake ws ps). lia.
Qed.

Lemma steps_terminate s : Acc (λ a b, step b a) s.
Proof.
  remember (Z.to_nat (work s)) as n eqn:Hn. revert s Hn.
  induction (lt_wf n) as [n _ IH]. intros s ->. constructor. intros s' Hs.
  pose proof (work_decreases s s' Hs). pose proof (work_nonneg s').
  apply (IH (Z.to_nat (work s'))); [lia|done].
Qed.

Lemma reachable_rtc s s' :
  reachable worker_count queue_capacity s → rtc step s s' → reachable worker_count queue_capacity s'.
Proof. intros Hs. induction 1 as [|a b c Hab _ IH]; [done|]. apply IH. by eapply reachable_step. Qed.
End pool.

(** * Properties *)

(** In every interleaving, the queue never holds more than its capacity,
    items leave it in the order [submit] accepted them, and each accepted item
    is in the queue, in one worker's hands or handled: none is lost or handled
    twice; and no wakeup is lost: while a worker waits on the condition
    variable, no more items are queued than workers already woken for them,
    and the same for submissions and free places, and no thread
    waits on a closed queue once [close] has notified. *)
Theorem worker_pool_safety {T} worker_count queue_capacity (s : WorkerPool T) :
  reachable worker_count queue_capacity s →
  zlen (q_ (queue_ s)) ≤ Z.max 0 queue_capacity ∧
  (∃ taken, accepted_ s = taken ++ q_ (queue_ s) ∧ taken ≡ₚ handled_ s ++ in_hand (workers_ s)) ∧
  (closing_ s = 0%nat → 0 < count is_waiting (workers_ s) →
    closed_ (queue_ s) = false ∧ zlen (q_ (queue_ s)) ≤ count is_popping (workers_ s)) ∧
  (closing_ s = 0%nat → 0 < count is_blocked (submissions_ s) →
    closed_ (queue_ s) = false ∧
    queue_capacity - zlen (q_ (queue_ s)) ≤ count is_pushing (submissions_ s)).
Proof. intros Hr. destruct (reachable_pool_ok _ _ s Hr). done. Qed.

(** C27: [shutdown] drains the pool and returns: from any reachable state the
    threads' own steps come to an end, and when they do, every accepted item
    has been handled, no submission is still blocked, and, if the queue was
    closed, every worker has left [run], so that joining them succeeds. *)
Theorem worker_pool_shutdown {T} worker_count queue_capacity (s : WorkerPool T) :
  0 < worker_count → 0 < queue_capacity → reachable worker_count queue_capacity s →
  Acc (λ a b, step b a) s ∧
  ∀ s', rtc step s s' → quiescent s' →
    q_ (queue_ s') = [] ∧ handled_ s' ≡ₚ accepted_ s' ∧ count is_blocked (submissions_ s') = 0 ∧
    (closed_ (queue_ s') = true → count is_exited (workers_ s') = worker_count).
Proof.
  intros Hw Hc Hr. split; [apply steps_terminate|]. intros s' Hs Hq.
  apply (quiescent_done worker_count queue_capacity); try done.
  by apply reachable_pool_ok, (reachable_rtc _ _ s).
Qed.

(** One worker, one place: a submission is taken, the queue is closed. *)
Definition demo_pool_state : WorkerPool Z :=
  mkWorkerPool (mkBoundedBlockingQueue [7] 1 true) [Popping] [Returned true] [7] [] 1.

Lemma demo_pool_reachable : reachable 1 1 demo_pool_state.
Proof.
  eapply (reachable_event _ _ (mkWorkerPool (mkBoundedBlockingQueue [7] 1 false) [Popping] [Returned true] [7] [] 0));
    [|apply event_close].
  eapply (reachable_step _ _ (mkWorkerPool (mkBoundedBlockingQueue [] 1 false) [Waiting] [Pushing 7] [] [] 0)).
  2: { apply (step_push _ [Waiting] [Pushing 7] [] [] 0 0 7 _ [Popping]); [done|done|]. right. by exists 0%nat. }
  eapply (reachable_event _ _ (mkWorkerPool (mkBoundedBlockingQueue [] 1 false) [Waiting] [] [] [] 0));
    [|apply (event_submit _ _ [])].
  eapply reachable_step; [apply reachable_new|]. by apply (step_wait _ [Popping] [] [] [] 0 0).
Qed.

Lemma worker_pool_safety_witness :
  zlen (q_ (queue_ demo_pool_state)) ≤ Z.max 0 1 ∧
  ∃ taken, accepted_ demo_pool_state = taken ++ [7] ∧
    taken ≡ₚ handled_ demo_pool_state ++ in_hand (workers_ demo_pool_state).
Proof.
  destruct (worker_pool_safety 1 1 demo_pool_state demo_pool_reachable) as (Hb&Hf&_). by split.
Defined.

Lemma worker_pool_shutdown_witness :
  ∃ s', rtc step demo_pool_state s' ∧ handled_ s' ≡ₚ [7] ∧ count is_exited (workers_ s') = 1.
Proof.
  set (s' := mkWorkerPool (mkBoundedBlockingQueue [] 1 true) [Exited] [Returned true] [7] [7] 0 : WorkerPool Z).
  assert (rtc step demo_pool_state s') as Hs.
  { eapply rtc_l; [apply (step_take _ [Popping] _ _ _ _ 0 7 (mkBoundedBlockingQueue [] 1 true) [Returned true]);
      [done|done|left; split; [done|intros [|[|i]] x; done]]|].
    eapply rtc_l; [by apply (step_handled _ [Handling 7] _ _ _ _ 0 7)|].
    eapply rtc_l; [by apply (step_exit _ [Popping] _ _ _ _ 0 (mkBoundedBlockingQueue [] 1 true))|].
    eapply rtc_l; [apply step_notify_all|]. apply rtc_refl. }
  destruct (worker_pool_shutdown 1 1 demo_pool_state) as [_ Hq]; [done|done|apply demo_pool_reachable|].
  exists s'. split; [exact Hs|]. destruct (Hq s' Hs) as (_&Hh&_&Hx).
  - intros s2 H2. inversion H2; subst; simplify_list_eq; try done;
      match goal with H : [_] !! ?i = Some _ |- _ => destruct i as [|[|?]]; done end.
  - split; [exact Hh|]. by apply Hx.
Defined.
