(* ===== verification/Protocol.v ===== *)
(** The length-prefixed messages of the demo (src/demo/protocol.hh), their
    handling (src/demo/server_handler.hh), and the blocking server's loop over
    one connection (src/demo/server.cpp). *)

From S2P Require Import Prelude.

(** * Messages *)

(** [enum class MessageType : uint32_t]: any 32-bit value is one of the type. *)
Definition MessageType : Type := Z.
Definition Echo : MessageType := 1.
Definition Time : MessageType := 2.
Definition Quit : MessageType := 3.
Definition Error : MessageType := 999.

Record Message : Type := mkMessage {
  type : MessageType;
  body : bytes;
}.

Inductive ParseResult : Type :=
  | ParseOk (msg : Message)   (* [Ok], with the message stored *)
  | NeedMore
  | Invalid.

Definition kMaxMessageSize : Z := 1024 * 1024.

(** The bytes of [htonl( v )] in memory, and back. *)
Definition htonl (v : Z) : bytes :=
  byte_of_Z <$> [v / 2 ^ 24; v / 2 ^ 16; v / 2 ^ 8; v].
Definition ntohl (s : bytes) : Z :=
  foldl (λ acc b, 2 ^ 8 * acc + byte_to_Z b) 0 s.

Definition encode_message (msg : Message) : bytes :=
  if bool_decide (kMaxMessageSize < zlen (body msg)) then []
  else htonl (u32 (type msg)) ++ htonl (u32 (zlen (body msg))) ++ body msg.

Definition header_size : Z := 4 * 2.

(** The result and what is left of the buffer. *)
Definition try_parse_message (buffer : bytes) : ParseResult * bytes :=
  if bool_decide (zlen buffer < header_size) then (NeedMore, buffer)
  else
    let type := ntohl (ztake 4 buffer) in
    let len := ntohl (ztake 4 (zdrop 4 buffer)) in
    if bool_decide (kMaxMessageSize < len) then (Invalid, buffer)
    else if bool_decide (zlen buffer < header_size + len) then (NeedMore, buffer)
    else
      (ParseOk (mkMessage type (ztake len (zdrop header_size buffer))),
       zdrop (header_size + len) buffer).

(** * The server *)

Definition literal (s : string) : bytes := String.list_byte_of_string s.

Record Serving : Type := mkServing {
  read_buffer : bytes;
  write_buffer : bytes;
  closing : bool;
  sent : bytes;      (* all that [write] has taken *)
  writes : nat;      (* calls of [write] so far *)
}.

(** How [serve_client] ends: the loop is left, an exception is caught, or it
    waits in [read] for more input. *)
Inductive ending : Type :=
  | Closed
  | Caught (e : exn)
  | Reading.

Section server.

(** The environment: the text of [std::ctime] for the current time, and how
    many bytes of its argument the n-th [write] takes. *)
Variable ctime : bytes.
Variable write : nat → bytes → Z.

Definition handle_message (msg : Message) : Message :=
  if bool_decide (type msg = Echo) then mkMessage Echo (body msg)
  else if bool_decide (type msg = Time) then mkMessage Time ctime
  else if bool_decide (type msg = Quit) then mkMessage Quit (literal "bye")
  else mkMessage Error (literal "unknown message type").

(** The loop over the complete messages of the read buffer; every round takes
    at least a header off it.  A loop returns the exception it ends in, if
    any, and the state it leaves. *)
Fixpoint parse_loop (fuel : nat) (s : Serving) : option exn * Serving :=
  match fuel with
  | O => (Some OutOfFuel, s)
  | S fuel =>
      match try_parse_message (read_buffer s) with
      | (ParseOk msg, rest) =>
          let reply := handle_message msg in
          let written := write_buffer s ++ encode_message reply in
          if bool_decide (type msg = Quit) then (None, mkServing rest written true (sent s) (writes s))
          else parse_loop fuel (mkServing rest written (closing s) (sent s) (writes s))
      | (NeedMore, _) => (None, s)
      | (Invalid, _) => (Some (Throw "malformed frame"), s)
      end
  end.

(** The loop that writes the buffer out. *)
Fixpoint write_loop (fuel : nat) (s : Serving) : option exn * Serving :=
  match fuel with
  | O => (Some OutOfFuel, s)
  | S fuel =>
      if bool_decide (write_buffer s = []) then (None, s)
      else
        let n := write (writes s) (write_buffer s) in
        if bool_decide (n = 0) then
          (Some (Throw "write returned 0 on blocking socket"),
           mkServing (read_buffer s) (write_buffer s) (closing s) (sent s) (S (writes s)))
        else
          write_loop fuel
            (mkServing (read_buffer s) (zdrop n (write_buffer s)) (closing s)
               (sent s ++ ztake n (write_buffer s)) (S (writes s)))
  end.

(** What a round does with a non-empty chunk. *)
Definition serve_chunk (chunk : bytes) (s : Serving) : option exn * Serving :=
  let s := mkServing (read_buffer s ++ chunk) (write_buffer s) (closing s) (sent s) (writes s) in
  match parse_loop (S (length (read_buffer s))) s with
  | (None, s) => write_loop (S (length (write_buffer s))) s
  | (Some e, s) => (Some e, s)
  end.

(** [serve_client], given what each [read] yields and whether the socket is
    then at its end. *)
Fixpoint serve_loop (reads : list (bytes * bool)) (s : Serving) : ending * Serving :=
  if closing s then (Closed, s)
  else
    match reads with
    | [] => (Reading, s)
    | (chunk, eof) :: reads =>
        if bool_decide (chunk = []) then
          if (eof : bool) then (Closed, s) else serve_loop reads s
        else
          match serve_chunk chunk s with
          | (None, s) => serve_loop reads s
          | (Some e, s) => (Caught e, s)
          end
    end.

Definition serve_client (reads : list (bytes * bool)) : ending * Serving :=
  serve_loop reads (mkServing [] [] false [] 0).

End server.

(** * Framing *)

Definition msg_ok (msg : Message) : Prop := is_u32 (type msg) ∧ zlen (body msg) ≤ kMaxMessageSize.

Lemma zlen_htonl v : zlen (htonl v) = 4.
Proof. done. Qed.

Lemma ntohl_htonl v : ntohl (htonl v) = u32 v.
Proof. unfold ntohl, htonl. cbn [foldl fmap list_fmap]. rewrite !byte_to_of_Z. word. Qed.

Lemma encode_ok msg :
  msg_ok msg → encode_message msg = htonl (type msg) ++ htonl (zlen (body msg)) ++ body msg.
Proof.
  intros [Ht Hb]. unfold encode_message. rewrite bool_decide_false by lia.
  rewrite !u32_small; [done| |done]. unfold kMaxMessageSize in Hb. zword.
Qed.

Lemma zlen_encode msg : msg_ok msg → zlen (encode_message msg) = header_size + zlen (body msg).
Proof. intros Hm. rewrite encode_ok, !zlen_app, !zlen_htonl by done. unfold header_size. lia. Qed.

(** A header and what follows it. *)
Lemma parse_header t len rest :
  is_u32 t → is_u32 len →
  try_parse_message (htonl t ++ htonl len ++ rest) =
  if bool_decide (kMaxMessageSize < len) then (Invalid, htonl t ++ htonl len ++ rest)
  else if bool_decide (zlen rest < len) then (NeedMore, htonl t ++ htonl len ++ rest)
  else (ParseOk (mkMessage t (ztake len rest)), zdrop len rest).
Proof.
  intros Ht Hl. unfold try_parse_message, header_size.
  assert (ztake 4 (htonl t ++ htonl len ++ rest) = htonl t) as ->
    by (rewrite <- (zlen_htonl t) at 1; apply ztake_app_zlen).
  assert (zdrop 4 (htonl t ++ htonl len ++ rest) = htonl len ++ rest) as Hd
    by (rewrite <- (zlen_htonl t) at 1; apply zdrop_app_zlen).
  rewrite Hd.
  assert (ztake 4 (htonl len ++ rest) = htonl len) as ->
    by (rewrite <- (zlen_htonl len) at 1; apply ztake_app_zlen).
  rewrite !ntohl_htonl, !u32_small by done.
  assert (zdrop (4 * 2) (htonl t ++ htonl len ++ rest) = rest) as Hr.
  { change (4 * 2) with (4 + 4). rewrite <- zdrop_zdrop, Hd by done.
    rewrite <- (zlen_htonl len) at 1. apply zdrop_app_zlen. }
  rewrite bool_decide_false by (rewrite !zlen_app, !zlen_htonl; zlen).
  case_bool_decide; [done|].
  rewrite (bool_decide_ext (zlen (htonl t ++ htonl len ++ rest) < 4 * 2 + len) (zlen rest < len))
    by (rewrite !zlen_app, !zlen_htonl; split; lia).
  case_bool_decide; [done|].
  rewrite <- zdrop_zdrop, !Hr; [done|unfold is_u32 in Hl; lia..].
Qed.

Lemma parse_encode msg rest :
  msg_ok msg → try_parse_message (encode_message msg ++ rest) = (ParseOk msg, rest).
Proof.
  intros Hm. pose proof Hm as [Ht Hb]. rewrite encode_ok, <- !app_assoc by done.
  rewrite parse_header; [|done|unfold kMaxMessageSize in Hb; zword].
  rewrite !bool_decide_false by zlen. rewrite ztake_app_zlen, zdrop_app_zlen. by destruct msg.
Qed.

(** Four bytes are those of the number they stand for. *)
Lemma htonl_ntohl s : zlen s = 4 → is_u32 (ntohl s) ∧ htonl (ntohl s) = s.
Proof.
  intros Hs. destruct s as [|a [|b [|c [|d [|e s]]]]]; try (exfalso; revert Hs; zlen).
  unfold ntohl, htonl. cbn [foldl fmap list_fmap].
  pose proof (byte_to_Z_range a). pose proof (byte_to_Z_range b). pose proof (byte_to_Z_range c).
  pose proof (byte_to_Z_range d).
  assert (∀ z x, u8 z = byte_to_Z x → byte_of_Z z = x) as Hb.
  { intros z x Hz. rewrite <- (byte_of_to_Z x), <- Hz. unfold byte_of_Z. by rewrite (u8_small (u8 z)) by apply u8_range. }
  split; [unfold is_u8, is_u32 in *; lia|]. repeat f_equal; apply Hb; unfold is_u8 in *; word.
Qed.

(** A message that is parsed was encoded. *)
Lemma parse_inverse buffer msg rest :
  try_parse_message buffer = (ParseOk msg, rest) → msg_ok msg ∧ buffer = encode_message msg ++ rest.
Proof.
  unfold try_parse_message, header_size. case_bool_decide as Hs; [done|].
  destruct (htonl_ntohl (ztake 4 buffer)) as [Ht1 Ht2]; [zlen|].
  destruct (htonl_ntohl (ztake 4 (zdrop 4 buffer))) as [Hl1 Hl2]; [zlen|].
  set (t := ntohl (ztake 4 buffer)) in *. set (len := ntohl (ztake 4 (zdrop 4 buffer))) in *.
  case_bool_decide as Hmax; [done|]. case_bool_decide as Hlen; [done|]. intros [= <- <-].
  clearbody t len. unfold is_u32 in Hl1. change (4 * 2) with 8 in *.
  assert (zlen (ztake len (zdrop 8 buffer)) = len) as Hbody by zlen.
  assert (msg_ok (mkMessage t (ztake len (zdrop 8 buffer)))) as Hm by (split; cbn; [done|lia]).
  split; [done|]. rewrite encode_ok by done. cbn [type body]. rewrite Hbody, Ht2, Hl2, <- !app_assoc.
  rewrite <- (ztake_zdrop 4 buffer) at 1. f_equal. rewrite <- (ztake_zdrop 4 (zdrop 4 buffer)) at 1. f_equal.
  rewrite <- (zdrop_zdrop len 8), (zdrop_zdrop 4 4) by lia. symmetry. apply ztake_zdrop.
Qed.

(** A malformed buffer stays malformed. *)
Lemma invalid_app buffer more :
  (try_parse_message buffer).1 = Invalid → (try_parse_message (buffer ++ more)).1 = Invalid.
Proof.
  unfold try_parse_message, header_size. case_bool_decide as Hs; [done|]. case_bool_decide as Hm; [|by case_bool_decide].
  intros _. rewrite bool_decide_false by zlen. rewrite (zdrop_app_le 4), !ztake_app_le by zlen. by rewrite bool_decide_true.
Qed.

Definition needs_more (buffer : bytes) : Prop := try_parse_message buffer = (NeedMore, buffer).

(** A buffer that waits for more waited at every earlier moment too. *)
Lemma needs_more_prefix buffer more : needs_more (buffer ++ more) → needs_more buffer.
Proof.
  unfold needs_more, try_parse_message, header_size.
  destruct (decide (zlen buffer < 4 * 2)) as [Hs|Hs]; [by rewrite (bool_decide_true (zlen buffer < 4 * 2))|].
  rewrite !bool_decide_false by zlen. rewrite zdrop_app_le, !ztake_app_le by zlen.
  case_bool_decide; [done|]. case_bool_decide; [|done]. intros _.
  by rewrite (bool_decide_false (zlen buffer < 4 * 2)), bool_decide_true by zlen.
Qed.

Lemma encode_prefix msg buffer more :
  msg_ok msg → more ≠ [] → buffer ++ more = encode_message msg → needs_more buffer.
Proof.
  intros Hm Hne He. pose proof Hm as [Ht Hb].
  assert (0 < zlen more) by (destruct more; [done|zlen]).
  unfold needs_more, try_parse_message. case_bool_decide as Hs; [done|].
  pose proof (zlen_encode msg Hm) as Hl. rewrite <- He in Hl.
  pose proof (parse_encode msg [] Hm) as Hp. rewrite app_nil_r, <- He in Hp.
  revert Hp. unfold try_parse_message, header_size in *.
  rewrite bool_decide_false by zlen. rewrite (zdrop_app_le 4), !ztake_app_le by zlen.
  case_bool_decide; [done|]. case_bool_decide; [done|]. intros [= <- Hd].
  rewrite bool_decide_true; [done|]. cbn [body] in Hl.
  revert Hl. set (len := ntohl _) in *. intros Hl. zlen.
Qed.

(** A buffer that begins a stream of messages holds the first one or waits. *)
Lemma first_message m buffer more rest :
  msg_ok m → buffer ++ more = encode_message m ++ rest →
  (∃ k, buffer = encode_message m ++ k ∧ k ++ more = rest) ∨ needs_more buffer ∧ more ≠ [].
Proof.
  intros Hm Hin. apply app_eq_inv in Hin as [(k&->&Hk)|(k&Hr&Hk)]; [left; by exists k|].
  destruct k as [|b k]; [left; exists []; rewrite app_nil_r in *; by subst|right].
  split; [by apply (encode_prefix m _ (b :: k))|by subst].
Qed.

(** * The server *)

(** The messages the server answers: those up to the first [Quit]. *)
Fixpoint until_quit (ms : list Message) : list Message :=
  match ms with
  | [] => []
  | m :: ms => if bool_decide (type m = Quit) then [m] else m :: until_quit ms
  end.
Definition quits (ms : list Message) : bool := bool_decide (Exists (λ m, type m = Quit) ms).

Lemma quits_cons m ms : quits (m :: ms) = bool_decide (type m = Quit) || quits ms.
Proof.
  unfold quits. rewrite (bool_decide_ext _ (type m = Quit ∨ Exists (λ m, type m = Quit) ms)).
  - apply bool_decide_or.
  - apply Exists_cons.
Qed.

Lemma until_quit_app ms ms' :
  until_quit (ms ++ ms') = until_quit ms ++ (if quits ms then [] else until_quit ms').
Proof.
  induction ms as [|m ms IH]; [done|]. cbn [app until_quit]. rewrite IH, quits_cons.
  by case_bool_decide.
Qed.

Lemma quits_app ms ms' : quits (ms ++ ms') = quits ms || quits ms'.
Proof. induction ms as [|m ms IH]; [done|]. cbn [app]. by rewrite !quits_cons, IH, orb_assoc. Qed.

Lemma handle_ok ctime m : zlen ctime ≤ kMaxMessageSize → msg_ok m → msg_ok (handle_message ctime m).
Proof.
  intros Hct [Ht Hb]. unfold handle_message. repeat case_bool_decide; split; done.
Qed.

Section serving.
Context (ctime : bytes) (write : nat → bytes → Z).
(** A blocking [write] takes at least one byte and at most all. *)
Hypothesis write_ok : ∀ n s, s ≠ [] → 1 ≤ write n s ≤ zlen s.

Definition replies (ms : list Message) : bytes :=
  concat (encode_message ∘ handle_message ctime <$> until_quit ms).

Lemma write_loop_ok fuel s :
  (length (write_buffer s) < fuel)%nat →
  ∃ n, write_loop write fuel s =
    (None, mkServing (read_buffer s) [] (closing s) (sent s ++ write_buffer s) n).
Proof.
  revert s. induction fuel as [|fuel IH]; intros s Hf; [lia|]. cbn [write_loop].
  case_bool_decide as Hw.
  - exists (writes s). destruct s; cbn in *. subst. by rewrite app_nil_r.
  - pose proof (write_ok (writes s) _ Hw). rewrite bool_decide_false by lia.
    destruct (IH (mkServing (read_buffer s) (zdrop (write (writes s) (write_buffer s)) (write_buffer s))
      (closing s) (sent s ++ ztake (write (writes s) (write_buffer s)) (write_buffer s)) (S (writes s))))
      as [n Hn].
    + cbn [write_buffer]. unfold zdrop. rewrite length_drop. unfold zlen in *. lia.
    + exists n. rewrite Hn. cbn. by rewrite <- app_assoc, ztake_zdrop.
Qed.

(** The parsing loop consumes the complete messages of the buffer, up to a
    [Quit], and nothing of an incomplete one. *)
Lemma parse_loop_ok fuel s more ms tail :
  (length (read_buffer s) < fuel)%nat → closing s = false → Forall msg_ok ms → needs_more tail →
  read_buffer s ++ more = concat (encode_message <$> ms) ++ tail →
  ∃ ms1 ms2 rest, ms = ms1 ++ ms2 ∧
    parse_loop ctime fuel s =
      (None, mkServing rest (write_buffer s ++ replies ms1) (quits ms1) (sent s) (writes s)) ∧
    (quits ms1 = false → needs_more rest ∧ rest ++ more = concat (encode_message <$> ms2) ++ tail).
Proof.
  revert s ms. induction fuel as [|fuel IH]; intros s ms Hf Hc Hms Ht Hin; [lia|]. cbn [parse_loop].
  assert (needs_more (read_buffer s) → ∃ ms1 ms2 rest, ms = ms1 ++ ms2 ∧
    match try_parse_message (read_buffer s) with
    | (NeedMore, _) => (None, s)
    | _ => (Some OutOfFuel, s)
    end = (None, mkServing rest (write_buffer s ++ replies ms1) (quits ms1) (sent s) (writes s)) ∧
    (quits ms1 = false → needs_more rest ∧ rest ++ more = concat (encode_message <$> ms2) ++ tail)) as Hstop.
  { intros Hn. exists [], ms, (read_buffer s). split; [done|]. rewrite Hn. unfold replies. cbn.
    rewrite app_nil_r. split; [|done]. destruct s; cbn in *. by subst. }
  destruct ms as [|m ms].
  { cbn in Hin. subst tail. pose proof (needs_more_prefix _ _ Ht) as Hn. pose proof (Hstop Hn) as Hs.
    by rewrite Hn in *. }
  apply Forall_cons in Hms as [Hm Hms]. cbn [fmap list_fmap concat] in Hin. rewrite <- app_assoc in Hin.
  destruct (first_message _ _ _ _ Hm Hin) as [(k&Hr&Hk)|[Hn _]].
  2: { pose proof (Hstop Hn) as Hs. by rewrite Hn in *. }
  clear Hstop. rewrite Hr, parse_encode by done. unfold replies. case_bool_decide as Hq.
  - exists [m], ms, k. split; [done|]. rewrite quits_cons. cbn [until_quit].
    rewrite !(bool_decide_true (type m = Quit)) by done. cbn. by rewrite app_nil_r.
  - edestruct (IH (mkServing k (write_buffer s ++ encode_message (handle_message ctime m))
      (closing s) (sent s) (writes s)) ms) as (ms1&ms2&rest&->&Hp&Hrest); [|done..|].
    + cbn [read_buffer]. pose proof (zlen_encode m Hm). unfold zlen, header_size in *.
      rewrite Hr, length_app in Hf. lia.
    + exists (m :: ms1), ms2, rest. split; [done|]. rewrite Hp. cbn [write_buffer sent writes until_quit].
      rewrite quits_cons, !(bool_decide_false (type m = Quit)) by done.
      split; [|done]. cbn. unfold replies.
      by rewrite app_assoc.
Qed.

(** A round on a chunk answers the messages it completes. *)
Lemma serve_chunk_ok chunk s more ms tail :
  write_buffer s = [] → closing s = false → Forall msg_ok ms → needs_more tail →
  read_buffer s ++ chunk ++ more = concat (encode_message <$> ms) ++ tail →
  ∃ ms1 ms2 rest n, ms = ms1 ++ ms2 ∧
    serve_chunk ctime write chunk s =
      (None, mkServing rest [] (quits ms1) (sent s ++ replies ms1) n) ∧
    (quits ms1 = false → needs_more rest ∧ rest ++ more = concat (encode_message <$> ms2) ++ tail).
Proof.
  intros Hw Hc Hms Ht Hin. unfold serve_chunk.
  set (s1 := mkServing (read_buffer s ++ chunk) _ _ _ _).
  destruct (parse_loop_ok (S (length (read_buffer s1))) s1 more ms tail) as (ms1&ms2&rest&->&->&Hrest);
    [lia|done|done|done|subst s1; cbn; by rewrite <- app_assoc|].
  edestruct write_loop_ok as [n ->]; [|exists ms1, ms2, rest, n]; [cbn; lia|].
  cbn. by rewrite Hw.
Qed.

Lemma replies_app ms1 ms2 : quits ms1 = false → replies (ms1 ++ ms2) = replies ms1 ++ replies ms2.
Proof. intros Hq. unfold replies. by rewrite until_quit_app, Hq, fmap_app, concat_app. Qed.

Lemma replies_quit ms1 ms2 : quits ms1 = true → replies (ms1 ++ ms2) = replies ms1.
Proof. intros Hq. unfold replies. by rewrite until_quit_app, Hq, app_nil_r. Qed.

Lemma serve_loop_closing reads s : closing s = true → serve_loop ctime write reads s = (Closed, s).
Proof. intros Hc. destruct reads; cbn [serve_loop]; by rewrite Hc. Qed.

Lemma needs_more_nil_messages ms tail :
  Forall msg_ok ms → needs_more (concat (encode_message <$> ms) ++ tail) → ms = [].
Proof.
  destruct ms as [|m ms]; [done|]. intros [Hm _]%Forall_cons. cbn. rewrite <- app_assoc.
  unfold needs_more. by rewrite parse_encode.
Qed.

Lemma serve_loop_ok reads s ms tail :
  Forall (λ r, r.1 = [] → r.2 = false) reads → Forall msg_ok ms → needs_more tail →
  write_buffer s = [] → closing s = false → needs_more (read_buffer s) →
  read_buffer s ++ concat (reads.*1) = concat (encode_message <$> ms) ++ tail →
  ∃ s', serve_loop ctime write (reads ++ [([], true)]) s = (Closed, s') ∧
    write_buffer s' = [] ∧ sent s' = sent s ++ replies ms ∧ closing s' = quits ms ∧
    (quits ms = false → read_buffer s' = tail).
Proof.
  intros Hr. revert s ms. induction Hr as [|[chunk eof] reads Hr _ IH]; intros s ms Hms Ht Hw Hc Hn Hin.
  - exists s. cbn in *. rewrite app_nil_r in Hin. rewrite Hin in Hn.
    apply needs_more_nil_messages in Hn as ->; [|done]. rewrite Hc.
    unfold replies. cbn. by rewrite app_nil_r.
  - cbn [app serve_loop]. rewrite Hc. cbn in Hr, Hin. destruct (decide (chunk = [])) as [->|Hne].
    { rewrite bool_decide_true, Hr by done. by apply IH. }
    rewrite bool_decide_false by done.
    destruct (serve_chunk_ok chunk s (concat reads.*1) ms tail)
      as (ms1&ms2&rest&n&->&->&Hrest); [done..|].
    destruct (quits ms1) eqn:Hq.
    + rewrite serve_loop_closing by done. eexists. split; [done|]. cbn.
      rewrite replies_quit, quits_app, Hq by done. by split_and!.
    + destruct (Hrest eq_refl) as [Hn' Hin']. apply Forall_app in Hms as [_ Hms].
      destruct (IH (mkServing rest [] false (sent s ++ replies ms1) n) ms2)
        as (s'&->&Hw'&Hs'&Hc'&Hr'); [done..|].
      exists s'. rewrite replies_app, quits_app, Hq, Hs' by done. cbn. by rewrite app_assoc.
Qed.
End serving.

(** ** Properties *)

(** The framing of the demo protocol: a message of at most 1 MiB, encoded
    and followed by anything, is parsed back and taken off the buffer; every
    proper prefix of its encoding only asks for more and leaves the buffer as
    it is; a header that announces a longer message is rejected whatever
    follows, and a longer message is not encoded; so a buffer that waits for
    more never exceeds one message. *)
Theorem message_framing msg rest len :
  msg_ok msg → kMaxMessageSize < len → is_u32 len →
  try_parse_message (encode_message msg ++ rest) = (ParseOk msg, rest) ∧
  (∀ buffer more, more ≠ [] → buffer ++ more = encode_message msg →
    try_parse_message buffer = (NeedMore, buffer)) ∧
  (∀ t, is_u32 t → (try_parse_message (htonl t ++ htonl len ++ rest)).1 = Invalid) ∧
  (∀ t body, len = zlen body → encode_message (mkMessage t body) = []) ∧
  (∀ buffer, (try_parse_message buffer).1 = NeedMore → zlen buffer < header_size + kMaxMessageSize).
Proof.
  intros Hm Hl Hl32. split; [by apply parse_encode|]. split.
  { intros buffer more. by apply encode_prefix. }
  split; [intros t Ht; by rewrite parse_header, bool_decide_true|].
  split; [intros t b ->; unfold encode_message; by rewrite bool_decide_true|].
  intros buffer. unfold try_parse_message, kMaxMessageSize, header_size.
  repeat case_bool_decide; cbn; intros; try done; lia.
Qed.

Lemma message_framing_witness :
  let msg := mkMessage Echo (literal "hi") in
  let len := kMaxMessageSize + 1 in
  try_parse_message (encode_message msg ++ literal "x") = (ParseOk msg, literal "x") ∧
  try_parse_message (ztake 9 (encode_message msg)) = (NeedMore, ztake 9 (encode_message msg)) ∧
  (try_parse_message (htonl 1 ++ htonl len ++ [])).1 = Invalid.
Proof.
  intros msg len.
  destruct (message_framing msg (literal "x") len) as (H1&H2&_); [by split; vm_compute|done|by split; vm_compute|].
  destruct (message_framing msg [] len) as (_&_&H3&_); [by split; vm_compute|done|by split; vm_compute|].
  split; [exact H1|]. split; [by apply (H2 _ (literal "i"))|]. by apply H3.
Defined.

(** C32: the blocking server answers the stream of messages, however the network
    cut it into chunks: for any messages followed by an incomplete one and the
    end of the stream, read in any non-empty pieces and between reads that
    yield nothing, and however little each [write] takes, [serve_client] ends,
    without an exception, having written the encoded replies in order, up to
    and including that to the first [Quit]. *)
Theorem server_replies ctime write reads ms tail :
  zlen ctime ≤ kMaxMessageSize → (∀ n s, s ≠ [] → 1 ≤ write n s ≤ zlen s) →
  Forall (λ r, r.1 = [] → r.2 = false) reads → Forall msg_ok ms → needs_more tail →
  concat (reads.*1) = concat (encode_message <$> ms) ++ tail →
  ∃ s', serve_client ctime write (reads ++ [([], true)]) = (Closed, s') ∧ write_buffer s' = [] ∧
    sent s' = concat (encode_message ∘ handle_message ctime <$> until_quit ms) ∧
    Forall msg_ok (handle_message ctime <$> ms) ∧ closing s' = quits ms ∧
    (quits ms = false → read_buffer s' = tail).
Proof.
  intros Hct Hwr Hr Hms Ht Hin.
  destruct (serve_loop_ok ctime write Hwr reads (mkServing [] [] false [] 0) ms tail)
    as (s'&Hs&Hw&Hsent&Hrest); [done..|].
  exists s'. split; [done|]. split; [done|]. split; [done|]. split; [|done].
  apply Forall_fmap. eapply Forall_impl; [exact Hms|]. intros m Hm. by apply handle_ok.
Qed.

(** Two messages in three pieces, written a byte at a time. *)
Lemma server_replies_witness :
  let ms := [mkMessage Echo (literal "hi"); mkMessage Quit []] in
  let input := concat (encode_message <$> ms) in
  let reads := [(ztake 3 input, false); ([], false); (ztake 10 (zdrop 3 input), false); (zdrop 13 input, false)] in
  ∃ s', serve_client [] (λ _ _, 1) (reads ++ [([], true)]) = (Closed, s') ∧
    sent s' = encode_message (mkMessage Echo (literal "hi")) ++ encode_message (mkMessage Quit (literal "bye")).
Proof.
  intros ms input reads.
  destruct (server_replies [] (λ _ _, 1) reads ms []) as (s'&Hs&_&Hsent&_).
  - done.
  - intros _ [|b s] Hs; [done|]. rewrite zlen_cons. pose proof (zlen_nonneg s). lia.
  - by repeat constructor.
  - by repeat constructor.
  - done.
  - by vm_compute.
  - exists s'. split; [exact Hs|]. by rewrite Hsent.
Defined.
