(* ===== verification/Effects.v ===== *)
(** Effects of code that runs against the operating system: a computation that
    changes a state and returns or throws, keeping the state it left when it
    throws; what system calls answer; and how such computations are reasoned
    about. *)

From S2P Require Import Prelude.

(** * Computations *)

Definition eff (S A : Type) : Type := S → result A * S.

#[export] Instance eff_ret {S} : MRet (eff S) := λ A a s, (Ok a, s).
#[export] Instance eff_bind {S} : MBind (eff S) :=
  λ A B f m s, match m s with (Ok a, s) => f a s | (Err e, s) => (Err e, s) end.
#[export] Instance eff_throw {S} : MThrow exn (eff S) := λ A e s, (Err e, s).

Definition get_state {S} : eff S S := λ s, (Ok s, s).
Definition gets {S A} (f : S → A) : eff S A := λ s, (Ok (f s), s).
Definition modify {S} (f : S → S) : eff S () := λ s, (Ok (), f s).
Definition lift {S A} (m : result A) : eff S A := λ s, (m, s).
Definition when {S} (b : bool) (m : eff S ()) : eff S () := if b then m else mret ().

(** [try { m } catch ( const exception& ) { }]: the exception is logged. *)
Definition swallow {S} (m : eff S ()) : eff S () := λ s, (Ok (), (m s).2).

(** * System calls *)

(** A call returns a value or fails and sets [errno]. *)
Inductive syscall (A : Type) : Type :=
  | Returned (a : A)
  | Failed (errno : Z).
Arguments Returned {A} a.
Arguments Failed {A} errno.

Definition EINTR : Z := 4.
Definition EBADF : Z := 9.
Definition EAGAIN : Z := 11.
Definition ENOTSOCK : Z := 88.
Definition EINPROGRESS : Z := 115.

(** [unix_error], of which the model keeps what was attempted. *)
Definition unix_error (attempt : string) : exn := Throw attempt.

(** [CheckSystemCall] of exception.hh. *)
Definition CheckSystemCall {S} (attempt : string) (reply : syscall Z) : eff S Z :=
  match reply with
  | Returned n => mret n
  | Failed _ => mthrow (unix_error attempt)
  end.

(** * Reasoning *)

Lemma bind_eq {S A B} (m : eff S A) (f : A → eff S B) s :
  (m ≫= f) s = match m s with (Ok a, s) => f a s | (Err e, s) => (Err e, s) end.
Proof. done. Qed.

(** Runs the primitives at the front of a computation. *)
Ltac eff_run :=
  repeat (rewrite bind_eq; cbv beta iota delta [mret eff_ret gets modify get_state lift when]);
  cbv beta iota delta [mret eff_ret mthrow eff_throw].

(** [keeps R m]: every run of [m], also one that throws, moves the state
    along [R]. *)
Definition keeps {S A} (R : relation S) (m : eff S A) : Prop := ∀ s, R s (m s).2.

Section keeps.
Context {S : Type} (R : relation S) `{!PreOrder R}.

Lemma keeps_ret {A} (a : A) : keeps R (mret a).
Proof. intros s. done. Qed.
Lemma keeps_throw {A} (e : exn) : keeps R (mthrow e : eff S A).
Proof. intros s. done. Qed.
Lemma keeps_gets {A} (f : S → A) : keeps R (gets f).
Proof. intros s. done. Qed.
Lemma keeps_lift {A} (m : result A) : keeps R (lift m).
Proof. intros s. done. Qed.
Lemma keeps_modify f : (∀ s, R s (f s)) → keeps R (modify f).
Proof. intros Hf s. apply Hf. Qed.
Lemma keeps_bind {A B} (m : eff S A) (f : A → eff S B) :
  keeps R m → (∀ a, keeps R (f a)) → keeps R (m ≫= f).
Proof.
  intros Hm Hf s. rewrite bind_eq. specialize (Hm s). destruct (m s) as [[a|e] s']; [|done].
  transitivity s'; [done|apply Hf].
Qed.
Lemma keeps_when b m : keeps R m → keeps R (when b m).
Proof. intros Hm. destruct b; [done|apply keeps_ret]. Qed.
Lemma keeps_swallow m : keeps R m → keeps R (swallow m).
Proof. intros Hm s. apply Hm. Qed.
End keeps.

(** [post m s Q]: the run of [m] from [s] ends in an outcome and state that
    satisfy [Q]. *)
Definition post {S A} (m : eff S A) (s : S) (Q : result A → S → Prop) : Prop := Q (m s).1 (m s).2.

Lemma post_bind {S A B} (m : eff S A) (f : A → eff S B) s Q :
  post m s (λ r s', match r with Ok a => post (f a) s' Q | Err e => Q (Err e) s' end) →
  post (m ≫= f) s Q.
Proof. unfold post. rewrite bind_eq. by destruct (m s) as [[a|e] s']. Qed.

Lemma post_mono {S A} (m : eff S A) s (Q Q' : result A → S → Prop) :
  post m s Q → (∀ r s', Q r s' → Q' r s') → post m s Q'.
Proof. unfold post. auto. Qed.

(** A call whose result is not used. *)
Lemma swallow_result {S A} (m : eff S A) s : (swallow (_ ← m; mret ()) s).2 = (m s).2.
Proof. unfold swallow. cbn [snd]. rewrite bind_eq. by destruct (m s) as [[a|e] s'].  Qed.

Create HintDb keeps discriminated.
#[export] Hint Resolve keeps_ret keeps_throw keeps_gets keeps_lift keeps_bind keeps_when keeps_swallow : keeps.
