(* ===== verification/Errors.v ===== *)
(** Exceptions in full and debugging output (src/util/exception.hh,
    src/util/debug.hh and debug.cc).  The other files keep of a system error
    what was attempted; here it has its text and its number, and the two are
    related.  The text the system has for a number is a parameter. *)

From stdpp Require Import strings.
From S2P Require Import Prelude Effects.

(** * exception.hh *)

Record tagged_error : Type := mkTaggedError {
  attempt_and_error_ : string;
  error_code_ : Z;
}.

Section errors.
(** [category.message( n )]. *)
Context (message : Z → string).

Definition make_tagged (s_attempt : string) (error_code : Z) : tagged_error :=
  mkTaggedError (s_attempt +:+ ": " +:+ message error_code) error_code.
Definition what (e : tagged_error) : string := attempt_and_error_ e.
Definition error_code (e : tagged_error) : Z := error_code_ e.

(** [unix_error], in the category of the system. *)
Definition make_unix (s_attempt : string) (s_errno : Z) : tagged_error := make_tagged s_attempt s_errno.

(** A C function returns a number and has set [errno]. *)
Definition check_system_call (s_attempt : string) (errno return_value : Z) : tagged_error + Z :=
  if bool_decide (return_value >= 0) then inr return_value else inl (make_unix s_attempt errno).

(** [notnull], of a plain or a smart pointer. *)
Definition notnull {T} (context : string) (x : option T) : string + T :=
  match x with Some x => inr x | None => inl (context +:+ ": returned null pointer") end.

(** [demangle], given what [abi::__cxa_demangle] stores and returns. *)
Definition demangle (cxa_demangle : string → Z * string) (name : string) : string + string :=
  let '(status, res) := cxa_demangle name in
  if bool_decide (status ≠ 0) then inl "cxa_demangle" else inr res.

(** A reply as the C function gives it. *)
Definition reply_of (errno return_value : Z) : syscall Z :=
  if bool_decide (return_value >= 0) then Returned return_value else Failed errno.

(** An exception of the other files stands for this one. *)
Definition stands_for (e : tagged_error) (x : exn) : Prop := ∃ attempt n, e = make_unix attempt n ∧ x = unix_error attempt.

(** What is kept of a checked call is faithful: it succeeds with the same
    number, or fails with an exception that stands for the one thrown, whose
    text begins with what was attempted and whose number is [errno]. *)
Theorem check_system_call_refined {S} (s : S) attempt errno return_value :
  match check_system_call attempt errno return_value with
  | inr n => n = return_value ∧ CheckSystemCall attempt (reply_of errno n) s = (Ok n, s)
  | inl e => error_code e = errno ∧ what e = attempt +:+ ": " +:+ message errno ∧
      ∃ x, stands_for e x ∧ CheckSystemCall attempt (reply_of errno return_value) s = (Err x, s)
  end.
Proof.
  unfold check_system_call, reply_of. case_bool_decide as Hn; [by rewrite bool_decide_true|].
  split_and!; [done|done|]. exists (unix_error attempt). split; [by exists attempt, errno|done].
Qed.
End errors.

(** * debug.hh *)

(** Whom a message goes to: the terminal, by the default handler, or a
    handler that was set, with its argument. *)
Inductive handler (A : Type) : Type :=
  | default_debug_handler
  | custom (h : nat).
Arguments default_debug_handler {A}.
Arguments custom {A} h.

(** The two globals. *)
Record globals (A : Type) : Type := mkGlobals {
  debug_handler : handler A;
  debug_arg : option A;
}.
Arguments mkGlobals {A} _ _.
Arguments debug_handler {A} _.
Arguments debug_arg {A} _.

Section debug.
Context {A : Type}.

Definition initial : globals A := mkGlobals default_debug_handler None.

(** The call of the handler. *)
Definition debug_str (msg : string) (g : globals A) : handler A * option A * string := (debug_handler g, debug_arg g, msg).
Definition set_debug_handler (h : handler A) (arg : option A) (g : globals A) : globals A := mkGlobals h arg.
Definition reset_debug_handler (g : globals A) : globals A := mkGlobals default_debug_handler (debug_arg g).

Inductive call : Type :=
  | Debug (msg : string)
  | SetHandler (h : handler A) (arg : option A)
  | ResetHandler.

Fixpoint run (cs : list call) (g : globals A) : list (handler A * option A * string) * globals A :=
  match cs with
  | [] => ([], g)
  | Debug msg :: cs => let '(out, g') := run cs g in (debug_str msg g :: out, g')
  | SetHandler h arg :: cs => run cs (set_debug_handler h arg g)
  | ResetHandler :: cs => run cs (reset_debug_handler g)
  end.

(** A scope that sets a handler and resets it when it is left, as a test does:
    its messages go to that handler with its argument, and those after it to the
    terminal, whatever happened before; the argument stays behind. *)
Theorem debug_scope before h arg msgs after :
  let '(_, g) := run before initial in
  let '(out, g') := run (SetHandler h arg :: (Debug <$> msgs) ++ ResetHandler :: (Debug <$> after)) g in
  out = ((λ msg, (h, arg, msg)) <$> msgs) ++ ((λ msg, (default_debug_handler, arg, msg)) <$> after) ∧
  g' = mkGlobals default_debug_handler arg.
Proof.
  destruct (run before initial) as [o g]. cbn [run]. unfold set_debug_handler.
  assert (∀ ms rest g0, run ((Debug <$> ms) ++ rest) g0 =
    (((λ msg, debug_str msg g0) <$> ms) ++ (run rest g0).1, (run rest g0).2)) as Hrun.
  { intros ms rest g0. induction ms as [|m ms IH]; [apply surjective_pairing|].
    rewrite !fmap_cons, <- !app_comm_cons. cbn [run]. by rewrite IH. }
  rewrite Hrun. cbn [run fst snd]. rewrite <- (app_nil_r (Debug <$> after)), Hrun. cbn. by rewrite app_nil_r.
Qed.
End debug.
