(* ===== verification/FileDescriptor.v ===== *)
(** Handles on kernel file descriptors (src/util/file_descriptor.hh,
    src/util/file_descriptor.cc): the wrapper with its flags and counters, the
    reads and writes through it, and the sharing of a wrapper by handles. *)

From S2P Require Import Prelude Ref Effects.

(** * The wrapper *)

Record FDWrapper : Type := mkFDWrapper {
  fd_ : Z;
  eof_ : bool;
  closed_ : bool;
  non_blocking_ : bool;
  read_count_ : Z;
  write_count_ : Z;
}.

Definition O_NONBLOCK : Z := 2048.

(** How the kernel scatters the bytes it read over buffers of given sizes. *)
Fixpoint scatter (data : bytes) (buffers : list bytes) : list bytes :=
  match buffers with
  | [] => []
  | buf :: rest =>
      (ztake (zlen buf) data ++ zdrop (zlen data) buf) :: scatter (zdrop (zlen buf) data) rest
  end.

Module FileDescriptor.

Definition kReadBufferSize : Z := 16384.

Definition with_eof (w : FDWrapper) : FDWrapper :=
  mkFDWrapper (fd_ w) true (closed_ w) (non_blocking_ w) (read_count_ w) (write_count_ w).
Definition with_closed (w : FDWrapper) : FDWrapper :=
  mkFDWrapper (fd_ w) true true (non_blocking_ w) (read_count_ w) (write_count_ w).
Definition with_non_blocking (b : bool) (w : FDWrapper) : FDWrapper :=
  mkFDWrapper (fd_ w) (eof_ w) (closed_ w) b (read_count_ w) (write_count_ w).

(** The counters are [unsigned]. *)
Definition register_read : eff FDWrapper () :=
  modify (λ w, mkFDWrapper (fd_ w) (eof_ w) (closed_ w) (non_blocking_ w) (u32 (read_count_ w + 1)) (write_count_ w)).
Definition register_write : eff FDWrapper () :=
  modify (λ w, mkFDWrapper (fd_ w) (eof_ w) (closed_ w) (non_blocking_ w) (read_count_ w) (u32 (write_count_ w + 1))).

(** Nothing to read, or an operation under way, on a non-blocking descriptor. *)
Definition would_block (errno : Z) (w : FDWrapper) : bool :=
  non_blocking_ w && (bool_decide (errno = EAGAIN) || bool_decide (errno = EINPROGRESS)).

Definition CheckSystemCall (attempt : string) (reply : syscall Z) : eff FDWrapper Z :=
  match reply with
  | Returned n => mret n
  | Failed errno =>
      b ← gets (would_block errno);
      if (b : bool) then mret 0 else mthrow (unix_error attempt)
  end.

(** The constructor, from what [fcntl( F_GETFL )] answers. *)
Definition make (fd : Z) (getfl : syscall Z) : result FDWrapper :=
  if bool_decide (fd < 0) then Err (Throw "invalid fd number")
  else
    let w := mkFDWrapper fd false false false 0 0 in
    match CheckSystemCall "fcntl" getfl w with
    | (Ok flags, w) => Ok (with_non_blocking (bool_decide (Z.land flags O_NONBLOCK ≠ 0)) w)
    | (Err e, _) => Err e
    end.

Definition close (reply : syscall Z) : eff FDWrapper () :=
  CheckSystemCall "close" reply ;; modify with_closed.

(** The destructor closes the descriptor unless that was done, and throws
    nothing. *)
Definition destroy (reply : syscall Z) : eff FDWrapper () :=
  swallow (b ← gets closed_; if (b : bool) then mret () else close reply).

(** [void read( string& buffer )]: [sys_read] answers with the bytes the
    kernel stores when asked for that many; the result is the new buffer. *)
Definition read (sys_read : Z → syscall bytes) (buffer : bytes) : eff FDWrapper bytes :=
  let buffer := if bool_decide (buffer = []) then resize kReadBufferSize buffer else buffer in
  match sys_read (zlen buffer) with
  | Failed errno =>
      b ← gets (would_block errno);
      if (b : bool) then mret [] else mthrow (unix_error "read")
  | Returned data =>
      register_read ;;
      when (bool_decide (zlen data = 0)) (modify with_eof) ;;
      if bool_decide (zlen data > zlen buffer) then mthrow (Throw "read() read more than requested")
      else mret (resize (zlen data) (data ++ zdrop (zlen data) buffer))
  end.

(** The loop that cuts the buffers to what was read. *)
Fixpoint cut (remaining_size : Z) (buffers : list bytes) : list bytes :=
  match buffers with
  | [] => []
  | buf :: rest =>
      if bool_decide (remaining_size >= zlen buf) then buf :: cut (remaining_size - zlen buf) rest
      else resize remaining_size buf :: cut 0 rest
  end.

(** [buffers.back().clear(); buffers.back().resize( kReadBufferSize );] *)
Definition widen_back (buffers : list bytes) : list bytes :=
  removelast buffers ++ [resize kReadBufferSize []].

(** [void read( vector<string>& buffers )]: [sys_readv] answers with the bytes
    stored when asked to fill buffers of these sizes. *)
Definition readv (sys_readv : list Z → syscall bytes) (buffers : list bytes) : eff FDWrapper (list bytes) :=
  if bool_decide (buffers = []) then mret buffers
  else
    let buffers := widen_back buffers in
    let total_size := zlen (concat buffers) in
    match sys_readv (zlen <$> buffers) with
    | Failed errno =>
        b ← gets (would_block errno);
        if (b : bool) then mret [] else mthrow (unix_error "read")
    | Returned data =>
        register_read ;;
        if bool_decide (zlen data > total_size) then mthrow (Throw "read() read more than requested")
        else mret (cut (zlen data) (scatter data buffers))
    end.

(** [size_t write( const vector<string_view>& buffers )]. *)
Definition writev (sys_writev : list bytes → syscall Z) (buffers : list bytes) : eff FDWrapper Z :=
  let total_size := zlen (concat buffers) in
  bytes_written ← CheckSystemCall "writev" (sys_writev buffers);
  register_write ;;
  if bool_decide (bytes_written = 0) && bool_decide (total_size ≠ 0)
  then mthrow (Throw "write returned 0 given non-empty input buffer")
  else if bool_decide (bytes_written > total_size)
  then mthrow (Throw "write wrote more than length of input buffer")
  else mret bytes_written.

Definition write (sys_writev : list bytes → syscall Z) (buffer : bytes) : eff FDWrapper Z :=
  writev sys_writev [buffer].
Definition write_refs (sys_writev : list bytes → syscall Z) (buffers : list (Ref bytes)) : eff FDWrapper Z :=
  writev sys_writev (Ref.get <$> buffers).

(** [void set_blocking( bool blocking )]; [setfl] answers [fcntl( F_SETFL )]. *)
Definition set_blocking (blocking : bool) (getfl : syscall Z) (setfl : Z → syscall Z) : eff FDWrapper () :=
  flags ← CheckSystemCall "fcntl" getfl;
  let flags :=
    if blocking then Z.lxor flags (Z.land flags O_NONBLOCK) else Z.lor flags O_NONBLOCK in
  _ ← CheckSystemCall "fcntl" (setfl flags);
  modify (with_non_blocking (negb blocking)).

Definition fd_num (w : FDWrapper) : Z := fd_ w.
Definition eof (w : FDWrapper) : bool := eof_ w.
Definition closed (w : FDWrapper) : bool := closed_ w.
Definition read_count (w : FDWrapper) : Z := read_count_ w.
Definition write_count (w : FDWrapper) : Z := write_count_ w.

End FileDescriptor.

(** * Shared handles *)

(** [FileDescriptor] objects share a wrapper through a [shared_ptr]: the
    wrappers alive with their reference counts, and the closes that succeeded. *)
Record handles : Type := mkHandles {
  wrappers : gmap nat (FDWrapper * nat);
  next_wrapper : nat;
  closes : list nat;
}.

Module Handle.

Definition none : handles := mkHandles ∅ 0 [].

Definition update (id : nat) (w : FDWrapper) (n : nat) (h : handles) : handles :=
  mkHandles (<[id := (w, n)]> (wrappers h)) (next_wrapper h) (closes h).

(** A call of [close(2)] for a wrapper that turned from open to closed. *)
Definition record_close (id : nat) (w w' : FDWrapper) (h : handles) : handles :=
  mkHandles (wrappers h) (next_wrapper h)
    (if negb (closed_ w) && closed_ w' then closes h ++ [id] else closes h).

(** Construction, [duplicate], the calls on a handle, and destruction of a
    handle, the last one of which destroys the wrapper. *)
Inductive step (h : handles) : handles → Prop :=
  | step_make fd getfl w :
      FileDescriptor.make fd getfl = Ok w →
      step h (mkHandles (<[next_wrapper h := (w, 1%nat)]> (wrappers h)) (S (next_wrapper h)) (closes h))
  | step_duplicate id w n :
      wrappers h !! id = Some (w, n) → step h (update id w (S n) h)
  | step_read id w n sys_read buffer :
      wrappers h !! id = Some (w, n) →
      step h (update id (FileDescriptor.read sys_read buffer w).2 n h)
  | step_readv id w n sys_readv buffers :
      wrappers h !! id = Some (w, n) →
      step h (update id (FileDescriptor.readv sys_readv buffers w).2 n h)
  | step_writev id w n sys_writev buffers :
      wrappers h !! id = Some (w, n) →
      step h (update id (FileDescriptor.writev sys_writev buffers w).2 n h)
  | step_set_blocking id w n b getfl setfl :
      wrappers h !! id = Some (w, n) →
      step h (update id (FileDescriptor.set_blocking b getfl setfl w).2 n h)
  | step_close id w n reply :
      wrappers h !! id = Some (w, n) → closed_ w = false →
      let w' := (FileDescriptor.close reply w).2 in
      step h (record_close id w w' (update id w' n h))
  | step_release id w n :
      wrappers h !! id = Some (w, S (S n)) → step h (update id w (S n) h)
  | step_destroy id w fd :
      wrappers h !! id = Some (w, 1%nat) →
      let w' := (FileDescriptor.destroy (Returned fd) w).2 in
      step h (record_close id w w' (mkHandles (delete id (wrappers h)) (next_wrapper h) (closes h))).

End Handle.

(** * What the calls do *)

(** A non-blocking descriptor with nothing to do. *)
Definition blocks (errno : Z) : Prop := errno = EAGAIN ∨ errno = EINPROGRESS.
#[export] Instance blocks_dec errno : Decision (blocks errno) := ltac:(unfold blocks; apply _).

Lemma would_block_eq errno w :
  FileDescriptor.would_block errno w = non_blocking_ w && bool_decide (blocks errno).
Proof.
  unfold FileDescriptor.would_block. f_equal.
  case_bool_decide as H1; cbn; [by rewrite bool_decide_true by (by left)|].
  case_bool_decide as H2; [by rewrite bool_decide_true by (by right)|].
  by rewrite bool_decide_false by (by intros [?|?]).
Qed.

Definition counted_read (w : FDWrapper) : FDWrapper := (FileDescriptor.register_read w).2.
Definition counted_write (w : FDWrapper) : FDWrapper := (FileDescriptor.register_write w).2.

Lemma cut_0 buffers : concat (FileDescriptor.cut 0 buffers) = [].
Proof.
  induction buffers as [|buf rest IH]; [done|]. cbn [FileDescriptor.cut]. case_bool_decide as Hb.
  - assert (buf = []) as -> by (apply zlen_0; zlen). done.
  - cbn [concat]. rewrite resize_le, ztake_0, IH by zlen. done.
Qed.

(** What the kernel scattered and the loop cut is what was read. *)
Lemma cut_scatter data buffers :
  zlen data ≤ zlen (concat buffers) → concat (FileDescriptor.cut (zlen data) (scatter data buffers)) = data.
Proof.
  revert data. induction buffers as [|buf rest IH]; intros data Hl.
  { cbn in *. symmetry. apply zlen_0. zlen. }
  cbn [scatter FileDescriptor.cut concat] in *. rewrite zlen_app in Hl.
  assert (zlen (ztake (zlen buf) data ++ zdrop (zlen data) buf) = zlen buf) as Hb by zlen. rewrite Hb.
  case_bool_decide as Hd; cbn [concat].
  - assert (zlen data - zlen buf = zlen (zdrop (zlen buf) data)) as -> by zlen.
    rewrite IH, (zdrop_ge (zlen data) buf), app_nil_r by zlen. apply ztake_zdrop.
  - rewrite cut_0, app_nil_r, (ztake_ge (zlen buf) data) by lia.
    rewrite resize_le by zlen. apply ztake_app_zlen.
Qed.

Lemma zlen_widen_back buffers : buffers ≠ [] →
  zlen (concat (FileDescriptor.widen_back buffers)) =
  zlen (concat (removelast buffers)) + FileDescriptor.kReadBufferSize.
Proof. intros _. unfold FileDescriptor.widen_back. by rewrite concat_app, zlen_app. Qed.

(** Nothing but [close] and the destructor closes a descriptor, and nothing
    changes its number. *)
Definition same_descriptor (w w' : FDWrapper) : Prop := closed_ w' = closed_ w ∧ fd_ w' = fd_ w.

#[export] Instance same_descriptor_preorder : PreOrder same_descriptor.
Proof. split; [done|]. intros ? ? ? [] []. split; congruence. Qed.

Lemma keeps_or_block {A} errno (a : A) (e : exn) :
  keeps same_descriptor
    (b ← gets (FileDescriptor.would_block errno); if (b : bool) then mret a else mthrow e).
Proof. intros w. rewrite bind_eq. cbv beta iota delta [gets]. by destruct (FileDescriptor.would_block errno w). Qed.

Lemma keeps_check attempt reply : keeps same_descriptor (FileDescriptor.CheckSystemCall attempt reply).
Proof. destruct reply; [by intros w|apply keeps_or_block]. Qed.

Lemma keeps_counted {A} (m : eff FDWrapper A) :
  keeps same_descriptor m → keeps same_descriptor (FileDescriptor.register_read ;; m).
Proof. intros Hm. apply keeps_bind; [apply _|by intros w|done]. Qed.

Lemma keeps_read sys_read buffer : keeps same_descriptor (FileDescriptor.read sys_read buffer).
Proof.
  unfold FileDescriptor.read. destruct (sys_read _) as [data|errno]; [|apply keeps_or_block].
  apply keeps_counted, keeps_bind; [apply _|by intros w; case_bool_decide|].
  intros _ w. by case_bool_decide.
Qed.

Lemma keeps_readv sys_readv buffers : keeps same_descriptor (FileDescriptor.readv sys_readv buffers).
Proof.
  unfold FileDescriptor.readv. case_bool_decide; [by intros w|].
  destruct (sys_readv _) as [data|errno]; [|apply keeps_or_block].
  apply keeps_counted. intros w. by case_bool_decide.
Qed.

Lemma keeps_writev sys_writev buffers : keeps same_descriptor (FileDescriptor.writev sys_writev buffers).
Proof.
  unfold FileDescriptor.writev. apply keeps_bind; [apply _|apply keeps_check|]. intros n w. cbn.
  destruct (_ && _); [done|]. by case_bool_decide.
Qed.

Lemma keeps_set_blocking b getfl setfl : keeps same_descriptor (FileDescriptor.set_blocking b getfl setfl).
Proof.
  unfold FileDescriptor.set_blocking. apply keeps_bind; [apply _|apply keeps_check|]. intros flags.
  apply keeps_bind; [apply _|apply keeps_check|]. intros _. by apply keeps_modify.
Qed.

(** * Properties *)

(** Reading: the buffer becomes exactly the bytes the kernel delivered,
    never more than it was asked for (16 KiB for an empty buffer, whose room
    is made first); an end of file marks the descriptor; every read that
    returns is counted; a non-blocking descriptor with nothing to read yields
    an empty buffer and is not touched; any other failure throws.  Read into a
    vector of buffers, the bytes lie in them in order, all of the vector
    with its last buffer widened to 16 KiB being available to the kernel. *)
Theorem descriptor_read sys_read sys_readv buffer buffers w :
  (∀ n data, 0 ≤ n → sys_read n = Returned data → zlen data ≤ n) →
  (∀ (bufs : list bytes) data, sys_readv (zlen <$> bufs) = Returned data → zlen data ≤ zlen (concat bufs)) →
  buffers ≠ [] →
  let asked := if bool_decide (buffer = []) then FileDescriptor.kReadBufferSize else zlen buffer in
  FileDescriptor.read sys_read buffer w =
    match sys_read asked with
    | Returned data =>
        (Ok data, if bool_decide (data = []) then FileDescriptor.with_eof (counted_read w) else counted_read w)
    | Failed errno =>
        (if non_blocking_ w && bool_decide (blocks errno) then Ok [] else Err (unix_error "read"), w)
    end ∧
  match sys_readv (zlen <$> FileDescriptor.widen_back buffers) with
  | Returned data =>
      ∃ bufs, FileDescriptor.readv sys_readv buffers w = (Ok bufs, counted_read w) ∧ concat bufs = data
  | Failed errno =>
      FileDescriptor.readv sys_readv buffers w =
        (if non_blocking_ w && bool_decide (blocks errno) then Ok [] else Err (unix_error "read"), w)
  end.
Proof.
  intros Hr Hrv Hne asked. split.
  - unfold FileDescriptor.read. set (room := if bool_decide (buffer = []) then resize _ _ else buffer).
    assert (zlen room = asked) as Hz by (unfold room, asked; by case_bool_decide; [subst|]).
    rewrite Hz. destruct (sys_read asked) as [data|errno] eqn:Hs.
    + apply Hr in Hs; [|rewrite <- Hz; apply zlen_nonneg].
      assert (resize (zlen data) (data ++ zdrop (zlen data) room) = data) as Hdata
        by (rewrite resize_le, ztake_app_zlen by zlen; done).
      cbn. rewrite (bool_decide_ext (zlen data = 0) (data = [])) by (split; [apply zlen_0|by intros ->]).
      rewrite Hdata, (bool_decide_false (zlen data > _)) by lia. by case_bool_decide.
    + rewrite bind_eq. cbv beta iota delta [gets]. rewrite would_block_eq. by destruct (_ && _).
  - unfold FileDescriptor.readv. rewrite (bool_decide_false (buffers = [])) by done.
    destruct (sys_readv _) as [data|errno] eqn:Hs.
    + apply Hrv in Hs. eexists. split.
      * cbn. rewrite bool_decide_false by lia. done.
      * by apply cut_scatter.
    + rewrite bind_eq. cbv beta iota delta [gets]. rewrite would_block_eq. by destruct (_ && _).
Qed.

(** A kernel with three bytes to read. *)
Definition three_bytes (n : Z) : syscall bytes := Returned (ztake n [Byte.x01; Byte.x02; Byte.x03]).
Definition demo_wrapper : FDWrapper := mkFDWrapper 5 false false true 0 0.

Lemma descriptor_read_witness :
  FileDescriptor.read three_bytes [] demo_wrapper = (Ok [Byte.x01; Byte.x02; Byte.x03], counted_read demo_wrapper) ∧
  ∃ bufs, FileDescriptor.readv (λ ns, three_bytes (foldr Z.add 0 ns)) [[Byte.x00]; []] demo_wrapper =
    (Ok bufs, counted_read demo_wrapper) ∧ concat bufs = [Byte.x01; Byte.x02; Byte.x03].
Proof.
  assert (∀ bufs : list bytes, foldr Z.add 0 (zlen <$> bufs) = zlen (concat bufs)) as Hsum.
  { intros bufs. induction bufs as [|b bufs IH]; [done|]. rewrite fmap_cons. cbn [foldr concat]. rewrite IH, zlen_app. done. }
  destruct (descriptor_read three_bytes (λ ns, three_bytes (foldr Z.add 0 ns)) [] [[Byte.x00]; []] demo_wrapper) as [H1 H2].
  - intros n data Hn [= <-]. zlen.
  - intros bufs data. rewrite Hsum. intros [= <-]. zlen.
  - done.
  - split; [exact H1|]. exact H2.
Defined.

(** C35: writing: what the kernel takes of the buffers, in one call, is
    returned; a write that takes nothing of a non-empty text throws, and so
    does one on a non-blocking descriptor without room, whose EAGAIN the code
    turns into a count of zero; other failures throw and leave the descriptor
    untouched; every other write is counted.  A string and a vector of
    references are written as the vector of their texts. *)
Theorem descriptor_write sys_writev buffers buffer refs w :
  (∀ bufs n, sys_writev bufs = Returned n → 0 ≤ n ≤ zlen (concat bufs)) →
  FileDescriptor.writev sys_writev buffers w =
    match sys_writev buffers with
    | Returned n =>
        (if bool_decide (n = 0 ∧ concat buffers ≠ [])
         then Err (Throw "write returned 0 given non-empty input buffer") else Ok n,
         counted_write w)
    | Failed errno =>
        if non_blocking_ w && bool_decide (blocks errno) then
          (if bool_decide (concat buffers ≠ [])
           then Err (Throw "write returned 0 given non-empty input buffer") else Ok 0,
           counted_write w)
        else (Err (unix_error "writev"), w)
    end ∧
  FileDescriptor.write sys_writev buffer = FileDescriptor.writev sys_writev [buffer] ∧
  FileDescriptor.write_refs sys_writev refs = FileDescriptor.writev sys_writev (Ref.get <$> refs) ∧
  concat (Ref.get <$> refs) = text refs.
Proof.
  intros Hk. split; [|done]. unfold FileDescriptor.writev.
  rewrite (bool_decide_ext (zlen (concat buffers) ≠ 0) (concat buffers ≠ []))
    by (split; intros H H'; apply H; [by rewrite H'|by apply zlen_0]).
  unfold FileDescriptor.CheckSystemCall. destruct (sys_writev buffers) as [n|errno] eqn:Hs.
  - apply Hk in Hs. unfold FileDescriptor.register_write. eff_run. rewrite bool_decide_and, (bool_decide_false (n > _)) by lia. by destruct (_ && _).
  - rewrite !bind_eq. cbv beta iota delta [gets]. rewrite would_block_eq.
    destruct (non_blocking_ w && _); [|done]. unfold FileDescriptor.register_write. eff_run. rewrite (bool_decide_false (0 > _)), (bool_decide_true (0 = 0)) by zlen.
    by destruct (bool_decide (concat buffers ≠ [])).
Qed.

Lemma descriptor_write_witness :
  FileDescriptor.writev (λ _, Failed EAGAIN) [[Byte.x01]] demo_wrapper =
    (Err (Throw "write returned 0 given non-empty input buffer"), counted_write demo_wrapper).
Proof. by destruct (descriptor_write (λ _, Failed EAGAIN) [[Byte.x01]] [] [] demo_wrapper) as [H _]. Defined.

(** * Lifetimes *)

(** A wrapper alive has handles and is closed exactly if that was recorded; a
    wrapper gone was closed. *)
Record handles_ok (h : handles) : Prop := mkHandlesOk {
  ho_alive id w n : wrappers h !! id = Some (w, n) → (id < next_wrapper h)%nat ∧ (0 < n)%nat ∧ (id ∈ closes h ↔ closed_ w = true);
  ho_gone id : wrappers h !! id = None → (id < next_wrapper h)%nat → id ∈ closes h;
  ho_fresh id : id ∈ closes h → (id < next_wrapper h)%nat;
  ho_once : NoDup (closes h);
}.

Lemma handles_ok_update h id w n w' m :
  handles_ok h → wrappers h !! id = Some (w, n) → closed_ w' = closed_ w → (0 < m)%nat →
  handles_ok (Handle.update id w' m h).
Proof.
  intros [Ha Hg Hf Ho] Hid Hc Hm. split; cbn; [| |done|done].
  - intros j v k Hj. destruct (decide (id = j)) as [<-|Hne].
    + rewrite lookup_insert, decide_True in Hj by done. injection Hj as <- <-. rewrite Hc.
      by destruct (Ha _ _ _ Hid) as (?&_&?).
    + rewrite lookup_insert_ne in Hj by done. by apply Ha in Hj.
  - intros j Hj. apply lookup_insert_None in Hj as [Hj _]. by apply Hg.
Qed.

(** Recording a close that happened when the wrapper was open. *)
Lemma handles_ok_close h id w n w' :
  handles_ok h → wrappers h !! id = Some (w, n) → closed_ w = false →
  handles_ok (Handle.record_close id w w' (Handle.update id w' n h)).
Proof.
  intros Hh Hid Hc. pose proof Hh as [Ha Hg Hf Ho]. destruct (Ha _ _ _ Hid) as (Hlt&Hn&Hiff).
  unfold Handle.record_close. rewrite Hc. cbn. destruct (closed_ w') eqn:Hc'.
  - split; cbn.
    + intros j v k Hj. destruct (decide (id = j)) as [<-|Hne].
      * rewrite lookup_insert, decide_True in Hj by done. injection Hj as <- <-.
        rewrite elem_of_app, list_elem_of_singleton. naive_solver.
      * rewrite lookup_insert_ne in Hj by done. apply Ha in Hj as (?&?&Hj).
        rewrite elem_of_app, list_elem_of_singleton, Hj. naive_solver.
    + intros j Hj Hl. apply lookup_insert_None in Hj as [Hj _]. apply elem_of_app. left. by apply Hg.
    + intros j. rewrite elem_of_app, list_elem_of_singleton. intros [?| ->]; [by apply Hf|done].
    + apply NoDup_app. split; [done|]. split; [|apply NoDup_singleton].
      intros j Hj ->%list_elem_of_singleton. naive_solver congruence.
  - apply (handles_ok_update h id w n w' n) in Hid; [|done|congruence|done]. by destruct h.
Qed.

Lemma handles_ok_delete h id w n :
  handles_ok h → wrappers h !! id = Some (w, n) → closed_ w = true →
  handles_ok (mkHandles (delete id (wrappers h)) (next_wrapper h) (closes h)).
Proof.
  intros [Ha Hg Hf Ho] Hid Hc. split; cbn; [| |done|done].
  - intros j v k [Hne Hj]%lookup_delete_Some. by apply Ha in Hj.
  - intros j Hj Hl. apply lookup_delete_None in Hj as [<-|Hj]; [|by apply Hg].
    by apply (Ha _ _ _ Hid).
Qed.

Lemma make_open fd getfl w : FileDescriptor.make fd getfl = Ok w → closed_ w = false.
Proof.
  unfold FileDescriptor.make. case_bool_decide; [done|]. destruct getfl as [flags|errno].
  - by intros [= <-].
  - unfold FileDescriptor.CheckSystemCall. eff_run. by destruct (FileDescriptor.would_block _ _); intros [= <-].
Qed.

Lemma destroy_closed fd w : closed_ (FileDescriptor.destroy (Returned fd) w).2 = true.
Proof.
  unfold FileDescriptor.destroy, swallow. cbn [snd]. eff_run. destruct (closed_ w) eqn:Hc; [done|].
  unfold FileDescriptor.close, FileDescriptor.CheckSystemCall. by eff_run.
Qed.

Lemma handles_ok_step h h' : handles_ok h → Handle.step h h' → handles_ok h'.
Proof.
  intros Hh Hs. destruct Hs as [fd getfl w Hw|id w n Hid|id w n ? ? Hid|id w n ? ? Hid|id w n ? ? Hid
    |id w n ? ? ? Hid|id w n reply Hid Hc w'|id w n Hid|id w fd Hid w'].
  - pose proof Hh as [Ha Hg Hf Ho]. apply make_open in Hw. split; cbn; [| | |done].
    + intros j v k Hj. destruct (decide (next_wrapper h = j)) as [<-|Hne].
      * rewrite lookup_insert, decide_True in Hj by done. injection Hj as <- <-.
        split; [lia|]. split; [lia|]. rewrite Hw. split; [intros ?%Hf; lia|done].
      * rewrite lookup_insert_ne in Hj by done. apply Ha in Hj. naive_solver lia.
    + intros j [Hj Hne]%lookup_insert_None Hl. apply Hg; [done|lia].
    + intros j ?%Hf. lia.
  - by apply (handles_ok_update h id w n); [..|lia].
  - destruct (keeps_read sys_read buffer w). apply (handles_ok_update h id w n); try done. by apply (ho_alive _ Hh) in Hid as (?&?&?).
  - destruct (keeps_readv sys_readv buffers w). apply (handles_ok_update h id w n); try done. by apply (ho_alive _ Hh) in Hid as (?&?&?).
  - destruct (keeps_writev sys_writev buffers w). apply (handles_ok_update h id w n); try done. by apply (ho_alive _ Hh) in Hid as (?&?&?).
  - destruct (keeps_set_blocking b getfl setfl w). apply (handles_ok_update h id w n); try done. by apply (ho_alive _ Hh) in Hid as (?&?&?).
  - by apply handles_ok_close.
  - apply (handles_ok_update h id w (S (S n))); [done..|lia].
  - pose proof (destroy_closed fd w : closed_ w' = true) as Hd. clearbody w'.
    destruct (closed_ w) eqn:Hc.
    + unfold Handle.record_close. rewrite Hc. by apply (handles_ok_delete h id w 1).
    + pose proof (handles_ok_close h id w 1 w' Hh Hid Hc) as Hk.
      apply (handles_ok_delete _ id w' 1) in Hk; [|by unfold Handle.record_close; cbn; rewrite lookup_insert, decide_True|done].
      unfold Handle.record_close in *. rewrite Hc, Hd in *. cbn in *. by rewrite delete_insert_eq in Hk.
Qed.

Lemma rtc_preserves_ok h h' : rtc Handle.step h h' → handles_ok h → handles_ok h'.
Proof. induction 1; [done|]. eauto using handles_ok_step. Qed.

(** No descriptor leaks and none is closed twice, however handles are
    duplicated, used and dropped: as long as nobody calls [close] through a
    handle whose descriptor is already closed, each wrapper made is closed at
    most once; one that still has handles is closed exactly if [close] was
    called; and one whose last handle is gone has been closed. *)
Theorem descriptor_lifetime h :
  rtc Handle.step Handle.none h →
  NoDup (closes h) ∧
  ∀ id, (id < next_wrapper h)%nat →
    match wrappers h !! id with
    | Some (w, n) => (0 < n)%nat ∧ (id ∈ closes h ↔ closed_ w = true)
    | None => id ∈ closes h
    end.
Proof.
  intros Hr. assert (handles_ok h) as [Ha Hg Hf Ho].
  { apply (rtc_preserves_ok _ _ Hr). split; [by intros id w n Hid|by intros id _ ?%Nat.nlt_0_r|by intros id ?%elem_of_nil|by constructor]. }
  split; [done|]. intros id Hid. destruct (wrappers h !! id) as [[w n]|] eqn:Hw; [|by apply Hg].
  by destruct (Ha _ _ _ Hw) as (_&?&?).
Qed.

(** Made, duplicated, and dropped twice. *)
Lemma descriptor_lifetime_witness :
  NoDup [0%nat] ∧ 0%nat ∈ [0%nat].
Proof.
  assert (rtc Handle.step Handle.none (mkHandles ∅ 1 [0%nat])) as Hr.
  { eapply rtc_l; [by apply (Handle.step_make _ 5 (Returned 0))|].
    eapply rtc_l; [by apply (Handle.step_duplicate _ 0)|].
    eapply rtc_l; [by eapply (Handle.step_release _ 0)|].
    eapply rtc_l; [by eapply (Handle.step_destroy _ 0 _ 0)|]. apply rtc_refl. }
  destruct (descriptor_lifetime _ Hr) as [H1 H2]. split; [exact H1|]. apply (H2 0%nat). cbn. lia.
Defined.
