(* ===== verification/EventRules.v ===== *)
(** What the two event loops share (src/util/eventloop.hh, eventloop.cc and
    their epoll counterparts): rules and their categories, handles that cancel
    rules, the service of the rules without a descriptor, and the calls made.

    A callback is a closure over the program and may use the loop's own
    interface.  It is named here by a code [C]; the program gives each code its
    meaning, an effect on the whole state.  An interest function only reads. *)

From S2P Require Import Prelude Effects FileDescriptor.

(** * Rules *)

Inductive Direction : Type := In | Out.
#[export] Instance Direction_eq_dec : EqDecision Direction := ltac:(solve_decision).

Inductive Result : Type := Success | Timeout | Exit.

Record BasicRule (C : Type) : Type := mkBasicRule {
  rule_id : nat;          (* the identity of the shared object *)
  category_id : nat;
  interest : C;
  callback : C;
  cancel_requested : bool;
}.
Arguments mkBasicRule {C} _ _ _ _ _.
Arguments rule_id {C} _.
Arguments category_id {C} _.
Arguments interest {C} _.
Arguments callback {C} _.
Arguments cancel_requested {C} _.

Record FDRule (C : Type) : Type := mkFDRule {
  basic : BasicRule C;
  fd : nat;               (* the wrapper the duplicated handle shares *)
  direction : Direction;
  cancel : C;
  error : C;
}.
Arguments mkFDRule {C} _ _ _ _ _.
Arguments basic {C} _.
Arguments fd {C} _.
Arguments direction {C} _.
Arguments cancel {C} _.
Arguments error {C} _.

(** A call of one of a rule's callbacks. *)
Inductive call : Type :=
  | Ran (id : nat)
  | Cancelled (id : nat)
  | Errored (id : nat).
Definition call_rule (c : call) : nat := match c with Ran id | Cancelled id | Errored id => id end.

(** The loop, the descriptors, the rest of the program, and the calls made so
    far.  [X] is what a kind of loop adds. *)
Record state (C X W : Type) : Type := mkState {
  _rule_categories : list string;
  _fd_rules : list (FDRule C);
  _non_fd_rules : list (BasicRule C);
  next_rule : nat;
  descriptors : gmap nat FDWrapper;
  calls : list call;
  extra : X;
  world : W;
}.
Arguments mkState {C X W} _ _ _ _ _ _ _ _.
Arguments _rule_categories {C X W} _.
Arguments _fd_rules {C X W} _.
Arguments _non_fd_rules {C X W} _.
Arguments next_rule {C X W} _.
Arguments descriptors {C X W} _.
Arguments calls {C X W} _.
Arguments extra {C X W} _.
Arguments world {C X W} _.

Section rules.
Context {C X W : Type}.
Abbreviation sys := (state C X W).
Implicit Types s : sys.

Definition with_fd_rules (rs : list (FDRule C)) s : sys :=
  mkState (_rule_categories s) rs (_non_fd_rules s) (next_rule s) (descriptors s) (calls s) (extra s) (world s).
Definition with_non_fd_rules (rs : list (BasicRule C)) s : sys :=
  mkState (_rule_categories s) (_fd_rules s) rs (next_rule s) (descriptors s) (calls s) (extra s) (world s).
Definition with_next (n : nat) s : sys :=
  mkState (_rule_categories s) (_fd_rules s) (_non_fd_rules s) n (descriptors s) (calls s) (extra s) (world s).
Definition with_categories (cs : list string) s : sys :=
  mkState cs (_fd_rules s) (_non_fd_rules s) (next_rule s) (descriptors s) (calls s) (extra s) (world s).
Definition with_descriptors (ds : gmap nat FDWrapper) s : sys :=
  mkState (_rule_categories s) (_fd_rules s) (_non_fd_rules s) (next_rule s) ds (calls s) (extra s) (world s).
Definition with_extra (x : X) s : sys :=
  mkState (_rule_categories s) (_fd_rules s) (_non_fd_rules s) (next_rule s) (descriptors s) (calls s) x (world s).
Definition with_world (w : W) s : sys :=
  mkState (_rule_categories s) (_fd_rules s) (_non_fd_rules s) (next_rule s) (descriptors s) (calls s) (extra s) w.
Definition log_call (c : call) s : sys :=
  mkState (_rule_categories s) (_fd_rules s) (_non_fd_rules s) (next_rule s) (descriptors s) (calls s ++ [c])
    (extra s) (world s).

(** The state of the wrapper behind a handle, and a call on it. *)
Definition wrapper (f : nat) : eff sys FDWrapper :=
  λ s, match descriptors s !! f with
       | Some w => (Ok w, s)
       | None => (Err (Undefined "no such descriptor"), s)
       end.
Definition on_descriptor {A} (f : nat) (m : eff FDWrapper A) : eff sys A :=
  λ s, match descriptors s !! f with
       | Some w => let '(r, w) := m w in (r, with_descriptors (<[f := w]> (descriptors s)) s)
       | None => (Err (Undefined "no such descriptor"), s)
       end.
Definition on_world {A} (m : eff W A) : eff sys A :=
  λ s, let '(r, w) := m (world s) in (r, with_world w s).

(** * The interface to the program *)

(** The constructor reserves room for 64 categories. *)
Definition kCategories : nat := 64.

Definition add_category (name : string) : eff sys nat :=
  cs ← gets _rule_categories;
  if bool_decide (kCategories ≤ length cs)%nat then mthrow (Throw "maximum categories reached")
  else modify (with_categories (cs ++ [name])) ;; mret (length cs).

Definition add_fd_rule (category_id : nat) (fd : nat) (direction : Direction)
    (callback interest cancel error : C) : eff sys nat :=
  cs ← gets _rule_categories;
  if bool_decide (length cs ≤ category_id)%nat then mthrow (Throw "bad category_id")
  else
    id ← gets next_rule;
    modify (λ s,
      with_next (S id)
        (with_fd_rules
           (_fd_rules s ++ [mkFDRule (mkBasicRule id category_id interest callback false) fd direction cancel error])
           s)) ;;
    mret id.

Definition add_rule (category_id : nat) (callback interest : C) : eff sys nat :=
  cs ← gets _rule_categories;
  if bool_decide (length cs ≤ category_id)%nat then mthrow (Throw "bad category_id")
  else
    id ← gets next_rule;
    modify (λ s,
      with_next (S id)
        (with_non_fd_rules (_non_fd_rules s ++ [mkBasicRule id category_id interest callback false]) s)) ;;
    mret id.

(** A handle is a weak pointer: cancelling through it does nothing once the
    rule is gone. *)
Definition flag (id : nat) (r : BasicRule C) : BasicRule C :=
  mkBasicRule (rule_id r) (category_id r) (interest r) (callback r)
    (cancel_requested r || bool_decide (rule_id r = id)).
Definition flag_fd (id : nat) (r : FDRule C) : FDRule C :=
  mkFDRule (flag id (basic r)) (fd r) (direction r) (cancel r) (error r).
Definition cancel_handle (id : nat) : eff sys () :=
  modify (λ s, with_non_fd_rules (flag id <$> _non_fd_rules s) (with_fd_rules (flag_fd id <$> _fd_rules s) s)).

(** * Calling back *)

Section calling.
Context (call_interest : C → sys → result bool) (call_back : C → eff sys ()).

Definition interested (r : BasicRule C) : eff sys bool := λ s, (call_interest (interest r) s, s).
Definition invoke (c : call) (f : C) : eff sys () := modify (log_call c) ;; call_back f.

Definition erase_fd_rule (i : nat) : eff sys () := modify (λ s, with_fd_rules (delete i (_fd_rules s)) s).
Definition erase_non_fd_rule (i : nat) : eff sys () :=
  modify (λ s, with_non_fd_rules (delete i (_non_fd_rules s)) s).

(** [this_rule.cancel(); it = _fd_rules.erase( it );] *)
Definition retire (i : nat) (r : FDRule C) : eff sys () :=
  invoke (Cancelled (rule_id (basic r))) (cancel r) ;; erase_fd_rule i.

(** [unsigned int service_count() const]. *)
Definition service_count (r : FDRule C) : eff sys Z :=
  w ← wrapper (fd r);
  mret (match direction r with
        | In => FileDescriptor.read_count w
        | Out => FileDescriptor.write_count w
        end).

(** The exceptions name the rule's category. *)
Definition busy_wait {A} (r : BasicRule C) : eff sys A :=
  cs ← gets _rule_categories;
  match cs !! category_id r with
  | Some name => mthrow (Throw ("busy wait detected: rule " ++ name))
  | None => mthrow (Throw "vector::at")
  end.

(** The service of a ready rule. *)
Definition serve (r : FDRule C) : eff sys Result :=
  count_before ← service_count r;
  invoke (Ran (rule_id (basic r))) (callback (basic r)) ;;
  count_after ← service_count r;
  w ← wrapper (fd r);
  if bool_decide (count_before = count_after) && negb (FileDescriptor.closed w) then
    b ← interested (basic r);
    if (b : bool) then busy_wait (basic r) else mret Success
  else mret Success.

(** [while ( this_rule.interest() )], at most 128 times round. *)
Fixpoint busy_loop (rounds : nat) (r : BasicRule C) (rule_fired : bool) : eff sys bool :=
  b ← interested r;
  if (b : bool) then
    match rounds with
    | O => busy_wait r
    | S rounds => invoke (Ran (rule_id r)) (callback r) ;; busy_loop rounds r true
    end
  else mret rule_fired.

(** The rules without a descriptor; the iterator is a position in the list,
    to which callbacks only append. *)
Fixpoint serve_from (fuel i : nat) : eff sys (option Result) :=
  match fuel with
  | O => mthrow OutOfFuel
  | S fuel =>
      rs ← gets _non_fd_rules;
      match rs !! i with
      | None => mret None
      | Some r =>
          if cancel_requested r then erase_non_fd_rule i ;; serve_from fuel i
          else
            rule_fired ← busy_loop 128 r false;
            if (rule_fired : bool) then mret (Some Success) else serve_from fuel (S i)
      end
  end.
Definition serve_non_fd_rules : eff sys (option Result) :=
  rs ← gets _non_fd_rules; serve_from (S (length rs)) 0.

End calling.
End rules.

(** * The life of a rule *)

(** What of a rule never changes: all but the flag. *)
Definition key {C} (r : FDRule C) : FDRule C :=
  mkFDRule (mkBasicRule (rule_id (basic r)) (category_id (basic r)) (interest (basic r)) (callback (basic r)) false)
    (fd r) (direction r) (cancel r) (error r).
Definition key_id {C} (k : FDRule C) : nat := rule_id (basic k).
Definition fd_keys {C X W} (s : state C X W) : list (FDRule C) := key <$> _fd_rules s.

Definition fd_ids {C X W} (s : state C X W) : list nat := (λ r, rule_id (basic r)) <$> _fd_rules s.
Definition non_fd_ids {C X W} (s : state C X W) : list nat := rule_id <$> _non_fd_rules s.
Definition rule_ids {C X W} (s : state C X W) : list nat := fd_ids s ++ non_fd_ids s.

Lemma fd_ids_keys {C X W} (s : state C X W) : fd_ids s = key_id <$> fd_keys s.
Proof. unfold fd_ids, fd_keys. by rewrite <- list_fmap_compose. Qed.

(** After the call that tells a rule it is cancelled, the rule is not called. *)
Definition quiet (l : list call) : Prop :=
  ∀ i j id c, (i < j)%nat → l !! i = Some (Cancelled id) → l !! j = Some c → call_rule c ≠ id.

Lemma quiet_nil : quiet [].
Proof. intros i j id c _ Hi. done. Qed.

Lemma quiet_snoc l c : quiet l → Cancelled (call_rule c) ∉ l → quiet (l ++ [c]).
Proof.
  intros Hq Hc i j id d Hij Hi Hj.
  apply lookup_app_Some in Hj as [Hj|[Hl Hj]].
  - rewrite lookup_app_l in Hi by (apply lookup_lt_Some in Hj; lia). by apply (Hq i j).
  - apply list_lookup_singleton_Some in Hj as [Hj <-].
    rewrite lookup_app_l in Hi by lia. intros <-. apply Hc. by eapply list_elem_of_lookup_2.
Qed.

(** A rule is cancelled at most once. *)
Lemma quiet_once l id i j : quiet l → l !! i = Some (Cancelled id) → l !! j = Some (Cancelled id) → i = j.
Proof.
  intros Hq Hi Hj. destruct (lt_eq_lt_dec i j) as [[Hlt|]|Hlt]; [|done|].
  - by destruct (Hq i j id (Cancelled id)).
  - by destruct (Hq j i id (Cancelled id)).
Qed.

Record loop_ok {C X W} (s : state C X W) : Prop := mkLoopOk {
  lo_nodup : NoDup (rule_ids s);
  lo_ids : Forall (λ id, id < next_rule s)%nat (rule_ids s);
  lo_calls : Forall (λ c, call_rule c < next_rule s)%nat (calls s);
  lo_quiet : quiet (calls s);
  lo_gone id : Cancelled id ∈ calls s → id ∉ rule_ids s;
}.

(** The numbers of the descriptors do not change. *)
Definition numbers {C X W} (s s' : state C X W) : Prop :=
  ∀ f w, descriptors s !! f = Some w → ∃ w', descriptors s' !! f = Some w' ∧ fd_ w' = fd_ w.

(** What a callback may do to the loop: rules are added, with identities of
    their own, and flagged as cancelled; none disappears and none is called. *)
Record grows {C X W} (s s' : state C X W) : Prop := mkGrows {
  gr_keys : ∃ new_fd new_non_fd,
    fd_keys s' = fd_keys s ++ new_fd ∧ non_fd_ids s' = non_fd_ids s ++ new_non_fd ∧
    NoDup ((key_id <$> new_fd) ++ new_non_fd) ∧
    Forall (λ id, next_rule s ≤ id < next_rule s')%nat ((key_id <$> new_fd) ++ new_non_fd);
  gr_next : (next_rule s ≤ next_rule s')%nat;
  gr_calls : calls s' = calls s;
  gr_numbers : numbers s s';
}.

Section lives.
Context {C X W : Type}.
Abbreviation sys := (state C X W).
Implicit Types s : sys.

#[export] Instance numbers_preorder : PreOrder (@numbers C X W).
Proof.
  split; [by intros s f w Hw; exists w|]. intros s1 s2 s3 H1 H2 f w (w1&(w2&?&?)%H2&?)%H1. exists w2. split; [done|congruence].
Qed.

#[export] Instance grows_preorder : PreOrder (@grows C X W).
Proof.
  split.
  - intros s. split; [|lia|done|done]. exists [], []. rewrite !app_nil_r. split_and!; try done; constructor.
  - intros s1 s2 s3 [(f1&n1&Hf1&Hn1&Hd1&Hr1) Hl1 Hc1 Hw1] [(f2&n2&Hf2&Hn2&Hd2&Hr2) Hl2 Hc2 Hw2].
    split; [|lia|congruence|].
    + exists (f1 ++ f2), (n1 ++ n2). rewrite Hf2, Hf1, Hn2, Hn1, <- !app_assoc, fmap_app.
      assert (((key_id <$> f1) ++ (key_id <$> f2)) ++ n1 ++ n2 ≡ₚ
        ((key_id <$> f1) ++ n1) ++ (key_id <$> f2) ++ n2) as -> by solve_Permutation.
      split_and!; [done|done| |].
      * apply NoDup_app. split_and!; [done| |done]. rewrite Forall_forall in Hr1, Hr2.
        intros id H1%Hr1 H2%Hr2. lia.
      * apply Forall_app. split; eapply Forall_impl; eauto; naive_solver lia.
    + by transitivity s2.
Qed.

Lemma numbers_same s s' : descriptors s' = descriptors s → numbers s s'.
Proof. intros Hd f w Hw. exists w. by rewrite Hd. Qed.

(** The rules by their identities. *)
Lemma grows_rules s s' :
  grows s s' → ∃ new_fd new_non_fd,
    fd_ids s' = fd_ids s ++ new_fd ∧ non_fd_ids s' = non_fd_ids s ++ new_non_fd ∧
    NoDup (new_fd ++ new_non_fd) ∧
    Forall (λ id, next_rule s ≤ id < next_rule s')%nat (new_fd ++ new_non_fd).
Proof.
  intros [(f&n&Hf&?) _ _ _]. exists (key_id <$> f), n. split; [|done].
  by rewrite !fd_ids_keys, Hf, fmap_app.
Qed.

(** A change of anything but the rules, the calls and the numbers of the descriptors. *)
Lemma grows_same s s' :
  fd_keys s' = fd_keys s → non_fd_ids s' = non_fd_ids s → next_rule s' = next_rule s → calls s' = calls s →
  numbers s s' → grows s s'.
Proof.
  intros Hf Hn Hx Hc Hw. split; [|lia|done|done]. exists [], []. rewrite !app_nil_r, Hf, Hn.
  split_and!; try done; constructor.
Qed.

Lemma keeps_on_descriptor {A} f (m : eff FDWrapper A) :
  keeps (λ w w', fd_ w' = fd_ w) m → keeps grows (on_descriptor (C:=C) (X:=X) (W:=W) f m).
Proof.
  intros Hm s. unfold on_descriptor. destruct (descriptors s !! f) as [w|] eqn:Hw; [|done].
  specialize (Hm w). cbn [snd] in Hm |- *. destruct (m w) as [r w']. apply grows_same; try done.
  intros f' w'' Hw'. cbn [snd descriptors with_descriptors] in *. destruct (decide (f = f')) as [<-|Hne].
  - rewrite lookup_insert, decide_True by done. exists w'. split; [done|congruence].
  - rewrite lookup_insert_ne by done. eauto.
Qed.
Lemma keeps_on_world {A} (m : eff W A) : keeps grows (on_world (C:=C) (X:=X) m).
Proof. intros s. unfold on_world. destruct (m (world s)) as [r w']. apply grows_same; try done; by apply numbers_same. Qed.
Lemma keeps_wrapper f : keeps grows (wrapper (C:=C) (X:=X) (W:=W) f).
Proof. intros s. unfold wrapper. by destruct (_ !! f). Qed.

Lemma keeps_add_category name : keeps grows (add_category (C:=C) (X:=X) (W:=W) name).
Proof. intros s. unfold add_category. eff_run. case_bool_decide; [done|]. eff_run. apply grows_same; try done; by apply numbers_same. Qed.

Lemma keeps_add_fd_rule k f d c1 c2 c3 c4 : keeps grows (add_fd_rule (X:=X) (W:=W) (C:=C) k f d c1 c2 c3 c4).
Proof.
  intros s. unfold add_fd_rule. eff_run. case_bool_decide; [done|]. eff_run. split; cbn; [|lia|done|by apply numbers_same].
  eexists [_], []. unfold fd_keys. cbn. rewrite fmap_app, app_nil_r. split_and!; try done.
  - apply NoDup_singleton.
  - apply Forall_singleton. cbn. lia.
Qed.

Lemma keeps_add_rule k c1 c2 : keeps grows (add_rule (X:=X) (W:=W) (C:=C) k c1 c2).
Proof.
  intros s. unfold add_rule. eff_run. case_bool_decide; [done|]. eff_run. split; cbn; [|lia|done|by apply numbers_same].
  exists [], [next_rule s]. unfold non_fd_ids. cbn. rewrite fmap_app, app_nil_r. split_and!; try done.
  - apply NoDup_singleton.
  - apply Forall_singleton. lia.
Qed.

Lemma keeps_cancel_handle id : keeps grows (cancel_handle (X:=X) (W:=W) (C:=C) id).
Proof.
  intros s. apply grows_same; try done; try (by apply numbers_same);
    unfold fd_keys, non_fd_ids; cbn; by rewrite <- list_fmap_compose.
Qed.
End lives.

#[export] Hint Resolve keeps_on_descriptor keeps_on_world keeps_wrapper keeps_add_category keeps_add_fd_rule
  keeps_add_rule keeps_cancel_handle : keeps.

(** * Runs that respect it *)

(** The run of [m] from [s] adds the calls [tr] to the log, no rule being
    called after its cancellation, and leaves the loop in order if it
    returns. *)
Definition runs {C X W A} (m : eff (state C X W) A) (s : state C X W)
    (Q : result A → list call → state C X W → Prop) : Prop :=
  post m s (λ r s', ∃ tr, calls s' = calls s ++ tr ∧ quiet (calls s') ∧
    (match r with Ok _ => loop_ok s' | Err _ => True end) ∧ Q r tr s').

Definition is_cancelled (c : call) : Prop := match c with Cancelled _ => True | _ => False end.
Definition not_ran (c : call) : Prop := match c with Ran _ => False | _ => True end.


Lemma take_delete {A} (l : list A) i : take i (delete i l) = take i l.
Proof. revert i. induction l as [|x l IH]; intros [|i]; try done. cbn. by rewrite IH. Qed.

Lemma drop_delete {A} (l : list A) i : drop i (delete i l) = drop (S i) l.
Proof.
  revert i. induction l as [|x l IH]; intros [|i]; try done.
  change (drop i (delete i l) = drop (S i) l). apply IH.
Qed.

Lemma drop_lookup_cons {A} (l : list A) i x : l !! i = Some x → drop i l = x :: drop (S i) l.
Proof. intros Hx. by rewrite (drop_S l x i). Qed.

Section runs.
Context {C X W : Type}.
Abbreviation sys := (state C X W).
Implicit Types s : sys.

Lemma loop_ok_grows s s' : loop_ok s → grows s s' → loop_ok s'.
Proof.
  intros [Hd Hi Hc Hq Hg] HG. pose proof (grows_rules _ _ HG) as (f&n&Hf&Hn&Hd'&Hr).
  destruct HG as [_ Hl Hcs _].
  assert (rule_ids s' ≡ₚ rule_ids s ++ f ++ n) as Hp.
  { unfold rule_ids. rewrite Hf, Hn. solve_Permutation. }
  rewrite Forall_forall in Hi, Hr. split; rewrite ?Hcs; try done.
  - rewrite Hp. apply NoDup_app. split_and!; [done| |done]. intros id H1%Hi H2%Hr. lia.
  - rewrite Hp. apply Forall_forall. intros id [H1%Hi|H2%Hr]%elem_of_app; lia.
  - eapply Forall_impl; [exact Hc|]. cbn. intros. lia.
  - intros id Hid. rewrite Hp, elem_of_app. intros [H1|H2%Hr]; [by apply (Hg id)|].
    rewrite Forall_forall in Hc. apply Hc in Hid. cbn in Hid. lia.
Qed.

(** A loop without rules or calls. *)
Lemma loop_ok_start s : _fd_rules s = [] → _non_fd_rules s = [] → calls s = [] → loop_ok s.
Proof.
  intros Hf Hn Hc. split; unfold rule_ids, fd_ids, non_fd_ids; rewrite ?Hf, ?Hn, ?Hc; try done; try constructor.
  intros id Hid. by apply elem_of_nil in Hid.
Qed.

Lemma live_not_cancelled s id : loop_ok s → id ∈ rule_ids s → Cancelled id ∉ calls s.
Proof. intros Hs Hid Hc. by apply (lo_gone _ Hs id). Qed.

Lemma loop_ok_log c s :
  loop_ok s → call_rule c ∈ rule_ids s → (∀ id, c ≠ Cancelled id) → loop_ok (log_call c s).
Proof.
  intros Hs Hc Hn. pose proof (live_not_cancelled _ _ Hs Hc) as Hl. destruct Hs as [Hd Hi Hcs Hq Hg].
  split; try done; cbn.
  - apply Forall_app. split; [done|]. apply Forall_singleton. rewrite Forall_forall in Hi. by apply Hi.
  - by apply quiet_snoc.
  - intros id [Hid|Hid%list_elem_of_singleton]%elem_of_app; [by apply Hg|]. by destruct (Hn id).
Qed.

Lemma runs_bind {A B} (m : eff sys A) (f : A → eff sys B) s Q :
  runs m s (λ r tr s', match r with
    | Ok a => loop_ok s' → runs (f a) s' (λ r' tr' s'', Q r' (tr ++ tr') s'')
    | Err e => Q (Err e) tr s'
    end) →
  runs (m ≫= f) s Q.
Proof.
  unfold runs. intros H. apply post_bind. eapply post_mono; [exact H|].
  intros [a|e] s' (tr&Hc&Hq&Hl&Hk); [|by exists tr].
  eapply post_mono; [exact (Hk Hl)|]. intros r s'' (tr'&Hc'&Hq'&Hl'&Hk'). exists (tr ++ tr').
  split; [by rewrite Hc', Hc, app_assoc|done].
Qed.

Lemma runs_mono {A} (m : eff sys A) s (Q Q' : result A → list call → sys → Prop) :
  runs m s Q → (∀ r tr s', Q r tr s' → Q' r tr s') → runs m s Q'.
Proof.
  unfold runs. intros H Hm. eapply post_mono; [exact H|]. cbn. intros r s' (tr&?&?&?&?). exists tr. auto.
Qed.

(** Steps that make no call. *)
Lemma runs_silent {A} (m : eff sys A) s Q :
  loop_ok s → calls (m s).2 = calls s → (∀ a, (m s).1 = Ok a → loop_ok (m s).2) →
  Q (m s).1 [] (m s).2 → runs m s Q.
Proof.
  intros Hs Hc Hl Hq. unfold runs, post. exists []. rewrite app_nil_r.
  split; [done|]. split; [by rewrite Hc; apply lo_quiet|]. split; [|done].
  destruct (m s).1 eqn:He; [by eapply Hl|done].
Qed.

Lemma runs_ret {A} (a : A) s (Q : result A → list call → sys → Prop) : loop_ok s → Q (Ok a) [] s → runs (mret a) s Q.
Proof. intros Hs Hq. by apply runs_silent. Qed.
Lemma runs_throw {A} (e : exn) s (Q : result A → list call → sys → Prop) : loop_ok s → Q (Err e) [] s → runs (mthrow e) s Q.
Proof. intros Hs Hq. by apply runs_silent. Qed.
Lemma runs_grows {A} (m : eff sys A) s (Q : result A → list call → sys → Prop) :
  loop_ok s → grows s (m s).2 → Q (m s).1 [] (m s).2 → runs m s Q.
Proof.
  intros Hs Hg Hq. apply runs_silent; [done|apply Hg| |done]. intros _ _. by eapply loop_ok_grows.
Qed.

Lemma runs_wrapper f s (Q : result FDWrapper → list call → sys → Prop) :
  loop_ok s → (∀ e, Q (Err e) [] s) → (∀ w, descriptors s !! f = Some w → Q (Ok w) [] s) →
  runs (wrapper f) s Q.
Proof.
  intros Hs HE HQ. apply runs_silent; unfold wrapper; destruct (descriptors s !! f) eqn:Hf; try done.
  - by apply HQ.
  - by apply HE.
Qed.

Lemma runs_keep {A} (m : eff sys A) s (Q : result A → list call → sys → Prop) :
  runs m s Q → runs m s (λ r tr s', m s = (r, s') ∧ Q r tr s').
Proof.
  unfold runs, post. intros (tr&?&?&?&?). exists tr. split_and!; try done. by destruct (m s).
Qed.

Lemma fd_keys_delete i (rs : list (FDRule C)) : key <$> delete i rs = delete i (key <$> rs).
Proof. revert i. induction rs as [|r rs IH]; intros [|i]; try done. cbn. f_equal. apply IH. Qed.

(** Erasing a rule leaves the entries of the rules before it, and brings the
    next rule to its place. *)
Lemma erased_keys s s1 s' i :
  fd_keys s `prefix_of` fd_keys s1 → (i < length (fd_keys s))%nat → fd_keys s' = delete i (fd_keys s1) →
  take i (fd_keys s') = take i (fd_keys s) ∧ (i ≤ length (fd_keys s'))%nat ∧
  ∃ new, drop i (fd_keys s') = drop (S i) (fd_keys s) ++ new.
Proof.
  intros [f Hf] Hi ->. rewrite take_delete, drop_delete, Hf.
  rewrite take_app_le, drop_app_le by lia. split; [done|]. split; [|by eexists].
  rewrite delete_take_drop, length_app, length_take, length_app. lia.
Qed.

Lemma fd_keys_retired i c s :
  fd_keys (with_fd_rules (delete i (_fd_rules s)) (log_call c s)) = delete i (fd_keys s).
Proof. apply fd_keys_delete. Qed.
Lemma fd_keys_erased i s : fd_keys (with_fd_rules (delete i (_fd_rules s)) s) = delete i (fd_keys s).
Proof. apply fd_keys_delete. Qed.

Lemma keys_lookup s i r : _fd_rules s !! i = Some r → fd_keys s !! i = Some (key r).
Proof. intros Hi. unfold fd_keys. by rewrite list_lookup_fmap, Hi. Qed.
Lemma ids_lookup s i r : _fd_rules s !! i = Some r → fd_ids s !! i = Some (rule_id (basic r)).
Proof. intros Hi. unfold fd_ids. by rewrite list_lookup_fmap, Hi. Qed.

Section calling.
Context (call_interest : C → sys → result bool) (call_back : C → eff sys ()).
Hypothesis back_grows : ∀ c, keeps grows (call_back c).

Lemma grows_ids s s' id : grows s s' → id ∈ rule_ids s → id ∈ rule_ids s'.
Proof.
  intros (f&n&Hf&Hn&_)%grows_rules. unfold rule_ids. rewrite Hf, Hn, !elem_of_app. naive_solver.
Qed.

(** Calling a rule that is in the loop. *)
Lemma runs_invoke c f s (Q : result () → list call → sys → Prop) :
  loop_ok s → call_rule c ∈ rule_ids s → (∀ id, c ≠ Cancelled id) →
  (∀ r s', grows (log_call c s) s' → Q r [c] s') →
  runs (invoke call_back c f) s Q.
Proof.
  intros Hs Hc Hn HQ. pose proof (loop_ok_log c s Hs Hc Hn) as Hl.
  assert (grows (log_call c s) (invoke call_back c f s).2) as Hg by apply (back_grows f).
  unfold runs, post. exists [c]. split; [by rewrite (gr_calls _ _ Hg)|].
  pose proof (loop_ok_grows _ _ Hl Hg) as Hl'. split; [by apply lo_quiet|].
  split; [by destruct (invoke call_back c f s).1|by apply HQ].
Qed.

Lemma delete_ids (rs : list (FDRule C)) i :
  (λ r, rule_id (basic r)) <$> delete i rs = delete i ((λ r, rule_id (basic r)) <$> rs).
Proof. revert i. induction rs as [|r rs IH]; intros [|i]; try done. cbn. f_equal. apply IH. Qed.

Lemma delete_non_fd_ids (rs : list (BasicRule C)) i : rule_id <$> delete i rs = delete i (rule_id <$> rs).
Proof. revert i. induction rs as [|r rs IH]; intros [|i]; try done. cbn. f_equal. apply IH. Qed.

(** Erasing rules keeps the loop in order. *)
Lemma loop_ok_sub s s' :
  loop_ok s → (∃ k, k ++ rule_ids s' ≡ₚ rule_ids s) → next_rule s' = next_rule s → calls s' = calls s →
  loop_ok s'.
Proof.
  intros [Hd Hi Hc Hq Hg] [k Hk] Hn Hcs. rewrite <- Hk in Hd. rewrite <- Hk, Forall_app in Hi.
  split; rewrite ?Hn, ?Hcs; try done.
  - by apply NoDup_app in Hd as (_&_&?).
  - apply Hi.
  - intros id Hid Hin. apply (Hg id Hid). rewrite <- Hk. apply elem_of_app. by right.
Qed.

Lemma delete_perm {A} (l : list A) i : ∃ k, k ++ delete i l ≡ₚ l.
Proof.
  destruct (l !! i) as [x|] eqn:Hx.
  - exists [x]. symmetry. by apply delete_Permutation.
  - exists []. apply lookup_ge_None in Hx. rewrite delete_take_drop, take_ge, drop_ge, app_nil_r by lia. done.
Qed.

Lemma loop_ok_erase i s : loop_ok s → loop_ok (with_fd_rules (delete i (_fd_rules s)) s).
Proof.
  intros Hs. apply (loop_ok_sub s); try done. destruct (delete_perm (fd_ids s) i) as [k Hk]. exists k.
  unfold rule_ids, fd_ids in *. cbn. by rewrite delete_ids, app_assoc, Hk.
Qed.

Lemma loop_ok_erase_non_fd i s : loop_ok s → loop_ok (with_non_fd_rules (delete i (_non_fd_rules s)) s).
Proof.
  intros Hs. apply (loop_ok_sub s); try done. destruct (delete_perm (non_fd_ids s) i) as [k Hk]. exists k.
  unfold rule_ids, non_fd_ids in *. cbn. rewrite delete_non_fd_ids. rewrite <- Hk at 2. solve_Permutation.
Qed.

Lemma fd_rule_live s i r : _fd_rules s !! i = Some r → rule_id (basic r) ∈ rule_ids s.
Proof.
  intros Hi. apply elem_of_app. left. apply list_elem_of_fmap. exists r. split; [done|]. by eapply list_elem_of_lookup_2.
Qed.
Lemma non_fd_rule_live s i r : _non_fd_rules s !! i = Some r → rule_id r ∈ rule_ids s.
Proof.
  intros Hi. apply elem_of_app. right. apply list_elem_of_fmap. exists r. split; [done|]. by eapply list_elem_of_lookup_2.
Qed.

(** Cancelling a rule and dropping it. *)
Lemma loop_ok_retired s i id :
  loop_ok s → fd_ids s !! i = Some id →
  loop_ok (with_fd_rules (delete i (_fd_rules s)) (log_call (Cancelled id) s)).
Proof.
  intros Hs Hi. assert (id ∈ rule_ids s) as Hin by (apply elem_of_app; left; by eapply list_elem_of_lookup_2).
  pose proof (live_not_cancelled _ _ Hs Hin) as Hl. destruct Hs as [Hd Hids Hc Hq Hg].
  assert (rule_ids s ≡ₚ id :: delete i (fd_ids s) ++ non_fd_ids s) as Hp.
  { unfold rule_ids. rewrite app_comm_cons. apply Permutation_app_tail. by apply delete_Permutation. }
  rewrite Forall_forall in Hids. pose proof (Hids id Hin) as Hlt. rewrite Hp in Hd.
  apply NoDup_cons in Hd as [Hni Hd].
  split; unfold rule_ids, fd_ids; cbn; rewrite ?delete_ids; try done.
  - apply Forall_forall. intros j Hj. apply Hids. rewrite Hp. by right.
  - apply Forall_app. split; [done|]. by apply Forall_singleton.
  - by apply quiet_snoc.
  - intros j [Hj|Hj%list_elem_of_singleton]%elem_of_app.
    + intros Hin'. apply (Hg j Hj). rewrite Hp. by right.
    + by injection Hj as ->.
Qed.

(** A state that grew from one with a call logged. *)
Lemma grows_log c s s' :
  grows (log_call c s) s' → ∃ s1, grows s s1 ∧ s' = log_call c s1.
Proof.
  intros [Hr Hn Hc Hw].
  exists (mkState (_rule_categories s') (_fd_rules s') (_non_fd_rules s') (next_rule s') (descriptors s')
    (calls s) (extra s') (world s')).
  split; [by split|]. destruct s'. unfold log_call. cbn in *. by rewrite Hc.
Qed.

Lemma grows_prefix s s' : grows s s' → fd_keys s `prefix_of` fd_keys s'.
Proof. intros [(f&n&Hf&_) _ _ _]. by exists f. Qed.

Lemma prefix_ids s s' i id : fd_keys s `prefix_of` fd_keys s' → fd_ids s !! i = Some id → fd_ids s' !! i = Some id.
Proof. intros [f Hf]. rewrite !fd_ids_keys, Hf, fmap_app. apply lookup_app_l_Some. Qed.

Lemma grows_lookup s s' i id : grows s s' → fd_ids s !! i = Some id → fd_ids s' !! i = Some id.
Proof. intros (f&n&Hf&_)%grows_rules Hi. rewrite Hf. by apply lookup_app_l_Some. Qed.

Lemma runs_retire i r s (Q : result () → list call → sys → Prop) :
  loop_ok s → fd_ids s !! i = Some (rule_id (basic r)) →
  (∀ s1, grows s s1 → (call_back (cancel r) (log_call (Cancelled (rule_id (basic r))) s)).1 = Ok () →
    Q (Ok ()) [Cancelled (rule_id (basic r))]
      (with_fd_rules (delete i (_fd_rules s1)) (log_call (Cancelled (rule_id (basic r))) s1))) →
  (∀ e s', numbers s s' → (call_back (cancel r) (log_call (Cancelled (rule_id (basic r))) s)).1 = Err e →
    Q (Err e) [Cancelled (rule_id (basic r))] s') →
  runs (retire call_back i r) s Q.
Proof.
  intros Hs Hi HQ HE. set (id := rule_id (basic r)) in *.
  pose proof (back_grows (cancel r) (log_call (Cancelled id) s)) as Hg.
  apply grows_log in Hg as (s1&Hg&Heq). unfold runs, post.
  assert (retire call_back i r s =
    match call_back (cancel r) (log_call (Cancelled id) s) with
    | (Ok _, s2) => (Ok (), with_fd_rules (delete i (_fd_rules s2)) s2)
    | (Err e, s2) => (Err e, s2)
    end) as -> by done.
  destruct (call_back (cancel r) (log_call (Cancelled id) s)) as [[[]|e] s2] eqn:Hb; cbn [fst snd] in *; subst s2.
  - exists [Cancelled id]. cbn. pose proof (loop_ok_grows _ _ Hs Hg) as Hs1.
    pose proof (loop_ok_retired s1 i id Hs1 (grows_lookup _ _ _ _ Hg Hi)) as Hr.
    split; [by rewrite (gr_calls _ _ Hg)|]. split; [apply (lo_quiet _ Hr)|]. split; [exact Hr|]. by apply HQ.
  - exists [Cancelled id]. cbn. rewrite (gr_calls _ _ Hg). split; [done|].
    assert (id ∈ rule_ids s) as Hin by (apply elem_of_app; left; by eapply list_elem_of_lookup_2).
    split; [apply quiet_snoc; [by apply lo_quiet|by apply live_not_cancelled]|]. split; [done|].
    apply HE; [|done]. apply (gr_numbers _ _ Hg).
Qed.

(** ** The rules without a descriptor *)

(** A rule that is served is called up to 128 times in a row. *)
Lemma runs_busy_loop rounds r fired s (Q : result bool → list call → sys → Prop) :
  loop_ok s → rule_id r ∈ rule_ids s →
  (∀ n res s', (n ≤ rounds)%nat → (∀ b, res = Ok b → b = fired || bool_decide (n ≠ 0%nat)) →
    (n = 0%nat → s' = s) → Q res (replicate n (Ran (rule_id r))) s') →
  runs (busy_loop call_interest call_back rounds r fired) s Q.
Proof.
  revert s fired Q. induction rounds as [|rounds IH]; intros s fired Q Hs Hid HQ; cbn [busy_loop];
    apply runs_bind, runs_silent; try done; unfold interested; cbn [fst snd];
    destruct (call_interest (interest r) s) as [[]|e]; try intros _;
    try (by apply (HQ 0%nat); [lia|..]);
    try (by apply runs_ret; [done|]; apply (HQ 0%nat); [lia|intros b [= <-]; by rewrite orb_false_r|]).
  - unfold busy_wait. apply runs_bind, runs_silent; [done..|]. cbn. intros _.
    destruct (_ !! _); (apply runs_throw; [done|]; by apply (HQ 0%nat)).
  - apply runs_bind, runs_invoke; [done|done|done|]. intros [[]|e] s' Hg.
    + intros Hs'. apply IH; [done|by eapply grows_ids|].
      intros n res s'' Hn Hb _. apply (HQ (S n)); [lia| |done].
      intros b ->%Hb. by rewrite orb_true_r.
    + apply (HQ 1%nat); [lia|done|done].
Qed.

Lemma runs_busy_wait {A} (r : BasicRule C) s (Q : result A → list call → sys → Prop) :
  loop_ok s → (∀ e, Q (Err e) [] s) → runs (busy_wait r) s Q.
Proof.
  intros Hs HQ. unfold busy_wait. apply runs_bind, runs_silent; [done..|]. cbn [gets fst snd]. intros _.
  destruct (_rule_categories s !! category_id r); (apply runs_throw; [done|apply HQ]).
Qed.

Lemma runs_serve r s :
  loop_ok s → rule_id (basic r) ∈ rule_ids s →
  runs (serve call_interest call_back r) s (λ res tr s',
    (∀ a, res = Ok a → a = Success ∧ tr = [Ran (rule_id (basic r))]) ∧
    (tr = [] ∨ tr = [Ran (rule_id (basic r))]) ∧
    numbers s s' ∧ fd_keys s `prefix_of` fd_keys s').
Proof.
  intros Hs Hid. unfold serve, service_count.
  apply runs_bind, runs_bind, runs_wrapper; [done|intros e; split_and!; [done|by left|done|done]|].
  intros w _ _. apply runs_ret; [done|]. intros _.
  apply runs_bind, runs_invoke; [done|done|done|]. intros res s' Hg.
  assert (numbers s s') as Hnum by apply (gr_numbers _ _ Hg).
  assert (fd_keys s `prefix_of` fd_keys s') as Hpre by apply (grows_prefix _ _ Hg).
  destruct res as [[]|e]; [|by split_and!; [|right| |]].
  intros Hs'. apply runs_bind, runs_bind, runs_wrapper; [done|by intros; split_and!; [|right| |]|]. intros w1 _ _.
  apply runs_ret; [done|]. intros _. apply runs_bind, runs_wrapper; [done|by intros; split_and!; [|right| |]|]. intros w2 _ _.
  destruct (_ && _).
  - apply runs_bind, runs_silent; [done..|]. unfold interested. cbn [fst snd].
    destruct (call_interest _ s') as [[]|e]; [| |by intros; split_and!; [|right| |]]; intros _.
    + apply runs_busy_wait; [done|]. by intros; split_and!; [|right| |].
    + apply runs_ret; [done|]. split_and!; [by intros a [= <-]|by right|done|done].
  - apply runs_ret; [done|]. split_and!; [by intros a [= <-]|by right|done|done].
Qed.

(** What serving the rules without a descriptor can come to. *)
Definition served_one (tr : list call) : Prop :=
  ∃ id n, tr = replicate n (Ran id) ∧ (1 ≤ n ≤ 128)%nat.

Lemma runs_serve_from fuel i s (Q : result (option Result) → list call → sys → Prop) :
  loop_ok s →
  (∀ s', loop_ok s' → Q (Ok None) [] s') →
  (∀ tr s', served_one tr → Q (Ok (Some Success)) tr s') →
  (∀ e tr s', tr = [] ∨ served_one tr → Q (Err e) tr s') →
  runs (serve_from call_interest call_back fuel i) s Q.
Proof.
  intros Hs HN HS HE. revert i s Hs.
  induction fuel as [|fuel IH]; intros i s Hs; cbn [serve_from].
  { apply runs_throw; [done|]. apply HE. by left. }
  apply runs_bind, runs_silent; [done..|]. cbn [gets fst snd]. intros _.
  destruct (_non_fd_rules s !! i) as [r|] eqn:Hi; [|by apply runs_ret; auto].
  destruct (cancel_requested r).
  - apply runs_bind, runs_silent; [done|done|intros _ _; by apply loop_ok_erase_non_fd|].
    intros Hs'. by apply IH.
  - apply runs_bind, runs_busy_loop; [done|by eapply non_fd_rule_live|].
    intros n res s' Hn Hb H0. destruct res as [b|e].
    + rewrite (Hb b eq_refl). cbn [orb]. intros Hs'. destruct n as [|n].
      * by apply IH.
      * apply runs_ret; [done|]. rewrite app_nil_r. apply HS. exists (rule_id r), (S n). split; [done|lia].
    + destruct n as [|n]; apply HE; [by left|right]. exists (rule_id r), (S n). split; [done|lia].
Qed.

Lemma runs_serve_non_fd s :
  loop_ok s →
  runs (serve_non_fd_rules call_interest call_back) s (λ r tr _,
    match r with
    | Ok None => tr = []
    | Ok (Some a) => a = Success ∧ served_one tr
    | Err _ => tr = [] ∨ served_one tr
    end).
Proof.
  intros Hs. unfold serve_non_fd_rules. apply runs_bind, runs_silent; [done..|]. cbn [gets fst snd]. intros _.
  by apply runs_serve_from.
Qed.

End calling.
End runs.

(** * Runs that do not fail *)

Section fine.
Context {C X W : Type}.
Abbreviation sys := (state C X W).
Implicit Types s : sys.
Context (call_interest : C → sys → result bool) (call_back : C → eff sys ()).
(** The callbacks that add no rule with a descriptor. *)
Context (adds_none : C → Prop).

(** Rules refer to descriptors and categories that exist, and what is called
    while the rules are gone through adds none. *)
Record rules_wf s : Prop := mkRulesWf {
  wf_fds : Forall (λ r, is_Some (descriptors s !! fd r)) (_fd_rules s);
  wf_fd_categories : Forall (λ r, category_id (basic r) < length (_rule_categories s))%nat (_fd_rules s);
  wf_categories : Forall (λ r, category_id r < length (_rule_categories s))%nat (_non_fd_rules s);
  wf_adds_none : Forall (λ r, adds_none (cancel r) ∧ adds_none (error r)) (_fd_rules s);
}.

Lemma on_descriptor_state {A} f (m : eff FDWrapper A) s :
  ∃ ds, (on_descriptor f m s).2 = with_descriptors ds s ∧
    ∀ g, is_Some (descriptors s !! g) → is_Some (ds !! g).
Proof.
  unfold on_descriptor. destruct (descriptors s !! f) as [w|] eqn:Hw.
  - destruct (m w) as [r w']. exists (<[f := w']> (descriptors s)). split; [done|]. intros g Hg.
    destruct (decide (f = g)) as [<-|Hne]; [rewrite lookup_insert, decide_True by done; by eexists|].
    by rewrite lookup_insert_ne.
  - exists (descriptors s). split; [by destruct s|done].
Qed.

Lemma rules_wf_on_descriptor {A} f (m : eff FDWrapper A) s : rules_wf s → rules_wf (on_descriptor f m s).2.
Proof.
  intros [Hf Hc Hn Ha]. destruct (on_descriptor_state f m s) as (ds&->&Hds).
  split; try done. cbn. eapply Forall_impl; [exact Hf|]. intros r. apply Hds.
Qed.

Lemma rules_wf_cancel_handle id s : rules_wf s → rules_wf (cancel_handle id s).2.
Proof.
  intros [Hf Hc Hn Ha]. split; cbn; apply Forall_fmap.
  - by eapply Forall_impl; [exact Hf|].
  - by eapply Forall_impl; [exact Hc|].
  - by eapply Forall_impl; [exact Hn|].
  - by eapply Forall_impl; [exact Ha|].
Qed.

(** Interest functions and callbacks return, callbacks leave the rules
    well-formed, and [adds_none] is what it says. *)
Record program_ok : Prop := mkProgramOk {
  po_interest c s : is_Some (match call_interest c s with Ok b => Some b | Err _ => None end);
  po_back c s : (call_back c s).1 = Ok ();
  po_grows c : keeps grows (call_back c);
  po_wf c s : rules_wf s → rules_wf (call_back c s).2;
  po_categories c s : (length (_rule_categories s) ≤ length (_rule_categories (call_back c s).2))%nat;
  po_none c s : adds_none c → (length (_fd_rules (call_back c s).2) ≤ length (_fd_rules s))%nat;
}.
Hypothesis Hprogram : program_ok.

(** The exception of the busy-wait checks, the only one left. *)
Definition busy (e : exn) : Prop := ∃ name, e = Throw ("busy wait detected: rule " ++ name).

(** What else a kind of loop may throw. *)
Context (allowed : exn → Prop).
Hypothesis allowed_busy : ∀ e, busy e → allowed e.

Definition fine {A} (m : eff sys A) s (P : A → sys → Prop) : Prop :=
  post m s (λ r s', match r with Ok a => rules_wf s' ∧ P a s' | Err e => allowed e end).

Lemma fine_bind {A B} (m : eff sys A) (f : A → eff sys B) s P :
  fine m s (λ a s', rules_wf s' → fine (f a) s' P) → fine (m ≫= f) s P.
Proof.
  unfold fine. intros H. apply post_bind. eapply post_mono; [exact H|]. intros [a|e] s'; [|done]. intros [Hw Hf]. by apply Hf.
Qed.
Lemma fine_mono {A} (m : eff sys A) s (P P' : A → sys → Prop) :
  fine m s P → (∀ a s', P a s' → P' a s') → fine m s P'.
Proof. unfold fine. intros H HP. eapply post_mono; [exact H|]. intros [a|e] s'; naive_solver. Qed.
Lemma fine_ret {A} (a : A) s (P : A → sys → Prop) : rules_wf s → P a s → fine (mret a) s P.
Proof. by split. Qed.
Lemma fine_gets {A} (f : sys → A) s (P : A → sys → Prop) : rules_wf s → P (f s) s → fine (gets f) s P.
Proof. by split. Qed.

Lemma wf_descriptor s i r : rules_wf s → _fd_rules s !! i = Some r → is_Some (descriptors s !! fd r).
Proof.
  intros Hs Hi. pose proof (wf_fds _ Hs) as Hf. rewrite Forall_forall in Hf. apply Hf.
  by eapply list_elem_of_lookup_2.
Qed.

Lemma fine_wrapper s f (P : FDWrapper → sys → Prop) :
  rules_wf s → is_Some (descriptors s !! f) → (∀ w, P w s) → fine (wrapper f) s P.
Proof.
  intros Hs [w Hw] HP.
  unfold fine, post, wrapper. rewrite Hw. by split.
Qed.

Lemma fine_interested r s (P : bool → sys → Prop) :
  rules_wf s → (∀ b, P b s) → fine (interested call_interest r) s P.
Proof.
  intros Hs HP. unfold fine, post, interested. cbn. pose proof (po_interest Hprogram (interest r) s) as Hi.
  destruct (call_interest _ s); [by split|by destruct Hi].
Qed.

Lemma rules_wf_log c s : rules_wf s → rules_wf (log_call c s).
Proof. by intros []. Qed.

Lemma fine_invoke c f s (P : () → sys → Prop) :
  rules_wf s →
  (∀ s', grows (log_call c s) s' → (length (_rule_categories s) ≤ length (_rule_categories s'))%nat →
    (adds_none f → (length (_fd_rules s') ≤ length (_fd_rules s))%nat) → P () s') →
  fine (invoke call_back c f) s P.
Proof.
  intros Hs HP. unfold fine, post.
  assert (invoke call_back c f s = call_back f (log_call c s)) as -> by done.
  rewrite (po_back Hprogram). split; [by apply (po_wf Hprogram), rules_wf_log|].
  apply HP; [apply (po_grows Hprogram)|apply (po_categories Hprogram f (log_call c s))|].
  intros Hn. by apply (po_none Hprogram f (log_call c s)).
Qed.

Lemma rules_wf_delete i s : rules_wf s → rules_wf (with_fd_rules (delete i (_fd_rules s)) s).
Proof. intros []. split; cbn; try done; by apply Forall_delete. Qed.
Lemma rules_wf_delete_non_fd i s : rules_wf s → rules_wf (with_non_fd_rules (delete i (_non_fd_rules s)) s).
Proof. intros []. split; cbn; try done; by apply Forall_delete. Qed.

Lemma fine_erase i s (P : () → sys → Prop) :
  rules_wf s → P () (with_fd_rules (delete i (_fd_rules s)) s) → fine (erase_fd_rule i) s P.
Proof. intros Hs HP. split; [by apply rules_wf_delete|done]. Qed.

Lemma wf_tidy s i r :
  rules_wf s → _fd_rules s !! i = Some r → adds_none (cancel r) ∧ adds_none (error r).
Proof.
  intros Hs Hi. pose proof (wf_adds_none _ Hs) as Hf. rewrite Forall_forall in Hf. apply (Hf r).
  by eapply list_elem_of_lookup_2.
Qed.

(** A callback that adds no rule leaves the rules there are. *)
Lemma grows_none s s' :
  grows s s' → (length (_fd_rules s') ≤ length (_fd_rules s))%nat → fd_keys s' = fd_keys s.
Proof.
  intros [(f&n&Hf&_) _ _ _] Hl. rewrite Hf. destruct f as [|k f]; [by rewrite app_nil_r|].
  apply (f_equal length) in Hf. unfold fd_keys in Hf. rewrite length_app, !length_fmap in Hf. cbn in Hf. lia.
Qed.

Lemma fine_retire_keys i s r (P : () → sys → Prop) :
  rules_wf s → adds_none (cancel r) →
  (∀ s', fd_keys s' = delete i (fd_keys s) → numbers s s' → P () s') →
  fine (retire call_back i r) s P.
Proof.
  intros Hs Hn HP. apply fine_bind, fine_invoke; [done|]. intros s' Hg _ Hl Hs'. apply fine_erase; [done|].
  apply HP; [|apply (gr_numbers _ _ Hg)]. specialize (Hl Hn). cbn in Hl.
  unfold fd_keys at 1. cbn. rewrite fd_keys_delete. f_equal.
  apply (grows_none (log_call (Cancelled (rule_id (basic r))) s)); [done|exact Hl].
Qed.

Lemma fine_retire i s r (P : () → sys → Prop) :
  rules_wf s → adds_none (cancel r) →
  (∀ s', (length (_fd_rules s') - i ≤ length (_fd_rules s) - i - 1)%nat → P () s') →
  fine (retire call_back i r) s P.
Proof.
  intros Hs Hn HP. apply fine_retire_keys; [done|done|]. intros s' Hk _. apply HP.
  apply (f_equal length) in Hk. unfold fd_keys in Hk.
  rewrite delete_take_drop, length_app, length_take, length_drop, !length_fmap in Hk. lia.
Qed.

Lemma fine_busy_wait {A} (r : BasicRule C) s (P : A → sys → Prop) :
  rules_wf s → (category_id r < length (_rule_categories s))%nat → fine (busy_wait r) s P.
Proof.
  intros Hs Hc. apply lookup_lt_is_Some in Hc as [name Hc]. unfold fine, post, busy_wait. eff_run. rewrite Hc.
  apply allowed_busy. by exists name.
Qed.

Lemma fine_busy_loop rounds r fired s (P : bool → sys → Prop) :
  rules_wf s → (category_id r < length (_rule_categories s))%nat →
  (∀ s', P true s') → (fired = false → P false s) → fine (busy_loop call_interest call_back rounds r fired) s P.
Proof.
  intros Hs Hc HT HF. revert s fired Hs Hc HF.
  induction rounds as [|rounds IH]; intros s fired Hs Hc HF; cbn [busy_loop]; apply fine_bind, fine_interested;
    try done; intros b _; (destruct b; [|apply fine_ret; [done|]; destruct fired; auto]).
  - by apply fine_busy_wait.
  - apply fine_bind, fine_invoke; [done|]. intros s' _ Hcat _ Hs'. apply IH; [done|lia|done].
Qed.

Lemma fine_serve_from fuel i s :
  rules_wf s → (length (_non_fd_rules s) - i < fuel)%nat →
  fine (serve_from call_interest call_back fuel i) s (λ res s', res = None → _fd_rules s' = _fd_rules s).
Proof.
  revert i s.
  induction fuel as [|fuel IH]; intros i s Hs Hf; [lia|]. cbn [serve_from].
  apply fine_bind, fine_gets; [done|]. intros _.
  destruct (_non_fd_rules s !! i) as [r|] eqn:Hr; [|by apply fine_ret].
  pose proof (lookup_lt_Some _ _ _ Hr) as Hlt. destruct (cancel_requested r).
  - apply fine_bind. split; [by apply rules_wf_delete_non_fd|]. intros Hs'.
    eapply fine_mono; [apply IH; [done|]|done].
    cbn. rewrite delete_take_drop, length_app, length_take, length_drop. lia.
  - apply fine_bind, fine_busy_loop; [done| | |].
    + pose proof (wf_categories _ Hs) as Hc. rewrite Forall_forall in Hc. apply Hc. by eapply list_elem_of_lookup_2.
    + intros s' Hs'. by apply fine_ret.
    + intros _ _. apply IH; [done|lia].
Qed.

Lemma fine_service_count s r (P : Z → sys → Prop) :
  rules_wf s → is_Some (descriptors s !! fd r) → (∀ n, P n s) → fine (service_count r) s P.
Proof. intros Hs Hi HP. apply fine_bind, fine_wrapper; [done|done|]. intros w _. by apply fine_ret. Qed.

Lemma fine_serve i r s :
  rules_wf s → _fd_rules s !! i = Some r →
  fine (serve call_interest call_back r) s (λ _ _, True).
Proof.
  intros Hs Hr. pose proof (wf_descriptor _ _ _ Hs Hr) as [w0 Hw].
  pose proof (wf_fd_categories _ Hs) as Hc. rewrite Forall_forall in Hc.
  specialize (Hc r ltac:(by eapply list_elem_of_lookup_2)).
  apply fine_bind, fine_service_count; [done|done|]. intros n _.
  apply fine_bind, fine_invoke; [done|]. intros s' Hg Hcat _ Hs'.
  destruct (gr_numbers _ _ Hg (fd r) w0 Hw) as (w1&Hw1&_).
  apply fine_bind, fine_service_count; [done|done|]. intros n' _.
  apply fine_bind, fine_wrapper; [done|done|]. intros w _.
  destruct (_ && _); [|by apply fine_ret].
  apply fine_bind, fine_interested; [done|]. intros b _.
  destruct b; [|by apply fine_ret]. apply fine_busy_wait; [done|lia].
Qed.

End fine.
