(* ===== verification/EventLoop.v ===== *)
(** The event loop on poll(2) (src/util/eventloop.hh, src/util/eventloop.cc). *)

From S2P Require Import Prelude Effects FileDescriptor EventRules.

(** * poll *)

Definition POLLIN : Z := 1.
Definition POLLOUT : Z := 4.
Definition POLLERR : Z := 8.
Definition POLLHUP : Z := 16.
Definition POLLNVAL : Z := 32.

Record pollfd : Type := mkPollfd {
  pfd_fd : Z;
  events : Z;
  revents : Z;
}.

(** [static_cast<bool>( a & b )]. *)
Definition has_bits (a b : Z) : bool := bool_decide (Z.land a b ≠ 0).

Module EventLoop.
Section loop.
Context {C W : Type}.
Abbreviation sys := (state C () W).
Context (call_interest : C → sys → result bool) (call_back : C → eff sys ()).

(** What poll(2) answers to the array and the timeout: the number of entries
    with something to report and their [revents]; and what getsockopt(2)
    answers to [SO_ERROR]: the error and the length of the option. *)
Context (poll : list pollfd → Z → syscall (Z * list Z)) (getsockopt : Z → syscall (Z * Z)).

(** The first pass over the rules with a descriptor: sets up an entry for each
    rule kept, and tells whether any rule is interested. *)
Fixpoint prepare (fuel i : nat) (pollfds : list pollfd) (something_to_poll : bool)
    : eff sys (list pollfd * bool) :=
  match fuel with
  | O => mthrow OutOfFuel
  | S fuel =>
      rs ← gets _fd_rules;
      match rs !! i with
      | None => mret (pollfds, something_to_poll)
      | Some r =>
          if cancel_requested (basic r) then
            erase_fd_rule i ;; prepare fuel i pollfds something_to_poll
          else
            w ← wrapper (fd r);
            if bool_decide (direction r = In) && FileDescriptor.eof w then
              retire call_back i r ;; prepare fuel i pollfds something_to_poll
            else if FileDescriptor.closed w then
              retire call_back i r ;; prepare fuel i pollfds something_to_poll
            else
              b ← interested call_interest (basic r);
              let events :=
                if (b : bool) then match direction r with In => POLLIN | Out => POLLOUT end else 0 in
              prepare fuel (S i) (pollfds ++ [mkPollfd (FileDescriptor.fd_num w) events 0])
                (something_to_poll || b)
      end
  end.

(** What is said of an error on a descriptor, if it is a socket. *)
Definition report_error (r : FDRule C) : eff sys () :=
  w ← wrapper (fd r);
  match getsockopt (FileDescriptor.fd_num w) with
  | Failed errno => if bool_decide (errno = ENOTSOCK) then mret () else mthrow (unix_error "getsockopt")
  | Returned (socket_error, optlen) =>
      if bool_decide (optlen ≠ 4) then mthrow (Throw "unexpected length from getsockopt") else mret ()
  end.

(** The second pass, through what poll reported. *)
Fixpoint dispatch (fuel i idx : nat) (pollfds : list pollfd) : eff sys Result :=
  match fuel with
  | O => mthrow OutOfFuel
  | S fuel =>
      rs ← gets _fd_rules;
      match rs !! i with
      | None => mret Success
      | Some r =>
          match pollfds !! idx with
          | None => mthrow (Throw "vector::at")
          | Some p =>
              if has_bits (revents p) (Z.lor POLLERR POLLNVAL) then
                report_error r ;;
                invoke call_back (Errored (rule_id (basic r))) (error r) ;;
                retire call_back i r ;;
                dispatch fuel i (S idx) pollfds
              else
                let poll_ready := has_bits (revents p) (events p) in
                let poll_hup := has_bits (revents p) POLLHUP in
                if poll_hup && ((bool_decide (events p ≠ 0) && negb poll_ready) || bool_decide (direction r = Out))
                then retire call_back i r ;; dispatch fuel i (S idx) pollfds
                else if poll_ready then serve call_interest call_back r
                else dispatch fuel (S i) (S idx) pollfds
          end
      end
  end.

(** The entries with the [revents] poll stored in them. *)
Definition reported (pollfds : list pollfd) (revs : list Z) : list pollfd :=
  zip_with (λ p r, mkPollfd (pfd_fd p) (events p) r) pollfds revs.

Definition wait_next_event (fuel : nat) (timeout_ms : Z) : eff sys Result :=
  served ← serve_non_fd_rules call_interest call_back;
  match served with
  | Some res => mret res
  | None =>
      '(pollfds, something_to_poll) ← prepare fuel 0 [] false;
      if negb something_to_poll then mret Exit
      else
        match poll pollfds timeout_ms with
        | Failed _ => mthrow (unix_error "poll")
        | Returned (n, revs) =>
            if bool_decide (n = 0) then mret Timeout
            else dispatch fuel 0 0 (reported pollfds revs)
        end
  end.

End loop.
End EventLoop.

(** * One call of the loop *)

Definition direction_event (d : Direction) : Z := match d with In => POLLIN | Out => POLLOUT end.

Section events.
Context {C W : Type}.
Abbreviation sys := (state C () W).
Implicit Types s : sys.
Context (call_interest : C → sys → result bool) (call_back : C → eff sys ()).
Hypothesis back_grows : ∀ c, keeps grows (call_back c).
Context (poll : list pollfd → Z → syscall (Z * list Z)) (getsockopt : Z → syscall (Z * Z)).

(** The entry of the array given to poll that belongs to a rule. *)
Definition entry s (k : FDRule C) (p : pollfd) : Prop :=
  (∃ w, descriptors s !! fd k = Some w ∧ pfd_fd p = fd_ w) ∧
  (events p = 0 ∨ events p = direction_event (direction k)).

Lemma entry_grows s s' k p : grows s s' → entry s k p → entry s' k p.
Proof.
  intros Hg [(w&Hw&Hp) He]. split; [|done]. apply (gr_numbers _ _ Hg) in Hw as (w'&?&?).
  exists w'. split; [done|congruence].
Qed.

Lemma runs_prepare fuel i pollfds st s
    (Q : result (list pollfd * bool) → list call → sys → Prop) :
  loop_ok s → (i ≤ length (fd_keys s))%nat → Forall2 (entry s) (take i (fd_keys s)) pollfds →
  st = bool_decide (Exists (λ p, events p ≠ 0) pollfds) →
  (∀ pollfds st tr s', Forall is_cancelled tr → Forall2 (entry s') (fd_keys s') pollfds →
    st = bool_decide (Exists (λ p, events p ≠ 0) pollfds) → Q (Ok (pollfds, st)) tr s') →
  (∀ e tr s', Forall is_cancelled tr → Q (Err e) tr s') →
  runs (EventLoop.prepare call_interest call_back fuel i pollfds st) s Q.
Proof.
  revert i pollfds st s Q.
  induction fuel as [|fuel IH]; intros i pollfds st s Q Hs Hi Hp Hst HQ HE; cbn [EventLoop.prepare].
  { apply runs_throw; [done|]. by apply HE. }
  apply runs_bind, runs_silent; [done..|]. cbn [gets fst snd]. intros _.
  destruct (_fd_rules s !! i) as [r|] eqn:Hr.
  2: { apply runs_ret; [done|]. apply HQ; [done| |done]. apply lookup_ge_None in Hr.
    rewrite take_ge in Hp; [done|]. unfold fd_keys. by rewrite length_fmap. }
  pose proof (keys_lookup _ _ _ Hr) as Hk. pose proof (lookup_lt_Some _ _ _ Hk) as Hlt.
  assert (runs (retire call_back i r ;; EventLoop.prepare call_interest call_back fuel i pollfds st) s Q) as Hretire.
  { apply runs_bind, runs_retire; [done|done|by apply ids_lookup| |].
    - intros s1 Hg _ Hs'.
      destruct (erased_keys s s1 _ i (grows_prefix _ _ Hg) Hlt (fd_keys_retired i (Cancelled (rule_id (basic r))) s1)) as (Ht&Hl&_).
      apply IH; [done|done| |done| |].
      + rewrite Ht. eapply Forall2_impl; [exact Hp|]. intros k p He. by apply (entry_grows s s1).
      + intros. apply HQ; try done. by constructor.
      + intros. apply HE. by constructor.
    - intros e s' _ _. apply HE. by repeat constructor. }
  destruct (cancel_requested (basic r)).
  { apply runs_bind, runs_silent; [done|done|intros _ _; by apply loop_ok_erase|].
    unfold erase_fd_rule. cbn [modify fst snd]. intros Hs'.
    destruct (erased_keys s s _ i (reflexivity (fd_keys s)) Hlt (fd_keys_erased i s)) as (Ht&Hl&_).
    apply IH; [done|done|by rewrite Ht|done..]. }
  apply runs_bind, runs_wrapper; [done|intros e; by apply HE|]. intros w Hw _.
  destruct (_ && _); [exact Hretire|]. destruct (FileDescriptor.closed w); [exact Hretire|].
  apply runs_bind, runs_silent; [done..|]. unfold interested. cbn [fst snd].
  destruct (call_interest _ s) as [b|e]; [|by apply HE]. intros _.
  apply IH; [done|lia| | |done|done].
  - rewrite (take_S_r _ _ _ Hk). apply Forall2_app; [done|]. constructor; [|done].
    split; [by exists w|]. destruct b; [|by left]. right. cbn. by destruct (direction r).
  - rewrite (bool_decide_ext (Exists _ (pollfds ++ _))
      (Exists (λ p, events p ≠ 0) pollfds ∨ b = true)).
    + rewrite bool_decide_or, <- Hst. f_equal. by destruct b.
    + rewrite Exists_app, Exists_cons, Exists_nil. cbn. destruct b, (direction r); naive_solver.
Qed.
(** What the second pass calls: the error and cancellation callbacks of
    defunct rules, and then at most one rule, whose entry poll reported ready. *)
Definition dispatched (owners : list (FDRule C)) (pollfds : list pollfd) (tr : list call) : Prop :=
  ∃ tr0, Forall not_ran tr0 ∧
    (tr = tr0 ∨
     ∃ idx k p, tr = tr0 ++ [Ran (key_id k)] ∧ owners !! idx = Some k ∧ pollfds !! idx = Some p ∧
       has_bits (revents p) (events p) = true).

Lemma dispatched_cons owners pollfds c tr :
  not_ran c → dispatched owners pollfds tr → dispatched owners pollfds (c :: tr).
Proof.
  intros Hc (tr0&Hn&Ht). exists (c :: tr0). split; [by constructor|].
  destruct Ht as [->|(idx&k&p&->&Ht)]; [by left|right]. by exists idx, k, p.
Qed.
Lemma dispatched_nil owners pollfds : dispatched owners pollfds [].
Proof. exists []. split; [done|by left]. Qed.

Lemma runs_report_error r s (Q : result () → list call → sys → Prop) :
  loop_ok s → (∀ res, Q res [] s) → runs (EventLoop.report_error getsockopt r) s Q.
Proof.
  intros Hs HQ. unfold EventLoop.report_error. apply runs_bind, runs_wrapper; [done|by intros e|].
  intros w _ _. destruct (getsockopt _) as [[e l]|errno]; case_bool_decide;
    first [apply runs_ret|apply runs_throw]; done.
Qed.

Lemma runs_dispatch fuel i idx owners pollfds s :
  loop_ok s → length owners = length pollfds →
  (∃ new, drop i (fd_keys s) = drop idx owners ++ new) →
  runs (EventLoop.dispatch call_interest call_back getsockopt fuel i idx pollfds) s (λ res tr _,
    (∀ a, res = Ok a → a = Success) ∧ dispatched owners pollfds tr).
Proof.
  intros Hs Hlen Hal. revert i idx s Hs Hal.
  induction fuel as [|fuel IH]; intros i idx s Hs [new Hal]; cbn [EventLoop.dispatch].
  { apply runs_throw; [done|]. by split; [|apply dispatched_nil]. }
  apply runs_bind, runs_silent; [done..|]. cbn [gets fst snd]. intros _.
  destruct (_fd_rules s !! i) as [r|] eqn:Hr.
  2: { apply runs_ret; [done|]. split; [by intros a [= <-]|apply dispatched_nil]. }
  destruct (pollfds !! idx) as [p|] eqn:Hp.
  2: { apply runs_throw; [done|]. by split; [|apply dispatched_nil]. }
  pose proof (keys_lookup _ _ _ Hr) as Hk. pose proof (lookup_lt_Some _ _ _ Hk) as Hlt.
  assert (owners !! idx = Some (key r)) as Ho.
  { assert (is_Some (owners !! idx)) as [k Ho]
      by (apply lookup_lt_is_Some; rewrite Hlen; by eapply lookup_lt_Some).
    rewrite (drop_lookup_cons _ _ _ Ho), (drop_lookup_cons _ _ _ Hk) in Hal. injection Hal as -> _. done. }
  rewrite (drop_lookup_cons _ _ _ Ho), (drop_lookup_cons _ _ _ Hk) in Hal. injection Hal as Hal.
  assert (∀ s1, loop_ok s1 → fd_keys s `prefix_of` fd_keys s1 →
    runs (retire call_back i r ;; EventLoop.dispatch call_interest call_back getsockopt fuel i (S idx) pollfds) s1
      (λ res tr _, (∀ a, res = Ok a → a = Success) ∧ dispatched owners pollfds tr)) as Hretire.
  { intros s1 Hs1 Hg1. apply runs_bind, runs_retire; [done|done| | |].
    - eapply prefix_ids; [done|]. by apply ids_lookup.
    - intros s2 Hg _ Hs'.
      destruct (erased_keys s s2 _ i (transitivity Hg1 (grows_prefix _ _ Hg)) Hlt
        (fd_keys_retired i (Cancelled (rule_id (basic r))) s2)) as (_&_&new'&Hn).
      eapply runs_mono; [apply IH; [done|]|].
      + exists (new ++ new'). by rewrite Hn, Hal, app_assoc.
      + intros res tr s'' [Ha Hd]. split; [done|]. by apply dispatched_cons.
    - intros e s' _ _. split; [done|]. by apply dispatched_cons; [|apply dispatched_nil]. }
  destruct (has_bits (revents p) (Z.lor POLLERR POLLNVAL)).
  - apply runs_bind, runs_report_error; [done|]. intros [[]|e]; [|by split; [|apply dispatched_nil]].
    intros _. apply runs_bind, runs_invoke; [done|done|by eapply fd_rule_live|done|].
    intros [[]|e] s' Hg.
    + intros Hs'. eapply runs_mono; [apply Hretire; [done|]|].
      * apply (grows_prefix _ _ Hg).
      * intros res tr s'' [Ha Hd]. split; [done|]. by apply dispatched_cons.
    + split; [done|]. by apply dispatched_cons; [|apply dispatched_nil].
  - destruct (_ && _); [by apply Hretire|]. destruct (has_bits _ (events p)) eqn:Hready.
    + eapply runs_mono; [apply runs_serve; [done|done|by eapply fd_rule_live]|].
      intros res tr s' (Ha&Ht&_). split; [by intros a [-> _]%Ha|]. destruct Ht as [->| ->]; [apply dispatched_nil|].
      exists []. split; [done|right]. by exists idx, (key r), p.
    + apply IH; [done|]. by exists new.
Qed.
Hypothesis poll_length : ∀ ps timeout n revs, poll ps timeout = Returned (n, revs) → length revs = length ps.

Abbreviation serve_non_fd := (serve_non_fd_rules call_interest call_back).
Abbreviation prepare fuel := (EventLoop.prepare call_interest call_back fuel 0 [] false).
Abbreviation wait := (EventLoop.wait_next_event call_interest call_back poll getsockopt).

(** The calls of one [wait_next_event] from [s]. *)
Definition waited fuel timeout_ms s (r : result Result) (tr : list call) : Prop :=
  (tr = [] ∧ ∃ e, r = Err e) ∨
  (served_one tr ∧ (r = Ok Success ∨ ∃ e, r = Err e)) ∨
  (Forall is_cancelled tr ∧ (∃ e, r = Err e)) ∨
  ∃ s0 s1 pollfds st, serve_non_fd s = (Ok None, s0) ∧ prepare fuel s0 = (Ok (pollfds, st), s1) ∧
    Forall2 (entry s1) (fd_keys s1) pollfds ∧ st = bool_decide (Exists (λ p, events p ≠ 0) pollfds) ∧
    if st then
      match poll pollfds timeout_ms with
      | Failed _ => Forall is_cancelled tr ∧ r = Err (unix_error "poll")
      | Returned (n, revs) =>
          if bool_decide (n = 0) then Forall is_cancelled tr ∧ r = Ok Timeout
          else
            (∀ a, r = Ok a → a = Success) ∧
            ∃ tr0 tr1, tr = tr0 ++ tr1 ∧ Forall is_cancelled tr0 ∧
              dispatched (fd_keys s1) (EventLoop.reported pollfds revs) tr1
      end
    else Forall is_cancelled tr ∧ r = Ok Exit.

Lemma runs_wait fuel timeout_ms s :
  loop_ok s → runs (wait fuel timeout_ms) s (λ r tr _, waited fuel timeout_ms s r tr).
Proof.
  intros Hs. unfold EventLoop.wait_next_event. apply runs_bind.
  eapply runs_mono.
  { by apply runs_keep, runs_serve_non_fd. }
  intros [[res|]|e] tr s0 [Hserve HQ].
  - destruct HQ as [-> Hone]. intros Hs0. apply runs_ret; [done|]. rewrite app_nil_r. right. left. auto.
  - cbn in HQ. subst tr. intros Hs0. apply runs_bind.
    eapply runs_mono.
    { apply runs_keep, (runs_prepare fuel 0 [] false s0 (λ r tr s', Forall is_cancelled tr ∧ match r with
        | Ok (pollfds, st) => Forall2 (entry s') (fd_keys s') pollfds ∧
            st = bool_decide (Exists (λ p, events p ≠ 0) pollfds)
        | Err _ => True end)); [done|lia|by rewrite take_0| | |].
      - symmetry. apply bool_decide_eq_false_2. by intros ?%Exists_nil.
      - auto.
      - auto. }
    intros [[pollfds st]|e] tr s1 [Hprep [Htr HQ]].
    2: { right. right. left. cbn. eauto. }
    destruct HQ as [Hent Hst]. intros Hs1. cbn [app].
    destruct st; cbn [negb].
    + destruct (poll pollfds timeout_ms) as [[n revs]|errno] eqn:Hpoll.
      * destruct (bool_decide (n = 0)) eqn:Hn.
        -- apply runs_ret; [done|]. do 3 right. exists s0, s1, pollfds, true. by rewrite Hpoll, Hn, app_nil_r.
        -- eapply runs_mono.
           { apply (runs_dispatch fuel 0 0 (fd_keys s1)); [done| |exists []; by rewrite app_nil_r].
             unfold EventLoop.reported. rewrite length_zip_with, (poll_length _ _ _ _ Hpoll), (Forall2_length _ _ _ Hent). lia. }
           intros r tr' s' [Ha Hd]. do 3 right. exists s0, s1, pollfds, true. rewrite Hpoll, Hn.
           split_and!; try done. by exists tr, tr'.
      * apply runs_throw; [done|]. do 3 right. exists s0, s1, pollfds, true. by rewrite Hpoll, app_nil_r.
    + apply runs_ret; [done|]. do 3 right. exists s0, s1, pollfds, false. by rewrite app_nil_r.
  - destruct HQ as [->|Hone]; [by left; eauto|right; left; eauto].
Qed.
End events.

(** * Totality *)

Section total.
Context {C W : Type}.
Abbreviation sys := (state C () W).
Implicit Types s : sys.
Context (call_interest : C → sys → result bool) (call_back : C → eff sys ()) (adds_none : C → Prop).
Hypothesis Hprogram : program_ok call_interest call_back adds_none.
Context (poll : list pollfd → Z → syscall (Z * list Z)) (getsockopt : Z → syscall (Z * Z)).
Hypothesis getsockopt_ok : ∀ n, getsockopt n = Failed ENOTSOCK ∨ ∃ e, getsockopt n = Returned (e, 4).

Lemma fine_prepare fuel i pollfds st s :
  rules_wf adds_none s → (length (_fd_rules s) - i < fuel)%nat → length pollfds = i →
  fine adds_none busy (EventLoop.prepare call_interest call_back fuel i pollfds st) s
    (λ res s', length (_fd_rules s') ≤ length res.1 < fuel + i)%nat.
Proof.
  revert i pollfds st s. induction fuel as [|fuel IH]; intros i pollfds st s Hs Hf Hl; [lia|].
  cbn [EventLoop.prepare]. apply fine_bind, fine_gets; [done|]. intros _.
  destruct (_fd_rules s !! i) as [r|] eqn:Hr.
  2: { apply fine_ret; [done|]. apply lookup_ge_None in Hr. cbn. lia. }
  pose proof (lookup_lt_Some _ _ _ Hr) as Hlt.
  assert (fine adds_none busy (retire call_back i r ;; EventLoop.prepare call_interest call_back fuel i pollfds st) s
    (λ res s', length (_fd_rules s') ≤ length res.1 < S fuel + i)%nat) as Hretire.
  { apply fine_bind, (fine_retire _ _ _ Hprogram); [done|by eapply wf_tidy|]. intros s' Hl' Hs'.
    eapply fine_mono; [apply IH; [done|lia|done]|]. intros [] s''. cbn. lia. }
  destruct (cancel_requested (basic r)).
  { apply fine_bind, fine_erase; [done|]. intros Hs'.
    eapply fine_mono; [apply IH; [done| |done]|intros [] s''; cbn; lia].
    cbn. rewrite delete_take_drop, length_app, length_take, length_drop. lia. }
  apply fine_bind, fine_wrapper; [done|by eapply wf_descriptor|]. intros w _.
  destruct (_ && _); [exact Hretire|]. destruct (FileDescriptor.closed w); [exact Hretire|].
  apply fine_bind, (fine_interested _ _ _ Hprogram); [done|]. intros b _.
  eapply fine_mono; [apply IH; [done|lia|]|intros [] s''; cbn; lia]. rewrite length_app. cbn. lia.
Qed.

Lemma fine_report_error s r : rules_wf adds_none s → is_Some (descriptors s !! fd r) →
  fine adds_none busy (EventLoop.report_error getsockopt r) s (λ _ s', s' = s).
Proof.
  intros Hs Hd. apply fine_bind, fine_wrapper; [done|done|]. intros w _.
  destruct (getsockopt_ok (FileDescriptor.fd_num w)) as [->|[e ->]].
  - rewrite bool_decide_true by done. by apply fine_ret.
  - rewrite (bool_decide_false (4 ≠ 4)) by auto. by apply fine_ret.
Qed.

Lemma fine_dispatch fuel i idx pollfds s :
  rules_wf adds_none s → (length (_fd_rules s) - i ≤ length pollfds - idx)%nat →
  (length pollfds - idx < fuel)%nat →
  fine adds_none busy (EventLoop.dispatch call_interest call_back getsockopt fuel i idx pollfds) s (λ _ _, True).
Proof.
  revert i idx s. induction fuel as [|fuel IH]; intros i idx s Hs Hl Hf; [lia|]. cbn [EventLoop.dispatch].
  apply fine_bind, fine_gets; [done|]. intros _.
  destruct (_fd_rules s !! i) as [r|] eqn:Hr; [|by apply fine_ret].
  pose proof (lookup_lt_Some _ _ _ Hr) as Hlt.
  destruct (lookup_lt_is_Some_2 pollfds idx) as [p Hp]; [lia|]. rewrite Hp.
  assert (∀ s1, rules_wf adds_none s1 → (length (_fd_rules s1) ≤ length (_fd_rules s))%nat →
    fine adds_none busy (retire call_back i r ;; EventLoop.dispatch call_interest call_back getsockopt fuel i (S idx) pollfds)
      s1 (λ _ _, True)) as Hretire.
  { intros s1 Hs1 Hl1. apply fine_bind, (fine_retire _ _ _ Hprogram); [done|apply (wf_tidy _ _ _ _ Hs Hr)|].
    intros s' Hl' Hs'. apply IH; [done|lia|lia]. }
  destruct (has_bits (revents p) (Z.lor POLLERR POLLNVAL)).
  - apply fine_bind. eapply fine_mono; [apply fine_report_error; [done|by eapply wf_descriptor]|].
    intros [] s' -> _. apply fine_bind, (fine_invoke _ _ _ Hprogram); [done|]. intros s' _ _ Hl' Hs'.
    apply Hretire; [done|]. apply Hl', (wf_tidy _ _ _ _ Hs Hr).
  - destruct (_ && _); [by apply Hretire|]. destruct (has_bits _ (events p)).
    + by eapply fine_serve.
    + apply IH; [done|lia|lia].
Qed.

Hypothesis poll_length : ∀ ps timeout n revs, poll ps timeout = Returned (n, revs) → length revs = length ps.
Hypothesis poll_ok : ∀ ps timeout, ∃ n revs, poll ps timeout = Returned (n, revs).

Lemma fine_wait fuel timeout_ms s :
  rules_wf adds_none s → (length (_fd_rules s) < fuel)%nat → 
  fine adds_none busy (EventLoop.wait_next_event call_interest call_back poll getsockopt fuel timeout_ms) s (λ _ _, True).
Proof.
  intros Hs Hf. unfold EventLoop.wait_next_event, serve_non_fd_rules.
  apply fine_bind, fine_bind, fine_gets; [done|]. intros _.
  eapply fine_mono; [apply (fine_serve_from _ _ _ Hprogram); [done|done|lia]|].
  intros [res|] s0 H0 Hs0; [by apply fine_ret|]. rewrite <- (H0 eq_refl) in Hf.
  apply fine_bind. eapply fine_mono; [apply fine_prepare; [done|lia|done]|].
  intros [pollfds st] s1 Hl Hs1. cbn in Hl. destruct st; cbn [negb]; [|by apply fine_ret].
  destruct (poll_ok pollfds timeout_ms) as (n&revs&Hp). rewrite Hp.
  destruct (bool_decide (n = 0)); [by apply fine_ret|]. apply fine_dispatch; [done| |].
  - unfold EventLoop.reported. rewrite length_zip_with, (poll_length _ _ _ _ Hp). lia.
  - unfold EventLoop.reported. rewrite length_zip_with, (poll_length _ _ _ _ Hp). lia.
Qed.
End total.

(** * Properties *)

(** A program's use of a loop: it starts without rules, uses the loop's
    interface, and calls [wait_next_event], each time with what the kernel
    answers then, until a call throws. *)
Inductive session {C W} (call_interest : C → state C () W → result bool) (call_back : C → eff (state C () W) ())
    : state C () W → Prop :=
  | session_start s :
      _fd_rules s = [] → _non_fd_rules s = [] → calls s = [] → session call_interest call_back s
  | session_program s s' :
      session call_interest call_back s → grows s s' → session call_interest call_back s'
  | session_wait s s' poll getsockopt fuel timeout_ms res :
      (∀ ps t n revs, poll ps t = Returned (n, revs) → length revs = length ps) →
      session call_interest call_back s →
      EventLoop.wait_next_event call_interest call_back poll getsockopt fuel timeout_ms s = (Ok res, s') →
      session call_interest call_back s'.

Lemma session_ok {C W} (call_interest : C → state C () W → result bool) call_back s :
  (∀ c, keeps grows (call_back c)) → session call_interest call_back s → loop_ok s.
Proof.
  intros Hb. induction 1 as [s Hf Hn Hc|s s' _ IH Hg|s s' poll gso fuel t res Hp _ IH Hw].
  - by apply loop_ok_start.
  - by eapply loop_ok_grows.
  - destruct (runs_wait call_interest call_back Hb poll gso Hp fuel t s IH) as (tr&_&_&Hl&_). by rewrite Hw in Hl.
Qed.

(** C34: the life of a rule: however the program and its callbacks use the
    loop, adding and cancelling rules at any time, and whatever poll reports,
    every rule is told of its cancellation at most once, is not called again
    after it, and is gone from the loop when the call that did it returns; the
    log of calls only grows, and rules keep distinct identities. *)
Theorem event_rule_lifecycle {C W} (call_interest : C → state C () W → result bool) call_back s
    poll getsockopt fuel timeout_ms :
  (∀ c, keeps grows (call_back c)) → session call_interest call_back s →
  (∀ ps t n revs, poll ps t = Returned (n, revs) → length revs = length ps) →
  let '(r, s') := EventLoop.wait_next_event call_interest call_back poll getsockopt fuel timeout_ms s in
  calls s `prefix_of` calls s' ∧
  (∀ i j id c, (i < j)%nat → calls s' !! i = Some (Cancelled id) → calls s' !! j = Some c → call_rule c ≠ id) ∧
  ∀ a, r = Ok a → NoDup (rule_ids s') ∧ ∀ id, Cancelled id ∈ calls s' → id ∉ rule_ids s'.
Proof.
  intros Hb Hs Hp. pose proof (session_ok _ _ _ Hb Hs) as Hok.
  destruct (runs_wait call_interest call_back Hb poll getsockopt Hp fuel timeout_ms s Hok) as (tr&Hc&Hq&Hl&_).
  destruct (EventLoop.wait_next_event _ _ _ _ _ _ s) as [r s'] eqn:Hw. cbn in *.
  split; [by exists tr|]. split; [exact Hq|]. intros a ->. destruct Hl. done.
Qed.

(** C33: what one [wait_next_event] does: if a rule without a descriptor is
    served, it is called 1 to 128 times and nothing else is; else the rules
    with a descriptor are gone through, each one kept having its own entry
    (its descriptor, and its direction if it is interested) in the array for
    poll; without an interested rule the result is Exit, without anything
    reported Timeout, and no rule is run; otherwise the result is Success, the
    defunct rules are told so, and at most one rule is run, the last call
    made, which is one whose own entry poll reported ready. *)
Theorem event_loop_wait {C W} (call_interest : C → state C () W → result bool) call_back s
    poll getsockopt fuel timeout_ms :
  (∀ c, keeps grows (call_back c)) → session call_interest call_back s →
  (∀ ps t n revs, poll ps t = Returned (n, revs) → length revs = length ps) →
  let '(r, s') := EventLoop.wait_next_event call_interest call_back poll getsockopt fuel timeout_ms s in
  ∃ tr, calls s' = calls s ++ tr ∧ waited call_interest call_back poll fuel timeout_ms s r tr.
Proof.
  intros Hb Hs Hp. pose proof (session_ok _ _ _ Hb Hs) as Hok.
  destruct (runs_wait call_interest call_back Hb poll getsockopt Hp fuel timeout_ms s Hok) as (tr&Hc&_&_&Hw).
  destruct (EventLoop.wait_next_event _ _ _ _ _ _ s) as [r s'] eqn:Heq. by exists tr.
Qed.

(** [wait_next_event] always returns: if interest functions and callbacks
    return, the callbacks for errors and cancellation add no rules with a
    descriptor, and the system calls succeed, then fuel for the rules there
    are is enough and the only exception is that of the busy-wait checks. *)
Theorem event_loop_total {C W} (call_interest : C → state C () W → result bool) call_back adds_none s
    poll getsockopt fuel timeout_ms :
  program_ok call_interest call_back adds_none → rules_wf adds_none s →
  (∀ ps t, ∃ n revs, poll ps t = Returned (n, revs)) →
  (∀ ps t n revs, poll ps t = Returned (n, revs) → length revs = length ps) →
  (∀ n, getsockopt n = Failed ENOTSOCK ∨ ∃ e, getsockopt n = Returned (e, 4)) →
  (length (_fd_rules s) < fuel)%nat →
  let '(r, s') := EventLoop.wait_next_event call_interest call_back poll getsockopt fuel timeout_ms s in
  match r with Ok _ => rules_wf adds_none s' | Err e => busy e end.
Proof.
  intros Hprog Hs Hp Hl Hg Hf.
  pose proof (fine_wait call_interest call_back adds_none Hprog poll getsockopt Hg Hl Hp fuel timeout_ms s Hs Hf) as H.
  unfold fine, post in H. destruct (EventLoop.wait_next_event _ _ _ _ _ _ s) as [[a|e] s']; cbn in H; naive_solver.
Qed.

(** ** A program *)

Inductive demo_code : Type := Always | Nothing | ReadIt | AddRule | CancelOther.

Definition demo_interest (c : demo_code) (s : state demo_code () ()) : result bool := Ok true.
Definition demo_back (c : demo_code) : eff (state demo_code () ()) () :=
  match c with
  | Always | Nothing => mret ()
  | ReadIt => swallow (_ ← on_descriptor 0 (FileDescriptor.read three_bytes []); mret ())
  | AddRule => λ s,
      match descriptors s !! 0%nat with
      | Some _ => swallow (_ ← add_fd_rule 0 0 In ReadIt Always Nothing Nothing; mret ()) s
      | None => (Ok (), s)
      end
  | CancelOther => cancel_handle 1
  end.

Lemma demo_grows c : keeps grows (demo_back c).
Proof.
  destruct c; unfold demo_back; eauto using grows_preorder with keeps.
  - apply keeps_swallow, keeps_bind; [apply _| |intros; apply keeps_ret; apply _].
    apply keeps_on_descriptor. intros w. apply (keeps_read _ _ w).
  - intros s. destruct (_ !! _); [|done]. revert s.
    apply keeps_swallow, keeps_bind; [apply _|apply keeps_add_fd_rule|intros; apply keeps_ret; apply _].
Qed.

Definition demo_state (on_error : demo_code) : state demo_code () () :=
  mkState ["demo"]
    [mkFDRule (mkBasicRule 0 0 Always ReadIt false) 0 In Nothing on_error;
     mkFDRule (mkBasicRule 1 0 Always ReadIt false) 0 In Nothing Nothing] [] 2 {[0%nat := demo_wrapper]} [] () ().

(** A kernel that reports the same for the first entry and readiness for the
    others. *)
Definition demo_poll (first : Z) (ps : list pollfd) (timeout : Z) : syscall (Z * list Z) :=
  Returned (1, match ps with [] => [] | _ :: ps => first :: ((λ _, POLLIN) <$> ps) end).
Definition no_socket (n : Z) : syscall (Z * Z) := Failed ENOTSOCK.

Definition demo_wait (on_error : demo_code) (first : Z) :=
  EventLoop.wait_next_event demo_interest demo_back (demo_poll first) no_socket 5 (-1) (demo_state on_error).

Example demo_serves : (demo_wait Nothing POLLIN).1 = Ok Success ∧ calls (demo_wait Nothing POLLIN).2 = [Ran 0].
Proof. by vm_compute. Qed.

(** A rule cancelled through its handle by another rule's error callback is
    still run in the same pass. *)
Example cancelled_yet_run :
  (demo_wait CancelOther POLLERR).1 = Ok Success ∧
  calls (demo_wait CancelOther POLLERR).2 = [Errored 0; Cancelled 0; Ran 1].
Proof. by vm_compute. Qed.

(** A rule added by an error callback is met before it has an entry. *)
Example added_in_dispatch :
  (EventLoop.wait_next_event demo_interest demo_back (λ ps _, Returned (1, (λ _, POLLERR) <$> ps)) no_socket 9 (-1)
    (demo_state AddRule)).1 = Err (Throw "vector::at").
Proof. by vm_compute. Qed.

Lemma demo_session on_error : session demo_interest demo_back (demo_state on_error).
Proof.
  apply (session_program _ _ (mkState ["demo"] [] [] 0 {[0%nat := demo_wrapper]} [] () ())); [by apply session_start|].
  split; cbn; [|lia|done|by apply numbers_same]. eexists [_; _], []. split_and!; try done.
  - cbn. repeat constructor; rewrite ?list_elem_of_singleton, ?elem_of_nil; auto.
  - cbn. repeat constructor; lia.
Qed.

Lemma demo_poll_length first ps t n revs : demo_poll first ps t = Returned (n, revs) → length revs = length ps.
Proof. destruct ps; intros [= <- <-]; [done|]. cbn. by rewrite length_fmap. Qed.

Lemma event_rule_lifecycle_witness :
  let s' := (demo_wait CancelOther POLLERR).2 in
  calls s' = [Errored 0; Cancelled 0; Ran 1] ∧
  ∀ i j id c, (i < j)%nat → calls s' !! i = Some (Cancelled id) → calls s' !! j = Some c → call_rule c ≠ id.
Proof.
  intros s'. split; [by vm_compute|]. subst s'.
  pose proof (event_rule_lifecycle demo_interest demo_back (demo_state CancelOther) (demo_poll POLLERR) no_socket 5 (-1)
    demo_grows (demo_session _) (demo_poll_length _)) as H. unfold demo_wait.
  destruct (EventLoop.wait_next_event _ _ _ _ _ _ (demo_state CancelOther)) as [r s'].
  exact (proj1 (proj2 H)).
Defined.

Lemma event_loop_wait_witness :
  ∃ tr, [Ran 0] = [] ++ tr ∧
    waited demo_interest demo_back (demo_poll POLLIN) 5 (-1) (demo_state Nothing) (Ok Success) tr.
Proof.
  exact (event_loop_wait demo_interest demo_back (demo_state Nothing) (demo_poll POLLIN) no_socket 5 (-1)
    demo_grows (demo_session _) (demo_poll_length _)).
Defined.

Lemma demo_program : program_ok demo_interest demo_back (λ c, c ≠ AddRule).
Proof.
  split.
  - intros c s. by exists true.
  - intros [] s; try done. cbn. by destruct (descriptors s !! 0%nat).
  - apply demo_grows.
  - intros [] s Hs; try done.
    + unfold demo_back. rewrite swallow_result. by apply rules_wf_on_descriptor.
    + cbn. destruct (descriptors s !! 0%nat) as [w|] eqn:Hw; [|done]. unfold swallow, add_fd_rule. eff_run.
      case_bool_decide; [done|]. destruct Hs as [Hf Hc Hn Ha].
      split; cbn; try done; apply Forall_app; (split; [done|]); apply Forall_singleton; cbn; [by exists w| |done].
      by apply Nat.nle_gt.
    + by apply (rules_wf_cancel_handle _ 1).
  - intros [] s; try done.
    + unfold demo_back. rewrite swallow_result. by destruct (on_descriptor_state 0 (FileDescriptor.read three_bytes []) s) as (ds&->&_).
    + cbn. destruct (descriptors s !! 0%nat); [|done]. unfold swallow, add_fd_rule. eff_run. by case_bool_decide.
  - intros [] s Hc; try done.
    + unfold demo_back. rewrite swallow_result. by destruct (on_descriptor_state 0 (FileDescriptor.read three_bytes []) s) as (ds&->&_).
    + cbn. by rewrite length_fmap.
Qed.

Lemma event_loop_total_witness :
  match (demo_wait Nothing POLLIN).1 with
  | Ok _ => rules_wf (λ c, c ≠ AddRule) (demo_wait Nothing POLLIN).2
  | Err e => busy e
  end.
Proof.
  assert (rules_wf (λ c, c ≠ AddRule) (demo_state Nothing)) as Hwf by (by repeat constructor; cbn).
  pose proof (event_loop_total demo_interest demo_back (λ c, c ≠ AddRule) (demo_state Nothing) (demo_poll POLLIN) no_socket
    5 (-1) demo_program Hwf (λ ps t, ex_intro _ _ (ex_intro _ _ eq_refl)) (demo_poll_length _) (λ n, or_introl eq_refl)
    ltac:(cbn; lia)) as H.
  unfold demo_wait. destruct (EventLoop.wait_next_event _ _ _ _ _ _ (demo_state Nothing)) as [r s']. exact H.
Defined.
