(* ===== verification/EventInvariant.v ===== *)
(** What a program on the poll loop may rely on: an invariant that its
    callbacks keep holds throughout [wait_next_event], also when a callback
    throws; and when the loop says Exit, no rule had an interest.

    The loop asks for the interests when it sets up the entries for poll, and
    calls a rule later, when the callbacks of others may have been called.  What
    the answer to an interest says of the state is therefore weakened to a
    predicate that those callbacks keep. *)

From S2P Require Import Prelude Effects FileDescriptor EventRules EventLoop.
From Stdlib Require Import Sorting.Sorted.

(** The service of a rule leaves the state as it was or as the callback left
    it, and succeeds if it returns. *)
Lemma serve_moves {C X W} (call_interest : C → state C X W → result bool) call_back r s :
  post (serve call_interest call_back r) s (λ res s',
    (s' = s ∨ s' = (invoke call_back (Ran (rule_id (basic r))) (callback (basic r)) s).2) ∧
    ∀ a, res = Ok a → a = Success).
Proof.
  assert (∀ s', (service_count (X:=X) (W:=W) r s').2 = s') as Hcount.
  { intros s'. unfold service_count. rewrite bind_eq. unfold wrapper. by destruct (descriptors s' !! fd r). }
  unfold serve. apply post_bind. unfold post at 1. pose proof (Hcount s) as Hs.
  destruct (service_count r s) as [[n|e] s0]; cbn in Hs; subst s0; [|by split; [left|done]].
  cbn [fst snd]. apply post_bind. unfold post at 1. destruct (invoke call_back _ _ s) as [[[]|e] s']; [|by split; [right|done]]. cbn [snd fst].
  apply post_bind. unfold post at 1. pose proof (Hcount s') as Hs'.
  destruct (service_count r s') as [[n'|e] s0]; cbn in Hs'; subst s0; [|by split; [right|done]].
  cbn [fst snd]. apply post_bind. unfold post at 1, wrapper. destruct (descriptors s' !! fd r) as [w|]; [|by split; [right|done]].
  cbn [fst snd]. destruct (_ && _); [|unfold post; cbn; split; [by right|by intros a [= <-]]].
  apply post_bind. unfold post at 1, interested. cbn [fst snd].
  destruct (call_interest _ s') as [[]|]; [|unfold post; cbn; split; [by right|by intros a [= <-]]|by split; [right|done]].
  unfold busy_wait. apply post_bind. unfold post at 1. cbn [gets fst snd]. destruct (_ !! _); (unfold post; cbn; split; [by right|done]).
Qed.

(** Why a rule is cancelled before poll is called. *)
Definition defunct {C X W} (r : FDRule C) (s : state C X W) : Prop :=
  ∃ w, descriptors s !! fd r = Some w ∧ (direction r = In ∧ eof_ w = true ∨ closed_ w = true).

(** The program: no rule is cancelled through its handle; [ready r] follows
    from the interest of [r], [idle r] from the lack of it.  Both are kept by
    the callbacks for errors and cancellation, [idle r] by those of the rules
    after [r] only; and these callbacks add no rules.  [hung] holds if poll may
    report a hangup or an error. *)
Record poll_invariant {C W} (call_interest : C → state C () W → result bool) (call_back : C → eff (state C () W) ())
    (known : FDRule C → Prop) (ready idle : FDRule C → state C () W → Prop) (hung : Prop)
    (Inv : state C () W → Prop) : Prop := mkPollInvariant {
  pi_known s r : Inv s → r ∈ _fd_rules s → known r;
  pi_flag r : known r → cancel_requested (basic r) = false;
  pi_sorted s : Inv s → StronglySorted lt (fd_ids s);
  pi_non_fd s : Inv s → _non_fd_rules s = [];
  pi_ready_erase i r s : ready r s → ready r (with_fd_rules (delete i (_fd_rules s)) s);
  pi_idle_erase i r s : idle r s → idle r (with_fd_rules (delete i (_fd_rules s)) s);
  pi_asked r s b :
    Inv s → known r → call_interest (interest (basic r)) s = Ok b → if b then ready r s else idle r s;
  pi_ran r s :
    Inv s → known r → ready r s → Inv (invoke call_back (Ran (rule_id (basic r))) (callback (basic r)) s).2;
  pi_errored r s :
    Inv s → known r → hung →
    let s' := (invoke call_back (Errored (rule_id (basic r))) (error r) s).2 in
    Inv s' ∧ _fd_rules s' = _fd_rules s ∧ ∀ q, known q → ready q s → ready q s';
  pi_cancelled i r s :
    Inv s → _fd_rules s !! i = Some r → defunct r s ∨ hung →
    let s' := (invoke call_back (Cancelled (rule_id (basic r))) (cancel r) s).2 in
    Inv s' ∧ Inv (with_fd_rules (delete i (_fd_rules s')) s') ∧ _fd_rules s' = _fd_rules s ∧
    ∀ q, known q →
      (rule_id (basic q) ≠ rule_id (basic r) → ready q s → ready q s') ∧ ((rule_id (basic q) < rule_id (basic r))%nat → idle q s → idle q s');
}.

Section invariant.
Context {C W : Type}.
Abbreviation sys := (state C () W).
Implicit Types s : sys.
Context {call_interest : C → sys → result bool} {call_back : C → eff sys ()}.
Context {known : FDRule C → Prop} {ready idle : FDRule C → sys → Prop} {hung : Prop} {Inv : sys → Prop}.
Context (Hinv : poll_invariant call_interest call_back known ready idle hung Inv).
Context (poll : list pollfd → Z → syscall (Z * list Z)) (getsockopt : Z → syscall (Z * Z)).

(** What poll stores for a descriptor with an error or a hangup. *)
Definition hangup (revent : Z) : Prop := has_bits revent (Z.lor POLLERR POLLNVAL) = true ∨ has_bits revent POLLHUP = true.
Context (Hhung : ∀ ps t n revs revent, poll ps t = Returned (n, revs) → revent ∈ revs → hangup revent → hung).

Lemma known_at s i r : Inv s → _fd_rules s !! i = Some r → known r.
Proof. intros Hs Hi. apply (pi_known _ _ _ _ _ _ _ Hinv s); [done|]. by eapply list_elem_of_lookup_2. Qed.

(** A rule before another in the list has a smaller number. *)
Lemma sorted_ids s i j q r :
  Inv s → (i < j)%nat → _fd_rules s !! i = Some q → _fd_rules s !! j = Some r →
  (rule_id (basic q) < rule_id (basic r))%nat.
Proof.
  intros Hs Hij Hq Hr. pose proof (pi_sorted _ _ _ _ _ _ _ Hinv s Hs) as Hl.
  apply (ids_lookup s i q) in Hq. apply (ids_lookup s j r) in Hr.
  revert i j Hij Hq Hr. induction Hl as [|x l Hl IH Hx]; intros i j Hij Hq Hr; [done|].
  destruct j as [|j]; [lia|]. destruct i as [|i]; [|eapply (IH i j); [lia|done|done]].
  cbn in Hq, Hr. injection Hq as ->. rewrite Forall_forall in Hx. apply Hx. by eapply list_elem_of_lookup_2.
Qed.

(** ** Setting up the entries *)

(** The rules gone through and their entries. *)
Definition asked s (r : FDRule C) (p : pollfd) : Prop := if bool_decide (events p = 0) then idle r s else ready r s.
Definition some_events (ps : list pollfd) : bool := bool_decide (Exists (λ p, events p ≠ 0) ps).

Lemma some_events_snoc ps p : some_events (ps ++ [p]) = some_events ps || bool_decide (events p ≠ 0).
Proof.
  unfold some_events. rewrite <- bool_decide_or. apply bool_decide_ext.
  rewrite Exists_app, Exists_cons, Exists_nil. tauto.
Qed.

Lemma asked_erase i s r p : asked s r p → asked (with_fd_rules (delete i (_fd_rules s)) s) r p.
Proof.
  unfold asked. case_bool_decide; [apply (pi_idle_erase _ _ _ _ _ _ _ Hinv)|apply (pi_ready_erase _ _ _ _ _ _ _ Hinv)].
Qed.

(** What is known of the rules before [i] outlives the cancellation of that
    one. *)
Lemma asked_retired s i r ps :
  Inv s → _fd_rules s !! i = Some r → defunct r s ∨ hung → Forall2 (asked s) (take i (_fd_rules s)) ps →
  let s1 := (invoke call_back (Cancelled (rule_id (basic r))) (cancel r) s).2 in
  Inv s1 ∧ Inv (with_fd_rules (delete i (_fd_rules s1)) s1) ∧ _fd_rules s1 = _fd_rules s ∧
  Forall2 (asked s1) (take i (_fd_rules s)) ps.
Proof.
  intros Hs Hi Hd Hp s1. destruct (pi_cancelled _ _ _ _ _ _ _ Hinv i r s Hs Hi Hd) as (Hs1&Hs2&Hf&Hkeep).
  split_and!; [done..|]. apply Forall2_same_length_lookup. split; [by eapply Forall2_length|].
  intros j q p [Hq Hj]%lookup_take_Some Hpj.
  destruct (Hkeep q (known_at s j q Hs Hq)) as [Hready Hidle].
  assert (asked s q p) as Hask.
  { eapply Forall2_lookup_lr; [exact Hp| |exact Hpj]. by apply lookup_take_Some. }
  assert (rule_id (basic q) < rule_id (basic r))%nat by by apply (sorted_ids s j i).
  unfold asked in *. case_bool_decide; [by apply Hidle|apply Hready; [lia|done]].
Qed.

Lemma inv_prepare fuel i ps st s :
  Inv s → (i ≤ length (_fd_rules s))%nat → Forall2 (asked s) (take i (_fd_rules s)) ps → st = some_events ps →
  post (EventLoop.prepare call_interest call_back fuel i ps st) s (λ res s',
    Inv s' ∧ ∀ ps' st', res = Ok (ps', st') → Forall2 (asked s') (_fd_rules s') ps' ∧ st' = some_events ps').
Proof.
  revert i ps st s. induction fuel as [|fuel IH]; intros i ps st s Hs Hi Hp Hst; cbn [EventLoop.prepare]; [done|].
  apply post_bind. unfold post at 1. cbn [gets fst snd].
  destruct (_fd_rules s !! i) as [r|] eqn:Hr.
  2: { split; [done|]. intros ps' st' [= <- <-]. split; [|done]. apply lookup_ge_None in Hr. by rewrite take_ge in Hp. }
  pose proof (lookup_lt_Some _ _ _ Hr) as Hlt.
  rewrite (pi_flag _ _ _ _ _ _ _ Hinv r (known_at s i r Hs Hr)).
  apply post_bind. unfold post at 1, wrapper. destruct (descriptors s !! fd r) as [w|] eqn:Hw; [|done]. cbn [fst snd].
  assert (defunct r s →
    post (retire call_back i r ;; EventLoop.prepare call_interest call_back fuel i ps st) s (λ res s',
      Inv s' ∧ ∀ ps' st', res = Ok (ps', st') → Forall2 (asked s') (_fd_rules s') ps' ∧ st' = some_events ps')) as Hretire.
  { intros Hd. destruct (asked_retired s i r ps Hs Hr (or_introl Hd) Hp) as (Hs1&Hs2&Hf&Hp1).
    apply post_bind, post_bind. unfold post at 1.
    destruct (invoke call_back _ _ s) as [[[]|e] s1]; cbn [fst snd] in *; [|done].
    apply IH; [done| | |done]; cbn; rewrite Hf.
    - rewrite delete_take_drop, length_app, length_take. lia.
    - rewrite take_delete. eapply Forall2_impl; [exact Hp1|]. intros q p Hq. rewrite <- Hf. by apply asked_erase. }
  destruct (_ && _) eqn:Heof.
  { apply Hretire. exists w. apply andb_true_iff in Heof as [?%bool_decide_eq_true ?]. auto. }
  destruct (FileDescriptor.closed w) eqn:Hcl; [apply Hretire; exists w; auto|].
  apply post_bind. unfold post at 1, interested. cbn [fst snd].
  destruct (call_interest _ s) as [b|e] eqn:Hb; [|done].
  pose proof (pi_asked _ _ _ _ _ _ _ Hinv r s b Hs (known_at _ _ _ Hs Hr) Hb) as Hask.
  apply IH; [done|lia| |].
  - rewrite (take_S_r _ _ _ Hr). apply Forall2_app; [done|]. constructor; [|done].
    unfold asked. cbn [events]. destruct b, (direction r); exact Hask.
  - rewrite some_events_snoc, Hst. f_equal. by destruct b, (direction r).
Qed.

(** ** Going through what poll reported *)

Lemma inv_report_error r s : (EventLoop.report_error (C:=C) (W:=W) getsockopt r s).2 = s.
Proof.
  unfold EventLoop.report_error. rewrite bind_eq. unfold wrapper. destruct (descriptors s !! fd r) as [w|]; [|done].
  destruct (getsockopt _) as [[e l]|errno]; by case_bool_decide.
Qed.

Lemma inv_dispatch fuel i idx ps s :
  Inv s → (∀ p, p ∈ ps → hangup (revents p) → hung) →
  (∀ j r p, _fd_rules s !! (i + j)%nat = Some r → ps !! (idx + j)%nat = Some p → events p ≠ 0 → ready r s) →
  post (EventLoop.dispatch call_interest call_back getsockopt fuel i idx ps) s (λ res s', Inv s' ∧ res ≠ Ok Exit).
Proof.
  intros Hs Hbad. revert i idx s Hs. induction fuel as [|fuel IH]; intros i idx s Hs Hal; cbn [EventLoop.dispatch]; [done|].
  apply post_bind. unfold post at 1. cbn [gets fst snd]. destruct (_fd_rules s !! i) as [r|] eqn:Hr; [|done].
  destruct (ps !! idx) as [p|] eqn:Hp; [|done]. pose proof (known_at _ _ _ Hs Hr) as Hk.
  assert (p ∈ ps) as Hin by by eapply list_elem_of_lookup_2.
  (* the rules from [i] on, once that one is gone, belong to the next entries *)
  assert (∀ s1, hung → Inv s1 → _fd_rules s1 = _fd_rules s → (∀ q, known q → ready q s → ready q s1) →
    post (retire call_back i r ;; EventLoop.dispatch call_interest call_back getsockopt fuel i (S idx) ps) s1
      (λ res s', Inv s' ∧ res ≠ Ok Exit)) as Hretire.
  { intros s1 Hh Hs1 Hf Hready. apply post_bind, post_bind. unfold post at 1.
    destruct (pi_cancelled _ _ _ _ _ _ _ Hinv i r s1 Hs1 ltac:(by rewrite Hf) (or_intror Hh)) as (Hs2&Hs3&Hf2&Hkeep).
    destruct (invoke call_back _ _ s1) as [[[]|e] s2]; cbn [fst snd] in *; [|done].
    apply IH; [done|].
    intros j q p' Hq Hp' He. change (delete i (_fd_rules s2) !! (i + j)%nat = Some q) in Hq.
    apply (pi_ready_erase _ _ _ _ _ _ _ Hinv).
    assert (_fd_rules s !! (i + S j)%nat = Some q) as Hq'.
    { rewrite Hf2, Hf, <- lookup_drop, drop_delete, lookup_drop in Hq. rewrite <- Hq. f_equal. lia. }
    pose proof (known_at s _ _ Hs Hq') as Hkq.
    assert (rule_id (basic r) < rule_id (basic q))%nat by (apply (sorted_ids s i (i + S j)); [done|lia|done..]).
    apply Hkeep, Hready; [done|lia|done|]. apply (Hal (S j) q p'); [done| |done]. rewrite <- Hp'. f_equal. lia. }
  destruct (has_bits _ (Z.lor _ _)) eqn:Herr.
  { assert hung as Hh by (eapply Hbad; [done|by left]). apply post_bind. unfold post at 1.
    pose proof (inv_report_error r s) as He.
    destruct (EventLoop.report_error getsockopt r s) as [[[]|e] s0]; cbn in He; subst s0; [|done]. cbn [fst snd].
    destruct (pi_errored _ _ _ _ _ _ _ Hinv r s Hs Hk Hh) as (Hs1&Hf&Hready).
    apply post_bind. unfold post at 1.
    destruct (invoke call_back (Errored _) _ s) as [[[]|e] s1]; cbn [fst snd] in *; [|done]. by apply Hretire. }
  destruct (_ && _) eqn:Hhup.
  { apply Hretire; [|done..]. eapply Hbad; [done|]. right. by apply andb_true_iff in Hhup as [? _]. }
  destruct (has_bits _ (events p)) eqn:Hb.
  - eapply post_mono; [apply serve_moves|]. intros res s' [Hs' Hres]. split; [|by intros ?%Hres].
    destruct Hs' as [->| ->]; [done|].
    apply (pi_ran _ _ _ _ _ _ _ Hinv); [done|done|]. apply (Hal 0%nat r p); rewrite ?Nat.add_0_r; try done.
    intros He. unfold has_bits in Hb. by rewrite He, Z.land_0_r in Hb.
  - apply IH; [done|]. intros j q p' Hq Hp'. apply (Hal (S j)); rewrite ?Nat.add_succ_r; done.
Qed.

(** ** The call *)

(** The invariant holds after [wait_next_event] however it ends, and if the
    result is Exit no rule is left with an interest. *)
Lemma inv_wait fuel timeout_ms s :
  Inv s →
  post (EventLoop.wait_next_event call_interest call_back poll getsockopt fuel timeout_ms) s (λ res s',
    Inv s' ∧ (res = Ok Exit → Forall (λ r, idle r s') (_fd_rules s'))).
Proof.
  intros Hs. unfold EventLoop.wait_next_event, serve_non_fd_rules. apply post_bind, post_bind. unfold post at 1.
  cbn [gets fst snd]. rewrite (pi_non_fd _ _ _ _ _ _ _ Hinv s Hs). cbn [length serve_from]. unfold post. rewrite bind_eq.
  cbn [gets]. rewrite (pi_non_fd _ _ _ _ _ _ _ Hinv s Hs). cbn [lookup list_lookup mret eff_ret fst snd].
  apply post_bind. eapply post_mono; [by apply (inv_prepare fuel 0 [] false s Hs); [lia|..]|].
  intros [[ps st]|e] s1 [Hs1 Hp]; [|by split]. destruct (Hp ps st eq_refl) as [Hask ->]. clear Hp.
  destruct (some_events ps) eqn:Hev; cbn [negb].
  - destruct (poll ps timeout_ms) as [[n revs]|e] eqn:Hpoll; [|by split].
    case_bool_decide; [by split|]. eapply post_mono; [apply inv_dispatch; [done|..]|].
    + intros p [k Hk]%list_elem_of_lookup Hbad. apply lookup_zip_with_Some in Hk as (p0&rv&->&_&Hrv).
      eapply Hhung; [done| |exact Hbad]. by eapply list_elem_of_lookup_2.
    + cbn. intros j r p Hr Hp He.
      apply lookup_zip_with_Some in Hp as (p0&rv&->&Hp0&_). cbn in He.
      pose proof (Forall2_lookup_lr _ _ _ _ _ _ Hask Hr Hp0) as Ha. unfold asked in Ha.
      by rewrite bool_decide_false in Ha.
    + intros res s' [Hs' Hres]. split; [done|]. by intros ?%Hres.
  - split; [done|]. intros _. apply Forall_forall. intros r [i Hi]%list_elem_of_lookup.
    destruct (Forall2_lookup_l _ _ _ _ _ Hask Hi) as (p&Hpi&Ha).
    unfold asked in Ha. unfold some_events in Hev. apply bool_decide_eq_false in Hev.
    rewrite bool_decide_true in Ha; [done|]. destruct (decide (events p = 0)); [done|]. destruct Hev.
    apply Exists_exists. exists p. split; [by eapply list_elem_of_lookup_2|done].
Qed.
End invariant.
