(* ===== verification/EpollEventLoop.v ===== *)
(** The event loop on epoll(7) (src/util/epoll_eventloop.hh,
    src/util/epoll_eventloop.cc): the rules of EventRules, the kernel's
    registrations kept in step with them, and the dispatch of what epoll
    reports. *)

From S2P Require Import Prelude Effects FileDescriptor EventRules EventLoop.

(** * epoll *)

Definition EPOLLIN : Z := 1.
Definition EPOLLOUT : Z := 4.
Definition EPOLLERR : Z := 8.
Definition EPOLLHUP : Z := 16.

Definition EPOLL_CTL_ADD : Z := 1.
Definition EPOLL_CTL_DEL : Z := 2.
Definition EPOLL_CTL_MOD : Z := 3.

Record FdState : Type := mkFdState {
  registered_events : Z;
  in_epoll : bool;
}.

(** What this loop adds to the state of the rules: its members, and the kernel
    [K] that [epoll_ctl] changes. *)
Record EpollState (K : Type) : Type := mkEpollState {
  _epoll_fd : Z;
  _fd_states : gmap Z FdState;
  kernel : K;
}.
Arguments mkEpollState {K} _ _ _.
Arguments _epoll_fd {K} _.
Arguments _fd_states {K} _.
Arguments kernel {K} _.

Definition direction_mask (d : Direction) : Z := match d with In => EPOLLIN | Out => EPOLLOUT end.

Module EpollEventLoop.
Section loop.
Context {C K W : Type}.
Abbreviation sys := (state C (EpollState K) W).
Context (call_interest : C → sys → result bool) (call_back : C → eff sys ()).

(** [epoll_ctl( epfd, op, fd, { events, fd } )] and [epoll_wait( epfd, maxevents,
    timeout )], which answers with descriptors and events; [getsockopt] as in
    EventLoop.  [order] is the order in which the map of states is iterated. *)
Context (epoll_ctl : Z → Z → Z → Z → K → syscall () * K).
Context (epoll_wait : Z → Z → Z → K → syscall (list (Z * Z))).
Context (getsockopt : Z → syscall (Z * Z)).
Context (order : gmap Z FdState → list Z).

Definition with_fd_states (m : gmap Z FdState) (s : sys) : sys :=
  with_extra (mkEpollState (_epoll_fd (extra s)) m (kernel (extra s))) s.
Definition with_kernel (k : K) (s : sys) : sys :=
  with_extra (mkEpollState (_epoll_fd (extra s)) (_fd_states (extra s)) k) s.

(** A call of [epoll_ctl] on the loop's instance. *)
Definition ctl (op fd_num events : Z) : eff sys (syscall ()) :=
  λ s, let '(reply, k) := epoll_ctl (_epoll_fd (extra s)) op fd_num events (kernel (extra s)) in
       (Ok reply, with_kernel k s).

(** ** Set-up *)

Definition create_epoll_fd (epoll_create1 : syscall Z) : result Z :=
  match epoll_create1 with
  | Returned fd => Ok fd
  | Failed _ => Err (unix_error "epoll_create1")
  end.

(** The constructor, in a program with descriptors [ds] and world [w]. *)
Definition new (epoll_create1 getfl : syscall Z) (k : K) (ds : gmap nat FDWrapper) (w : W) : result sys :=
  fd ← create_epoll_fd epoll_create1;
  _epoll_fd ← FileDescriptor.make fd getfl;
  Ok (mkState [] [] [] 0 ds [] (mkEpollState (FileDescriptor.fd_num _epoll_fd) ∅ k) w).

Definition add_category (name : string) : eff sys nat := EventRules.add_category name.

(** [_fd_states.try_emplace( fd.fd_num() )]. *)
Definition try_emplace (fd_num : Z) : eff sys () :=
  modify (λ s,
    match _fd_states (extra s) !! fd_num with
    | Some _ => s
    | None => with_fd_states (<[fd_num := mkFdState 0 false]> (_fd_states (extra s))) s
    end).

Definition add_fd_rule (category_id : nat) (fd : nat) (direction : Direction)
    (callback interest cancel error : C) : eff sys nat :=
  id ← EventRules.add_fd_rule category_id fd direction callback interest cancel error;
  w ← wrapper fd;
  try_emplace (FileDescriptor.fd_num w) ;;
  mret id.

Definition add_rule (category_id : nat) (callback interest : C) : eff sys nat :=
  EventRules.add_rule category_id callback interest.

Definition cancel_handle (id : nat) : eff sys () := EventRules.cancel_handle id.

(** ** Registrations *)

(** [desired_events_for_fd], over the rules that are left. *)
Fixpoint desired_from (rs : list (FDRule C)) (fd_num mask : Z) : eff sys Z :=
  match rs with
  | [] => mret mask
  | rule :: rs =>
      if cancel_requested (basic rule) then desired_from rs fd_num mask
      else
        w ← wrapper (fd rule);
        if bool_decide (FileDescriptor.fd_num w ≠ fd_num) then desired_from rs fd_num mask
        else
          b ← interested call_interest (basic rule);
          if negb b then desired_from rs fd_num mask
          else desired_from rs fd_num (Z.lor mask (direction_mask (direction rule)))
  end.
Definition desired_events_for_fd (fd_num : Z) : eff sys Z :=
  rs ← gets _fd_rules; desired_from rs fd_num 0.

Definition set_state (fd_num : Z) (st : FdState) : eff sys () :=
  modify (λ s, with_fd_states (<[fd_num := st]> (_fd_states (extra s))) s).

Definition sync_fd_registration (fd_num desired : Z) : eff sys () :=
  states ← gets (λ s, _fd_states (extra s));
  match states !! fd_num with
  | None => mret ()
  | Some st =>
      if negb (in_epoll st) then
        reply ← ctl EPOLL_CTL_ADD fd_num desired;
        match reply with
        | Failed _ => mthrow (unix_error "epoll_ctl(ADD)")
        | Returned _ => set_state fd_num (mkFdState desired true)
        end
      else if bool_decide (registered_events st = desired) then mret ()
      else
        reply ← ctl EPOLL_CTL_MOD fd_num desired;
        match reply with
        | Failed _ => mthrow (unix_error "epoll_ctl(MOD)")
        | Returned _ => set_state fd_num (mkFdState desired (in_epoll st))
        end
  end.

(** Is there a rule on the descriptor? *)
Fixpoint any_rule (rs : list (FDRule C)) (fd_num : Z) : eff sys bool :=
  match rs with
  | [] => mret false
  | rule :: rs =>
      w ← wrapper (fd rule);
      if bool_decide (FileDescriptor.fd_num w = fd_num) then mret true else any_rule rs fd_num
  end.

(** The state of a descriptor goes, and its registration if it has one. *)
Definition drop_state (fd_num : Z) : eff sys () :=
  states ← gets (λ s, _fd_states (extra s));
  match states !! fd_num with
  | None => mret ()
  | Some st =>
      (if in_epoll st then _ ← ctl EPOLL_CTL_DEL fd_num 0; mret () else mret ()) ;;
      modify (λ s, with_fd_states (delete fd_num (_fd_states (extra s))) s)
  end.

(** ** Waiting *)

Definition serve_non_fd_rules : eff sys (option Result) :=
  EventRules.serve_non_fd_rules call_interest call_back.

(** The first walk over the rules with a descriptor. *)
Fixpoint sweep (fuel i : nat) : eff sys () :=
  match fuel with
  | O => mthrow OutOfFuel
  | S fuel =>
      rs ← gets _fd_rules;
      match rs !! i with
      | None => mret ()
      | Some r =>
          if cancel_requested (basic r) then erase_fd_rule i ;; sweep fuel i
          else
            w ← wrapper (fd r);
            if bool_decide (direction r = In) && FileDescriptor.eof w then retire call_back i r ;; sweep fuel i
            else if FileDescriptor.closed w then retire call_back i r ;; sweep fuel i
            else sweep fuel (S i)
      end
  end.

(** The walk over the states. *)
Definition refresh_one (fd_num : Z) : eff sys () :=
  rs ← gets _fd_rules;
  any ← any_rule rs fd_num;
  if negb any then drop_state fd_num
  else desired ← desired_events_for_fd fd_num; sync_fd_registration fd_num desired.
Fixpoint refresh (keys : list Z) : eff sys () :=
  match keys with
  | [] => mret ()
  | fd_num :: keys => refresh_one fd_num ;; refresh keys
  end.

(** Everything up to the call of [epoll_wait]. *)
Definition prepare (fuel : nat) : eff sys () :=
  sweep fuel 0 ;;
  states ← gets (λ s, _fd_states (extra s));
  refresh (order states).

(** The rules of a descriptor in error. *)
Fixpoint drop_rules (fuel i : nat) (fd_num : Z) : eff sys () :=
  match fuel with
  | O => mthrow OutOfFuel
  | S fuel =>
      rs ← gets _fd_rules;
      match rs !! i with
      | None => mret ()
      | Some r =>
          w ← wrapper (fd r);
          if bool_decide (FileDescriptor.fd_num w = fd_num) then
            invoke call_back (Errored (rule_id (basic r))) (error r) ;;
            retire call_back i r ;;
            drop_rules fuel i fd_num
          else drop_rules fuel (S i) fd_num
      end
  end.

(** The category that the report of an error names. *)
Fixpoint category_of (rs : list (FDRule C)) (fd_num : Z) : eff sys string :=
  match rs with
  | [] => mret EmptyString
  | rule :: rs =>
      w ← wrapper (fd rule);
      if bool_decide (FileDescriptor.fd_num w = fd_num) then
        cs ← gets _rule_categories;
        match cs !! category_id (basic rule) with
        | Some name => mret name
        | None => mthrow (Throw "vector::at")
        end
      else category_of rs fd_num
  end.

Definition report_error (fd_num : Z) : eff sys () :=
  rs ← gets _fd_rules;
  _ ← category_of rs fd_num;
  match getsockopt fd_num with
  | Failed errno => if bool_decide (errno = ENOTSOCK) then mret () else mthrow (unix_error "getsockopt")
  | Returned (socket_error, optlen) =>
      if bool_decide (optlen ≠ 4) then mthrow (Throw "unexpected length from getsockopt") else mret ()
  end.

(** The pass over what epoll reported, for the errors; it finds the descriptor
    to serve. *)
Fixpoint handle_errors (fuel : nat) (events : list (Z * Z)) (callback : option (Z * Z)) : eff sys (option (Z * Z)) :=
  match events with
  | [] => mret callback
  | (fd_num, revents) :: events =>
      if has_bits revents EPOLLERR then
        report_error fd_num ;;
        drop_rules fuel 0 fd_num ;;
        drop_state fd_num ;;
        handle_errors fuel events callback
      else
        handle_errors fuel events (match callback with None => Some (fd_num, revents) | Some c => Some c end)
  end.

(** The first rule to serve on the descriptor. *)
Fixpoint find_rule (fuel i : nat) (callback_fd callback_revents : Z) : eff sys Result :=
  let readable := has_bits callback_revents EPOLLIN in
  let writable := has_bits callback_revents EPOLLOUT in
  let hup := has_bits callback_revents EPOLLHUP in
  match fuel with
  | O => mthrow OutOfFuel
  | S fuel =>
      rs ← gets _fd_rules;
      match rs !! i with
      | None => mret Success
      | Some r =>
          w ← wrapper (fd r);
          if bool_decide (FileDescriptor.fd_num w ≠ callback_fd) then find_rule fuel (S i) callback_fd callback_revents
          else
            let dir_in := bool_decide (direction r = In) in
            let ready := (dir_in && readable) || (negb dir_in && writable) in
            if hup && ((negb ready && dir_in) || negb dir_in) then
              retire call_back i r ;; find_rule fuel i callback_fd callback_revents
            else
              b ← (if (ready : bool) then interested call_interest (basic r) else mret false);
              if (b : bool) then serve call_interest call_back r
              else find_rule fuel (S i) callback_fd callback_revents
      end
  end.

Definition kMaxEvents : Z := 32.

Definition something_to_poll (states : gmap Z FdState) : bool :=
  existsb (λ '(_, st), bool_decide (registered_events st ≠ 0)) (map_to_list states).

Definition wait_next_event (fuel : nat) (timeout_ms : Z) : eff sys Result :=
  served ← serve_non_fd_rules;
  match served with
  | Some res => mret res
  | None =>
      prepare fuel ;;
      rs ← gets _fd_rules;
      if bool_decide (length rs = 0%nat) then mret Exit
      else
        x ← gets extra;
        if negb (something_to_poll (_fd_states x)) then mret Exit
        else
          match epoll_wait (_epoll_fd x) kMaxEvents timeout_ms (kernel x) with
          | Failed errno => if bool_decide (errno = EINTR) then mret Success else mthrow (unix_error "epoll_wait")
          | Returned events =>
              if bool_decide (length events = 0%nat) then mret Timeout
              else
                callback ← handle_errors fuel events None;
                match callback with
                | None => mret Success
                | Some (callback_fd, callback_revents) => find_rule fuel 0 callback_fd callback_revents
                end
          end
  end.

End loop.
End EpollEventLoop.

(** * The loop and its rules *)

(** What the registrations change: only the members of this loop. *)
Definition same_rules {C X W} (s s' : state C X W) : Prop := ∃ x, s' = with_extra x s.

#[export] Instance same_rules_preorder {C X W} : PreOrder (@same_rules C X W).
Proof.
  split; [intros s; exists (extra s); by destruct s|]. intros s1 s2 s3 [x1 ->] [x2 ->]. by exists x2.
Qed.

Section events.
Context {C K W : Type}.
Abbreviation sys := (state C (EpollState K) W).
Implicit Types s : sys.
Context (call_interest : C → sys → result bool) (call_back : C → eff sys ()).
Context (epoll_ctl : Z → Z → Z → Z → K → syscall () * K).
Context (epoll_wait : Z → Z → Z → K → syscall (list (Z * Z))).
Context (getsockopt : Z → syscall (Z * Z)).
Context (order : gmap Z FdState → list Z).

Lemma loop_ok_extra x s : loop_ok s → loop_ok (with_extra x s).
Proof. by intros []. Qed.

Lemma same_wrapper f : keeps same_rules (wrapper (C:=C) (X:=EpollState K) (W:=W) f).
Proof. intros s. unfold wrapper. by destruct (_ !! f). Qed.
Lemma same_ctl op n e : keeps same_rules (EpollEventLoop.ctl (C:=C) (W:=W) epoll_ctl op n e).
Proof. intros s. unfold EpollEventLoop.ctl. destruct (epoll_ctl _ _ _ _ _) as [r k]. by eexists. Qed.
Lemma same_interested r : keeps same_rules (interested call_interest r).
Proof. intros s. done. Qed.
Lemma same_set_state n st : keeps same_rules (EpollEventLoop.set_state (C:=C) (K:=K) (W:=W) n st).
Proof. intros s. by eexists. Qed.
Hint Resolve same_wrapper same_ctl same_interested same_set_state same_rules_preorder : keeps.

Lemma same_desired_from rs n mask : keeps same_rules (EpollEventLoop.desired_from call_interest rs n mask).
Proof.
  revert mask. induction rs as [|r rs IH]; intros mask; cbn [EpollEventLoop.desired_from]; [eauto with keeps|].
  destruct (cancel_requested _); [done|]. apply keeps_bind; [apply _|auto with keeps|]. intros w.
  case_bool_decide; [done|]. apply keeps_bind; [apply _|auto with keeps|]. intros []; apply IH.
Qed.

Lemma same_sync n d : keeps same_rules (EpollEventLoop.sync_fd_registration (C:=C) (W:=W) epoll_ctl n d).
Proof.
  unfold EpollEventLoop.sync_fd_registration. apply keeps_bind; [apply _|auto with keeps|]. intros m.
  destruct (m !! n) as [st|]; [|auto with keeps].
  destruct (in_epoll st); cbn [negb]; [case_bool_decide; [auto with keeps|]|];
    (apply keeps_bind; [apply _|auto with keeps|]); intros [|]; auto with keeps.
Qed.

Lemma same_any_rule rs n : keeps same_rules (EpollEventLoop.any_rule (C:=C) (K:=K) (W:=W) rs n).
Proof.
  induction rs as [|r rs IH]; cbn [EpollEventLoop.any_rule]; [auto with keeps|].
  apply keeps_bind; [apply _|auto with keeps|]. intros w. by case_bool_decide; [auto with keeps|].
Qed.

Lemma same_drop_state n : keeps same_rules (EpollEventLoop.drop_state (C:=C) (W:=W) epoll_ctl n).
Proof.
  unfold EpollEventLoop.drop_state. apply keeps_bind; [apply _|auto with keeps|]. intros m.
  destruct (m !! n) as [st|]; [|auto with keeps]. apply keeps_bind; [apply _| |].
  - destruct (in_epoll st); [|auto with keeps]. apply keeps_bind; [apply _|auto with keeps|auto with keeps].
  - intros _ s. by eexists.
Qed.

Lemma same_refresh_one n : keeps same_rules (EpollEventLoop.refresh_one (W:=W) call_interest epoll_ctl n).
Proof.
  apply keeps_bind; [apply _|auto with keeps|]. intros rs.
  apply keeps_bind; [apply _|apply same_any_rule|]. intros any.
  destruct any; cbn [negb]; [|apply same_drop_state].
  apply keeps_bind; [apply _| |apply same_sync].
  apply keeps_bind; [apply _|auto with keeps|]. intros rs'. apply same_desired_from.
Qed.

Lemma same_refresh keys : keeps same_rules (EpollEventLoop.refresh (W:=W) call_interest epoll_ctl keys).
Proof.
  induction keys as [|n keys IH]; cbn [EpollEventLoop.refresh]; [auto with keeps|].
  apply keeps_bind; [apply _|apply same_refresh_one|done].
Qed.

Lemma same_category_of rs n : keeps same_rules (EpollEventLoop.category_of (C:=C) (K:=K) (W:=W) rs n).
Proof.
  induction rs as [|r rs IH]; cbn [EpollEventLoop.category_of]; [auto with keeps|].
  apply keeps_bind; [apply _|auto with keeps|]. intros w. case_bool_decide; [|done].
  apply keeps_bind; [apply _|auto with keeps|]. intros cs. destruct (cs !! _); auto with keeps.
Qed.

Lemma same_report_error n : keeps same_rules (EpollEventLoop.report_error (C:=C) (K:=K) (W:=W) getsockopt n).
Proof.
  unfold EpollEventLoop.report_error. apply keeps_bind; [apply _|auto with keeps|]. intros rs.
  apply keeps_bind; [apply _|apply same_category_of|]. intros _.
  destruct (getsockopt n) as [[e l]|errno]; case_bool_decide; auto with keeps.
Qed.

(** Steps that only change the members of this loop. *)
Lemma runs_same {A} (m : eff sys A) s (Q : result A → list call → sys → Prop) :
  loop_ok s → keeps same_rules m → (∀ x, (m s).2 = with_extra x s → Q (m s).1 [] (with_extra x s)) → runs m s Q.
Proof.
  intros Hs Hm HQ. destruct (Hm s) as [x Hx].
  apply runs_silent; [done|by rewrite Hx|intros _ _; rewrite Hx; by apply loop_ok_extra|]. rewrite Hx. by apply HQ.
Qed.

Hypothesis back_grows : ∀ c, keeps grows (call_back c).

Lemma numbers_retired s s1 i c :
  grows s s1 → numbers s (with_fd_rules (delete i (_fd_rules s1)) (log_call c s1)).
Proof. intros Hg. apply (gr_numbers _ _ Hg). Qed.

(** ** The numbers of rules *)

(** The descriptor of a rule has the number [n], or another. *)
Definition on_number s (n : Z) (r : FDRule C) : Prop := ∃ w, descriptors s !! fd r = Some w ∧ fd_ w = n.
Definition off_number s (n : Z) (r : FDRule C) : Prop := ∃ w, descriptors s !! fd r = Some w ∧ fd_ w ≠ n.

Lemma on_number_kept s s' n k : numbers s s' → on_number s n k → on_number s' n k.
Proof. intros Hn (w&(w'&Hw'&E)%Hn&Hw). exists w'. split; [done|congruence]. Qed.
Lemma off_number_kept s s' n k : numbers s s' → off_number s n k → off_number s' n k.
Proof. intros Hn (w&(w'&Hw'&E)%Hn&Hw). exists w'. split; [done|congruence]. Qed.
Lemma on_off_number s n k : on_number s n k → off_number s n k → False.
Proof. intros (w&Hw&E) (w'&Hw'&E'). congruence. Qed.
Lemma on_off_other s n m k : n ≠ m → on_number s m k → off_number s n k.
Proof. intros Hne (w&Hw&<-). exists w. split; [done|congruence]. Qed.

(** The rules of a state that grew, less the one at [i]. *)
Lemma grown_member s s' k : grows s s' → k ∈ fd_keys s' → k ∈ fd_keys s ∨ (next_rule s ≤ key_id k)%nat.
Proof.
  intros [(f&n&Hf&_&_&Hr) _ _ _]. rewrite Hf. intros [?|Hk]%elem_of_app; [by left|right].
  rewrite Forall_forall in Hr. apply Hr, elem_of_app. left. apply list_elem_of_fmap. by exists k.
Qed.

Lemma retired_keeps s s1 i c j k :
  grows s s1 → fd_keys s !! j = Some k → j ≠ i →
  k ∈ fd_keys (with_fd_rules (delete i (_fd_rules s1)) (log_call c s1)).
Proof.
  intros [f Hf]%grows_prefix Hj Hji. rewrite fd_keys_retired, Hf. apply lookup_app_l_Some with (l2 := f) in Hj.
  apply list_elem_of_lookup. destruct (decide (j < i)%nat).
  - exists j. by rewrite list_lookup_delete_lt.
  - exists (j - 1)%nat. rewrite list_lookup_delete_ge by lia. by replace (S (j - 1)) with j by lia.
Qed.

Lemma retired_member s s1 i c k :
  grows s s1 → k ∈ fd_keys (with_fd_rules (delete i (_fd_rules s1)) (log_call c s1)) →
  k ∈ fd_keys s ∨ (next_rule s ≤ key_id k)%nat.
Proof.
  intros Hg. rewrite fd_keys_retired. intros Hk. apply (grown_member s s1); [done|].
  destruct (delete_perm (fd_keys s1) i) as [l <-]. apply elem_of_app. by right.
Qed.

(** The rules before the one at [i] are still there. *)
Lemma retired_below s s1 i c (P : FDRule C → Prop) :
  grows s s1 → (i < length (fd_keys s))%nat → (∀ j k, (j < i)%nat → fd_keys s !! j = Some k → P k) →
  ∀ j k, (j < i)%nat → fd_keys (with_fd_rules (delete i (_fd_rules s1)) (log_call c s1)) !! j = Some k → P k.
Proof.
  intros [f Hf]%grows_prefix Hi HP j k Hj. rewrite fd_keys_retired, Hf, list_lookup_delete_lt by done.
  rewrite lookup_app_l by lia. by apply HP.
Qed.

(** A run, with its result and its calls. *)
Lemma runs_logged {A} (m : eff sys A) s (Q : result A → list call → sys → Prop) :
  runs m s Q → runs m s (λ r tr s', m s = (r, s') ∧ calls s' = calls s ++ tr ∧ Q r tr s').
Proof. unfold runs, post. intros (tr&?&?&?&?). exists tr. split_and!; try done. by destruct (m s). Qed.

(** ** The first walk *)

(** The descriptor of a rule is closed, or at its end when it would be read. *)
Definition defunct s (k : FDRule C) : Prop :=
  ∃ w, descriptors s !! fd k = Some w ∧ (closed_ w = true ∨ direction k = In ∧ eof_ w = true).

(** What most callbacks do: the rules there are stay, with their flags, and no
    descriptor comes to life again. *)
Record lasting s s' : Prop := mkLasting {
  la_rules : _fd_rules s `prefix_of` _fd_rules s';
  la_defunct k : defunct s k → defunct s' k;
}.

#[export] Instance lasting_preorder : PreOrder lasting.
Proof.
  split; [by split|]. intros s1 s2 s3 [R1 D1] [R2 D2]. split; [by etransitivity|]. auto.
Qed.

(** What the walk over the rules comes to: those whose cancellation was
    requested go, those that are defunct go and are told so, the others stay. *)
Record swept s (tr : list call) s' : Prop := mkSwept {
  sw_flagged r : r ∈ _fd_rules s → cancel_requested (basic r) = true → rule_id (basic r) ∉ rule_ids s';
  sw_told r : r ∈ _fd_rules s → cancel_requested (basic r) = false → defunct s r → Cancelled (rule_id (basic r)) ∈ tr;
  sw_only c : c ∈ tr → ∃ k, c = Cancelled (key_id k) ∧ defunct s' k;
  sw_kept r : r ∈ _fd_rules s → cancel_requested (basic r) = false → ¬ defunct s' r → r ∈ _fd_rules s';
}.

Lemma runs_sweep fuel i s :
  loop_ok s →
  runs (EpollEventLoop.sweep call_back fuel i) s (λ r tr s', Forall is_cancelled tr).
Proof.
  revert i s. induction fuel as [|fuel IH]; intros i s Hs; cbn [EpollEventLoop.sweep].
  { by apply runs_throw. }
  apply runs_bind, runs_silent; [done..|]. cbn [gets fst snd]. intros _.
  destruct (_fd_rules s !! i) as [r|] eqn:Hr; [|by apply runs_ret].
  assert (runs (retire call_back i r ;; EpollEventLoop.sweep call_back fuel i) s (λ r tr s', Forall is_cancelled tr))
    as Hretire.
  { apply runs_bind, (runs_retire _ back_grows); [done|by apply ids_lookup| |].
    - intros s1 Hg _ Hs'. eapply runs_mono; [by apply IH|]. intros res tr s' Htr. by constructor.
    - intros e s' _ _. by repeat constructor. }
  destruct (cancel_requested (basic r)).
  { apply runs_bind, runs_silent; [done|done|intros _ _; by apply loop_ok_erase|].
    cbn. intros Hs'. eapply runs_mono; [by apply IH|]. done. }
  apply runs_bind, runs_wrapper; [done|done|]. intros w Hw _.
  destruct (_ && _); [exact Hretire|]. destruct (FileDescriptor.closed w); [exact Hretire|]. by apply IH.
Qed.

(** Rules that are gone do not come back. *)
Definition gone_for_good s s' : Prop :=
  ∀ id, (id < next_rule s)%nat → id ∉ rule_ids s → (id < next_rule s')%nat ∧ id ∉ rule_ids s'.
#[local] Instance gone_preorder : PreOrder gone_for_good.
Proof. split; [by intros s id|]. intros s1 s2 s3 H1 H2 id Hl Hn. destruct (H1 id Hl Hn). by apply H2. Qed.

Lemma grows_gone s s' : grows s s' → gone_for_good s s'.
Proof.
  intros Hg id Hl Hn. pose proof (gr_next _ _ Hg). split; [lia|]. apply grows_rules in Hg as (f&n&Hf&Hnf&_&Hr).
  unfold rule_ids in *. rewrite Hf, Hnf. rewrite Forall_forall in Hr. rewrite elem_of_app in Hn.
  intros [[?|H1]%elem_of_app|[?|H1]%elem_of_app]%elem_of_app; try (by apply Hn; auto).
  all: assert (next_rule s ≤ id < next_rule s')%nat by (apply Hr, elem_of_app; auto); lia.
Qed.
Lemma erased_gone i s : gone_for_good s (with_fd_rules (delete i (_fd_rules s)) s).
Proof.
  intros id Hl Hn. split; [done|]. intros Hin. apply Hn. unfold rule_ids, fd_ids in *. cbn in Hin. rewrite delete_ids in Hin.
  apply elem_of_app in Hin as [Hin|]; apply elem_of_app; [left|by right].
  destruct (delete_perm ((λ r, rule_id (basic r)) <$> _fd_rules s) i) as [k <-]. apply elem_of_app. by right.
Qed.

(** The rule at [i] is not in the loop once it is erased. *)
Lemma erased_absent i r s :
  loop_ok s → _fd_rules s !! i = Some r →
  (rule_id (basic r) < next_rule s)%nat ∧ rule_id (basic r) ∉ rule_ids (with_fd_rules (delete i (_fd_rules s)) s).
Proof.
  intros Hs Hr. pose proof (fd_rule_live _ _ _ Hr) as Hin. split.
  { pose proof (lo_ids _ Hs) as Hi. rewrite Forall_forall in Hi. by apply Hi. }
  pose proof (lo_nodup _ Hs) as Hnd. apply ids_lookup in Hr.
  assert (rule_ids s ≡ₚ rule_id (basic r) :: rule_ids (with_fd_rules (delete i (_fd_rules s)) s)) as Hp.
  { unfold rule_ids at 2, fd_ids. cbn. rewrite delete_ids, app_comm_cons. apply Permutation_app_tail.
    by apply delete_Permutation. }
  rewrite Hp in Hnd. by apply NoDup_cons in Hnd as [? _].
Qed.


Record swept_from (i : nat) s (tr : list call) s' : Prop := mkSweptFrom {
  sf_flagged j r : (i ≤ j)%nat → _fd_rules s !! j = Some r → cancel_requested (basic r) = true →
    rule_id (basic r) ∉ rule_ids s';
  sf_told j r : (i ≤ j)%nat → _fd_rules s !! j = Some r → cancel_requested (basic r) = false → defunct s r →
    Cancelled (rule_id (basic r)) ∈ tr;
  sf_only c : c ∈ tr → ∃ k, c = Cancelled (key_id k) ∧ defunct s' k;
  sf_kept j r : _fd_rules s !! j = Some r → (j < i)%nat ∨ cancel_requested (basic r) = false ∧ ¬ defunct s' r →
    r ∈ _fd_rules s';
  sf_defunct k : defunct s k → defunct s' k;
  sf_gone : gone_for_good s s';
}.

(** Where the rules are once the one at [i] is erased. *)
Lemma erased_lookup {A} (l : list A) i j x :
  l !! j = Some x → j ≠ i → ∃ j', delete i l !! j' = Some x ∧ ((i ≤ j → i ≤ j') ∧ (j < i → j' < i))%nat.
Proof.
  intros Hj Hne. destruct (decide (j < i)%nat).
  - exists j. rewrite list_lookup_delete_lt by done. split; [done|lia].
  - exists (j - 1)%nat. rewrite list_lookup_delete_ge by lia. replace (S (j - 1)) with j by lia. split; [done|lia].
Qed.

Lemma swept_erased i r s s1 tr s' :
  lasting s s1 → gone_for_good s s1 → _fd_rules s !! i = Some r →
  (cancel_requested (basic r) = true → rule_id (basic r) ∉ rule_ids s') →
  (cancel_requested (basic r) = false → defunct s r ∧ Cancelled (rule_id (basic r)) ∈ tr) →
  swept_from i (with_fd_rules (delete i (_fd_rules s1)) s1) tr s' → swept_from i s tr s'.
Proof.
  intros [Hrules Hdef] Hgone Hr Hflag Htold [S1 S2 S3 S4 S5 S6].
  assert (∀ j r', _fd_rules s !! j = Some r' → j ≠ i → ∃ j', delete i (_fd_rules s1) !! j' = Some r' ∧
    ((i ≤ j → i ≤ j') ∧ (j < i → j' < i))%nat) as Hl.
  { intros j r' Hj. apply erased_lookup. by eapply prefix_lookup_Some. }
  split.
  - intros j r' Hij Hj Hf. destruct (decide (j = i)) as [->|Hne]; [simplify_eq; auto|].
    destruct (Hl j r' Hj Hne) as (j'&Hj'&Hle&_). by apply (S1 j'); [apply Hle|..].
  - intros j r' Hij Hj Hf Hd. destruct (decide (j = i)) as [->|Hne]; [simplify_eq; by apply Htold|].
    destruct (Hl j r' Hj Hne) as (j'&Hj'&Hle&_). apply (S2 j'); [by apply Hle|done|done|]. by apply Hdef.
  - exact S3.
  - intros j r' Hj Hor. destruct (decide (j = i)) as [->|Hne].
    + simplify_eq. destruct Hor as [?|[Hf Hn]]; [lia|]. destruct (Htold Hf) as [Hd _]. destruct Hn. by apply S5, Hdef.
    + destruct (Hl j r' Hj Hne) as (j'&Hj'&_&Hlt). apply (S4 j'); [done|]. destruct Hor; [left; by apply Hlt|by right].
  - intros k Hk. by apply S5, Hdef.
  - etransitivity; [exact Hgone|]. etransitivity; [apply (erased_gone i)|exact S6].
Qed.

Lemma sweep_swept fuel i s :
  (∀ c, keeps lasting (call_back c)) → loop_ok s →
  match EpollEventLoop.sweep call_back fuel i s with
  | (Ok _, s') => ∃ tr, calls s' = calls s ++ tr ∧ swept_from i s tr s'
  | (Err _, _) => True
  end.
Proof.
  intros Hlast. revert i s. induction fuel as [|fuel IH]; intros i s Hs; cbn [EpollEventLoop.sweep]; [done|].
  rewrite bind_eq. cbn [gets]. destruct (_fd_rules s !! i) as [r|] eqn:Hr.
  2: { exists []. rewrite app_nil_r. split; [done|]. apply lookup_ge_None in Hr. split; try done.
    - intros j r Hij Hj. apply lookup_lt_Some in Hj. lia.
    - intros j r Hij Hj. apply lookup_lt_Some in Hj. lia.
    - by intros c ?%elem_of_nil.
    - intros j r Hj _. by eapply list_elem_of_lookup_2. }
  assert (cancel_requested (basic r) = false → defunct s r →
    match (retire call_back i r ;; EpollEventLoop.sweep call_back fuel i) s with
    | (Ok _, s') => ∃ tr, calls s' = calls s ++ tr ∧ swept_from i s tr s'
    | (Err _, _) => True
    end) as Hretire.
  { intros Hf Hd. rewrite bind_eq. unfold retire, invoke, erase_fd_rule. rewrite !bind_eq. cbn [modify].
    set (id := rule_id (basic r)).
    pose proof (back_grows (cancel r) (log_call (Cancelled id) s)) as Hg.
    pose proof (Hlast (cancel r) (log_call (Cancelled id) s)) as [Lr Ld].
    destruct (call_back (cancel r) (log_call (Cancelled id) s)) as [[[]|e] s2]; [|done]. cbn [snd] in *.
    apply grows_log in Hg as (s1&Hg&->).
    assert (loop_ok (with_fd_rules (delete i (_fd_rules s1)) (log_call (Cancelled id) s1))) as Hs2.
    { apply loop_ok_retired; [by eapply loop_ok_grows|]. eapply grows_lookup; [exact Hg|]. by apply ids_lookup. }
    specialize (IH i _ Hs2). cbn [modify].
    change (_fd_rules (log_call (Cancelled id) s1)) with (_fd_rules s1).
    destruct (EpollEventLoop.sweep _ _ _ _) as [[[]|e] s']; [|done]. destruct IH as (tr&Hc&Hsw). cbn in Hc.
    exists (Cancelled id :: tr). split; [by rewrite Hc, (gr_calls _ _ Hg), <- app_assoc|].
    assert (lasting s s1) as Hl by by split.
    apply (swept_erased i r s (log_call (Cancelled id) s1)); [by split|by apply (grows_gone s s1)|done|congruence| |].
    { intros _. split; [done|by left]. }
    destruct Hsw as [S1 S2 S3 S4 S5 S6]. split; try done.
    - intros j r' Hij Hj Hf' Hd'. right. by apply (S2 j).
    - intros c [->|Hc']%elem_of_cons; [|by apply S3]. exists (key r). split; [done|]. apply S5, Ld. exact Hd. }
  destruct (cancel_requested (basic r)) eqn:Hf.
  { destruct (erased_absent i r s Hs Hr) as [Hlt Habs].
    specialize (IH i _ (loop_ok_erase i s Hs)). unfold erase_fd_rule. rewrite bind_eq. cbn [modify].
    destruct (EpollEventLoop.sweep _ _ _ _) as [[[]|e] s']; [|done]. destruct IH as (tr&Hc&Hsw). exists tr. split; [done|].
    apply (swept_erased i r s s); [done|done|done| |congruence|exact Hsw]. intros _. by apply (sf_gone _ _ _ _ Hsw). }
  rewrite bind_eq. unfold wrapper at 1. destruct (descriptors s !! fd r) as [w|] eqn:Hw; [|done].
  destruct (bool_decide (direction r = In) && FileDescriptor.eof w) eqn:Heof.
  { apply Hretire; [done|]. apply andb_true_iff in Heof as [Hd%bool_decide_eq_true He]. exists w. by auto. }
  destruct (FileDescriptor.closed w) eqn:Hcl; [apply Hretire; [done|]; exists w; by auto|].
  specialize (IH (S i) s Hs). destruct (EpollEventLoop.sweep _ _ _ _) as [[[]|e] s']; [|done].
  destruct IH as (tr&Hc&[S1 S2 S3 S4 S5 S6]). exists tr. split; [done|].
  assert (¬ defunct s r) as Hnd.
  { intros (w'&Hw'&Hor). assert (w' = w) as -> by congruence. apply andb_false_iff in Heof. unfold FileDescriptor.eof, FileDescriptor.closed in *.
    destruct Hor as [?|[Hd He]]; [congruence|]. rewrite Hd in Heof. destruct Heof; [done|congruence]. }
  split; try done.
  - intros j r' Hij Hj Hf'. destruct (decide (j = i)) as [->|]; [congruence|]. apply (S1 j); [lia|done|done].
  - intros j r' Hij Hj Hf' Hd. destruct (decide (j = i)) as [->|]; [congruence|]. apply (S2 j); [lia|done..].
  - intros j r' Hj Hor. apply (S4 j); [done|]. destruct (decide (j = i)) as [->|]; [left; lia|]. destruct Hor; [left; lia|by right].
Qed.

Lemma swept_all s tr s' : swept_from 0 s tr s' → swept s tr s'.
Proof.
  intros [S1 S2 S3 S4 _ _]. split; [| |done|]; intros r [j Hj]%list_elem_of_lookup.
  - apply (S1 j); [lia|done].
  - apply (S2 j); [lia|done].
  - intros Hf Hd. apply (S4 j); [done|by right].
Qed.

(** Everything up to the call of [epoll_wait]. *)
Lemma epoll_runs_prepare fuel s :
  loop_ok s →
  runs (EpollEventLoop.prepare call_interest call_back epoll_ctl order fuel) s (λ r tr s', Forall is_cancelled tr ∧
    ∀ a, r = Ok a → (∀ c, keeps lasting (call_back c)) → swept s tr s').
Proof.
  intros Hs. apply runs_bind. eapply runs_mono; [by apply runs_logged, runs_sweep|].
  intros [[]|e] tr s1 (Hsweep&Hcalls&Htr); [|by split]. intros Hs1.
  apply runs_bind, runs_silent; [done..|]. cbn [gets fst snd]. intros _.
  apply runs_same; [done|apply same_refresh|]. intros x _. cbn. rewrite app_nil_r. split; [done|]. intros a _ Hl.
  pose proof (sweep_swept fuel 0 s Hl Hs) as Hsw. rewrite Hsweep in Hsw. destruct Hsw as (tr'&Hc&Hsw%swept_all).
  assert (tr' = tr) as -> by (eapply (inj (app (calls s))); congruence). by destruct Hsw.
Qed.
(** ** Errors *)

(** What the rules [ids] of descriptors in error are told, one after the other. *)
Definition told_error (ids : list nat) : list call := ids ≫= λ id, [Errored id; Cancelled id].

Lemma told_error_not_ran ids : Forall not_ran (told_error ids).
Proof. induction ids as [|id ids IH]; [done|]. by repeat constructor. Qed.

(** The rules of descriptor number [n] were told, those [ids], and went; the
    others stay. *)
Record dropped (n : Z) s (ids : list nat) s' : Prop := mkDropped {
  dr_told k : k ∈ fd_keys s → on_number s n k → key_id k ∈ ids;
  dr_only id : id ∈ ids → ∃ k, key_id k = id ∧ on_number s' n k ∧ (k ∈ fd_keys s ∨ (next_rule s ≤ id)%nat);
  dr_kept k : k ∈ fd_keys s → off_number s n k → k ∈ fd_keys s';
  dr_none k : k ∈ fd_keys s' → off_number s' n k;
  dr_old k : k ∈ fd_keys s' → k ∈ fd_keys s ∨ (next_rule s ≤ key_id k)%nat;
  dr_next : (next_rule s ≤ next_rule s')%nat;
  dr_numbers : numbers s s';
}.

Lemma key_number s r n : on_number s n (key r) ↔ on_number s n r.
Proof. done. Qed.

(** One rule of the number, at [i], is told and goes. *)
Lemma dropped_one n i r s s1 s2 ids s' :
  loop_ok s → _fd_rules s !! i = Some r → on_number s n r →
  grows (log_call (Errored (rule_id (basic r))) s) s1 → grows s1 s2 →
  dropped n (with_fd_rules (delete i (_fd_rules s2)) (log_call (Cancelled (rule_id (basic r))) s2)) ids s' →
  dropped n s (rule_id (basic r) :: ids) s'.
Proof.
  intros Hs Hr Hon Hg1 Hg2 [D1 D2 D3 D4 Do D5 D6].
  assert (grows (log_call (Errored (rule_id (basic r))) s) s2) as Hg by by etransitivity.
  pose proof (gr_next _ _ Hg) as Hn. cbn in Hn, D5. pose proof (gr_numbers _ _ Hg) as Hnum.
  assert (numbers s s') as Hall by (intros f w (w'&(w''&?&?)%D6&?)%Hnum; exists w''; split; [done|congruence]).
  pose proof (keys_lookup _ _ _ Hr) as Hk.
  assert (∀ k, k ∈ fd_keys (with_fd_rules (delete i (_fd_rules s2)) (log_call (Cancelled (rule_id (basic r))) s2)) ∨
    (next_rule s2 ≤ key_id k)%nat → k ∈ fd_keys s ∨ (next_rule s ≤ key_id k)%nat) as Hold.
  { intros k [Hin|]; [|right; lia]. by apply (retired_member (log_call (Errored (rule_id (basic r))) s)) in Hin. }
  split; [| | |exact D4|intros k Hin%Do; by apply Hold|lia|done].
  - intros k [j Hj]%list_elem_of_lookup Hkn. destruct (decide (j = i)) as [->|Hji].
    { rewrite Hk in Hj. injection Hj as <-. by left. }
    right. apply D1; [by eapply (retired_keeps _ s2 _ _ j); [exact Hg|..]|]. by apply (on_number_kept s).
  - intros id [->|Hid]%elem_of_cons.
    { exists (key r). split; [done|]. split; [by apply (on_number_kept s)|left]. by eapply list_elem_of_lookup_2. }
    destruct (D2 id Hid) as (k&<-&Hkn&Hor). exists k. split; [done|]. split; [done|by apply Hold].
  - intros k [j Hj]%list_elem_of_lookup Hoff. apply D3; [|by apply (off_number_kept s)].
    eapply (retired_keeps _ s2 _ _ j); [exact Hg|done|]. intros ->. rewrite Hk in Hj. injection Hj as <-.
    by apply (on_off_number s n r).
Qed.

Lemma runs_drop_rules fuel i n s :
  loop_ok s → (∀ j k, (j < i)%nat → fd_keys s !! j = Some k → off_number s n k) →
  runs (EpollEventLoop.drop_rules call_back fuel i n) s (λ r tr s', Forall not_ran tr ∧
    ∀ a, r = Ok a → ∃ ids, tr = told_error ids ∧ dropped n s ids s').
Proof.
  revert i s. induction fuel as [|fuel IH]; intros i s Hs Hbelow; cbn [EpollEventLoop.drop_rules].
  { by apply runs_throw. }
  apply runs_bind, runs_silent; [done..|]. cbn [gets fst snd]. intros _.
  destruct (_fd_rules s !! i) as [r|] eqn:Hr.
  2: { assert (∀ k, k ∈ fd_keys s → off_number s n k) as Hall.
    { intros k [j Hj]%list_elem_of_lookup. apply (Hbelow j); [|done]. apply lookup_lt_Some in Hj.
      unfold fd_keys in Hj. rewrite length_fmap in Hj. apply lookup_ge_None in Hr. lia. }
    apply runs_ret; [done|]. split; [done|]. intros a _. exists []. split; [done|]. split; try done.
    - intros k Hk Hon. destruct (on_off_number _ _ _ Hon (Hall k Hk)).
    - by intros id ?%elem_of_nil.
    - intros k Hk. by left. }
  apply runs_bind, runs_wrapper; [done|by split|]. intros w Hw _. case_bool_decide as Hn.
  2: { apply IH; [done|]. intros j k Hj Hk. destruct (decide (j = i)) as [->|]; [|apply (Hbelow j); [lia|done]].
    rewrite (keys_lookup _ _ _ Hr) in Hk. injection Hk as <-. by exists w. }
  assert (on_number s n r) as Hon by by exists w.
  apply runs_bind, (runs_invoke _ back_grows); [done|by eapply fd_rule_live|done|].
  intros [[]|e] s1 Hg; [|by repeat constructor]. intros Hs1.
  apply runs_bind, (runs_retire _ back_grows).
  - done.
  - eapply grows_lookup; [exact Hg|]. by apply ids_lookup.
  - intros s2 Hg2 _ Hs2. eapply runs_mono; [apply IH; [done|]|].
    + assert (grows (log_call (Errored (rule_id (basic r))) s) s2) as Hg' by by etransitivity.
      eapply (retired_below (log_call (Errored (rule_id (basic r))) s)); [exact Hg'| |].
      { change (fd_keys (log_call _ s)) with (fd_keys s). apply keys_lookup in Hr. by apply lookup_lt_Some in Hr. }
      intros j k Hj Hk. apply (off_number_kept s); [apply (gr_numbers _ _ Hg')|by apply (Hbelow j)].
    + intros res tr s' [Htr Hok]. split; [by repeat constructor|]. intros a Ha. destruct (Hok a Ha) as (ids&->&Hd).
      exists (rule_id (basic r) :: ids). split; [done|]. by apply (dropped_one n i r s s1 s2).
  - intros e s' _ _. by repeat constructor.
Qed.

(** The descriptor of the first event that is no error. *)
Definition first_ready (events : list (Z * Z)) : option (Z * Z) :=
  head (filter (λ e, has_bits e.2 EPOLLERR = false) events).

Definition in_error (events : list (Z * Z)) (n : Z) : Prop :=
  ∃ revents, (n, revents) ∈ events ∧ has_bits revents EPOLLERR = true.

(** The rules of every descriptor in error were told, those [ids]; the others
    stay. *)
Record errors_told (events : list (Z * Z)) s (ids : list nat) s' : Prop := mkErrorsTold {
  et_told k n : k ∈ fd_keys s → in_error events n → on_number s n k → key_id k ∈ ids;
  et_only id : id ∈ ids → ∃ k n, key_id k = id ∧ in_error events n ∧ on_number s' n k ∧
    (k ∈ fd_keys s ∨ (next_rule s ≤ id)%nat);
  et_kept k : k ∈ fd_keys s → (∀ n, in_error events n → off_number s n k) → k ∈ fd_keys s';
  et_numbers : numbers s s';
}.

Lemma in_error_cons n revents events m :
  in_error ((n, revents) :: events) m ↔ m = n ∧ has_bits revents EPOLLERR = true ∨ in_error events m.
Proof.
  unfold in_error. setoid_rewrite elem_of_cons. split.
  - intros (v&[[= -> ->]|?]&?); [by left|right; by exists v].
  - intros [[-> ?]|(v&?&?)]; [exists revents|exists v]; auto.
Qed.

Lemma errors_told_cons n revents events s s1 x ids ids' s' :
  has_bits revents EPOLLERR = true → dropped n s ids s1 → errors_told events (with_extra x s1) ids' s' →
  errors_told ((n, revents) :: events) s (ids ++ ids') s'.
Proof.
  intros He [D1 D2 D3 D4 Do D5 D6] [E1 E2 E3 E4].
  assert (numbers s s') as Hnum by (intros f w (w'&(w''&?&?)%E4&?)%D6; exists w''; split; [done|congruence]).
  split; [| | |done].
  - intros k m Hk [[-> _]|Hm]%in_error_cons Hon; apply elem_of_app; [left; by apply D1|].
    destruct (decide (n = m)) as [->|Hne]; [left; by apply D1|right].
    apply (E1 k m); [apply D3; [done|by apply (on_off_other s n m)]|done|by apply (on_number_kept s)].
  - intros id [Hid|Hid]%elem_of_app.
    + destruct (D2 id Hid) as (k&<-&Hon&Hor). exists k, n. split; [done|]. split; [apply in_error_cons; by left|].
      split; [by apply (on_number_kept s1)|done].
    + destruct (E2 id Hid) as (k&m&<-&Hm&Hon&Hor). exists k, m. split; [done|]. split; [apply in_error_cons; by right|].
      split; [done|]. cbn in Hor. destruct Hor as [Hin|]; [by apply Do|right; lia].
  - intros k Hk Hoff. apply E3.
    + apply D3; [done|]. apply Hoff, in_error_cons. by left.
    + intros m Hm. apply (off_number_kept s); [done|]. apply Hoff, in_error_cons. by right.
Qed.

Lemma errors_told_skip n revents events s ids s' :
  has_bits revents EPOLLERR = false → errors_told events s ids s' → errors_told ((n, revents) :: events) s ids s'.
Proof.
  intros He [E1 E2 E3 E4].
  assert (∀ m, in_error ((n, revents) :: events) m ↔ in_error events m) as Hin.
  { intros m. rewrite in_error_cons, He. naive_solver. }
  split; [| | |done].
  - intros k m Hk Hm%Hin. by apply E1.
  - intros id (k&m&?&?&?)%E2. exists k, m. split; [done|]. split; [by apply Hin|done].
  - intros k Hk Hoff. apply E3; [done|]. intros m Hm. by apply Hoff, Hin.
Qed.

Lemma errors_told_extra x events s ids s' : errors_told events (with_extra x s) ids s' → errors_told events s ids s'.
Proof. by intros []. Qed.

Lemma errors_told_nil s : errors_told [] s [] s.
Proof. split; try done; [by intros k n _ (v&?%elem_of_nil&_)|by intros id ?%elem_of_nil]. Qed.

Lemma runs_handle_errors fuel events callback s :
  loop_ok s →
  runs (EpollEventLoop.handle_errors call_back epoll_ctl getsockopt fuel events callback) s (λ r tr s',
    Forall not_ran tr ∧
    ∀ c, r = Ok c → c = match callback with Some c => Some c | None => first_ready events end ∧
      ∃ ids, tr = told_error ids ∧ errors_told events s ids s').
Proof.
  revert callback s. induction events as [|[n revents] events IH]; intros callback s Hs;
    cbn [EpollEventLoop.handle_errors].
  { apply runs_ret; [done|]. split; [done|]. intros c [= <-]. split; [by destruct callback|]. exists [].
    split; [done|apply errors_told_nil]. }
  unfold first_ready. rewrite filter_cons. cbn [snd].
  destruct (has_bits revents EPOLLERR) eqn:He.
  - rewrite decide_False by done.
    apply runs_bind, runs_same; [done|apply same_report_error|]. intros x Hx.
    destruct (EpollEventLoop.report_error _ _ _).1 as [[]|e]; [|by split]. intros Hsx.
    apply runs_bind. eapply runs_mono; [by apply runs_drop_rules; [|lia]|].
    intros [[]|e] tr s1 [Htr Hd]; [|by split]. intros Hs1. destruct (Hd () eq_refl) as (ids&->&Hdrop).
    apply runs_bind, runs_same; [done|apply same_drop_state|]. intros x1 Hx1.
    destruct (EpollEventLoop.drop_state _ _ _).1 as [[]|e]; [|by cbn; rewrite app_nil_r]. intros Hsx1.
    eapply runs_mono; [by apply IH|]. intros r tr' s' [Htr' Hc]. cbn. split; [by apply Forall_app|].
    intros c Hr. destruct (Hc c Hr) as (Hcb&ids'&->&Ht). split; [exact Hcb|]. exists (ids ++ ids').
    split; [unfold told_error; by rewrite bind_app|].
    apply (errors_told_extra x). by eapply errors_told_cons.
  - rewrite decide_True by done. eapply runs_mono; [by apply IH|]. intros r tr s' [Htr Hc]. split; [done|].
    intros c Hr. destruct (Hc c Hr) as (->&ids&->&Ht). split; [by destruct callback|]. exists ids.
    split; [done|by apply errors_told_skip].
Qed.

(** The descriptor to serve is one of those reported. *)
Lemma handled_ready fuel events callback s :
  match EpollEventLoop.handle_errors call_back epoll_ctl getsockopt fuel events callback s with
  | (Ok c, _) => ∀ ready, c = Some ready → ready ∈ events ∨ callback = Some ready
  | (Err _, _) => True
  end.
Proof.
  revert callback s. induction events as [|[n revents] events IH]; intros callback s;
    cbn [EpollEventLoop.handle_errors]; [intros ready ->; by right|].
  destruct (has_bits revents EPOLLERR).
  - rewrite bind_eq. destruct (EpollEventLoop.report_error _ _ s) as [[[]|e] s1]; [|done].
    rewrite bind_eq. destruct (EpollEventLoop.drop_rules _ _ _ _ s1) as [[[]|e] s2]; [|done].
    rewrite bind_eq. destruct (EpollEventLoop.drop_state _ _ s2) as [[[]|e] s3]; [|done].
    specialize (IH callback s3). destruct (EpollEventLoop.handle_errors _ _ _ _ _ _ s3) as [[c|e] s4]; [|done].
    intros ready [?|?]%IH; [left; by right|by right].
  - set (c0 := match callback with None => _ | Some c => _ end). specialize (IH c0 s).
    destruct (EpollEventLoop.handle_errors _ _ _ _ _ _ s) as [[c|e] s4]; [|done].
    intros ready [?|Hc]%IH; [left; by right|]. unfold c0 in Hc. destruct callback; [by right|].
    injection Hc as <-. left. by left.
Qed.

(** ** The service of one rule *)

(** A rule of the loop was run whose descriptor is the one reported, with an
    event of its direction. *)
Definition ran_ready s (ready : Z * Z) (tr : list call) : Prop :=
  ∃ k, tr = [Ran (key_id k)] ∧ k ∈ fd_keys s ∧ on_number s ready.1 k ∧
    has_bits ready.2 (direction_mask (direction k)) = true.

(** A rule that is to be run, and one that is never going to be. *)
Definition servable s (ready : Z * Z) (r : FDRule C) : Prop :=
  on_number s ready.1 r ∧ has_bits ready.2 (direction_mask (direction r)) = true ∧
  call_interest (interest (basic r)) s = Ok true.
Definition hung_up (ready : Z * Z) (k : FDRule C) : Prop :=
  has_bits ready.2 EPOLLHUP = true ∧ (direction k = In → has_bits ready.2 EPOLLIN = false).

(** What the search for a rule on the descriptor comes to, from the rule at [i]
    on: those that the hang-up concerns are told they are cancelled, up to the
    first that is to be run. *)
Record found (i : nat) s ready (r : result Result) (tr0 tr1 : list call) s' : Prop := mkFound {
  fo_only c : c ∈ tr0 → ∃ k, c = Cancelled (key_id k) ∧ on_number s' ready.1 k ∧ hung_up ready k;
  fo_ran : tr1 = [] ∨ ran_ready s' ready tr1;
  fo_hung a j k : r = Ok a → tr1 = [] → (i ≤ j)%nat → fd_keys s !! j = Some k → on_number s ready.1 k →
    hung_up ready k → Cancelled (key_id k) ∈ tr0;
  fo_none a j rule : r = Ok a → tr0 = [] → tr1 = [] → (i ≤ j)%nat → _fd_rules s !! j = Some rule →
    ¬ servable s ready rule;
  fo_first id : tr0 = [] → tr1 = [Ran id] → ∃ j rule, (i ≤ j)%nat ∧ _fd_rules s !! j = Some rule ∧
    rule_id (basic rule) = id ∧ servable s ready rule ∧
    ∀ j' rule', (i ≤ j' < j)%nat → _fd_rules s !! j' = Some rule' → ¬ servable s ready rule';
  (** When it is run, after those cancellations, it is interested. *)
  fo_served id : tr1 = [Ran id] → ∃ sx rule, calls sx = calls s ++ tr0 ∧ rule ∈ _fd_rules sx ∧
    rule_id (basic rule) = id ∧ servable sx ready rule;
}.

Lemma hung_up_tested revents n (r : FDRule C) :
  has_bits revents EPOLLHUP &&
    (negb ((bool_decide (direction r = In) && has_bits revents EPOLLIN)
        || (negb (bool_decide (direction r = In)) && has_bits revents EPOLLOUT)) && bool_decide (direction r = In)
      || negb (bool_decide (direction r = In))) = true ↔ hung_up (n, revents) r.
Proof.
  unfold hung_up. cbn [snd]. rewrite andb_true_iff. destruct (direction r).
  - rewrite bool_decide_true by done. destruct (has_bits revents EPOLLIN); cbn; [|by split; intros [? _]].
    split; [by intros [_ ?]|]. intros [_ Hin]. discriminate (Hin eq_refl).
  - rewrite bool_decide_false, orb_true_r by done. by split; intros [? _].
Qed.

Lemma found_nothing i s ready r :
  (∀ a j rule, r = Ok a → (i ≤ j)%nat → _fd_rules s !! j = Some rule → False) → found i s ready r [] [] s.
Proof.
  intros Hn. split; try done; [by intros c ?%elem_of_nil|by left| |by intros; edestruct Hn].
  intros a j k Hr _ Hij Hk. unfold fd_keys in Hk. rewrite list_lookup_fmap in Hk.
  destruct (_fd_rules s !! j) eqn:Hj; [|done]. by destruct (Hn a j f Hr Hij Hj).
Qed.

(** The rule at [i] is passed over. *)
Lemma found_skip i rule s ready r tr0 tr1 s' :
  _fd_rules s !! i = Some rule → ¬ servable s ready rule → ¬ (on_number s ready.1 rule ∧ hung_up ready rule) →
  found (S i) s ready r tr0 tr1 s' → found i s ready r tr0 tr1 s'.
Proof.
  intros Hi Hs Hh [F1 F2 F3 F4 F5 F6]. split; [done|done| | | |done].
  - intros a j k Hr Ht Hij Hj Hon Hk. destruct (decide (j = i)) as [->|]; [|apply (F3 a j); [done|done|lia|done..]].
    rewrite (keys_lookup _ _ _ Hi) in Hj. injection Hj as <-. by destruct Hh.
  - intros a j rule' Hr H0 H1 Hij Hj. destruct (decide (j = i)) as [->|]; [by simplify_eq|].
    apply (F4 a j); [done..|lia|done].
  - intros id H0 H1. destruct (F5 id H0 H1) as (j&rule'&Hij&Hj&Hid&Hsv&Hbefore). exists j, rule'.
    split; [lia|]. split; [done|]. split; [done|]. split; [done|]. intros j' rule'' Hj' Hl.
    destruct (decide (j' = i)) as [->|]; [by simplify_eq|]. apply (Hbefore j'); [lia|done].
Qed.

(** The rule at [i] is told of the hang-up and goes. *)
Lemma found_retired i rule s s1 ready r tr0 tr1 s' :
  _fd_rules s !! i = Some rule → on_number s ready.1 rule → hung_up ready rule → grows s s1 → numbers s1 s' →
  found i (with_fd_rules (delete i (_fd_rules s1)) (log_call (Cancelled (rule_id (basic rule))) s1)) ready r tr0 tr1 s' →
  found i s ready r (Cancelled (rule_id (basic rule)) :: tr0) tr1 s'.
Proof.
  intros Hi Hon Hh Hg Hnum [F1 F2 F3 _ _ F6]. pose proof (gr_numbers _ _ Hg) as Hnum1. pose proof (keys_lookup _ _ _ Hi) as Hik.
  split; [|done| |done|done|].
  - intros c [->|Hc]%elem_of_cons; [|by apply F1]. exists (key rule). split; [done|]. split; [|done].
    by apply (on_number_kept s1), (on_number_kept s).
  - intros a j k Hr Ht Hij Hj Hkn Hk. destruct (decide (j = i)) as [->|Hne].
    { rewrite Hik in Hj. injection Hj as <-. by left. }
    right. destruct (grows_prefix _ _ Hg) as [f Hf].
    assert (fd_keys s1 !! j = Some k) as Hj1 by (rewrite Hf; by apply lookup_app_l_Some).
    apply (F3 a (j - 1)%nat); [done|done|lia| |by apply (on_number_kept s)|done].
    rewrite fd_keys_retired, list_lookup_delete_ge by lia. by replace (S (j - 1)) with j by lia.
  - intros id (sx&rule'&Hc&H')%F6. exists sx, rule'. split; [|done]. rewrite Hc. cbn.
    by rewrite (gr_calls _ _ Hg), <- app_assoc.
Qed.

Lemma runs_find_rule fuel i n revents s :
  loop_ok s →
  runs (EpollEventLoop.find_rule call_interest call_back fuel i n revents) s (λ r tr s',
    (∀ a, r = Ok a → a = Success) ∧ numbers s s' ∧
    ∃ tr0 tr1, tr = tr0 ++ tr1 ∧ found i s (n, revents) r tr0 tr1 s').
Proof.
  assert (∀ i (s : sys) (r : result Result), (∀ a, r = Ok a → a = Success) →
    (∀ a j rule, r = Ok a → (i ≤ j)%nat → _fd_rules s !! j = Some rule → False) →
    (∀ a, r = Ok a → a = Success) ∧ numbers s s ∧
    ∃ tr0 tr1 : list call, [] = tr0 ++ tr1 ∧ found i s (n, revents) r tr0 tr1 s) as Hnone.
  { intros j s0 r Hr Hn. split; [done|]. split; [done|]. exists [], []. split; [done|by apply found_nothing]. }
  revert i s. induction fuel as [|fuel IH]; intros i s Hs; cbn [EpollEventLoop.find_rule].
  { apply runs_throw; [done|]. by apply Hnone. }
  apply runs_bind, runs_silent; [done..|]. cbn [gets fst snd]. intros _.
  destruct (_fd_rules s !! i) as [r|] eqn:Hr.
  2: { apply runs_ret; [done|]. apply Hnone; [by intros a [= <-]|]. intros a j rule _ Hij Hj.
    apply lookup_ge_None in Hr. apply lookup_lt_Some in Hj. lia. }
  apply runs_bind, runs_wrapper; [done|intros e; by apply Hnone|]. intros w Hw _.
  assert (¬ servable s (n, revents) r → ¬ (on_number s n r ∧ hung_up (n, revents) r) →
    runs (EpollEventLoop.find_rule call_interest call_back fuel (S i) n revents) s (λ r tr s',
      (∀ a, r = Ok a → a = Success) ∧ numbers s s' ∧
      ∃ tr0 tr1, [] ++ tr = tr0 ++ tr1 ∧ found i s (n, revents) r tr0 tr1 s')) as Hskip.
  { intros Hsv Hh. eapply runs_mono; [by apply IH|]. intros res tr s' (Ha&Hnum&tr0&tr1&->&Hf).
    split; [done|]. split; [done|]. exists tr0, tr1. split; [done|]. by apply (found_skip i r). }
  case_bool_decide as Hn.
  { assert (¬ on_number s n r) as Hoff by (intros (w'&Hw'&E); apply Hn; unfold FileDescriptor.fd_num; congruence).
    apply Hskip; [by intros [? _]|by intros [? _]]. }
  assert (on_number s n r) as Hon by by exists w.
  set (ready := (bool_decide (direction r = In) && has_bits revents EPOLLIN)
    || (negb (bool_decide (direction r = In)) && has_bits revents EPOLLOUT)).
  destruct (has_bits revents EPOLLHUP && _) eqn:Hhup.
  { pose proof (proj1 (hung_up_tested revents n r) Hhup) as Hh.
    apply runs_bind, (runs_retire _ back_grows); [done|by apply ids_lookup| |].
    - intros s1 Hg _ Hs'. eapply runs_mono; [by apply IH|].
      intros res tr s' (Ha&Hnum&tr0&tr1&->&Hf). split; [done|].
      split; [transitivity s1; [apply (gr_numbers _ _ Hg)|done]|].
      exists (Cancelled (rule_id (basic r)) :: tr0), tr1. split; [done|]. by apply (found_retired i r s s1).
    - intros e s' Hnum _. split; [done|]. split; [done|]. exists [Cancelled (rule_id (basic r))], [].
      split; [done|]. split; [|by left|done..]. intros c ->%list_elem_of_singleton. exists (key r).
      split; [done|]. split; [by apply (on_number_kept s)|done]. }
  assert (¬ hung_up (n, revents) r) as Hnh by (intros Hh%hung_up_tested; unfold ready in Hhup; congruence).
  assert (ready = has_bits revents (direction_mask (direction r))) as Hready.
  { subst ready. destruct (direction r); [rewrite bool_decide_true by done; apply orb_false_r|by rewrite bool_decide_false]. }
  apply runs_bind. apply (runs_silent _ _ _ Hs); [by destruct ready|by destruct ready|].
  assert (((if ready then interested call_interest (basic r) else mret false) s).2 = s) as -> by (by destruct ready).
  destruct (_ s).1 as [[]|e] eqn:Hb; [| |by apply Hnone].
  - assert (servable s (n, revents) r) as Hsv.
    { rewrite Hready in Hb. destruct (has_bits revents (direction_mask (direction r))) eqn:Hd; [|done]. by split_and!. }
    intros _. eapply runs_mono; [apply runs_serve; [done|done|by eapply fd_rule_live]|].
    intros res tr s' (Ha&Htr&Hnum&Hpre). split; [by intros a [-> _]%Ha|]. split; [done|]. exists [], tr. split; [done|].
    split; [by intros c ?%elem_of_nil| | | | |].
    + destruct Htr as [->| ->]; [by left|right]. exists (key r). split_and!; try done; [|by apply (on_number_kept s)|by apply Hsv].
      destruct Hpre as [new ->]. apply elem_of_app. left. eapply list_elem_of_lookup_2. by apply keys_lookup.
    + intros a j k [_ ->]%Ha. done.
    + intros a j k [_ ->]%Ha. done.
    + intros id _ Hid. destruct Htr as [->| ->]; [done|]. injection Hid as <-. exists i, r.
      split_and!; [done|done|done|apply Hsv..|]. intros j' rule' Hj'. lia.
    + intros id Hid. destruct Htr as [->| ->]; [done|]. injection Hid as <-. exists s, r. rewrite app_nil_r.
      split_and!; [done|by eapply list_elem_of_lookup_2|done|apply Hsv..].
  - intros _. apply Hskip; [|by intros [_ ?]]. intros (_&Hd&Hi). rewrite Hready in Hb. cbn [snd] in Hd. rewrite Hd in Hb.
    unfold interested in Hb. cbn in Hb. congruence.
Qed.

Abbreviation wait := (EpollEventLoop.wait_next_event call_interest call_back epoll_ctl epoll_wait getsockopt order).
Abbreviation prepare fuel := (EpollEventLoop.prepare call_interest call_back epoll_ctl order fuel).
Abbreviation serve_non_fd := (EpollEventLoop.serve_non_fd_rules call_interest call_back).
Abbreviation handle fuel events := (EpollEventLoop.handle_errors call_back epoll_ctl getsockopt fuel events None).

(** What epoll reported, from state [s1] on: first every rule of a descriptor
    in error is told of the error and then of its cancellation; then the
    descriptor of the first event that is no error is served. *)
Definition epoll_dispatched fuel events s1 (r : result Result) (tr : list call) s' : Prop :=
  match handle fuel events s1 with
  | (Err e, s2) => r = Err e ∧ s' = s2 ∧ Forall not_ran tr
  | (Ok c, s2) => c = first_ready events ∧ ∃ ids tr0 tr1,
      tr = told_error ids ++ tr0 ++ tr1 ∧ errors_told events s1 ids s2 ∧ (∀ a, r = Ok a → a = Success) ∧
      match first_ready events with
      | None => r = Ok Success ∧ tr0 = [] ∧ tr1 = [] ∧ s' = s2
      | Some ready => found 0 s2 ready r tr0 tr1 s'
      end
  end.

(** What follows the registrations, in state [s1]. *)
Definition epoll_polled fuel timeout_ms s1 (r : result Result) (tr : list call) s' : Prop :=
  if bool_decide (length (_fd_rules s1) = 0%nat) || negb (EpollEventLoop.something_to_poll (_fd_states (extra s1)))
  then tr = [] ∧ s' = s1 ∧ r = Ok Exit
  else
    match epoll_wait (_epoll_fd (extra s1)) EpollEventLoop.kMaxEvents timeout_ms (kernel (extra s1)) with
    | Failed errno =>
        tr = [] ∧ s' = s1 ∧ r = if bool_decide (errno = EINTR) then Ok Success else Err (unix_error "epoll_wait")
    | Returned [] => tr = [] ∧ s' = s1 ∧ r = Ok Timeout
    | Returned events => epoll_dispatched fuel events s1 r tr s'
    end.

(** The calls of one [wait_next_event] from [s]. *)
Definition epoll_waited fuel timeout_ms s (r : result Result) (tr : list call) s' : Prop :=
  match serve_non_fd s with
  | (Ok (Some a), s0) => a = Success ∧ r = Ok a ∧ s' = s0 ∧ served_one tr
  | (Err e, s0) => r = Err e ∧ s' = s0 ∧ (tr = [] ∨ served_one tr)
  | (Ok None, s0) =>
      ∃ tr0 tr1, tr = tr0 ++ tr1 ∧ Forall is_cancelled tr0 ∧
      match prepare fuel s0 with
      | (Err e, s1) => r = Err e ∧ s' = s1 ∧ tr1 = []
      | (Ok _, s1) => ((∀ c, keeps lasting (call_back c)) → swept s0 tr0 s1) ∧ epoll_polled fuel timeout_ms s1 r tr1 s'
      end
  end.

Lemma epoll_runs_dispatch fuel events s :
  loop_ok s →
  runs (callback ← handle fuel events;
        match callback with
        | None => mret Success
        | Some (n, revents) => EpollEventLoop.find_rule call_interest call_back fuel 0 n revents
        end) s (epoll_dispatched fuel events s).
Proof.
  intros Hs. apply runs_bind. eapply runs_mono; [by apply runs_keep, runs_handle_errors|].
  intros [c|e] tr s1 [Heq [Htr Hc]]; unfold epoll_dispatched; rewrite Heq; [|done].
  intros Hs1. destruct (Hc c eq_refl) as (->&ids&->&Ht). destruct (first_ready events) as [[n revents]|] eqn:Hfirst.
  - eapply runs_mono; [by apply runs_find_rule|]. intros r tr' s' (Ha&_&tr0&tr1&->&Hf). split; [done|].
    by exists ids, tr0, tr1.
  - apply runs_ret; [done|]. split; [done|]. exists ids, [], []. split_and!; try done. by intros a [= <-].
Qed.

Lemma epoll_runs_wait fuel timeout_ms s :
  loop_ok s → runs (wait fuel timeout_ms) s (λ r tr s', epoll_waited fuel timeout_ms s r tr s').
Proof.
  intros Hs. unfold EpollEventLoop.wait_next_event, epoll_waited. apply runs_bind.
  eapply runs_mono; [by apply runs_keep, runs_serve_non_fd|].
  intros [[res|]|e] tr s0 [Hserve HQ]; rewrite Hserve; [| |done].
  { destruct HQ as [-> Hone]. intros Hs0. apply runs_ret; [done|]. by rewrite app_nil_r. }
  cbn in HQ. subst tr. intros Hs0. apply runs_bind.
  eapply runs_mono; [by apply runs_keep, epoll_runs_prepare|].
  intros [[]|e] tr s1 [Hprep [Htr Hsw]]; rewrite Hprep; [|exists tr, []; rewrite app_nil_r; by split_and!].
  intros Hs1. apply runs_bind, runs_silent; [done..|]. cbn [gets fst snd]. intros _.
  assert (∀ m, runs m s1 (λ r tr' s', epoll_polled fuel timeout_ms s1 r tr' s') →
    runs m s1 (λ r tr' s', ∃ tr0 tr1, [] ++ tr ++ [] ++ tr' = tr0 ++ tr1 ∧ Forall is_cancelled tr0 ∧
      ((∀ c, keeps lasting (call_back c)) → swept s0 tr0 s1) ∧ epoll_polled fuel timeout_ms s1 r tr1 s')) as Hend.
  { intros m Hm. eapply runs_mono; [exact Hm|]. intros r tr' s' Hp. exists tr, tr'. split_and!; [done|done| |done].
    by apply (Hsw ()). }
  apply Hend. clear Hend. unfold epoll_polled.
  destruct (bool_decide (length (_fd_rules s1) = 0%nat)); cbn [orb]; [by apply runs_ret|].
  apply runs_bind, runs_silent; [done..|]. cbn [gets fst snd app]. intros _.
  destruct (EpollEventLoop.something_to_poll _); cbn [negb]; [|by apply runs_ret].
  destruct (epoll_wait _ _ _ _) as [[|e events]|errno].
  - by apply runs_ret.
  - by apply epoll_runs_dispatch.
  - case_bool_decide; [by apply runs_ret|by apply runs_throw].
Qed.

End events.

(** * Registrations *)

Section registrations.
Context {C K W : Type}.
Abbreviation sys := (state C (EpollState K) W).
Implicit Types s : sys.
Context (call_interest : C → sys → result bool) (call_back : C → eff sys ()).
Context (epoll_ctl : Z → Z → Z → Z → K → syscall () * K).
Context (order : gmap Z FdState → list Z).

(** The interest list of the instance, and what [epoll_ctl] does to it: nothing
    if it fails; a deletion fails only for a descriptor that is not in the list. *)
Context (registered : K → gmap Z Z).
Record epoll_laws : Prop := mkEpollLaws {
  law_add ep n e k k' :
    epoll_ctl ep EPOLL_CTL_ADD n e k = (Returned (), k') → registered k' = <[n := e]> (registered k);
  law_mod ep n e k k' :
    epoll_ctl ep EPOLL_CTL_MOD n e k = (Returned (), k') → registered k' = <[n := e]> (registered k);
  law_del ep n e k r k' : epoll_ctl ep EPOLL_CTL_DEL n e k = (r, k') → registered k' = delete n (registered k);
  law_failed ep op n e k errno k' :
    op ≠ EPOLL_CTL_DEL → epoll_ctl ep op n e k = (Failed errno, k') → registered k' = registered k;
}.
Hypothesis laws : epoll_laws.
Hypothesis order_perm : ∀ m, order m ≡ₚ (map_to_list m).*1.

(** Interest functions do not depend on the members of this loop. *)
Hypothesis interest_extra : ∀ c x s, call_interest c (with_extra x s) = call_interest c s.

Definition watched s (n : Z) : option Z := registered (kernel (extra s)) !! n.

(** What the rules of a descriptor number want. *)
Definition has_number s (n : Z) (r : FDRule C) : bool :=
  match descriptors s !! fd r with Some w => bool_decide (fd_ w = n) | None => false end.
Definition wants s (n : Z) (d : Direction) (r : FDRule C) : bool :=
  negb (cancel_requested (basic r)) && has_number s n r && bool_decide (direction r = d) &&
  match call_interest (interest (basic r)) s with Ok b => b | Err _ => false end.
Definition wanted s (n : Z) (rs : list (FDRule C)) : Z :=
  Z.lor (if existsb (wants s n In) rs then EPOLLIN else 0) (if existsb (wants s n Out) rs then EPOLLOUT else 0).

Lemma has_number_true s n r : has_number s n r = true ↔ on_number s n r.
Proof.
  unfold has_number, on_number. destruct (descriptors s !! fd r) as [w|].
  - rewrite bool_decide_eq_true. naive_solver.
  - naive_solver.
Qed.

(** The members of the loop and the kernel agree: what is watched is what the
    state says, every rule's descriptor has a state, and a state that claims a
    registration has one, unless the descriptor was closed.  Descriptors that
    are open have numbers of their own. *)
Record reg_ok s : Prop := mkRegOk {
  ro_watched n m : watched s n = Some m → _fd_states (extra s) !! n = Some (mkFdState m true);
  ro_states r w : r ∈ _fd_rules s → descriptors s !! fd r = Some w → is_Some (_fd_states (extra s) !! fd_ w);
  ro_open r w st : r ∈ _fd_rules s → descriptors s !! fd r = Some w → closed_ w = false →
    _fd_states (extra s) !! fd_ w = Some st → in_epoll st = true → is_Some (watched s (fd_ w));
  ro_numbers f g w w' : descriptors s !! f = Some w → descriptors s !! g = Some w' →
    closed_ w = false → closed_ w' = false → fd_ w = fd_ w' → f = g;
}.

(** The kernel watches exactly what the rules want. *)
Definition in_step s : Prop :=
  (∀ n m, watched s n = Some m → m = wanted s n (_fd_rules s) ∧ ∃ r, r ∈ _fd_rules s ∧ on_number s n r) ∧
  (∀ r w, r ∈ _fd_rules s → descriptors s !! fd r = Some w → closed_ w = false →
    watched s (fd_ w) = Some (wanted s (fd_ w) (_fd_rules s))).

Lemma any_rule_spec rs n s :
  match EpollEventLoop.any_rule rs n s with
  | (Ok b, s') => s' = s ∧ b = existsb (has_number s n) rs
  | (Err _, s') => s' = s
  end.
Proof.
  induction rs as [|r rs IH]; [done|]. cbn [EpollEventLoop.any_rule existsb]. unfold has_number at 1, wrapper.
  rewrite bind_eq. cbv beta. destruct (descriptors s !! fd r) as [w|]; [|done].
  unfold FileDescriptor.fd_num. by case_bool_decide.
Qed.

Lemma wanted_cons s n r rs :
  wanted s n (r :: rs) =
  Z.lor (if wants s n (direction r) r then direction_mask (direction r) else 0) (wanted s n rs).
Proof.
  unfold wanted. cbn [existsb].
  assert (∀ d, wants s n d r = (bool_decide (direction r = d) && wants s n (direction r) r)) as H.
  { intros d. unfold wants. rewrite (bool_decide_true (direction r = direction r)) by done.
    destruct (bool_decide (direction r = d)); by rewrite ?andb_true_r, ?andb_false_r. }
  rewrite (H In), (H Out).
  destruct (direction r), (wants s n _ r), (existsb (wants s n In) rs), (existsb (wants s n Out) rs); done.
Qed.

Lemma desired_from_spec rs n mask s d s' :
  EpollEventLoop.desired_from call_interest rs n mask s = (Ok d, s') → s' = s ∧ d = Z.lor mask (wanted s n rs).
Proof.
  revert mask. induction rs as [|r rs IH]; intros mask; cbn [EpollEventLoop.desired_from].
  { intros [= <- <-]. split; [done|]. by rewrite Z.lor_0_r. }
  rewrite wanted_cons. unfold wants, has_number. rewrite bool_decide_true by done.
  destruct (cancel_requested (basic r)); cbn [negb andb]; [by apply IH|].
  unfold wrapper. rewrite bind_eq. cbv beta. destruct (descriptors s !! fd r) as [w|]; [|done].
  unfold FileDescriptor.fd_num. destruct (decide (fd_ w = n)) as [Hw|Hw].
  - rewrite bool_decide_false, bool_decide_true by auto. cbn [andb]. unfold interested. rewrite bind_eq. cbv beta.
    destruct (call_interest _ s) as [[]|e]; cbn [negb]; [|by apply IH|done].
    intros [-> ->]%IH. by rewrite Z.lor_assoc.
  - rewrite bool_decide_true, bool_decide_false by done. apply IH.
Qed.

Lemma wants_extra x s n d : ∀ r, wants (with_extra x s) n d r = wants s n d r.
Proof. intros r. unfold wants. by rewrite interest_extra. Qed.
Lemma wanted_extra x s n rs : wanted (with_extra x s) n rs = wanted s n rs.
Proof.
  unfold wanted. assert (∀ d, existsb (wants (with_extra x s) n d) rs = existsb (wants s n d) rs) as H.
  { intros d. induction rs as [|r rs IH]; [done|]. cbn. by rewrite wants_extra, IH. }
  by rewrite !H.
Qed.

(** What one round of the walk over the states comes to. *)
Definition refreshed s (n : Z) : Prop :=
  match _fd_states (extra s) !! n with
  | None => ∀ r, r ∈ _fd_rules s → ¬ on_number s n r
  | Some st => (∃ r, r ∈ _fd_rules s ∧ on_number s n r) ∧ st = mkFdState (wanted s n (_fd_rules s)) true
  end.

Abbreviation sync := (EpollEventLoop.sync_fd_registration (C:=C) (W:=W) epoll_ctl).
Abbreviation drop := (EpollEventLoop.drop_state (C:=C) (W:=W) epoll_ctl).

(** A change of the state and registration of one number. *)
Lemma reg_ok_change s n st k :
  reg_ok s → registered k = <[n := registered_events st]> (registered (kernel (extra s))) → in_epoll st = true →
  reg_ok (with_extra (mkEpollState (_epoll_fd (extra s)) (<[n := st]> (_fd_states (extra s))) k) s).
Proof.
  intros [Hw Hs Ho Hd] Hk Hin. split; unfold watched; cbn; [| | |exact Hd]; clear Hd.
  - intros n' m. rewrite Hk. destruct (decide (n = n')) as [<-|Hne].
    + rewrite !lookup_insert, !decide_True by done. intros [= <-]. destruct st; cbn in *. by subst.
    + rewrite !lookup_insert_ne by done. apply Hw.
  - intros r w Hr Hd. destruct (decide (n = fd_ w)) as [->|Hne].
    + rewrite lookup_insert, decide_True by done. by eexists.
    + rewrite lookup_insert_ne by done. by eapply Hs.
  - intros r w st' Hr Hd Hc. rewrite Hk. destruct (decide (n = fd_ w)) as [->|Hne].
    + rewrite lookup_insert, decide_True by done. intros _ _. rewrite lookup_insert, decide_True by done. by eexists.
    + rewrite !lookup_insert_ne by done. by eapply Ho.
Qed.

Lemma drop_spec s n :
  reg_ok s → ∃ x, drop n s = (Ok (), with_extra x s) ∧
    _fd_states x = delete n (_fd_states (extra s)) ∧ registered (kernel x) = delete n (registered (kernel (extra s))).
Proof.
  intros [Hw Hs Ho _]. unfold EpollEventLoop.drop_state. eff_run.
  destruct (_fd_states (extra s) !! n) as [st|] eqn:Hst.
  - destruct (in_epoll st) eqn:Hin.
    + unfold EpollEventLoop.ctl. eff_run.
      destruct (epoll_ctl _ EPOLL_CTL_DEL n 0 _) as [r k] eqn:Hctl. eexists. split; [done|]. split; [done|].
      by apply (law_del laws) in Hctl.
    + eff_run. eexists. split; [done|]. split; [done|]. cbn. symmetry. apply delete_id.
      destruct (registered _ !! n) as [m|] eqn:Hm; [|done]. apply Hw in Hm. rewrite Hst in Hm. by injection Hm as ->.
  - exists (extra s). split; [by destruct s|]. rewrite !delete_id; [done| |done].
    destruct (registered _ !! n) as [m|] eqn:Hm; [|done]. apply Hw in Hm. by rewrite Hst in Hm.
Qed.

Lemma reg_ok_drop s n x :
  reg_ok s → (∀ r, r ∈ _fd_rules s → ¬ on_number s n r) →
  _fd_states x = delete n (_fd_states (extra s)) → registered (kernel x) = delete n (registered (kernel (extra s))) →
  reg_ok (with_extra x s).
Proof.
  intros [Hw Hs Ho Hd] Hn Hx Hk. split; unfold watched; cbn; rewrite ?Hx, ?Hk; [| | |exact Hd]; clear Hd.
  - intros n' m. destruct (decide (n = n')) as [<-|Hne]; [by rewrite lookup_delete_eq|].
    rewrite !lookup_delete_ne by done. apply Hw.
  - intros r w Hr Hd. rewrite lookup_delete_ne; [by eapply Hs|]. intros ->. apply (Hn r Hr). by exists w.
  - intros r w st Hr Hd Hc. assert (n ≠ fd_ w) as Hne by (intros ->; apply (Hn r Hr); by exists w).
    rewrite !lookup_delete_ne by done. by eapply Ho.
Qed.

Lemma sync_spec s n st s' :
  reg_ok s → _fd_states (extra s) !! n = Some st → (∃ r, r ∈ _fd_rules s ∧ on_number s n r) →
  sync n (wanted s n (_fd_rules s)) s = (Ok (), s') →
  ∃ x, s' = with_extra x s ∧ reg_ok s' ∧ refreshed s' n ∧
    ∀ n', n' ≠ n → _fd_states x !! n' = _fd_states (extra s) !! n'.
Proof.
  intros Hs Hst Hr. set (d := wanted s n (_fd_rules s)).
  assert (∀ k s1, registered k = <[n := d]> (registered (kernel (extra s))) →
    s1 = with_extra (mkEpollState (_epoll_fd (extra s)) (<[n := mkFdState d true]> (_fd_states (extra s))) k) s →
    ∃ x, s1 = with_extra x s ∧ reg_ok s1 ∧ refreshed s1 n ∧
      ∀ n', n' ≠ n → _fd_states x !! n' = _fd_states (extra s) !! n') as Hset.
  { intros k s1 Hk ->. eexists. split; [done|]. split; [by apply reg_ok_change|]. split.
    - unfold refreshed. cbn. rewrite lookup_insert, decide_True by done. split; [done|]. by rewrite wanted_extra.
    - intros n' Hn. cbn. by rewrite lookup_insert_ne. }
  unfold EpollEventLoop.sync_fd_registration. eff_run. rewrite Hst. destruct (in_epoll st) eqn:Hin; cbn [negb].
  - case_bool_decide as Hd.
    + intros [= <-]. exists (extra s). assert (with_extra (extra s) s = s) as -> by by destruct s.
      split; [done|]. split; [done|]. split; [|done]. unfold refreshed. rewrite Hst. split; [done|].
      destruct st; cbn in *. by subst.
    + unfold EpollEventLoop.ctl. eff_run. destruct (epoll_ctl _ EPOLL_CTL_MOD n d _) as [[[]|e] k] eqn:Hctl; [|done].
      apply (law_mod laws) in Hctl. intros [= <-]. by apply (Hset k).
  - unfold EpollEventLoop.ctl. eff_run. destruct (epoll_ctl _ EPOLL_CTL_ADD n d _) as [[[]|e] k] eqn:Hctl; [|done].
    apply (law_add laws) in Hctl. intros [= <-]. by apply (Hset k).
Qed.

(** One round. *)
Lemma refresh_round s n st s' :
  reg_ok s → _fd_states (extra s) !! n = Some st →
  EpollEventLoop.refresh_one call_interest epoll_ctl n s = (Ok (), s') →
  ∃ x, s' = with_extra x s ∧ reg_ok s' ∧ refreshed s' n ∧
    ∀ n', n' ≠ n → _fd_states x !! n' = _fd_states (extra s) !! n'.
Proof.
  intros Hs Hst. unfold EpollEventLoop.refresh_one. eff_run. pose proof (any_rule_spec (_fd_rules s) n s) as Hany.
  destruct (EpollEventLoop.any_rule _ n s) as [[b|e] s0]; [|done]. destruct Hany as [-> ->].
  destruct (existsb _ _) eqn:Hex; cbn [negb].
  - apply existsb_exists in Hex as (r&Hr&Hn). apply list_elem_of_In in Hr. apply has_number_true in Hn.
    unfold EpollEventLoop.desired_events_for_fd. eff_run.
    destruct (EpollEventLoop.desired_from _ _ _ _ s) as [[d|e] s1] eqn:Hd; [|done].
    apply desired_from_spec in Hd as [-> ->]. rewrite Z.lor_0_l. apply (sync_spec _ _ st); eauto.
  - assert (∀ r, r ∈ _fd_rules s → ¬ on_number s n r) as Hno.
    { intros r Hr Hn%has_number_true. apply list_elem_of_In in Hr.
      assert (existsb (has_number s n) (_fd_rules s) = true) by (apply existsb_exists; by exists r). congruence. }
    destruct (drop_spec s n Hs) as (x&->&Hx&Hk). intros [= <-]. exists x. split; [done|].
    split; [by apply (reg_ok_drop s n)|]. split.
    + unfold refreshed. cbn. rewrite Hx, lookup_delete_eq. done.
    + intros n' Hn'. by rewrite Hx, lookup_delete_ne.
Qed.

Lemma refresh_spec keys s s' :
  reg_ok s → NoDup keys → (∀ n, n ∈ keys → is_Some (_fd_states (extra s) !! n)) →
  EpollEventLoop.refresh call_interest epoll_ctl keys s = (Ok (), s') →
  ∃ x, s' = with_extra x s ∧ reg_ok s' ∧ (∀ n, n ∈ keys → refreshed s' n) ∧
    ∀ n, n ∉ keys → _fd_states x !! n = _fd_states (extra s) !! n.
Proof.
  revert s. induction keys as [|n keys IH]; intros s Hs Hnd Hdom; cbn [EpollEventLoop.refresh].
  { intros [= <-]. exists (extra s). split; [by destruct s|]. split; [done|]. split; [|done].
    by intros n ?%elem_of_nil. }
  apply NoDup_cons in Hnd as [Hn Hnd]. destruct (Hdom n) as [st Hst]; [by left|].
  rewrite bind_eq.
  destruct (EpollEventLoop.refresh_one _ _ n s) as [[[]|e] s0] eqn:Hround; [|done]. intros Hrun.
  destruct (refresh_round _ _ _ _ Hs Hst Hround) as (x0&->&Hs0&Hr0&Hx0).
  apply IH in Hrun as (x&->&Hs1&Hr1&Hx1); [|done|done|].
  2: { intros n' Hn'. cbn. rewrite Hx0 by congruence. apply Hdom. by right. }
  exists x. split; [done|]. split; [done|]. split.
  - intros n' [->|Hn']%elem_of_cons; [|by apply Hr1].
    unfold refreshed in Hr0 |- *. cbn in Hr0 |- *. rewrite (Hx1 _ Hn). cbn.
    destruct (_fd_states x0 !! n) as [st0|]; [|done]. destruct Hr0 as [? ->]. split; [done|]. by rewrite !wanted_extra.
  - intros n' [Hne Hn']%not_elem_of_cons. rewrite Hx1 by done. cbn. by apply Hx0.
Qed.

Lemma refreshed_in_step s : reg_ok s → (∀ n, refreshed s n) → in_step s.
Proof.
  intros Hs Hr. split.
  - intros n m Hm. specialize (Hr n). unfold refreshed in Hr. rewrite (ro_watched _ Hs _ _ Hm) in Hr.
    destruct Hr as [Hr [= ->]]. done.
  - intros r w Hin Hw Hc. destruct (ro_states _ Hs _ _ Hin Hw) as [st Hst].
    specialize (Hr (fd_ w)). unfold refreshed in Hr. rewrite Hst in Hr. destruct Hr as [_ ->].
    destruct (ro_open _ Hs _ _ _ Hin Hw Hc Hst eq_refl) as [m Hm]. rewrite Hm. f_equal.
    pose proof (ro_watched _ Hs _ _ Hm) as Hst'. rewrite Hst in Hst'. by injection Hst'.
Qed.

(** ** The walk over the rules *)

Hypothesis back_reg : ∀ c s, reg_ok s → reg_ok (call_back c s).2.

Lemma reg_ok_log c s : reg_ok s → reg_ok (log_call c s).
Proof. by intros []. Qed.
Lemma reg_ok_delete i s : reg_ok s → reg_ok (with_fd_rules (delete i (_fd_rules s)) s).
Proof.
  intros [Hw Hs Ho Hd]. assert (∀ r, r ∈ delete i (_fd_rules s) → r ∈ _fd_rules s) as Hsub.
  { intros r Hr. destruct (delete_perm (_fd_rules s) i) as [k Hk]. rewrite <- Hk. apply elem_of_app. by right. }
  split; [exact Hw| | |exact Hd]; cbn.
  - intros r w Hr. by apply Hs, Hsub.
  - intros r w st Hr. by apply Ho, Hsub.
Qed.

(** [m] leaves the loop and the kernel in agreement. *)
Definition keeps_reg {A} (m : eff sys A) : Prop := keeps (λ s s', reg_ok s → reg_ok s') m.
#[local] Instance reg_preorder : PreOrder (λ s s' : sys, reg_ok s → reg_ok s').
Proof. split; [by intros s Hs|]. intros s1 s2 s3 H1 H2 H. auto. Qed.

Lemma keeps_reg_invoke c f : keeps_reg (invoke call_back c f).
Proof. intros s Hs. apply (back_reg f (log_call c s)). by apply reg_ok_log. Qed.
Lemma keeps_reg_retire i r : keeps_reg (retire call_back i r).
Proof.
  apply keeps_bind; [apply _|apply keeps_reg_invoke|]. intros _ s Hs. by apply reg_ok_delete.
Qed.
Lemma keeps_reg_wrapper f : keeps_reg (wrapper f).
Proof. intros s. unfold wrapper. by destruct (_ !! f). Qed.

Lemma keeps_reg_sweep fuel i : keeps_reg (EpollEventLoop.sweep call_back fuel i).
Proof.
  revert i. induction fuel as [|fuel IH]; intros i; cbn [EpollEventLoop.sweep]; [by apply keeps_throw; apply _|].
  apply keeps_bind; [apply _|by apply keeps_gets; apply _|]. intros rs. destruct (rs !! i) as [r|]; [|by apply keeps_ret; apply _].
  assert (keeps_reg (retire call_back i r ;; EpollEventLoop.sweep call_back fuel i)) as Hretire.
  { apply keeps_bind; [apply _|apply keeps_reg_retire|intros _; apply IH]. }
  destruct (cancel_requested _).
  { apply keeps_bind; [apply _| |intros _; apply IH]. intros s Hs. by apply reg_ok_delete. }
  apply keeps_bind; [apply _|apply keeps_reg_wrapper|]. intros w.
  destruct (_ && _); [exact Hretire|]. destruct (FileDescriptor.closed w); [exact Hretire|apply IH].
Qed.

(** When [epoll_wait] is reached. *)
Lemma prepare_in_step fuel s s' :
  reg_ok s → EpollEventLoop.prepare call_interest call_back epoll_ctl order fuel s = (Ok (), s') →
  reg_ok s' ∧ (∀ n, refreshed s' n).
Proof.
  intros Hs. unfold EpollEventLoop.prepare. rewrite bind_eq.
  pose proof (keeps_reg_sweep fuel 0 s Hs) as Hs1.
  destruct (EpollEventLoop.sweep call_back fuel 0 s) as [[[]|e] s1]; [|done]. cbn in Hs1. eff_run. intros Hrun.
  assert (∀ n, n ∈ order (_fd_states (extra s1)) ↔ is_Some (_fd_states (extra s1) !! n)) as Hdom.
  { intros n. rewrite order_perm, list_elem_of_fmap. split.
    - intros ([n' st]&->&Hin%elem_of_map_to_list). by exists st.
    - intros [st Hst]. exists (n, st). split; [done|]. by apply elem_of_map_to_list. }
  apply refresh_spec in Hrun as (x&->&Hs'&Hr&Hx); [|done| |].
  - split; [done|]. intros n. destruct (decide (n ∈ order (_fd_states (extra s1)))) as [Hin|Hin]; [by apply Hr|].
    unfold refreshed. cbn. rewrite Hx by done. destruct (_fd_states (extra s1) !! n) as [st|] eqn:Hst.
    + destruct Hin. apply Hdom. by exists st.
    + intros r Hin' (w&Hw&<-). destruct (ro_states _ Hs' _ _ Hin' Hw) as [st Hst']. cbn in Hst'.
      rewrite Hx, Hst in Hst'; done.
  - rewrite order_perm. apply NoDup_fst_map_to_list.
  - intros n. by apply Hdom.
Qed.

Lemma wants_true s n d r :
  wants s n d r = true ↔
  cancel_requested (basic r) = false ∧ on_number s n r ∧ direction r = d ∧ call_interest (interest (basic r)) s = Ok true.
Proof.
  unfold wants. rewrite !andb_true_iff, negb_true_iff, has_number_true, bool_decide_eq_true.
  destruct (call_interest _ s) as [[]|e]; naive_solver.
Qed.

(** Nothing to poll: no rule is interested. *)
Definition anyone_interested s : Prop :=
  ∃ r w, r ∈ _fd_rules s ∧ descriptors s !! fd r = Some w ∧ cancel_requested (basic r) = false ∧
    call_interest (interest (basic r)) s = Ok true.

Lemma wanted_nonzero s n :
  wanted s n (_fd_rules s) ≠ 0 ↔
  ∃ r, r ∈ _fd_rules s ∧ cancel_requested (basic r) = false ∧ on_number s n r ∧
    call_interest (interest (basic r)) s = Ok true.
Proof.
  assert (wanted s n (_fd_rules s) ≠ 0 ↔ ∃ d, existsb (wants s n d) (_fd_rules s) = true) as ->.
  { unfold wanted. split.
    - intros H. destruct (existsb (wants s n In) _) eqn:HI; [by exists In|].
      destruct (existsb (wants s n Out) _) eqn:HO; [by exists Out|done].
    - intros [[] ->]; [|destruct (existsb _ _)]; [|done|done]. by destruct (existsb _ _). }
  setoid_rewrite existsb_exists. setoid_rewrite wants_true. split.
  - intros (d&r&Hr%list_elem_of_In&?&?&?&?). by exists r.
  - intros (r&Hr%list_elem_of_In&?&?&?). by exists (direction r), r.
Qed.

Lemma something_to_poll_wanted s :
  reg_ok s → (∀ n, refreshed s n) →
  EpollEventLoop.something_to_poll (_fd_states (extra s)) = true ↔ anyone_interested s.
Proof.
  intros Hs Hr. unfold EpollEventLoop.something_to_poll. rewrite existsb_exists. split.
  - intros ([n st]&Hin&Hne). apply list_elem_of_In, elem_of_map_to_list in Hin.
    rewrite bool_decide_eq_true in Hne. specialize (Hr n). unfold refreshed in Hr. rewrite Hin in Hr.
    destruct Hr as [_ ->]. apply wanted_nonzero in Hne as (r&Hin'&Hc&(w&Hw&_)&Hi). by exists r, w.
  - intros (r&w&Hin&Hw&Hc&Hi). destruct (ro_states _ Hs _ _ Hin Hw) as [st Hst].
    specialize (Hr (fd_ w)). unfold refreshed in Hr. rewrite Hst in Hr. destruct Hr as [_ ->].
    eexists (fd_ w, _). rewrite <- list_elem_of_In, elem_of_map_to_list. split; [exact Hst|].
    rewrite bool_decide_eq_true. apply wanted_nonzero. exists r. split_and!; try done. by exists w.
Qed.

End registrations.

(** * Totality *)

(** What the epoll calls may make the loop throw. *)
Definition epoll_allowed (e : exn) : Prop :=
  busy e ∨ e = unix_error "epoll_ctl(ADD)" ∨ e = unix_error "epoll_ctl(MOD)" ∨ e = unix_error "epoll_wait".

Section total.
Context {C K W : Type}.
Abbreviation sys := (state C (EpollState K) W).
Implicit Types s : sys.
Context (call_interest : C → sys → result bool) (call_back : C → eff sys ()) (adds_none : C → Prop).
Hypothesis Hprogram : program_ok call_interest call_back adds_none.
Context (epoll_ctl : Z → Z → Z → Z → K → syscall () * K).
Context (epoll_wait : Z → Z → Z → K → syscall (list (Z * Z))).
Context (getsockopt : Z → syscall (Z * Z)).
Context (order : gmap Z FdState → list Z).
Hypothesis getsockopt_ok : ∀ n, getsockopt n = Failed ENOTSOCK ∨ ∃ e, getsockopt n = Returned (e, 4).

Abbreviation fine := (fine adds_none epoll_allowed).
Abbreviation wf := (rules_wf adds_none).
Lemma allowed_busy e : busy e → epoll_allowed e.
Proof. by left. Qed.

Lemma wf_extra x s : wf s → wf (with_extra x s).
Proof. by intros []. Qed.

(** The rules left are well-formed while lists of them are gone through. *)
Definition rules_from (rs : list (FDRule C)) s : Prop := ∀ r, r ∈ rs → r ∈ _fd_rules s.

Lemma rules_from_cons r rs s : rules_from (r :: rs) s → r ∈ _fd_rules s ∧ rules_from rs s.
Proof. intros H. split; [apply H; by left|]. intros r' Hr'. apply H. by right. Qed.

Lemma fine_rule_wrapper r s (P : FDWrapper → sys → Prop) :
  wf s → r ∈ _fd_rules s → (∀ w, descriptors s !! fd r = Some w → P w s) → fine (wrapper (fd r)) s P.
Proof.
  intros Hs [i Hi]%list_elem_of_lookup HP. destruct (wf_descriptor _ _ _ _ Hs Hi) as [w Hw].
  unfold EventRules.fine, post, wrapper. rewrite Hw. split; [done|by apply HP].
Qed.

Lemma fine_any_rule rs n s (P : bool → sys → Prop) :
  wf s → rules_from rs s → (∀ b, P b s) → fine (EpollEventLoop.any_rule rs n) s P.
Proof.
  intros Hs Hrs HP. induction rs as [|r rs IH]; cbn [EpollEventLoop.any_rule]; [by apply fine_ret|].
  apply rules_from_cons in Hrs as [Hr Hrs]. apply fine_bind, fine_rule_wrapper; [done|done|]. intros w _ _.
  case_bool_decide; [by apply fine_ret|by apply IH].
Qed.

Lemma fine_desired_from rs n mask s (P : Z → sys → Prop) :
  wf s → rules_from rs s → (∀ d, P d s) → fine (EpollEventLoop.desired_from call_interest rs n mask) s P.
Proof.
  intros Hs Hrs HP. revert mask. induction rs as [|r rs IH]; intros mask; cbn [EpollEventLoop.desired_from].
  { by apply fine_ret. }
  apply rules_from_cons in Hrs as [Hr Hrs]. destruct (cancel_requested _); [by apply IH|].
  apply fine_bind, fine_rule_wrapper; [done|done|]. intros w _ _. case_bool_decide; [by apply IH|].
  apply fine_bind, (fine_interested _ _ _ Hprogram); [done|]. intros [] _; by apply IH.
Qed.

Lemma fine_ctl op n e s (P : syscall () → sys → Prop) :
  wf s → (∀ r x, P r (with_extra x s)) → fine (EpollEventLoop.ctl epoll_ctl op n e) s P.
Proof.
  intros Hs HP. unfold EventRules.fine, post, EpollEventLoop.ctl. destruct (epoll_ctl _ _ _ _ _) as [r k].
  split; [by apply wf_extra|apply HP].
Qed.

Lemma fine_throw {A} e s (P : A → sys → Prop) : epoll_allowed e → fine (mthrow e) s P.
Proof. done. Qed.

Lemma fine_sync n d s (P : () → sys → Prop) :
  wf s → (∀ x, P () (with_extra x s)) → fine (EpollEventLoop.sync_fd_registration epoll_ctl n d) s P.
Proof.
  intros Hs HP. assert (P () s) as HPs.
  { specialize (HP (extra s)). by destruct s. }
  unfold EpollEventLoop.sync_fd_registration. apply fine_bind, fine_gets; [done|]. intros _.
  destruct (_ !! n) as [st|]; [|by apply fine_ret].
  destruct (in_epoll st); cbn [negb]; [case_bool_decide; [by apply fine_ret|]|];
    (apply fine_bind, fine_ctl; [done|]); intros [] x Hx;
    try (split; [by apply wf_extra|apply HP]); apply fine_throw; unfold epoll_allowed; auto.
Qed.

Lemma fine_drop_state n s (P : () → sys → Prop) :
  wf s → (∀ x, P () (with_extra x s)) → fine (EpollEventLoop.drop_state epoll_ctl n) s P.
Proof.
  intros Hs HP. assert (P () s) as HPs.
  { specialize (HP (extra s)). by destruct s. }
  unfold EpollEventLoop.drop_state. apply fine_bind, fine_gets; [done|]. intros _.
  destruct (_ !! n) as [st|]; [|by apply fine_ret]. apply fine_bind. destruct (in_epoll st).
  - apply fine_bind, fine_ctl; [done|]. intros r x Hx. apply fine_ret; [done|]. intros _.
    split; [by apply wf_extra|apply HP].
  - apply fine_ret; [done|]. intros _. split; [by apply wf_extra|apply HP].
Qed.

Lemma fine_refresh keys s (P : () → sys → Prop) :
  wf s → (∀ x, P () (with_extra x s)) → fine (EpollEventLoop.refresh call_interest epoll_ctl keys) s P.
Proof.
  intros Hs HP. revert s Hs HP. induction keys as [|n keys IH]; intros s Hs HP; cbn [EpollEventLoop.refresh].
  { apply fine_ret; [done|]. specialize (HP (extra s)). by destruct s. }
  apply fine_bind, fine_bind, fine_gets; [done|]. intros _.
  apply fine_bind, fine_any_rule; [done|by intros r|]. intros any _.
  destruct any; cbn [negb].
  - apply fine_bind, fine_bind, fine_gets; [done|]. intros _.
    apply fine_desired_from; [done|by intros r|]. intros d _. apply fine_sync; [done|]. intros x Hx. by apply IH.
  - apply fine_drop_state; [done|]. intros x Hx. by apply IH.
Qed.

Lemma fine_sweep fuel i s :
  wf s → (length (_fd_rules s) - i < fuel)%nat →
  fine (EpollEventLoop.sweep call_back fuel i) s (λ _ s', length (_fd_rules s') < fuel + i)%nat.
Proof.
  revert i s. induction fuel as [|fuel IH]; intros i s Hs Hf; [lia|].
  cbn [EpollEventLoop.sweep]. apply fine_bind, fine_gets; [done|]. intros _.
  destruct (_fd_rules s !! i) as [r|] eqn:Hr.
  2: { apply fine_ret; [done|]. lia. }
  pose proof (lookup_lt_Some _ _ _ Hr) as Hlt.
  assert (fine (retire call_back i r ;; EpollEventLoop.sweep call_back fuel i) s
    (λ _ s', length (_fd_rules s') < S fuel + i)%nat) as Hretire.
  { apply fine_bind, (fine_retire _ _ _ Hprogram); [done|by eapply wf_tidy|]. intros s' Hl' Hs'.
    eapply fine_mono; [apply IH; [done|lia]|]. intros [] s''. lia. }
  destruct (cancel_requested (basic r)).
  { apply fine_bind, fine_erase; [done|]. intros Hs'.
    eapply fine_mono; [apply IH; [done|]|intros [] s''; lia].
    cbn. rewrite delete_take_drop, length_app, length_take, length_drop. lia. }
  apply fine_bind, fine_wrapper; [done|by eapply wf_descriptor|]. intros w _.
  destruct (_ && _); [exact Hretire|]. destruct (FileDescriptor.closed w); [exact Hretire|].
  eapply fine_mono; [apply IH; [done|lia]|intros [] s''; lia].
Qed.

(** No rule among the first [i] is on the descriptor. *)
Definition clear_below s (n : Z) (i : nat) : Prop :=
  ∀ j k, (j < i)%nat → fd_keys s !! j = Some k → ¬ on_number s n k.

Lemma clear_below_step s s' n i :
  wf s → clear_below s n i → numbers s s' → take i (fd_keys s') = take i (fd_keys s) → clear_below s' n i.
Proof.
  intros Hs Hc Hnum Ht j k Hj Hk (w'&Hw'&<-).
  assert (fd_keys s !! j = Some k) as Hk0.
  { rewrite <- (lookup_take_lt _ i) in Hk by done. rewrite Ht in Hk. by rewrite lookup_take_lt in Hk. }
  apply (Hc j k Hj Hk0).
  unfold fd_keys in Hk0. rewrite list_lookup_fmap in Hk0. destruct (_fd_rules s !! j) as [r|] eqn:Hr; [|done].
  injection Hk0 as <-. destruct (wf_descriptor _ _ _ _ Hs Hr) as [w Hw]. exists w. split; [exact Hw|].
  apply Hnum in Hw as (w''&Hw''&Hfd). cbn in Hw'. congruence.
Qed.

Lemma fine_invoke_keys c f s (P : () → sys → Prop) :
  wf s → adds_none f → (∀ s', fd_keys s' = fd_keys s → numbers s s' → P () s') →
  fine (invoke call_back c f) s P.
Proof.
  intros Hs Hf HP. apply (fine_invoke _ _ _ Hprogram); [done|]. intros s' Hg _ Hl. apply HP.
  - by apply (grows_none (log_call c s)); [done|apply Hl].
  - apply (gr_numbers _ _ Hg).
Qed.

Lemma fd_keys_length s : length (fd_keys s) = length (_fd_rules s).
Proof. apply length_fmap. Qed.

Lemma fine_drop_rules fuel i n s :
  wf s → (length (_fd_rules s) - i < fuel)%nat → (i ≤ length (_fd_rules s))%nat → clear_below s n i →
  fine (EpollEventLoop.drop_rules call_back fuel i n) s (λ _ s',
    (∀ r, r ∈ _fd_rules s' → ¬ on_number s' n r) ∧ (length (_fd_rules s') ≤ length (_fd_rules s))%nat).
Proof.
  revert i s. induction fuel as [|fuel IH]; intros i s Hs Hf Hi Hc; [lia|].
  cbn [EpollEventLoop.drop_rules]. apply fine_bind, fine_gets; [done|]. intros _.
  destruct (_fd_rules s !! i) as [r|] eqn:Hr.
  2: { apply fine_ret; [done|]. split; [|done]. intros r [j Hj]%list_elem_of_lookup Hon.
    apply (Hc j (key r)); [|by apply keys_lookup|exact Hon]. apply lookup_lt_Some in Hj. apply lookup_ge_None in Hr. lia. }
  pose proof (lookup_lt_Some _ _ _ Hr) as Hlt.
  apply fine_bind, fine_rule_wrapper; [done|by eapply list_elem_of_lookup_2|]. intros w Hw _.
  destruct (wf_tidy _ _ _ _ Hs Hr) as [Hcancel Herror].
  destruct (decide (FileDescriptor.fd_num w = n)) as [Hn|Hn].
  - rewrite bool_decide_true by done.
    apply fine_bind, fine_invoke_keys; [done|done|]. intros s1 Hk1 Hnum1 Hs1.
    apply fine_bind, (fine_retire_keys _ _ _ Hprogram); [done|done|]. intros s2 Hk2 Hnum2 Hs2.
    assert (length (_fd_rules s2) = length (_fd_rules s) - 1)%nat as Hl2.
    { rewrite <- !fd_keys_length, Hk2, Hk1. rewrite delete_take_drop, length_app, length_take, length_drop, fd_keys_length. lia. }
    eapply fine_mono; [apply IH; [done|lia|lia|]|].
    + apply (clear_below_step s); [done|done|by transitivity s1|]. by rewrite Hk2, take_delete, Hk1.
    + intros [] s' [H Hl]. split; [done|lia].
  - rewrite bool_decide_false by done. apply IH; [done|lia|lia|].
    intros j k Hj Hk. destruct (decide (j = i)) as [->|Hne]; [|apply (Hc j); [lia|done]].
    rewrite (keys_lookup _ _ _ Hr) in Hk. injection Hk as <-. intros (w'&Hw'&Hn'). cbn in Hw'.
    rewrite Hw in Hw'. injection Hw' as <-. by apply Hn.
Qed.

Lemma fine_category_of rs n s (P : string → sys → Prop) :
  wf s → rules_from rs s → (∀ x, P x s) → fine (EpollEventLoop.category_of rs n) s P.
Proof.
  intros Hs Hrs HP. induction rs as [|r rs IH]; cbn [EpollEventLoop.category_of]; [by apply fine_ret|].
  apply rules_from_cons in Hrs as [Hr Hrs]. apply fine_bind, fine_rule_wrapper; [done|done|]. intros w _ _.
  case_bool_decide; [|by apply IH]. apply fine_bind, fine_gets; [done|]. intros _.
  pose proof (wf_fd_categories _ _ Hs) as Hc. rewrite Forall_forall in Hc.
  destruct (lookup_lt_is_Some_2 _ _ (Hc _ Hr)) as [x Hx]. rewrite Hx. by apply fine_ret.
Qed.

Lemma epoll_fine_report_error n s (P : () → sys → Prop) :
  wf s → P () s → fine (EpollEventLoop.report_error getsockopt n) s P.
Proof.
  intros Hs HP. unfold EpollEventLoop.report_error. apply fine_bind, fine_gets; [done|]. intros _.
  apply fine_bind, fine_category_of; [done|by intros r|]. intros _ _.
  destruct (getsockopt_ok n) as [->|[e ->]].
  - rewrite bool_decide_true by done. by apply fine_ret.
  - rewrite (bool_decide_false (4 ≠ 4)) by auto. by apply fine_ret.
Qed.

(** The rules of a descriptor in error go, and nothing else. *)
Lemma fine_drop_all fuel n s :
  wf s → (length (_fd_rules s) < fuel)%nat →
  fine (EpollEventLoop.drop_rules call_back fuel 0 n) s (λ _ s',
    (∀ r, r ∈ _fd_rules s' → ¬ on_number s' n r) ∧ (length (_fd_rules s') ≤ length (_fd_rules s))%nat).
Proof. intros Hs Hf. apply fine_drop_rules; [done|lia|lia|]. intros j k Hj. lia. Qed.

Lemma fine_handle_errors fuel events callback s :
  wf s → (length (_fd_rules s) < fuel)%nat →
  fine (EpollEventLoop.handle_errors call_back epoll_ctl getsockopt fuel events callback) s
    (λ _ s', length (_fd_rules s') < fuel)%nat.
Proof.
  revert callback s. induction events as [|[n revents] events IH]; intros callback s Hs Hf;
    cbn [EpollEventLoop.handle_errors]; [by apply fine_ret|].
  destruct (has_bits revents EPOLLERR); [|by apply IH].
  apply fine_bind, epoll_fine_report_error; [done|]. intros _.
  apply fine_bind. eapply fine_mono; [by apply fine_drop_all|]. intros [] s1 [_ Hl] Hs1.
  apply fine_bind, fine_drop_state; [done|]. intros x Hx. apply IH; [done|]. cbn. lia.
Qed.

Lemma fine_find_rule fuel i n revents s :
  wf s → (length (_fd_rules s) - i < fuel)%nat →
  fine (EpollEventLoop.find_rule call_interest call_back fuel i n revents) s (λ _ _, True).
Proof.
  revert i s. induction fuel as [|fuel IH]; intros i s Hs Hf; [lia|].
  cbn [EpollEventLoop.find_rule]. apply fine_bind, fine_gets; [done|]. intros _.
  destruct (_fd_rules s !! i) as [r|] eqn:Hr; [|by apply fine_ret].
  pose proof (lookup_lt_Some _ _ _ Hr) as Hlt.
  apply fine_bind, fine_wrapper; [done|by eapply wf_descriptor|]. intros w _.
  case_bool_decide; [apply IH; [done|lia]|].
  destruct (_ && _).
  { apply fine_bind, (fine_retire _ _ _ Hprogram); [done|by eapply wf_tidy|]. intros s' Hl' Hs'. apply IH; [done|lia]. }
  apply fine_bind.
  assert (fine (if (bool_decide (direction r = In) && has_bits revents EPOLLIN)
      || (negb (bool_decide (direction r = In)) && has_bits revents EPOLLOUT)
    then interested call_interest (basic r) else mret false) s (λ _ s', s' = s)) as Hint.
  { destruct (_ || _); [|by apply fine_ret]. unfold EventRules.fine, post, interested. cbn.
    pose proof (po_interest _ _ _ Hprogram (interest (basic r)) s) as Hi.
    destruct (call_interest _ s); [by split|by destruct Hi]. }
  eapply fine_mono; [exact Hint|]. intros b s' -> _. destruct b; [|apply IH; [done|lia]].
  by eapply (fine_serve _ _ _ Hprogram _ allowed_busy).
Qed.

Lemma epoll_fine_prepare fuel s :
  wf s → (length (_fd_rules s) < fuel)%nat →
  fine (EpollEventLoop.prepare call_interest call_back epoll_ctl order fuel) s
    (λ _ s', length (_fd_rules s') < fuel)%nat.
Proof.
  intros Hs Hf. apply fine_bind. eapply fine_mono; [apply fine_sweep; [done|lia]|]. intros [] s1 Hl Hs1.
  apply fine_bind, fine_gets; [done|]. intros _. apply fine_refresh; [done|]. intros x. cbn. lia.
Qed.

Lemma fine_serve_non_fd s :
  wf s → fine (EpollEventLoop.serve_non_fd_rules call_interest call_back) s
    (λ res s', res = None → _fd_rules s' = _fd_rules s).
Proof.
  intros Hs. apply fine_bind, fine_gets; [done|]. intros _.
  apply (fine_serve_from _ _ _ Hprogram _ allowed_busy); [done|lia].
Qed.

Lemma epoll_fine_wait fuel timeout_ms s :
  wf s → (length (_fd_rules s) < fuel)%nat →
  fine (EpollEventLoop.wait_next_event call_interest call_back epoll_ctl epoll_wait getsockopt order fuel timeout_ms) s
    (λ _ _, True).
Proof.
  intros Hs Hf. unfold EpollEventLoop.wait_next_event.
  apply fine_bind. eapply fine_mono; [by apply fine_serve_non_fd|].
  intros [res|] s0 H0 Hs0; [by apply fine_ret|]. rewrite <- (H0 eq_refl) in Hf.
  apply fine_bind. eapply fine_mono; [by apply epoll_fine_prepare|]. intros [] s1 Hl Hs1.
  apply fine_bind, fine_gets; [done|]. intros _. case_bool_decide; [by apply fine_ret|].
  apply fine_bind, fine_gets; [done|]. intros _. destruct (negb _); [by apply fine_ret|].
  destruct (epoll_wait _ _ _ _) as [events|errno].
  2: { case_bool_decide; [by apply fine_ret|]. apply fine_throw. unfold epoll_allowed. auto. }
  case_bool_decide; [by apply fine_ret|].
  apply fine_bind. eapply fine_mono; [by apply fine_handle_errors|]. intros [[n revents]|] s2 Hl2 Hs2.
  - apply fine_find_rule; [done|lia].
  - by apply fine_ret.
Qed.
End total.

(** * The kernel kept in step *)

Section in_step.
Context {C K W : Type}.
Abbreviation sys := (state C (EpollState K) W).
Implicit Types s : sys.
Context (call_interest : C → sys → result bool) (call_back : C → eff sys ()).
Hypothesis back_grows : ∀ c, keeps grows (call_back c).
Context (epoll_ctl : Z → Z → Z → Z → K → syscall () * K).
Context (epoll_wait : Z → Z → Z → K → syscall (list (Z * Z))).
Context (getsockopt : Z → syscall (Z * Z)).
Context (order : gmap Z FdState → list Z).
Context (registered : K → gmap Z Z).
Hypothesis laws : epoll_laws epoll_ctl registered.
Hypothesis order_perm : ∀ m, order m ≡ₚ (map_to_list m).*1.
Hypothesis interest_extra : ∀ c x s, call_interest c (with_extra x s) = call_interest c s.
Hypothesis back_reg : ∀ c s, reg_ok registered s → reg_ok registered (call_back c s).2.

Abbreviation reg := (reg_ok registered).
Abbreviation keeps_reg := (keeps_reg registered).
#[local] Instance reg_preorder' : PreOrder (λ s s' : sys, reg s → reg s').
Proof. split; [by intros s Hs|]. intros s1 s2 s3 H1 H2 H. auto. Qed.

Lemma keeps_reg_busy_loop rounds r fired : keeps_reg (busy_loop call_interest call_back rounds r fired).
Proof.
  revert fired. induction rounds as [|rounds IH]; intros fired; cbn [busy_loop];
    (apply keeps_bind; [apply _|by intros s|]); intros []; try by intros s.
  - unfold busy_wait. apply keeps_bind; [apply _|by intros s|]. intros cs s. by destruct (cs !! _).
  - apply keeps_bind; [apply _|by apply keeps_reg_invoke|]. intros _. apply IH.
Qed.

Lemma keeps_reg_serve_from fuel i : keeps_reg (serve_from call_interest call_back fuel i).
Proof.
  revert i. induction fuel as [|fuel IH]; intros i; cbn [serve_from]; [by intros s|].
  apply keeps_bind; [apply _|by intros s|]. intros rs. destruct (rs !! i) as [r|]; [|by intros s].
  destruct (cancel_requested r).
  - apply keeps_bind; [apply _| |intros _; apply IH]. intros s []. by split.
  - apply keeps_bind; [apply _|apply keeps_reg_busy_loop|]. intros []; [by intros s|apply IH].
Qed.

Lemma keeps_reg_serve_non_fd : keeps_reg (EpollEventLoop.serve_non_fd_rules call_interest call_back).
Proof. apply keeps_bind; [apply _|by intros s|]. intros rs. apply keeps_reg_serve_from. Qed.

Lemma keeps_reg_serve r : keeps_reg (serve call_interest call_back r).
Proof.
  assert (keeps_reg (service_count (C:=C) (X:=EpollState K) (W:=W) r)) as Hcount.
  { apply keeps_bind; [apply _|apply keeps_reg_wrapper|by intros w s]. }
  apply keeps_bind; [apply _|exact Hcount|]. intros n.
  apply keeps_bind; [apply _|by apply keeps_reg_invoke|]. intros _.
  apply keeps_bind; [apply _|exact Hcount|]. intros n'.
  apply keeps_bind; [apply _|apply keeps_reg_wrapper|]. intros w. destruct (_ && _); [|by intros s].
  apply keeps_bind; [apply _|by intros s|]. intros []; [|by intros s].
  unfold busy_wait. apply keeps_bind; [apply _|by intros s|]. intros cs s. by destruct (cs !! _).
Qed.

Lemma keeps_reg_drop_rules fuel i n : keeps_reg (EpollEventLoop.drop_rules call_back fuel i n).
Proof.
  revert i. induction fuel as [|fuel IH]; intros i; cbn [EpollEventLoop.drop_rules]; [by intros s|].
  apply keeps_bind; [apply _|by intros s|]. intros rs. destruct (rs !! i) as [r|]; [|by intros s].
  apply keeps_bind; [apply _|apply keeps_reg_wrapper|]. intros w. case_bool_decide; [|apply IH].
  apply keeps_bind; [apply _|by apply keeps_reg_invoke|]. intros _.
  apply keeps_bind; [apply _|by apply keeps_reg_retire|]. intros _. apply IH.
Qed.

Lemma keeps_reg_find_rule fuel i n revents :
  keeps_reg (EpollEventLoop.find_rule call_interest call_back fuel i n revents).
Proof.
  revert i. induction fuel as [|fuel IH]; intros i; cbn [EpollEventLoop.find_rule]; [by intros s|].
  apply keeps_bind; [apply _|by intros s|]. intros rs. destruct (rs !! i) as [r|]; [|by intros s].
  apply keeps_bind; [apply _|apply keeps_reg_wrapper|]. intros w. case_bool_decide; [apply IH|].
  destruct (_ && _).
  { apply keeps_bind; [apply _|by apply keeps_reg_retire|]. intros _. apply IH. }
  apply keeps_bind; [apply _|intros s; by destruct (_ || _)|]. intros []; [apply keeps_reg_serve|apply IH].
Qed.

(** A failed call of [epoll_ctl] changes nothing. *)
Lemma reg_ok_kernel k s : registered k = registered (kernel (extra s)) → reg s → reg (EpollEventLoop.with_kernel k s).
Proof. intros Hk [Hw Hs Ho Hn]. split; unfold watched in *; cbn; rewrite ?Hk; done. Qed.

Lemma reg_same {A} (m : eff sys A) : keeps eq m → keeps_reg m.
Proof. intros Hm s Hs. by rewrite <- (Hm s). Qed.

Lemma keeps_reg_sync n d s st r :
  reg s → _fd_states (extra s) !! n = Some st → r ∈ _fd_rules s → on_number s n r →
  reg (EpollEventLoop.sync_fd_registration epoll_ctl n d s).2.
Proof.
  intros Hs Hst Hr Hon. unfold EpollEventLoop.sync_fd_registration. eff_run. rewrite Hst.
  assert (∀ op k, op ≠ EPOLL_CTL_DEL → ∀ e, epoll_ctl (_epoll_fd (extra s)) op n d (kernel (extra s)) = (Failed e, k) →
    reg (EpollEventLoop.with_kernel k s)) as Hfail.
  { intros op k Hop e Hk. apply reg_ok_kernel; [|done]. by apply (law_failed _ _ laws) in Hk. }
  destruct (in_epoll st); cbn [negb].
  - case_bool_decide; [done|]. unfold EpollEventLoop.ctl. eff_run.
    destruct (epoll_ctl _ EPOLL_CTL_MOD n d _) as [[[]|e] k] eqn:Hctl; cbn [snd]; [|by apply (Hfail EPOLL_CTL_MOD k ltac:(done) e)].
    apply (law_mod _ _ laws) in Hctl. by apply (reg_ok_change registered s n (mkFdState d true) k).
  - unfold EpollEventLoop.ctl. eff_run.
    destruct (epoll_ctl _ EPOLL_CTL_ADD n d _) as [[[]|e] k] eqn:Hctl; cbn [snd]; [|by apply (Hfail EPOLL_CTL_ADD k ltac:(done) e)].
    apply (law_add _ _ laws) in Hctl. by apply (reg_ok_change registered s n (mkFdState d true) k).
Qed.

Lemma silent_category_of rs n : keeps eq (EpollEventLoop.category_of (C:=C) (K:=K) (W:=W) rs n).
Proof.
  induction rs as [|r rs IH]; cbn [EpollEventLoop.category_of]; [by intros s|].
  apply keeps_bind; [apply _|intros s; unfold wrapper; by destruct (_ !! _)|]. intros w. case_bool_decide; [|done].
  apply keeps_bind; [apply _|by intros s|]. intros cs s. by destruct (cs !! _).
Qed.
Lemma silent_report_error n : keeps eq (EpollEventLoop.report_error (C:=C) (K:=K) (W:=W) getsockopt n).
Proof.
  apply keeps_bind; [apply _|by intros s|]. intros rs. apply keeps_bind; [apply _|apply silent_category_of|].
  intros _ s. destruct (getsockopt n) as [[e l]|errno]; by case_bool_decide.
Qed.
Lemma silent_desired_from rs n mask : keeps eq (EpollEventLoop.desired_from (K:=K) call_interest rs n mask).
Proof.
  revert mask. induction rs as [|r rs IH]; intros mask; cbn [EpollEventLoop.desired_from]; [by intros s|].
  destruct (cancel_requested _); [done|].
  apply keeps_bind; [apply _|intros s; unfold wrapper; by destruct (_ !! _)|]. intros w.
  case_bool_decide; [done|]. apply keeps_bind; [apply _|by intros s|]. intros []; apply IH.
Qed.

Lemma keeps_reg_refresh_one n : keeps_reg (EpollEventLoop.refresh_one call_interest epoll_ctl n).
Proof.
  intros s Hs. unfold EpollEventLoop.refresh_one. eff_run. pose proof (any_rule_spec (_fd_rules s) n s) as Hany.
  destruct (EpollEventLoop.any_rule _ n s) as [[b|e] s0]; [|by subst]. destruct Hany as [-> ->].
  destruct (existsb _ _) eqn:Hex; cbn [negb].
  - apply existsb_exists in Hex as (r&Hr&Hn). apply list_elem_of_In in Hr. apply has_number_true in Hn.
    unfold EpollEventLoop.desired_events_for_fd. eff_run.
    pose proof (silent_desired_from (_fd_rules s) n 0 s) as Hd.
    destruct (EpollEventLoop.desired_from _ _ _ _ s) as [[d|e] s1]; cbn in Hd; subst s1; [|done].
    destruct (_fd_states (extra s) !! n) as [st|] eqn:Hst; [by eapply keeps_reg_sync|].
    unfold EpollEventLoop.sync_fd_registration. eff_run. by rewrite Hst.
  - destruct (drop_spec epoll_ctl registered laws s n Hs) as (x&->&Hx&Hk). apply (reg_ok_drop registered s n); try done.
    intros r Hr Hn%has_number_true. apply list_elem_of_In in Hr.
    assert (existsb (has_number s n) (_fd_rules s) = true) by (apply existsb_exists; by exists r). congruence.
Qed.

Lemma keeps_reg_prepare fuel : keeps_reg (EpollEventLoop.prepare call_interest call_back epoll_ctl order fuel).
Proof.
  apply keeps_bind; [apply _|by apply keeps_reg_sweep|]. intros _. apply keeps_bind; [apply _|by intros s|]. intros m.
  induction (order m) as [|n keys IH]; [by intros s|].
  apply keeps_bind; [apply _|apply keeps_reg_refresh_one|]. by intros _.
Qed.

(** Both views of a run that keeps the registrations. *)
Lemma runs_reg {A} (m : eff sys A) s (Q : result A → list call → sys → Prop) :
  reg s → keeps_reg m → runs m s Q → runs m s (λ r tr s', Q r tr s' ∧ reg s').
Proof. intros Hs Hm. unfold runs, post. intros (tr&?&?&?&?). exists tr. split_and!; try done. by apply Hm. Qed.

Lemma runs_reg_handle_errors fuel events callback s :
  loop_ok s → reg s →
  runs (EpollEventLoop.handle_errors call_back epoll_ctl getsockopt fuel events callback) s (λ _ _ s', reg s').
Proof.
  revert callback s. induction events as [|[n revents] events IH]; intros callback s Hs Hr;
    cbn [EpollEventLoop.handle_errors]; [by apply runs_ret|].
  destruct (has_bits revents EPOLLERR); [|by apply IH].
  pose proof (silent_report_error n s) as Hrep.
  apply runs_bind, runs_silent; [done|by rewrite <- Hrep|intros _ _; by rewrite <- Hrep|]. rewrite <- Hrep.
  destruct (EpollEventLoop.report_error _ _ _).1 as [[]|e]; [|done]. intros _.
  apply runs_bind. eapply runs_mono; [apply runs_reg; [done|by apply keeps_reg_drop_rules|]|].
  { apply runs_drop_rules; [done|done|lia]. }
  intros [[]|e] tr s1 [[_ Hd] Hr1]; [|done]. intros Hs1. destruct (Hd () eq_refl) as (ids&->&Hdrop).
  destruct (drop_spec epoll_ctl registered laws s1 n Hr1) as (x&Hx&Hst&Hk).
  apply runs_bind, runs_silent; rewrite ?Hx; [done|done|intros _ _; by apply loop_ok_extra|]. cbn [fst snd]. intros Hs2.
  apply IH; [done|]. apply (reg_ok_drop registered s1 n); try done. intros r Hin Hon.
  apply (on_off_number s1 n r); [done|]. apply (dr_none _ _ _ _ Hdrop (key r)). apply list_elem_of_fmap. by exists r.
Qed.

Lemma runs_reg_wait fuel timeout_ms s :
  loop_ok s → reg s →
  runs (EpollEventLoop.wait_next_event call_interest call_back epoll_ctl epoll_wait getsockopt order fuel timeout_ms) s
    (λ _ _ s', reg s').
Proof.
  intros Hs Hr. unfold EpollEventLoop.wait_next_event. apply runs_bind.
  eapply runs_mono; [apply runs_reg; [done|apply keeps_reg_serve_non_fd|by apply runs_serve_non_fd]|].
  intros [[res|]|e] tr s0 [_ Hr0]; [intros Hs0; by apply runs_ret| |done]. intros Hs0. apply runs_bind.
  eapply runs_mono; [apply runs_reg; [done|apply keeps_reg_prepare|by apply epoll_runs_prepare]|].
  intros [[]|e] tr' s1 [_ Hr1]; [|done]. intros Hs1.
  apply runs_bind, runs_silent; [done..|]. cbn [gets fst snd]. intros _.
  case_bool_decide; [by apply runs_ret|]. apply runs_bind, runs_silent; [done..|]. cbn [gets fst snd]. intros _.
  destruct (negb _); [by apply runs_ret|].
  destruct (epoll_wait _ _ _ _) as [events|errno]; [|case_bool_decide; [by apply runs_ret|by apply runs_throw]].
  case_bool_decide; [by apply runs_ret|]. apply runs_bind.
  eapply runs_mono; [by apply runs_reg_handle_errors|]. intros [[[n revents]|]|e] tr2 s2 Hr2; [| |done]; intros Hs2.
  - eapply runs_mono; [apply runs_reg; [done|apply keeps_reg_find_rule|by apply runs_find_rule]|]. by intros r3 tr3 s3 [_ ?].
  - by apply runs_ret.
Qed.

(** The agreement after one call, for a program whose callbacks keep it. *)
Lemma wait_in_step fuel timeout_ms s :
  loop_ok s → reg s →
  let '(r, s') :=
    EpollEventLoop.wait_next_event call_interest call_back epoll_ctl epoll_wait getsockopt order fuel timeout_ms s in
  reg s' ∧ (∀ a, r = Ok a → loop_ok s').
Proof.
  intros Hs Hr. destruct (runs_reg_wait fuel timeout_ms s Hs Hr) as (tr&_&_&Hl&Hr').
  destruct (EpollEventLoop.wait_next_event _ _ _ _ _ _ _ _ s) as [r s']. split; [done|]. by intros a ->.
Qed.
End in_step.

(** ** What the program may do in between *)

Section program.
Context {C K W : Type}.
Abbreviation sys := (state C (EpollState K) W).
Implicit Types s : sys.
Context (registered : K → gmap Z Z).
Abbreviation reg := (reg_ok registered).

(** Adding a rule, unless the number of its descriptor has a state left over
    from a descriptor that was closed. *)
Lemma reg_ok_add_fd_rule k f d c1 c2 c3 c4 s :
  reg s →
  (∀ w st, descriptors s !! f = Some w → closed_ w = false → _fd_states (extra s) !! fd_ w = Some st →
    in_epoll st = true → is_Some (watched registered s (fd_ w))) →
  reg (EpollEventLoop.add_fd_rule k f d c1 c2 c3 c4 s).2 ∨
  (EpollEventLoop.add_fd_rule k f d c1 c2 c3 c4 s).1 = Err (Undefined "no such descriptor").
Proof.
  intros [Hw Hs Ho Hn] Hf. unfold EpollEventLoop.add_fd_rule, EventRules.add_fd_rule. eff_run.
  case_bool_decide; [by left|]. eff_run. unfold wrapper. cbn.
  destruct (descriptors s !! f) as [w|] eqn:Hd; [|by right]. left. unfold EpollEventLoop.try_emplace. eff_run.
  cbn. unfold FileDescriptor.fd_num.
  assert (∀ r, r ∈ _fd_rules s ++ [mkFDRule (mkBasicRule (next_rule s) k c2 c1 false) f d c3 c4] →
    r ∈ _fd_rules s ∨ fd r = f) as Hrules.
  { intros r [Hr|Hr%list_elem_of_singleton]%elem_of_app; [by left|right]. by rewrite Hr. }
  destruct (_fd_states (extra s) !! fd_ w) as [st0|] eqn:Hst; split; unfold watched; cbn; try exact Hw; try exact Hn.
  - intros r w' [Hr| ->]%Hrules Hd'; [by eapply Hs|]. rewrite Hd in Hd'. injection Hd' as <-. by exists st0.
  - intros r w' st [Hr| ->]%Hrules Hd'; [by eapply Ho|]. rewrite Hd in Hd'. injection Hd' as <-. by eapply Hf.
  - intros n m Hm. apply Hw in Hm as Hm'. rewrite lookup_insert_ne; [done|]. intros <-. by rewrite Hst in Hm'.
  - intros r w' Hr Hd'. destruct (decide (fd_ w = fd_ w')) as [->|Hne];
      [rewrite lookup_insert, decide_True by done; by eexists|]. rewrite lookup_insert_ne by done.
    destruct (Hrules r Hr) as [Hr'|Hr']; [by eapply Hs|]. rewrite Hr', Hd in Hd'. by injection Hd' as <-.
  - intros r w' st Hr Hd' Hc. destruct (decide (fd_ w = fd_ w')) as [->|Hne].
    + rewrite lookup_insert, decide_True by done. by intros [= <-].
    + rewrite lookup_insert_ne by done. destruct (Hrules r Hr) as [Hr'|Hr']; [by eapply Ho|].
      rewrite Hr', Hd in Hd'. by injection Hd' as <-.
Qed.

Lemma reg_ok_cancel_handle id s : reg s → reg (EpollEventLoop.cancel_handle id s).2.
Proof.
  intros [Hw Hs Ho Hn]. split; [exact Hw| | |exact Hn]; cbn; intros r w.
  - intros (r'&->&Hr)%list_elem_of_fmap. exact (Hs r' w Hr).
  - intros st (r'&->&Hr)%list_elem_of_fmap. exact (Ho r' w st Hr).
Qed.

(** Reading and writing. *)
Lemma reg_ok_on_descriptor {A} f (m : eff FDWrapper A) s :
  keeps same_descriptor m → reg s → reg (on_descriptor f m s).2.
Proof.
  intros Hm [Hw Hs Ho Hn]. unfold on_descriptor. destruct (descriptors s !! f) as [w|] eqn:Hf; [|by split].
  specialize (Hm w). destruct (m w) as [r w']. cbn in Hm |- *. destruct Hm as [Hfd Hc].
  assert (∀ g v, <[f := w']> (descriptors s) !! g = Some v → ∃ v0, descriptors s !! g = Some v0 ∧
    fd_ v0 = fd_ v ∧ closed_ v0 = closed_ v) as Hlook.
  { intros g v. destruct (decide (f = g)) as [<-|Hne].
    - rewrite lookup_insert, decide_True by done. intros [= <-]. by exists w.
    - rewrite lookup_insert_ne by done. by exists v. }
  split; [exact Hw| | |]; cbn.
  - intros r' v Hr (v0&Hv0&<-&_)%Hlook. by eapply Hs.
  - intros r' v st Hr (v0&Hv0&<-&<-)%Hlook. by eapply Ho.
  - intros g g' v v' (v0&Hv0&<-&<-)%Hlook (v0'&Hv0'&<-&<-)%Hlook. by apply Hn.
Qed.

(** Closing an open descriptor, which the kernel then forgets. *)
Lemma reg_ok_close f w k s :
  reg s → descriptors s !! f = Some w → closed_ w = false →
  registered k = delete (fd_ w) (registered (kernel (extra s))) →
  reg (with_descriptors (<[f := FileDescriptor.with_closed w]> (descriptors s)) (EpollEventLoop.with_kernel k s)).
Proof.
  intros [Hw Hs Ho Hn] Hf Hc Hk.
  assert (∀ g v, <[f := FileDescriptor.with_closed w]> (descriptors s) !! g = Some v →
    (∃ v0, descriptors s !! g = Some v0 ∧ fd_ v0 = fd_ v) ∧
    (closed_ v = false → f ≠ g ∧ descriptors s !! g = Some v)) as Hlook.
  { intros g v. destruct (decide (f = g)) as [<-|Hne].
    - rewrite lookup_insert, decide_True by done. intros [= <-]. split; [by exists w|done].
    - rewrite lookup_insert_ne by done. intros Hv. split; [by exists v|done]. }
  split; unfold watched; cbn; rewrite ?Hk.
  - intros n m. rewrite lookup_delete_Some. intros [_ Hm]. by apply Hw.
  - intros r v Hr [(v0&Hv0&<-) _]%Hlook. by eapply Hs.
  - intros r v st Hr [_ Hv]%Hlook Hcv. destruct (Hv Hcv) as [Hne Hv'].
    rewrite lookup_delete_ne; [by eapply Ho|]. intros Heq. by apply Hne, (Hn f (fd r) w v).
  - intros g g' v v' [_ Hv]%Hlook [_ Hv']%Hlook Hcv Hcv'. destruct (Hv Hcv), (Hv' Hcv'). by apply Hn.
Qed.

Lemma keeps_epoll_add_fd_rule k f d c1 c2 c3 c4 :
  keeps grows (EpollEventLoop.add_fd_rule (C:=C) (K:=K) (W:=W) k f d c1 c2 c3 c4).
Proof.
  apply keeps_bind; [apply _|apply keeps_add_fd_rule|]. intros id.
  apply keeps_bind; [apply _|apply keeps_wrapper|]. intros w.
  apply keeps_bind; [apply _| |by intros _ s]. intros s. unfold EpollEventLoop.try_emplace, modify. cbn.
  destruct (_ !! _); [done|]. apply grows_same; try done. by apply numbers_same.
Qed.
End program.

(** ** Results *)

(** [m] returns [Success] if it returns. *)
Definition only_success {S} (m : eff S Result) : Prop := ∀ s a s', m s = (Ok a, s') → a = Success.

Lemma only_success_bind {S A} (m : eff S A) (f : A → eff S Result) :
  (∀ x, only_success (f x)) → only_success (m ≫= f).
Proof. intros Hf s a s'. rewrite bind_eq. destruct (m s) as [[x|e] s1]; [apply Hf|done]. Qed.
Lemma only_success_ret {S} : only_success (mret Success : eff S Result).
Proof. by intros s a s' [= <- _]. Qed.
Lemma only_success_throw {S} (e : exn) : only_success (mthrow e : eff S Result).
Proof. by intros s a s'. Qed.
Create HintDb success discriminated.
#[local] Hint Resolve only_success_bind only_success_ret only_success_throw : success.

Section exits.
Context {C K W : Type}.
Abbreviation sys := (state C (EpollState K) W).
Implicit Types s : sys.
Context (call_interest : C → sys → result bool) (call_back : C → eff sys ()).
Context (epoll_ctl : Z → Z → Z → Z → K → syscall () * K).
Context (epoll_wait : Z → Z → Z → K → syscall (list (Z * Z))).
Context (getsockopt : Z → syscall (Z * Z)).
Context (order : gmap Z FdState → list Z).

Lemma serve_success r : only_success (serve call_interest call_back r).
Proof.
  do 4 (apply only_success_bind; intros ?). destruct (_ && _); [|auto with success].
  apply only_success_bind. intros []; [|auto with success].
  apply only_success_bind. intros cs. destruct (cs !! _); auto with success.
Qed.

Lemma find_rule_success fuel i n revents :
  only_success (EpollEventLoop.find_rule call_interest call_back fuel i n revents).
Proof.
  revert i. induction fuel as [|fuel IH]; intros i; cbn [EpollEventLoop.find_rule]; [auto with success|].
  apply only_success_bind. intros rs. destruct (rs !! i) as [r|]; [|auto with success].
  apply only_success_bind. intros w. case_bool_decide; [done|]. destruct (_ && _).
  - apply only_success_bind. done.
  - apply only_success_bind. intros []; [apply serve_success|done].
Qed.

Lemma exit_iff fuel timeout_ms s s0 s1 r s' :
  EpollEventLoop.serve_non_fd_rules call_interest call_back s = (Ok None, s0) →
  EpollEventLoop.prepare call_interest call_back epoll_ctl order fuel s0 = (Ok (), s1) →
  EpollEventLoop.wait_next_event call_interest call_back epoll_ctl epoll_wait getsockopt order fuel timeout_ms s = (r, s') →
  r = Ok Exit ↔ _fd_rules s1 = [] ∨ EpollEventLoop.something_to_poll (_fd_states (extra s1)) = false.
Proof.
  intros Hserve Hprep. unfold EpollEventLoop.wait_next_event. rewrite bind_eq, Hserve, bind_eq, Hprep. eff_run.
  destruct (_fd_rules s1) as [|rule rules] eqn:Hrules; cbn [length].
  { rewrite bool_decide_true by done. intros [= <- _]. naive_solver. }
  rewrite bool_decide_false by done. eff_run.
  destruct (EpollEventLoop.something_to_poll _) eqn:Hpoll; cbn [negb].
  2: { intros [= <- _]. naive_solver. }
  assert (∀ m : eff sys Result, only_success m → m s1 = (r, s') → r = Ok Exit ↔ rule :: rules = [] ∨ true = false) as Hs.
  { intros m Hm Hr. split; [|by intros [?|?]]. intros ->. by apply Hm in Hr. }
  destruct (epoll_wait _ _ _ _) as [events|errno].
  2: { case_bool_decide; intros Hr; (eapply Hs; [|exact Hr]); intros s2 a s2' H2; congruence. }
  destruct (decide (length events = 0)%nat) as [Hn|Hn].
  { rewrite bool_decide_true by done. intros [= <- _]. naive_solver. }
  rewrite bool_decide_false by done. apply Hs, only_success_bind.
  intros [[n revents]|]; [apply find_rule_success|auto with success].
Qed.
End exits.

(** * Properties *)

(** A program's use of this loop, as [session] for the loop on poll. *)
Inductive epoll_session {C K W} (call_interest : C → state C (EpollState K) W → result bool)
    (call_back : C → eff (state C (EpollState K) W) ()) : state C (EpollState K) W → Prop :=
  | epoll_session_start s :
      _fd_rules s = [] → _non_fd_rules s = [] → calls s = [] → epoll_session call_interest call_back s
  | epoll_session_program s s' :
      epoll_session call_interest call_back s → grows s s' → epoll_session call_interest call_back s'
  | epoll_session_wait s s' epoll_ctl epoll_wait getsockopt order fuel timeout_ms res :
      epoll_session call_interest call_back s →
      EpollEventLoop.wait_next_event call_interest call_back epoll_ctl epoll_wait getsockopt order fuel timeout_ms s
        = (Ok res, s') →
      epoll_session call_interest call_back s'.

Lemma epoll_session_ok {C K W} (call_interest : C → state C (EpollState K) W → result bool) call_back s :
  (∀ c, keeps grows (call_back c)) → epoll_session call_interest call_back s → loop_ok s.
Proof.
  intros Hb. induction 1 as [s Hf Hn Hc|s s' _ IH Hg|s s' ctl wait gso ord fuel t res _ IH Hw].
  - by apply loop_ok_start.
  - by eapply loop_ok_grows.
  - destruct (epoll_runs_wait call_interest call_back ctl wait gso ord Hb fuel t s IH) as (tr&_&_&Hl&_). by rewrite Hw in Hl.
Qed.


(** The kernel's interest list is in step with the rules when [epoll_wait] is
    reached, in a program whose callbacks keep the agreement: each descriptor is
    watched for exactly the directions in which its rules are interested, none
    is watched that has no rule, every open one that has a rule is, and Exit is
    returned exactly if no rule is interested. *)
Lemma registration_exact {C K W} (call_interest : C → state C (EpollState K) W → result bool) call_back s
    epoll_ctl epoll_wait getsockopt order registered fuel timeout_ms s0 s1 :
  epoll_laws epoll_ctl registered → (∀ m, order m ≡ₚ (map_to_list m).*1) →
  (∀ c x s, call_interest c (with_extra x s) = call_interest c s) →
  (∀ c s, reg_ok registered s → reg_ok registered (call_back c s).2) →
  reg_ok registered s →
  EpollEventLoop.serve_non_fd_rules call_interest call_back s = (Ok None, s0) →
  EpollEventLoop.prepare call_interest call_back epoll_ctl order fuel s0 = (Ok (), s1) →
  in_step call_interest registered s1 ∧
  ((EpollEventLoop.wait_next_event call_interest call_back epoll_ctl epoll_wait getsockopt order fuel timeout_ms s).1 =
     Ok Exit ↔ ¬ anyone_interested call_interest s1).
Proof.
  intros Hlaws Hord Hext Hback Hreg Hserve Hprep.
  destruct (EpollEventLoop.wait_next_event _ _ _ _ _ _ _ _ s) as [r s'] eqn:Heq.
  assert (reg_ok registered s0) as Hreg0.
  { pose proof (keeps_reg_serve_non_fd call_interest call_back registered Hback s Hreg) as H. by rewrite Hserve in H. }
  destruct (prepare_in_step _ _ _ _ _ Hlaws Hord Hext Hback _ _ _ Hreg0 Hprep) as [Hreg1 Hall].
  split; [by apply refreshed_in_step|]. cbn [fst].
  rewrite (exit_iff _ _ _ _ _ _ _ _ _ _ _ _ _ Hserve Hprep Heq).
  pose proof (something_to_poll_wanted _ registered s1 Hreg1 Hall) as Hpoll.
  destruct (EpollEventLoop.something_to_poll _).
  - split; [|naive_solver]. intros [Hnil|]; [|done]. intros (r0&w&Hin&_). rewrite Hnil in Hin. by apply elem_of_nil in Hin.
  - split; [|by right]. intros _ Hi. by apply Hpoll in Hi.
Qed.

(** [wait_next_event] of the epoll loop always returns, if interest
    functions and callbacks return and those for errors and cancellation add no
    rules with a descriptor: fuel for the rules there are is enough, and the
    only exceptions are those of the busy-wait checks and of failed calls of
    [epoll_ctl] and [epoll_wait]. *)
Theorem epoll_loop_total {C K W} (call_interest : C → state C (EpollState K) W → result bool) call_back adds_none s
    epoll_ctl epoll_wait getsockopt order fuel timeout_ms :
  program_ok call_interest call_back adds_none → rules_wf adds_none s →
  (∀ n, getsockopt n = Failed ENOTSOCK ∨ ∃ e, getsockopt n = Returned (e, 4)) →
  (length (_fd_rules s) < fuel)%nat →
  let '(r, s') :=
    EpollEventLoop.wait_next_event call_interest call_back epoll_ctl epoll_wait getsockopt order fuel timeout_ms s in
  match r with Ok _ => rules_wf adds_none s' | Err e => epoll_allowed e end.
Proof.
  intros Hprog Hs Hg Hf.
  pose proof (epoll_fine_wait _ _ _ Hprog epoll_ctl epoll_wait getsockopt order Hg fuel timeout_ms s Hs Hf) as H.
  unfold fine, post in H. destruct (EpollEventLoop.wait_next_event _ _ _ _ _ _ _ _ s) as [[a|e] s']; cbn in H; naive_solver.
Qed.

(** ** A program *)

Inductive epoll_code : Type := Willing | Idle | Take | Shut | Flag.

(** A kernel with its interest list. *)
Definition EEXIST : Z := 17.
Definition ENOENT : Z := 2.
Definition demo_ctl (ep op n e : Z) (k : gmap Z Z) : syscall () * gmap Z Z :=
  if bool_decide (op = EPOLL_CTL_ADD) then
    match k !! n with None => (Returned (), <[n := e]> k) | Some _ => (Failed EEXIST, k) end
  else if bool_decide (op = EPOLL_CTL_MOD) then
    match k !! n with Some _ => (Returned (), <[n := e]> k) | None => (Failed ENOENT, k) end
  else (match k !! n with Some _ => Returned () | None => Failed ENOENT end, delete n k).
Definition demo_events (ep n t : Z) (k : gmap Z Z) : syscall (list (Z * Z)) := Returned [(6, EPOLLERR); (5, EPOLLIN)].
Definition demo_order (m : gmap Z FdState) : list Z := (map_to_list m).*1.

Abbreviation demo_sys := (state epoll_code (EpollState (gmap Z Z)) ()).
Definition epoll_demo_interest (c : epoll_code) (s : demo_sys) : result bool := Ok true.

(** [FileDescriptor::close] of descriptor 0, which the kernel then forgets. *)
Definition shut (s : demo_sys) : demo_sys :=
  match descriptors s !! 0%nat with
  | Some w =>
      if closed_ w then s
      else with_descriptors (<[0%nat := FileDescriptor.with_closed w]> (descriptors s))
             (EpollEventLoop.with_kernel (delete (fd_ w) (kernel (extra s))) s)
  | None => s
  end.
Definition epoll_demo_back (c : epoll_code) : eff demo_sys () :=
  match c with
  | Willing | Idle => mret ()
  | Take => swallow (_ ← on_descriptor 0 (FileDescriptor.read three_bytes []); mret ())
  | Shut => modify shut
  | Flag => EpollEventLoop.cancel_handle 0
  end.

Definition epoll_demo_state : demo_sys :=
  mkState ["demo"]
    [mkFDRule (mkBasicRule 0 0 Willing Shut false) 0 In Idle Idle;
     mkFDRule (mkBasicRule 1 0 Willing Idle false) 1 Out Flag Idle] [] 2
    {[0%nat := demo_wrapper; 1%nat := mkFDWrapper 6 false false true 0 0]} []
    (mkEpollState 4 {[5 := mkFdState 0 false; 6 := mkFdState 0 false]} ∅) ().

Definition epoll_demo_wait :=
  EpollEventLoop.wait_next_event epoll_demo_interest epoll_demo_back demo_ctl demo_events no_socket demo_order 5 (-1)
    epoll_demo_state.


Lemma shut_grows s : grows s (shut s).
Proof.
  unfold shut. destruct (descriptors s !! 0%nat) as [w|] eqn:Hw; [|done]. destruct (closed_ w); [done|].
  apply grows_same; try done. intros f v Hv. cbn. destruct (decide (0%nat = f)) as [<-|Hne].
  - rewrite lookup_insert, decide_True by done. eexists. split; [done|]. cbn. congruence.
  - rewrite lookup_insert_ne by done. by exists v.
Qed.

Lemma epoll_demo_grows c : keeps grows (epoll_demo_back c).
Proof.
  destruct c; unfold epoll_demo_back; try by intros s.
  - apply keeps_swallow, keeps_bind; [apply _| |intros; apply keeps_ret; apply _].
    apply keeps_on_descriptor. intros w. apply (keeps_read _ _ w).
  - apply keeps_modify, shut_grows.
  - apply keeps_cancel_handle.
Qed.

Lemma shut_rules s : _fd_rules (shut s) = _fd_rules s ∧ _non_fd_rules (shut s) = _non_fd_rules s ∧
  _rule_categories (shut s) = _rule_categories s ∧ ∀ f, is_Some (descriptors s !! f) → is_Some (descriptors (shut s) !! f).
Proof.
  unfold shut. destruct (descriptors s !! 0%nat) as [w|] eqn:Hw; [|done]. destruct (closed_ w); [done|].
  split_and!; try done. intros f Hf. cbn. destruct (decide (0%nat = f)) as [<-|Hne].
  - rewrite lookup_insert, decide_True by done. by eexists.
  - by rewrite lookup_insert_ne.
Qed.

Lemma epoll_demo_program : program_ok epoll_demo_interest epoll_demo_back (λ _, True).
Proof.
  split.
  - intros c s. by exists true.
  - by intros [] s.
  - apply epoll_demo_grows.
  - intros [] s Hs; try done.
    + unfold epoll_demo_back. rewrite swallow_result. by apply rules_wf_on_descriptor.
    + destruct (shut_rules s) as (Hr&Hn&Hc&Hd), Hs as [Hf Hfc Hnc Ha].
      split; unfold epoll_demo_back, modify; cbn [snd]; rewrite ?Hr, ?Hn, ?Hc; try done.
      eapply Forall_impl; [exact Hf|]. intros r. apply Hd.
    + by apply (rules_wf_cancel_handle _ 0).
  - intros [] s; try done.
    + unfold epoll_demo_back. rewrite swallow_result.
      by destruct (on_descriptor_state 0 (FileDescriptor.read three_bytes []) s) as (ds&->&_).
    + unfold epoll_demo_back, modify. cbn [snd]. by destruct (shut_rules s) as (_&_&->&_).
  - intros [] s _; try done.
    + unfold epoll_demo_back. rewrite swallow_result.
      by destruct (on_descriptor_state 0 (FileDescriptor.read three_bytes []) s) as (ds&->&_).
    + unfold epoll_demo_back, modify. cbn [snd]. by destruct (shut_rules s) as (->&_).
    + cbn. by rewrite length_fmap.
Qed.

Lemma demo_ctl_laws : epoll_laws demo_ctl id.
Proof.
  split; unfold demo_ctl; intros ep n e k.
  - intros k'. rewrite bool_decide_true by done. by destruct (k !! n); intros [= <-].
  - intros k'. rewrite bool_decide_false, bool_decide_true by done. by destruct (k !! n); intros [= <-].
  - intros r k'. rewrite !bool_decide_false by done. by intros [= _ <-].
  - intros k0 errno k' _. repeat case_bool_decide; match goal with |- context [k0 !! ?x] => destruct (k0 !! x) eqn:Hx end;
      intros [= _ <-]; rewrite ?delete_id by done; done.
Qed.

Lemma epoll_demo_reg c s : reg_ok id s → reg_ok id (epoll_demo_back c s).2.
Proof.
  destruct c; unfold epoll_demo_back; try done; intros Hs.
  - rewrite swallow_result. apply reg_ok_on_descriptor; [|done]. intros w. apply keeps_read.
  - unfold modify, shut. cbn [snd]. destruct (descriptors s !! 0%nat) as [w|] eqn:Hw; [|done].
    destruct (closed_ w) eqn:Hc; [done|]. by apply reg_ok_close.
  - by apply reg_ok_cancel_handle.
Qed.

Lemma epoll_demo_wf : rules_wf (λ _, True) epoll_demo_state.
Proof. by repeat constructor; cbn. Qed.

Lemma epoll_demo_reg_start : reg_ok id epoll_demo_state.
Proof.
  split; unfold watched; cbn.
  - intros n m. by rewrite lookup_empty.
  - intros r w [->|[->|[]%elem_of_nil]%elem_of_cons]%elem_of_cons; cbn; intros [= <-]; by eexists.
  - intros r w st [->|[->|[]%elem_of_nil]%elem_of_cons]%elem_of_cons; cbn; intros [= <-] _ [= <-]; done.
  - intros f g w w'. rewrite !lookup_insert_Some, !lookup_singleton_Some. naive_solver.
Qed.

Lemma no_socket_ok n : no_socket n = Failed ENOTSOCK ∨ ∃ e, no_socket n = Returned (e, 4).
Proof. by left. Qed.

Lemma epoll_demo_session : epoll_session epoll_demo_interest epoll_demo_back epoll_demo_state.
Proof.
  apply (epoll_session_program _ _
    (mkState ["demo"] [] [] 0 (descriptors epoll_demo_state) [] (extra epoll_demo_state) ()));
    [by apply epoll_session_start|].
  split; cbn; [|lia|done|by apply numbers_same]. eexists [_; _], []. split_and!; try done.
  - cbn. repeat constructor; rewrite ?list_elem_of_singleton, ?elem_of_nil; auto.
  - cbn. repeat constructor; lia.
Qed.


Example epoll_demo_registered : reg_ok id epoll_demo_wait.2.
Proof.
  pose proof (wait_in_step epoll_demo_interest epoll_demo_back epoll_demo_grows demo_ctl demo_events no_socket demo_order
    id demo_ctl_laws epoll_demo_reg 5 (-1) epoll_demo_state
    (epoll_session_ok _ _ _ epoll_demo_grows epoll_demo_session) epoll_demo_reg_start) as H.
  unfold epoll_demo_wait in *.
  destruct (EpollEventLoop.wait_next_event _ _ _ _ _ _ _ _ epoll_demo_state) as [r s']. exact (proj1 H).
Qed.

Lemma epoll_loop_total_witness :
  match epoll_demo_wait.1 with
  | Ok _ => rules_wf (λ _, True) epoll_demo_wait.2
  | Err e => epoll_allowed e
  end.
Proof.
  pose proof (epoll_loop_total epoll_demo_interest epoll_demo_back (λ _, True) epoll_demo_state demo_ctl demo_events
    no_socket demo_order 5 (-1) epoll_demo_program epoll_demo_wf no_socket_ok ltac:(cbn; lia)) as H.
  unfold epoll_demo_wait. destruct (EpollEventLoop.wait_next_event _ _ _ _ _ _ _ _ epoll_demo_state) as [r s']. exact H.
Defined.

(** A callback that closes a descriptor and adds a rule on a new one that was
    given the same number: the state left over says it is registered, so the
    kernel is never told to watch it. *)
Definition reuse_back (c : epoll_code) : eff demo_sys () :=
  match c with
  | Shut =>
      modify shut ;;
      modify (λ s, with_descriptors (<[2%nat := mkFDWrapper 5 false false true 0 0]> (descriptors s)) s) ;;
      _ ← EpollEventLoop.add_fd_rule 0 2 In Take Willing Idle Idle; mret ()
  | _ => epoll_demo_back c
  end.
Definition reuse_wait (s : demo_sys) :=
  EpollEventLoop.wait_next_event epoll_demo_interest reuse_back demo_ctl (λ _ _ _ _, Returned [(5, EPOLLIN)]) no_socket
    demo_order 5 (-1) s.

Example reused_number :
  let s1 := (reuse_wait epoll_demo_state).2 in
  let '(r, s2) := EpollEventLoop.prepare epoll_demo_interest reuse_back demo_ctl demo_order 5 s1 in
  r = Ok () ∧ kernel (extra s2) !! 5 = None ∧ wanted epoll_demo_interest s2 5 (_fd_rules s2) = EPOLLIN.
Proof. by vm_compute. Qed.
