(* ===== verification/EpollInvariant.v ===== *)
(** What a program on the epoll loop may rely on: an invariant that its
    callbacks keep, each under the guard of its rule's interest or for a reason
    to cancel it, holds throughout [wait_next_event], also when a callback
    throws. *)

From S2P Require Import Prelude Effects FileDescriptor EventRules EventLoop EventInvariant EpollEventLoop.

(** Why a rule is cancelled: its descriptor is closed or at its end, or epoll
    reported an error, or a hang-up that leaves it nothing to do, on the number
    that it had. *)
Definition dismissed {C K W} (reported : Z → Z → Prop)
    (Inv : state C (EpollState K) W → Prop) (r : FDRule C) (s : state C (EpollState K) W) : Prop :=
  defunct s r ∨
  ∃ s0 w0 revents, Inv s0 ∧ descriptors s0 !! fd r = Some w0 ∧ reported (fd_ w0) revents ∧
    (has_bits revents EPOLLERR = true ∨ hung_up (fd_ w0, revents) r).

(** The program: its rules all satisfy [known], none is without a descriptor. *)
Record invariant_ok {C K W} (call_interest : C → state C (EpollState K) W → result bool)
    (call_back : C → eff (state C (EpollState K) W) ()) (reported : Z → Z → Prop)
    (known : FDRule C → Prop) (Inv : state C (EpollState K) W → Prop) : Prop := mkInvariantOk {
  inv_known s r : Inv s → r ∈ _fd_rules s → known r;
  inv_non_fd s : Inv s → _non_fd_rules s = [];
  inv_extra x s : Inv s → Inv (with_extra x s);
  inv_erase i s : Inv s → Inv (with_fd_rules (delete i (_fd_rules s)) s);
  (** A rule is served when it is interested. *)
  inv_ran r s :
    Inv s → known r → call_interest (interest (basic r)) s = Ok true →
    Inv (invoke call_back (Ran (rule_id (basic r))) (callback (basic r)) s).2;
  inv_cancelled r s :
    Inv s → known r → dismissed reported Inv r s →
    Inv (invoke call_back (Cancelled (rule_id (basic r))) (cancel r) s).2;
  inv_errored r s : Inv s → known r → Inv (invoke call_back (Errored (rule_id (basic r))) (error r) s).2;
}.

Section invariant.
Context {C K W : Type}.
Abbreviation sys := (state C (EpollState K) W).
Implicit Types s : sys.
Context {call_interest : C → sys → result bool} {call_back : C → eff sys ()}.
Context {reported : Z → Z → Prop} {known : FDRule C → Prop} {Inv : sys → Prop}.
Context (Hinv : invariant_ok call_interest call_back reported known Inv).
Context (epoll_ctl : Z → Z → Z → Z → K → syscall () * K).
Context (epoll_wait : Z → Z → Z → K → syscall (list (Z * Z))).
Context (getsockopt : Z → syscall (Z * Z)).
Context (order : gmap Z FdState → list Z).
Hypothesis Hreported : ∀ ep n ms k events, epoll_wait ep n ms k = Returned events →
  ∀ fd_num revents, (fd_num, revents) ∈ events → reported fd_num revents.

Definition keeps_inv {A} (m : eff sys A) : Prop := keeps (λ s s', Inv s → Inv s') m.
#[local] Instance inv_preorder : PreOrder (λ s s' : sys, Inv s → Inv s').
Proof. split; [by intros s Hs|]. intros s1 s2 s3 H1 H2 H. auto. Qed.

Lemma keeps_inv_same {A} (m : eff sys A) : keeps same_rules m → keeps_inv m.
Proof. intros Hm s Hs. destruct (Hm s) as [x ->]. by apply (inv_extra _ _ _ _ _ Hinv). Qed.
Lemma keeps_inv_bind {A B} (m : eff sys A) (f : A → eff sys B) :
  keeps_inv m → (∀ a, keeps_inv (f a)) → keeps_inv (m ≫= f).
Proof. apply keeps_bind, _. Qed.
Lemma keeps_inv_ret {A} (a : A) : keeps_inv (mret a).
Proof. by intros s. Qed.

(** The rule at a position is known. *)
Lemma keeps_inv_rule {A} i (m : option (FDRule C) → eff sys A) :
  (∀ r, known r → keeps_inv (m (Some r))) → keeps_inv (m None) →
  keeps_inv (rs ← gets _fd_rules; m (rs !! i)).
Proof.
  intros Hr Hn s Hs. rewrite bind_eq. cbn [gets]. destruct (_fd_rules s !! i) as [r|] eqn:Hi; [|by apply Hn].
  apply Hr; [|done]. apply (inv_known _ _ _ _ _ Hinv s); [done|]. by eapply list_elem_of_lookup_2.
Qed.

Lemma inv_retire i r s :
  Inv s → known r → dismissed reported Inv r s → Inv (retire call_back i r s).2.
Proof.
  intros Hs Hr Hd. unfold retire. rewrite bind_eq. pose proof (inv_cancelled _ _ _ _ _ Hinv r s Hs Hr Hd) as H.
  destruct (invoke _ _ _ s) as [[[]|e] s1]; [|done]. by apply (inv_erase _ _ _ _ _ Hinv).
Qed.

(** A rule goes for a reason, and the walk goes on. *)
Lemma inv_retire_then {A} i r (m : eff sys A) s :
  Inv s → known r → dismissed reported Inv r s → keeps_inv m → Inv ((retire call_back i r ;; m) s).2.
Proof.
  intros Hs Hr Hd Hm. rewrite bind_eq. pose proof (inv_retire i r s Hs Hr Hd) as H.
  destruct (retire _ _ _ s) as [[[]|e] s1]; [|done]. by apply Hm.
Qed.

Lemma keeps_inv_sweep fuel i : keeps_inv (EpollEventLoop.sweep call_back fuel i).
Proof.
  revert i. induction fuel as [|fuel IH]; intros i; cbn [EpollEventLoop.sweep]; [by intros s|].
  apply (keeps_inv_rule i (λ o, match o with None => mret () | Some r => _ end)); [|apply keeps_inv_ret].
  intros r Hr. destruct (cancel_requested _).
  { apply keeps_inv_bind; [|done]. intros s Hs. by apply (inv_erase _ _ _ _ _ Hinv). }
  intros s Hs. rewrite bind_eq. unfold wrapper at 1. destruct (descriptors s !! fd r) as [w|] eqn:Hw; [|done].
  destruct (_ && _) eqn:Heof.
  { apply inv_retire_then; [done..| |done]. left. exists w. split; [done|].
    apply andb_true_iff in Heof as [Hd%bool_decide_eq_true He]. by right. }
  destruct (FileDescriptor.closed w) eqn:Hc; [|by apply IH].
  apply inv_retire_then; [done..| |done]. left. exists w. by auto.
Qed.

Lemma keeps_inv_prepare fuel : keeps_inv (EpollEventLoop.prepare call_interest call_back epoll_ctl order fuel).
Proof.
  apply keeps_inv_bind; [apply keeps_inv_sweep|]. intros _. apply keeps_inv_bind; [by intros s|]. intros m.
  apply keeps_inv_same, same_refresh.
Qed.

Lemma keeps_inv_drop_rules fuel i n revents :
  reported n revents → has_bits revents EPOLLERR = true → keeps_inv (EpollEventLoop.drop_rules call_back fuel i n).
Proof.
  intros Hrep Herr. revert i. induction fuel as [|fuel IH]; intros i; cbn [EpollEventLoop.drop_rules]; [by intros s|].
  apply (keeps_inv_rule i (λ o, match o with None => mret () | Some r => _ end)); [|apply keeps_inv_ret].
  intros r Hr s Hs. rewrite bind_eq. unfold wrapper at 1. destruct (descriptors s !! fd r) as [w|] eqn:Hw; [|done].
  case_bool_decide as Hn; [|by apply IH]. rewrite bind_eq. pose proof (inv_errored _ _ _ _ _ Hinv r s Hs Hr) as H.
  destruct (invoke _ _ _ s) as [[[]|e] s1]; [|done]. apply inv_retire_then; [done..| |apply IH].
  right. exists s, w, revents. unfold FileDescriptor.fd_num in Hn. rewrite Hn. by auto.
Qed.

Lemma keeps_inv_handle_errors fuel events callback :
  (∀ n revents, (n, revents) ∈ events → reported n revents) →
  keeps_inv (EpollEventLoop.handle_errors call_back epoll_ctl getsockopt fuel events callback).
Proof.
  revert callback. induction events as [|[n revents] events IH]; intros callback Hrep;
    cbn [EpollEventLoop.handle_errors]; [apply keeps_inv_ret|].
  assert (∀ n revents, (n, revents) ∈ events → reported n revents) as Hrep' by (intros m v Hin; apply Hrep; by right).
  destruct (has_bits revents EPOLLERR) eqn:He; [|by apply IH].
  apply keeps_inv_bind; [apply keeps_inv_same, same_report_error|]. intros _.
  apply keeps_inv_bind; [apply (keeps_inv_drop_rules _ _ _ revents); [apply Hrep; by left|done]|]. intros _.
  apply keeps_inv_bind; [apply keeps_inv_same, same_drop_state|]. intros _. by apply IH.
Qed.

(** The service of a rule after its interest was asked. *)
Lemma inv_serve r s :
  Inv s → known r → call_interest (interest (basic r)) s = Ok true → Inv (serve call_interest call_back r s).2.
Proof.
  intros Hs Hr Hi. destruct (serve_moves call_interest call_back r s) as [[->| ->] _]; [done|].
  by apply (inv_ran _ _ _ _ _ Hinv).
Qed.

Lemma keeps_inv_find_rule fuel i n revents :
  reported n revents → keeps_inv (EpollEventLoop.find_rule call_interest call_back fuel i n revents).
Proof.
  intros Hrep. revert i. induction fuel as [|fuel IH]; intros i; cbn [EpollEventLoop.find_rule]; [by intros s|].
  apply (keeps_inv_rule i (λ o, match o with None => mret Success | Some r => _ end)); [|apply keeps_inv_ret].
  intros r Hr s Hs. rewrite bind_eq. unfold wrapper at 1. destruct (descriptors s !! fd r) as [w|] eqn:Hw; [|done].
  case_bool_decide as Hn; [by apply IH|]. destruct (has_bits revents EPOLLHUP && _) eqn:Hhup.
  { apply inv_retire_then; [done..| |done]. right. unfold FileDescriptor.fd_num in Hn.
    subst n. exists s, w, revents. split_and!; [done..|]. right. by apply hung_up_tested. }
  clear Hhup. rewrite bind_eq. destruct (_ || _); [|by apply IH].
  unfold interested at 1. destruct (call_interest _ s) as [[]|] eqn:Hi; [by apply inv_serve|by apply IH|done].
Qed.

Lemma keeps_inv_serve_non_fd : keeps_inv (EpollEventLoop.serve_non_fd_rules call_interest call_back).
Proof.
  intros s Hs. unfold EpollEventLoop.serve_non_fd_rules, serve_non_fd_rules. rewrite bind_eq. cbn [gets].
  rewrite (inv_non_fd _ _ _ _ _ Hinv s Hs). cbn [length serve_from]. rewrite bind_eq. cbn [gets].
  by rewrite (inv_non_fd _ _ _ _ _ Hinv s Hs).
Qed.

Lemma keeps_inv_wait fuel timeout_ms :
  keeps_inv (EpollEventLoop.wait_next_event call_interest call_back epoll_ctl epoll_wait getsockopt order fuel timeout_ms).
Proof.
  apply keeps_inv_bind; [apply keeps_inv_serve_non_fd|]. intros [res|]; [apply keeps_inv_ret|].
  apply keeps_inv_bind; [apply keeps_inv_prepare|]. intros _. apply keeps_inv_bind; [by intros s|]. intros rs.
  case_bool_decide; [apply keeps_inv_ret|]. apply keeps_inv_bind; [by intros s|]. intros x.
  destruct (negb _); [apply keeps_inv_ret|].
  destruct (epoll_wait _ _ _ _) as [events|errno] eqn:Hwait; case_bool_decide; try by intros s.
  pose proof (Hreported _ _ _ _ _ Hwait) as Hrep.
  intros s Hs. rewrite bind_eq. pose proof (keeps_inv_handle_errors fuel events None Hrep s Hs) as Hs1.
  pose proof (handled_ready call_back epoll_ctl getsockopt fuel events None s) as Hready.
  destruct (EpollEventLoop.handle_errors _ _ _ _ _ _ s) as [[[[n revents]|]|e] s1]; [|done..].
  apply (keeps_inv_find_rule fuel 0 n revents); [|done]. apply Hrep. by destruct (Hready (n, revents) eq_refl).
Qed.
End invariant.
