(* ===== verification/Socket.v ===== *)
(** Sockets (src/util/socket.hh, src/util/socket.cc): calls on the descriptor a
    socket is, with the checks and counters around them. *)

From S2P Require Import Prelude Effects FileDescriptor Address.

Definition AF_UNIX : Z := 1.
Definition SOCK_STREAM : Z := 1.
Definition SOCK_DGRAM : Z := 2.
Definition IPPROTO_TCP : Z := 6.
Definition SOL_SOCKET : Z := 1.
Definition SO_REUSEADDR : Z := 2.
Definition SO_TYPE : Z := 3.
Definition SO_ERROR : Z := 4.
Definition SO_BINDTODEVICE : Z := 25.
Definition SO_PROTOCOL : Z := 38.
Definition SO_DOMAIN : Z := 39.
Definition SOL_PACKET : Z := 263.
Definition PACKET_ADD_MEMBERSHIP : Z := 1.
Definition PACKET_MR_PROMISC : Z := 1.
Definition SHUT_RD : Z := 0.
Definition SHUT_WR : Z := 1.
Definition SHUT_RDWR : Z := 2.

(** An [int] in memory. *)
Definition int_size : Z := 4.
Definition int_bytes (n : Z) : bytes := byte_of_Z <$> [n; Z.shiftr n 8; Z.shiftr n 16; Z.shiftr n 24].

(** [Address::Raw], zeroed. *)
Definition raw_storage : bytes := replicate (Z.to_nat STORAGE_SIZE) Byte.x00.

Module Socket.

(** The global [CheckSystemCall] around [socket(2)], then the descriptor. *)
Definition make (socket : Z → Z → Z → syscall Z) (getfl : syscall Z) (domain type protocol : Z) : result FDWrapper :=
  match socket domain type protocol with
  | Returned fd => FileDescriptor.make fd getfl
  | Failed _ => Err (unix_error "socket")
  end.

(** [getsockopt] of an option of type [int] that holds [old]: the new value and
    the length reported.  A call that would block leaves both. *)
Definition getsockopt (sys : Z → Z → Z → syscall (Z * Z)) (level option old : Z) : eff FDWrapper (Z * Z) :=
  n ← gets FileDescriptor.fd_num;
  match sys n level option with
  | Returned reply => mret reply
  | Failed errno =>
      b ← gets (FileDescriptor.would_block errno);
      if (b : bool) then mret (old, int_size) else mthrow (unix_error "getsockopt")
  end.

(** One check of the constructor from a descriptor. *)
Definition verify (sys : Z → Z → Z → syscall (Z * Z)) (option expected actual_value : Z) (what : string)
    : eff FDWrapper Z :=
  '(actual_value, len) ← getsockopt sys SOL_SOCKET option actual_value;
  if bool_decide (len ≠ int_size) || bool_decide (actual_value ≠ expected)
  then mthrow (Throw what) else mret actual_value.

(** [Socket( FileDescriptor&& fd, int domain, int type, int protocol )]. *)
Definition of_descriptor (sys : Z → Z → Z → syscall (Z * Z)) (domain type protocol : Z) : eff FDWrapper () :=
  v ← verify sys SO_DOMAIN domain 0 "socket domain mismatch";
  v ← verify sys SO_TYPE type v "socket type mismatch";
  v ← verify sys SO_PROTOCOL protocol v "socket protocol mismatch";
  mret ().

(** [function] answers with the bytes stored and their number. *)
Definition get_address (name_of_function : string) (function : Z → Z → syscall (bytes * Z)) : eff FDWrapper Address :=
  n ← gets FileDescriptor.fd_num;
  '(address, size) ←
    match function n STORAGE_SIZE with
    | Returned reply => mret reply
    | Failed errno =>
        b ← gets (FileDescriptor.would_block errno);
        if (b : bool) then mret (raw_storage, STORAGE_SIZE) else mthrow (unix_error name_of_function)
    end;
  lift (Address.of_sockaddr address size).

Definition local_address (getsockname : Z → Z → syscall (bytes * Z)) : eff FDWrapper Address :=
  get_address "getsockname" getsockname.
Definition peer_address (getpeername : Z → Z → syscall (bytes * Z)) : eff FDWrapper Address :=
  get_address "getpeername" getpeername.

(** [bind(2)] and [connect(2)], given the bytes of an address and their number. *)
Definition bind (sys : Z → bytes → Z → syscall Z) (address : Address) : eff FDWrapper () :=
  n ← gets FileDescriptor.fd_num;
  FileDescriptor.CheckSystemCall "bind" (sys n (_address address) (_size address)) ;; mret ().
Definition connect (sys : Z → bytes → Z → syscall Z) (address : Address) : eff FDWrapper () :=
  n ← gets FileDescriptor.fd_num;
  FileDescriptor.CheckSystemCall "connect" (sys n (_address address) (_size address)) ;; mret ().

Definition shutdown (sys : Z → Z → syscall Z) (how : Z) : eff FDWrapper () :=
  n ← gets FileDescriptor.fd_num;
  FileDescriptor.CheckSystemCall "shutdown" (sys n how) ;;
  if bool_decide (how = SHUT_RD) then FileDescriptor.register_read
  else if bool_decide (how = SHUT_WR) then FileDescriptor.register_write
  else if bool_decide (how = SHUT_RDWR) then FileDescriptor.register_read ;; FileDescriptor.register_write
  else mthrow (Throw "Socket::shutdown() called with invalid `how`").

Definition setsockopt (sys : Z → Z → Z → bytes → syscall Z) (level option : Z) (option_value : bytes)
    : eff FDWrapper () :=
  n ← gets FileDescriptor.fd_num;
  FileDescriptor.CheckSystemCall "setsockopt" (sys n level option option_value) ;; mret ().

Definition bind_to_device (sys : Z → Z → Z → bytes → syscall Z) (device_name : bytes) : eff FDWrapper () :=
  setsockopt sys SOL_SOCKET SO_BINDTODEVICE device_name.
Definition set_reuseaddr (sys : Z → Z → Z → bytes → syscall Z) : eff FDWrapper () :=
  setsockopt sys SOL_SOCKET SO_REUSEADDR (int_bytes 1).

Definition throw_if_error (sys : Z → Z → Z → syscall (Z * Z)) : eff FDWrapper () :=
  '(socket_error, len) ← getsockopt sys SOL_SOCKET SO_ERROR 0;
  if bool_decide (len ≠ int_size) then mthrow (Throw "unexpected length from getsockopt")
  else if bool_decide (socket_error ≠ 0) then mthrow (unix_error "socket error")
  else mret ().

End Socket.

Module DatagramSocket.

(** [recvfrom(2)] with [MSG_TRUNC] answers, when asked for so many bytes, with
    the length of the datagram, the bytes it stored, and the sender's address
    and its size.  A call that would block counts as a datagram of no bytes. *)
Definition recv (recvfrom : Z → Z → syscall (Z * bytes * bytes * Z)) : eff FDWrapper (Address * bytes) :=
  n ← gets FileDescriptor.fd_num;
  let payload := resize FileDescriptor.kReadBufferSize [] in
  '(recv_len, data, address, fromlen) ←
    match recvfrom n (zlen payload) with
    | Returned reply => mret reply
    | Failed errno =>
        b ← gets (FileDescriptor.would_block errno);
        if (b : bool) then mret (0, [], raw_storage, STORAGE_SIZE) else mthrow (unix_error "recvfrom")
    end;
  if bool_decide (recv_len > zlen payload) then mthrow (Throw "recvfrom (oversized datagram)")
  else
    FileDescriptor.register_read ;;
    source_address ← lift (Address.of_sockaddr address fromlen);
    mret (source_address, resize recv_len (data ++ zdrop (zlen data) payload)).

Definition sendto (sys : Z → bytes → bytes → Z → syscall Z) (destination : Address) (payload : bytes)
    : eff FDWrapper () :=
  n ← gets FileDescriptor.fd_num;
  FileDescriptor.CheckSystemCall "sendto" (sys n payload (_address destination) (_size destination)) ;;
  FileDescriptor.register_write.

Definition send (sys : Z → bytes → syscall Z) (payload : bytes) : eff FDWrapper () :=
  n ← gets FileDescriptor.fd_num;
  FileDescriptor.CheckSystemCall "send" (sys n payload) ;;
  FileDescriptor.register_write.

End DatagramSocket.

Module TCPSocket.

Definition listen (sys : Z → Z → syscall Z) (backlog : Z) : eff FDWrapper () :=
  n ← gets FileDescriptor.fd_num;
  FileDescriptor.CheckSystemCall "listen" (sys n backlog) ;; mret ().

(** [TCPSocket( FileDescriptor( fd ) )]. *)
Definition of_number (getfl : Z → syscall Z) (getsockopt : Z → Z → Z → syscall (Z * Z)) (fd : Z) : result FDWrapper :=
  w ← FileDescriptor.make fd (getfl fd);
  match Socket.of_descriptor getsockopt AF_INET SOCK_STREAM IPPROTO_TCP w with
  | (Ok _, w) => Ok w
  | (Err e, _) => Err e
  end.

(** The result is the wrapper of the new socket. *)
Definition accept (sys : Z → syscall Z) (getfl : Z → syscall Z) (getsockopt : Z → Z → Z → syscall (Z * Z))
    : eff FDWrapper FDWrapper :=
  FileDescriptor.register_read ;;
  n ← gets FileDescriptor.fd_num;
  fd ← FileDescriptor.CheckSystemCall "accept" (sys n);
  lift (of_number getfl getsockopt fd).

End TCPSocket.

Module PacketSocket.

(** [packet_mreq { ifindex, PACKET_MR_PROMISC, {}, {} }], from the index in a
    [sockaddr_ll]. *)
Definition set_promiscuous (getsockname : Z → Z → syscall (bytes * Z)) (sys : Z → Z → Z → bytes → syscall Z)
    : eff FDWrapper () :=
  local ← Socket.local_address getsockname;
  ll ← lift (Address.as_ SOCKADDR_LL_SIZE AF_PACKET local);
  Socket.setsockopt sys SOL_PACKET PACKET_ADD_MEMBERSHIP
    (ztake 4 (zdrop 4 ll) ++ [byte_of_Z PACKET_MR_PROMISC; Byte.x00; Byte.x00; Byte.x00] ++ replicate 8 Byte.x00).

End PacketSocket.

(** * Properties *)

Lemma zlen_payload : zlen (resize FileDescriptor.kReadBufferSize []) = FileDescriptor.kReadBufferSize.
Proof. by vm_compute. Qed.

Lemma keeps_check_socket attempt reply w :
  non_blocking_ w = false →
  FileDescriptor.CheckSystemCall attempt reply w =
  match reply with Returned n => (Ok n, w) | Failed _ => (Err (unix_error attempt), w) end.
Proof. intros Hw. destruct reply; [done|]. unfold FileDescriptor.CheckSystemCall. eff_run. unfold FileDescriptor.would_block. by rewrite Hw. Qed.

(** Receiving a datagram: one that fits comes back whole with its sender's
    address and is counted as a read; a longer one throws and leaves the socket
    as it was; a non-blocking socket without a datagram returns an empty one
    from an address of zeros, counted as well. *)
Theorem datagram_recv (recvfrom : Z → Z → syscall (Z * bytes * bytes * Z)) w :
  let reply := recvfrom (fd_ w) FileDescriptor.kReadBufferSize in
  (∀ data from, reply = Returned (zlen data, data, _address from, _size from) →
    zlen data ≤ FileDescriptor.kReadBufferSize → Address.of_sockaddr (_address from) (_size from) = Ok from →
    DatagramSocket.recv recvfrom w = (Ok (from, data), counted_read w)) ∧
  (∀ n data address len, reply = Returned (n, data, address, len) → FileDescriptor.kReadBufferSize < n →
    DatagramSocket.recv recvfrom w = (Err (Throw "recvfrom (oversized datagram)"), w)) ∧
  (∀ errno, reply = Failed errno →
    DatagramSocket.recv recvfrom w =
      if FileDescriptor.would_block errno w then (Ok (mkAddress STORAGE_SIZE raw_storage, []), counted_read w)
      else (Err (unix_error "recvfrom"), w)).
Proof.
  cbv zeta. unfold DatagramSocket.recv. split_and!.
  - intros data from Hr Hl Ha. eff_run. rewrite zlen_payload. unfold FileDescriptor.fd_num. rewrite Hr. eff_run.
    rewrite bool_decide_false by lia. eff_run. rewrite Ha. eff_run. by rewrite resize_le, ztake_app_zlen by zlen.
  - intros n data address len Hr Hn. eff_run. rewrite zlen_payload. unfold FileDescriptor.fd_num. rewrite Hr. eff_run.
    by rewrite bool_decide_true by lia.
  - intros errno Hr. eff_run. rewrite zlen_payload. unfold FileDescriptor.fd_num. rewrite Hr. eff_run.
    by destruct (FileDescriptor.would_block errno w).
Qed.

(** What the kernel says a descriptor is: a socket of this domain, type and
    protocol. *)
Definition is_socket (sys : Z → Z → Z → syscall (Z * Z)) (n domain type protocol : Z) : Prop :=
  sys n SOL_SOCKET SO_DOMAIN = Returned (domain, int_size) ∧
  sys n SOL_SOCKET SO_TYPE = Returned (type, int_size) ∧
  sys n SOL_SOCKET SO_PROTOCOL = Returned (protocol, int_size).

Lemma sockopt_ok sys option expected v what w :
  non_blocking_ w = false →
  Socket.verify sys option expected v what w =
  match sys (fd_ w) SOL_SOCKET option with
  | Returned (x, len) =>
      if bool_decide (x = expected ∧ len = int_size) then (Ok x, w) else (Err (Throw what), w)
  | Failed _ => (Err (unix_error "getsockopt"), w)
  end.
Proof.
  intros Hw. unfold Socket.verify, Socket.getsockopt. eff_run. unfold FileDescriptor.fd_num.
  destruct (sys (fd_ w) SOL_SOCKET option) as [[x len]|errno].
  - cbn. destruct (decide (len = int_size)), (decide (x = expected));
      repeat first [rewrite (bool_decide_true (len ≠ int_size)) by done|rewrite (bool_decide_false (len ≠ int_size)) by auto
        |rewrite (bool_decide_true (x ≠ expected)) by done|rewrite (bool_decide_false (x ≠ expected)) by auto]; cbn;
      first [rewrite bool_decide_true by done|rewrite bool_decide_false by naive_solver]; done.
  - eff_run. unfold FileDescriptor.would_block. rewrite Hw. done.
Qed.

Lemma of_descriptor_ok sys domain type protocol w :
  non_blocking_ w = false →
  (Socket.of_descriptor sys domain type protocol w).2 = w ∧
  ((Socket.of_descriptor sys domain type protocol w).1 = Ok () ↔ is_socket sys (fd_ w) domain type protocol).
Proof.
  intros Hw. unfold Socket.of_descriptor, is_socket. rewrite bind_eq, sockopt_ok by done.
  destruct (sys (fd_ w) SOL_SOCKET SO_DOMAIN) as [[x len]|]; [|naive_solver].
  case_bool_decide as H1; [destruct H1 as [-> ->]|naive_solver]. rewrite bind_eq, sockopt_ok by done.
  destruct (sys (fd_ w) SOL_SOCKET SO_TYPE) as [[x1 len1]|]; [|naive_solver].
  case_bool_decide as H2; [destruct H2 as [-> ->]|naive_solver]. rewrite bind_eq, sockopt_ok by done.
  destruct (sys (fd_ w) SOL_SOCKET SO_PROTOCOL) as [[x2 len2]|]; [|naive_solver].
  case_bool_decide as H3; [destruct H3 as [-> ->]|naive_solver]. done.
Qed.

Lemma of_number_ok getfl getsockopt fd flags :
  0 ≤ fd → getfl fd = Returned flags → Z.land flags O_NONBLOCK = 0 →
  let r := TCPSocket.of_number getfl getsockopt fd in
  (r = Ok (mkFDWrapper fd false false false 0 0) ↔ is_socket getsockopt fd AF_INET SOCK_STREAM IPPROTO_TCP) ∧
  (is_socket getsockopt fd AF_INET SOCK_STREAM IPPROTO_TCP ∨ ∃ e, r = Err e).
Proof.
  intros Hfd Hf Hb. cbv zeta. unfold TCPSocket.of_number.
  assert (FileDescriptor.make fd (getfl fd) = Ok (mkFDWrapper fd false false false 0 0)) as ->.
  { unfold FileDescriptor.make. rewrite bool_decide_false by lia. rewrite Hf. cbn. by rewrite bool_decide_false by auto. }
  rewrite bind_Ok_l.
  destruct (of_descriptor_ok getsockopt AF_INET SOCK_STREAM IPPROTO_TCP (mkFDWrapper fd false false false 0 0) eq_refl)
    as [Hs Hok]. cbn [fd_] in Hok.
  destruct (Socket.of_descriptor _ _ _ _ _) as [[[]|e] w0]; cbn [fst snd] in *; [subst w0|]; split; try naive_solver.
Qed.

(** Accepting: a connection's descriptor is wrapped, fresh and in blocking
    mode, exactly if the kernel says it is a TCP socket, and an exception is
    thrown otherwise; the call is counted as a read of the listener in every
    case.  On a non-blocking listener without a connection the call does not
    fail: descriptor 0 is taken for the new one. *)
Theorem tcp_accept sys getfl getsockopt w :
  let '(r, w') := TCPSocket.accept sys getfl getsockopt w in
  w' = counted_read w ∧
  match
    match sys (fd_ w) with
    | Returned fd => Some fd
    | Failed errno => if FileDescriptor.would_block errno w then Some 0 else None
    end
  with
  | None => r = Err (unix_error "accept")
  | Some fd => ∀ flags, 0 ≤ fd → getfl fd = Returned flags → Z.land flags O_NONBLOCK = 0 →
      (r = Ok (mkFDWrapper fd false false false 0 0) ↔ is_socket getsockopt fd AF_INET SOCK_STREAM IPPROTO_TCP) ∧
      (is_socket getsockopt fd AF_INET SOCK_STREAM IPPROTO_TCP ∨ ∃ e, r = Err e)
  end.
Proof.
  assert (TCPSocket.accept sys getfl getsockopt w =
    match FileDescriptor.CheckSystemCall "accept" (sys (fd_ w)) (counted_read w) with
    | (Ok fd, w') => (TCPSocket.of_number getfl getsockopt fd, w')
    | (Err e, w') => (Err e, w')
    end) as -> by done.
  destruct (sys (fd_ w)) as [fd|errno]; cbn [FileDescriptor.CheckSystemCall].
  - split; [done|]. intros flags. apply of_number_ok.
  - eff_run. change (FileDescriptor.would_block errno (counted_read w)) with (FileDescriptor.would_block errno w).
    destruct (FileDescriptor.would_block errno w); [|done]. split; [done|]. intros flags. apply of_number_ok.
Qed.

(** ** Examples *)

Definition demo_from : Address :=
  mkAddress SOCKADDR_IN_SIZE (sockaddr_in 1 80 ++ replicate 112 Byte.x00).

Lemma datagram_recv_witness :
  DatagramSocket.recv (λ n asked, Returned (1, [Byte.x07], _address demo_from, SOCKADDR_IN_SIZE)) demo_wrapper =
    (Ok (demo_from, [Byte.x07]), counted_read demo_wrapper) ∧
  DatagramSocket.recv (λ n asked, Failed EAGAIN) demo_wrapper =
    (Ok (mkAddress STORAGE_SIZE raw_storage, []), counted_read demo_wrapper) ∧
  DatagramSocket.recv (λ n asked, Returned (70000, [], [], 0)) demo_wrapper =
    (Err (Throw "recvfrom (oversized datagram)"), demo_wrapper).
Proof.
  split_and!.
  - apply (proj1 (datagram_recv (λ n asked, Returned (1, [Byte.x07], _address demo_from, SOCKADDR_IN_SIZE)) demo_wrapper));
    by vm_compute.
  - exact (proj2 (proj2 (datagram_recv (λ n asked, Failed EAGAIN) demo_wrapper)) EAGAIN eq_refl).
  - apply (proj1 (proj2 (datagram_recv (λ n asked, Returned (70000, [], [], 0)) demo_wrapper)) 70000 [] [] 0); [done|].
    unfold FileDescriptor.kReadBufferSize. lia.
Defined.

(** A listener that would block hands out descriptor 0. *)
Definition tcp_option (n level option : Z) : syscall (Z * Z) :=
  Returned (if bool_decide (option = SO_DOMAIN) then AF_INET
            else if bool_decide (option = SO_TYPE) then SOCK_STREAM else IPPROTO_TCP, int_size).

Lemma tcp_accept_witness :
  (TCPSocket.accept (λ _, Failed EAGAIN) (λ _, Returned 0) tcp_option demo_wrapper).1 =
    Ok (mkFDWrapper 0 false false false 0 0).
Proof.
  pose proof (tcp_accept (λ _, Failed EAGAIN) (λ _, Returned 0) tcp_option demo_wrapper) as H.
  destruct (TCPSocket.accept _ _ _ demo_wrapper) as [r w']. destruct H as [_ H]. cbn in H.
  apply (H 0); [lia|done|done|]. split_and!; by vm_compute.
Defined.
