(* ===== verification/Pipe.v ===== *)
(** Streams of bytes behind descriptors, as a program that copies them sees
    them: the outcomes of a read from a source of so many bytes and of a write
    to a sink, and what the calls leave of a wrapper's flags. *)

From S2P Require Import Prelude Effects FileDescriptor.
From S2P Require Socket.

(** What read(2) answers at a position of a stream: how many bytes come. *)
Definition source_read (st : Z → byte) (pos : Z) (answer : Z → syscall Z) (len : Z) : syscall bytes :=
  match answer len with
  | Returned m => Returned (slice st pos m)
  | Failed e => Failed e
  end.

(** The documented behaviour of a stream of [total] bytes: no more than asked
    for, and nothing only at the end. *)
Definition reads_ok (total pos : Z) (answer : Z → syscall Z) : Prop :=
  ∀ n m, 0 ≤ n → answer n = Returned m → 0 ≤ m ≤ n ∧ pos + m ≤ total ∧ (m = 0 → 0 < n → pos = total).

(** Calls that leave the marks for the end of file and for closing alone. *)
Definition same_flags (w w' : FDWrapper) : Prop := eof_ w' = eof_ w ∧ closed_ w' = closed_ w.
#[export] Instance same_flags_preorder : PreOrder same_flags.
Proof. split; [done|]. unfold same_flags. intros ???. naive_solver congruence. Qed.

Lemma source_read_ok st total pos answer buf w r w' :
  0 ≤ pos → reads_ok total pos answer → 0 < zlen buf →
  FileDescriptor.read (source_read st pos answer) buf w = (r, w') →
  closed_ w' = closed_ w ∧
  match r with
  | Ok data => data = slice st pos (zlen data) ∧ zlen data ≤ zlen buf ∧ (pos ≤ total → pos + zlen data ≤ total) ∧
      (eof_ w' = true → eof_ w = true ∨ pos = total)
  | Err _ => eof_ w' = eof_ w
  end.
Proof.
  intros Hpos Hok Hbuf. unfold FileDescriptor.read, source_read. rewrite bool_decide_false by (intros ->; done).
  destruct (answer (zlen buf)) as [m|e] eqn:Hm.
  - destruct (Hok (zlen buf) m) as (Hm0&Hmt&Heof); [lia|done|].
    assert (zlen (slice st pos m) = m) as Hl by (rewrite zlen_slice; lia). rewrite Hl.
    eff_run. cbv beta iota delta [FileDescriptor.register_read modify]. rewrite bind_eq.
    case_bool_decide as Hz; eff_run; rewrite (bool_decide_false (m > zlen buf)) by lia; intros [= <- <-].
    all: rewrite resize_le, ztake_app_le, ztake_ge, Hl by zlen; split_and!; [done|done|lia|lia|cbn; auto].
  - eff_run. destruct (FileDescriptor.would_block e w); intros [= <- <-]; [|done].
    split_and!; [done|done|zlen|zlen|by left].
Qed.

(** A write takes some of the bytes, or throws. *)
Lemma sink_write_ok (P : Z → Prop) sys_writev view w r w' :
  FileDescriptor.write sys_writev view w = (r, w') → view ≠ [] →
  (∀ m, sys_writev [view] = Returned m → 0 ≤ m ∧ P m) →
  same_flags w w' ∧ ∀ m, r = Ok m → 0 ≤ m ≤ zlen view ∧ P m.
Proof.
  unfold FileDescriptor.write, FileDescriptor.writev. rewrite bind_eq. cbn [concat]. rewrite app_nil_r.
  destruct (sys_writev [view]) as [m|e] eqn:Hm; cbn [FileDescriptor.CheckSystemCall].
  - intros Hr Hv Hok. destruct (Hok m eq_refl) as [Hm0 Hp]. revert Hr.
    cbv beta iota delta [mret eff_ret FileDescriptor.register_write modify]. rewrite bind_eq.
    destruct (_ && _); [by intros [= <- <-]|].
    case_bool_decide; intros [= <- <-]; (split; [done|]); [done|]. intros ? [= <-]. split; [lia|done].
  - eff_run. destruct (FileDescriptor.would_block e w); [|by intros [= <- <-]].
    cbv beta iota delta [FileDescriptor.register_write modify]. rewrite bind_eq.
    intros Hr Hv. rewrite (bool_decide_true (0 = 0)), (bool_decide_true (zlen view ≠ 0)) in Hr
      by (done || by intros ?%zlen_0).
    cbn [andb] in Hr. by injection Hr as <- <-.
Qed.

Lemma same_flags_check a r : keeps same_flags (FileDescriptor.CheckSystemCall a r).
Proof.
  destruct r as [n|e]; [by intros w|]. cbn [FileDescriptor.CheckSystemCall].
  apply keeps_bind; [apply _|by intros w|]. by intros [] w.
Qed.

Lemma same_flags_writev sys bufs : keeps same_flags (FileDescriptor.writev sys bufs).
Proof.
  unfold FileDescriptor.writev. apply keeps_bind; [apply _|apply same_flags_check|]. intros n.
  apply keeps_bind; [apply _|by intros w|]. intros _. by repeat case_bool_decide.
Qed.

Lemma same_flags_connect sys address : keeps same_flags (Socket.Socket.connect sys address).
Proof.
  unfold Socket.Socket.connect. apply keeps_bind; [apply _|by intros w|]. intros n.
  apply keeps_bind; [apply _|apply same_flags_check|by intros _ w].
Qed.

Lemma same_flags_shutdown sys how : keeps same_flags (Socket.Socket.shutdown sys how).
Proof.
  unfold Socket.Socket.shutdown. apply keeps_bind; [apply _|by intros w|]. intros n.
  apply keeps_bind; [apply _|apply same_flags_check|]. intros _.
  by repeat (case_bool_decide; [by intros w|]).
Qed.

Lemma same_flags_set_blocking b getfl setfl : keeps same_flags (FileDescriptor.set_blocking b getfl setfl).
Proof.
  unfold FileDescriptor.set_blocking. apply keeps_bind; [apply _|apply same_flags_check|]. intros n.
  apply keeps_bind; [apply _|apply same_flags_check|]. intros _. by intros w.
Qed.

(** A new wrapper is not at its end. *)
Lemma make_eof fd getfl w : FileDescriptor.make fd getfl = Ok w → eof_ w = false ∧ closed_ w = false.
Proof.
  unfold FileDescriptor.make. case_bool_decide; [done|]. set (w0 := mkFDWrapper _ _ _ _ _ _).
  pose proof (same_flags_check "fcntl" getfl w0) as Hk.
  destruct (FileDescriptor.CheckSystemCall "fcntl" getfl w0) as [[flags|e] w1]; [|done]. intros [= <-]. exact Hk.
Qed.

(** Calls that return what the kernel answered. *)
Lemma source_read_eof st pos answer buf w m :
  0 < zlen buf → answer (zlen buf) = Returned m → 0 ≤ m ≤ zlen buf →
  ∃ w', FileDescriptor.read (source_read st pos answer) buf w = (Ok (slice st pos m), w') ∧
    eof_ w' = eof_ w || bool_decide (m = 0).
Proof.
  intros Hbuf Hm Hr. unfold FileDescriptor.read, source_read. rewrite bool_decide_false by (intros ->; done).
  rewrite Hm. assert (zlen (slice st pos m) = m) as Hl by (rewrite zlen_slice; lia). rewrite Hl.
  eff_run. cbv beta iota delta [FileDescriptor.register_read modify]. rewrite bind_eq.
  case_bool_decide as Hz; eff_run; rewrite (bool_decide_false (m > zlen buf)) by lia; eexists; split.
  1, 3: by rewrite resize_le, ztake_app_le, ztake_ge by zlen.
  all: cbn; by rewrite ?orb_true_r, ?orb_false_r.
Qed.

Lemma source_read_returns st pos answer buf w m :
  0 < zlen buf → answer (zlen buf) = Returned m → 0 ≤ m ≤ zlen buf →
  ∃ w', FileDescriptor.read (source_read st pos answer) buf w = (Ok (slice st pos m), w').
Proof. intros Hb Hm Hr. destruct (source_read_eof st pos answer buf w m Hb Hm Hr) as (w'&?&_). by exists w'. Qed.

Lemma sink_write_returns sys_writev view w m :
  view ≠ [] → sys_writev [view] = Returned m → 1 ≤ m ≤ zlen view →
  ∃ w', FileDescriptor.write sys_writev view w = (Ok m, w').
Proof.
  intros Hv Hm Hr. unfold FileDescriptor.write, FileDescriptor.writev. rewrite bind_eq, Hm. cbn [concat FileDescriptor.CheckSystemCall].
  rewrite app_nil_r. cbv beta iota delta [mret eff_ret FileDescriptor.register_write modify]. rewrite bind_eq.
  rewrite (bool_decide_false (m = 0)), (bool_decide_false (m > zlen view)) by lia. by eexists.
Qed.
