(* ===== verification/StreamCopy.v ===== *)
(** The copying between a socket and the standard input and output of the
    applications (src/apps/bidirectional_stream_copy.cc): two byte streams and
    four rules on the poll loop. *)

From S2P Require Import Prelude ByteStream Effects FileDescriptor EventRules EventLoop EventInvariant Pipe.
From S2P Require Socket.
From Stdlib Require Import Sorting.Sorted.

(** * The state *)

(** The streams are of two directions: from the standard input to the socket,
    and from the socket to the standard output. *)
Inductive side : Type := Outbound | Inbound.
#[export] Instance side_eq_dec : EqDecision side := ltac:(solve_decision).

(** What the callbacks of the rules are. *)
Inductive code : Type :=
  | Fill (d : side) | WantsFill (d : side)
  | Drain (d : side) | WantsDrain (d : side)
  | Close (d : side) | Fail.

#[export] Instance code_eq_dec : EqDecision code := ltac:(solve_decision).
#[export] Instance basic_rule_eq_dec : EqDecision (BasicRule code) := ltac:(solve_decision).
#[export] Instance rule_eq_dec : EqDecision (FDRule code) := ltac:(solve_decision).

(** One direction: its stream, whether its end was passed on, and what passed
    through the kernel: the number of bytes taken from the source and the bytes
    the sink accepted. *)
Record half : Type := mkHalf {
  buffer : ByteStream;
  is_shutdown : bool;
  taken : Z;
  given : bytes;
}.
Record copy : Type := mkCopy {
  outbound : half;
  inbound : half;
  now : nat;
}.

Definition half_of (d : side) (w : copy) : half := match d with Outbound => outbound w | Inbound => inbound w end.
Definition set_half (d : side) (h : half) (w : copy) : copy :=
  match d with
  | Outbound => mkCopy h (inbound w) (now w)
  | Inbound => mkCopy (outbound w) h (now w)
  end.
Definition pass_time (w : copy) : copy := mkCopy (outbound w) (inbound w) (S (now w)).
Definition other (d : side) : side := match d with Outbound => Inbound | Inbound => Outbound end.

Definition set_buffer (b : ByteStream) (h : half) : half := mkHalf b (is_shutdown h) (taken h) (given h).
Definition set_shutdown (h : half) : half := mkHalf (buffer h) true (taken h) (given h).
Definition take_bytes (n : Z) (h : half) : half := mkHalf (buffer h) (is_shutdown h) (taken h + n) (given h).
Definition give_bytes (data : bytes) (h : half) : half := mkHalf (buffer h) (is_shutdown h) (taken h) (given h ++ data).

(** The system: what the calls answer at the times they are made; the bytes
    that come from a source are a stream. *)
Record system : Type := mkSystem {
  source_bytes : side → Z → byte;
  sys_read : nat → side → Z → Z → syscall Z;
  sys_writev : nat → side → Z → list bytes → syscall Z;
  sys_shutdown : nat → Z → Z → syscall Z;
  sys_close : nat → Z → syscall Z;
  sys_poll : nat → list pollfd → Z → syscall (Z * list Z);
  sys_getsockopt : nat → Z → syscall (Z * Z);
}.

Definition buffer_size : Z := 1048576.
Definition STDIN_FILENO : Z := 0.
Definition STDOUT_FILENO : Z := 1.

(** The descriptors. *)
Definition input : nat := 0.
Definition output : nat := 1.
Definition socket : nat := 2.
Definition source (d : side) : nat := match d with Outbound => input | Inbound => socket end.
Definition sink (d : side) : nat := match d with Outbound => socket | Inbound => output end.

(** * The program *)

Section program.
Context (os : system).
Abbreviation sys := (state code () copy).

Definition change (f : copy → copy) : eff sys () := modify (λ s, with_world (f (world s)) s).
Definition get_half (d : side) : eff sys half := gets (λ s, half_of d (world s)).
Definition change_half (d : side) (f : half → half) : eff sys () := change (λ w, set_half d (f (half_of d w)) w).
Definition on_buffer (d : side) (f : ByteStream → ByteStream) : eff sys () :=
  change_half d (λ h, set_buffer (f (buffer h)) h).
Definition call_time : eff sys nat := n ← gets (λ s, now (world s)); change pass_time ;; mret n.

(** [input.read( data )] and [socket.read( data )]. *)
Definition read_source (d : side) (data : bytes) : eff sys bytes :=
  n ← call_time;
  h ← get_half d;
  data ← on_descriptor (source d)
    (FileDescriptor.read (source_read (source_bytes os d) (taken h) (sys_read os n d (taken h))) data);
  change_half d (take_bytes (zlen data)) ;;
  mret data.

(** [socket.write( view )] and [output.write( view )]. *)
Definition write_sink (d : side) (view : bytes) : eff sys Z :=
  n ← call_time;
  h ← get_half d;
  bytes_written ← on_descriptor (sink d) (FileDescriptor.write (sys_writev os n d (zlen (given h))) view);
  change_half d (give_bytes (ztake bytes_written view)) ;;
  mret bytes_written.

(** The callbacks of rules 1 and 3. *)
Definition fill (d : side) : eff sys () :=
  h ← get_half d;
  data ← read_source d (resize (Writer.available_capacity (buffer h)) []);
  on_buffer d (Writer.push data) ;;
  w ← wrapper (source d);
  when (FileDescriptor.eof w) (on_buffer d Writer.close).

Definition wants_fill (d : side) (w : copy) : bool :=
  let b := buffer (half_of d w) in
  negb (has_error b) && negb (has_error (buffer (half_of (other d) w)))
  && bool_decide (Writer.available_capacity b > 0) && negb (Writer.is_closed b).

(** [socket.shutdown( SHUT_WR )] and [output.close()]. *)
Definition end_sink (d : side) : eff sys () :=
  n ← call_time;
  match d with
  | Outbound => on_descriptor socket (Socket.Socket.shutdown (sys_shutdown os n) Socket.SHUT_WR)
  | Inbound => w ← wrapper output; on_descriptor output (FileDescriptor.close (sys_close os n (FileDescriptor.fd_num w)))
  end.

(** The callbacks of rules 2 and 4. *)
Definition drain (d : side) : eff sys () :=
  h ← get_half d;
  when (bool_decide (Reader.bytes_buffered (buffer h) ≠ 0))
    (view ← lift (Reader.peek (buffer h));
     bytes_written ← write_sink d view;
     h ← get_half d;
     b ← lift (Reader.pop bytes_written (buffer h));
     change_half d (set_buffer b)) ;;
  h ← get_half d;
  when (Reader.is_finished (buffer h)) (end_sink d ;; change_half d set_shutdown).

Definition wants_drain (d : side) (w : copy) : bool :=
  let h := half_of d w in
  bool_decide (Reader.bytes_buffered (buffer h) ≠ 0) || (Reader.is_finished (buffer h) && negb (is_shutdown h)).

Definition fail : eff sys () := on_buffer Outbound set_error ;; on_buffer Inbound set_error.

Definition call_interest (c : code) (s : sys) : result bool :=
  match c with
  | WantsFill d => Ok (wants_fill d (world s))
  | WantsDrain d => Ok (wants_drain d (world s))
  | _ => Ok true
  end.

Definition call_back (c : code) : eff sys () :=
  match c with
  | Fill d => fill d
  | Drain d => drain d
  | Close d => on_buffer d Writer.close
  | Fail => fail
  | _ => mret ()
  end.

Definition add_rule (name : string) (fd : nat) (direction : Direction) (callback interest cancel error : code)
    : eff sys nat :=
  category_id ← add_category name;
  add_fd_rule category_id fd direction callback interest cancel error.

Definition add_rules : eff sys () :=
  add_rule "read from stdin into outbound byte stream" input In (Fill Outbound) (WantsFill Outbound) (Close Outbound) Fail ;;
  add_rule "read from outbound byte stream into socket" socket Out (Drain Outbound) (WantsDrain Outbound) (Close Outbound)
    Fail ;;
  add_rule "read from socket into inbound byte stream" socket In (Fill Inbound) (WantsFill Inbound) (Close Inbound) Fail ;;
  add_rule "read from inbound byte stream into stdout" output Out (Drain Inbound) (WantsDrain Inbound) (Close Inbound)
    Fail ;;
  mret ().

Definition wait_next_event (timeout_ms : Z) : eff sys Result :=
  n ← call_time;
  rs ← gets _fd_rules;
  EventLoop.wait_next_event call_interest call_back (sys_poll os n) (sys_getsockopt os n) (S (length rs)) timeout_ms.

(** [fuel] bounds the calls of [wait_next_event]. *)
Fixpoint loop (fuel : nat) : eff sys () :=
  match fuel with
  | O => mthrow OutOfFuel
  | S fuel =>
      res ← wait_next_event (-1);
      match res with Exit => mret () | _ => loop fuel end
  end.

Definition set_blocking (getfl : Z → syscall Z) (setfl : Z → Z → syscall Z) (f : nat) : eff sys () :=
  w ← wrapper f;
  let n := FileDescriptor.fd_num w in
  on_descriptor f (FileDescriptor.set_blocking false (getfl n) (setfl n)).

(** The objects at the start, with the caller's socket. *)
Definition start (getfl : Z → syscall Z) (sock : FDWrapper) : result sys :=
  in_ ← FileDescriptor.make STDIN_FILENO (getfl STDIN_FILENO);
  out ← FileDescriptor.make STDOUT_FILENO (getfl STDOUT_FILENO);
  let empty := mkHalf (ByteStream.new buffer_size) false 0 [] in
  Ok (mkState [] [] [] 0 {[input := in_; output := out; socket := sock]} [] () (mkCopy empty empty 0)).

Definition bidirectional_stream_copy (fuel : nat) (getfl : Z → syscall Z) (setfl : Z → Z → syscall Z) : eff sys () :=
  set_blocking getfl setfl socket ;;
  set_blocking getfl setfl input ;;
  set_blocking getfl setfl output ;;
  add_rules ;;
  loop fuel.
End program.

(** * The invariant *)

(** The rules as the loop numbers them. *)
Definition fill_rule (d : side) : FDRule code :=
  let i := match d with Outbound => 0%nat | Inbound => 2%nat end in
  mkFDRule (mkBasicRule i i (WantsFill d) (Fill d) false) (source d) In (Close d) Fail.
Definition drain_rule (d : side) : FDRule code :=
  let i := match d with Outbound => 1%nat | Inbound => 3%nat end in
  mkFDRule (mkBasicRule i i (WantsDrain d) (Drain d) false) (sink d) Out (Close d) Fail.
Definition copy_rules : list (FDRule code) :=
  [fill_rule Outbound; drain_rule Outbound; fill_rule Inbound; drain_rule Inbound].

Lemma copy_rule r : r ∈ copy_rules ↔ ∃ d, r = fill_rule d ∨ r = drain_rule d.
Proof.
  unfold copy_rules. rewrite !elem_of_cons, elem_of_nil. split; [naive_solver|]. intros ([]&[->| ->]); auto.
Qed.

(** The documented behaviour of the descriptors: each source delivers a stream
    of so many bytes. *)
Record system_ok (os : system) (total : side → Z) : Prop := mkSystemOk {
  os_total d : 0 ≤ total d;
  os_read n d pos : 0 ≤ pos ≤ total d → reads_ok (total d) pos (sys_read os n d pos);
  os_write n d pos bufs m : sys_writev os n d pos bufs = Returned m → 0 ≤ m;
}.

(** poll(2) reports a hangup or an error at some time. *)
Definition hung (os : system) : Prop :=
  ∃ t ps timeout n revs revent, sys_poll os t ps timeout = Returned (n, revs) ∧ revent ∈ revs ∧ hangup revent.

Section invariant.
Context (os : system) (total : side → Z) (Hos : system_ok os total).
Abbreviation sys := (state code () copy).
Implicit Types (s : sys) (h : half).

(** One direction: what was taken from the source is in the stream [a], what is
    read of it was given to the sink. *)
Record half_ok (d : side) h (a : stream) : Prop := mkHalfOk {
  ho_refines : refines (buffer h) a;
  ho_cap : cap a = buffer_size;
  ho_taken : taken h = zlen (written a);
  ho_total : taken h ≤ total d;
  ho_written : written a = slice (source_bytes os d) 0 (taken h);
  ho_given : given h = ztake (nread a) (written a);
  ho_fin : fin a = true → taken h = total d ∨ hung os;
  ho_shut : is_shutdown h = true → fin a = true ∧ unread a = [];
}.

Definition at_half (d : side) s : half := half_of d (world s).

Record devices_ok s : Prop := mkDevicesOk {
  do_source d : ∃ w, descriptors s !! source d = Some w ∧ closed_ w = false ∧
    (eof_ w = true → taken (at_half d s) = total d);
  do_output : ∃ w, descriptors s !! output = Some w ∧ (closed_ w = true → is_shutdown (at_half Inbound s) = true);
}.

Record copy_inv s : Prop := mkCopyInv {
  ci_rules r : r ∈ _fd_rules s → r ∈ copy_rules;
  ci_sorted : StronglySorted lt (fd_ids s);
  ci_non_fd : _non_fd_rules s = [];
  ci_devices : devices_ok s;
  ci_half d : ∃ a, half_ok d (at_half d s) a;
  ci_error d : has_error (buffer (at_half d s)) = true → has_error (buffer (at_half (other d) s)) = true ∧ hung os;
  ci_fill d : fill_rule d ∈ _fd_rules s ∨ Writer.is_closed (buffer (at_half d s)) = true;
  ci_drain d : drain_rule d ∈ _fd_rules s ∨ hung os ∨ is_shutdown (at_half d s) = true;
}.

(** ** Steps of one direction *)

(** A step touches the descriptors and the half of one direction; its error is
    as before, and what was ended stays so. *)
Record moves (d : side) s s' : Prop := mkMoves {
  mv_rules : _fd_rules s' = _fd_rules s;
  mv_non_fd : _non_fd_rules s' = _non_fd_rules s;
  mv_other : at_half (other d) s' = at_half (other d) s;
  mv_error : has_error (buffer (at_half d s')) = has_error (buffer (at_half d s));
  mv_closed : Writer.is_closed (buffer (at_half d s)) = true → Writer.is_closed (buffer (at_half d s')) = true;
  mv_shut : is_shutdown (at_half d s) = true → is_shutdown (at_half d s') = true;
}.
#[local] Instance moves_preorder d : PreOrder (moves d).
Proof. split; [by intros s|]. intros s1 s2 s3 [] []. split; try congruence; auto. Qed.

Lemma side_cases d e : e = d ∨ e = other d.
Proof. destruct d, e; auto. Qed.

Lemma other_other d : other (other d) = d.
Proof. by destruct d. Qed.

Lemma inv_moves d s s' :
  moves d s s' → devices_ok s' → (∃ a, half_ok d (at_half d s') a) → copy_inv s → copy_inv s'.
Proof.
  intros [Er En Eo Ee Hc Hsh] Hd Ha [Hr Hso Hn _ Hh He Hf Hdr].
  assert (∀ e, Writer.is_closed (buffer (at_half e s)) = true → Writer.is_closed (buffer (at_half e s')) = true) as Hc'.
  { intros e. destruct (side_cases d e) as [->| ->]; [done|by rewrite Eo]. }
  assert (∀ e, is_shutdown (at_half e s) = true → is_shutdown (at_half e s') = true) as Hsh'.
  { intros e. destruct (side_cases d e) as [->| ->]; [done|by rewrite Eo]. }
  assert (∀ e, has_error (buffer (at_half e s')) = has_error (buffer (at_half e s))) as He'.
  { intros e. destruct (side_cases d e) as [->| ->]; [done|by rewrite Eo]. }
  split; rewrite ?Er; try done.
  - unfold fd_ids. by rewrite Er.
  - by rewrite En.
  - intros e. destruct (side_cases d e) as [->| ->]; [done|]. rewrite Eo. apply Hh.
  - intros e. rewrite !He'. apply He.
  - intros e. destruct (Hf e); auto.
  - intros e. destruct (Hdr e) as [|[|]]; auto.
Qed.

(** [safe m s]: the invariant holds wherever [m] stops. *)
Definition safe {A} (m : eff sys A) s : Prop := post m s (λ _ s', copy_inv s').

(** The state after one call of the system. *)
Definition pass s : sys := with_world (pass_time (world s)) s.
Lemma copy_time_eq s : call_time s = (Ok (now (world s)), pass s).
Proof. done. Qed.
Lemma get_half_eq d s : get_half d s = (Ok (at_half d s), s).
Proof. done. Qed.
Lemma at_half_pass d s : at_half d (pass s) = at_half d s.
Proof. by destruct d. Qed.

Definition with_half (d : side) (h : half) s : sys := with_world (set_half d h (world s)) s.
Lemma change_half_eq d f s : change_half d f s = (Ok (), with_half d (f (at_half d s)) s).
Proof. done. Qed.
Lemma at_with_half d h s : at_half d (with_half d h s) = h.
Proof. by destruct d. Qed.
Lemma at_with_other d h s : at_half (other d) (with_half d h s) = at_half (other d) s.
Proof. by destruct d. Qed.
Lemma at_half_descriptors d ds s : at_half d (with_descriptors ds s) = at_half d s.
Proof. done. Qed.

Lemma devices_insert f w w' s s' :
  devices_ok s → descriptors s !! f = Some w → descriptors s' = <[f := w']> (descriptors s) →
  (∀ e, source e = f → closed_ w' = false ∧ (eof_ w' = true → taken (at_half e s') = total e)) →
  (∀ e, source e ≠ f → taken (at_half e s') = taken (at_half e s)) →
  (f = output → closed_ w' = true → is_shutdown (at_half Inbound s') = true) →
  (is_shutdown (at_half Inbound s) = true → is_shutdown (at_half Inbound s') = true) → devices_ok s'.
Proof.
  intros [Hsrc (wo&Ho&Hoc)] Hf Hd He Hne Hout Hsh. split; rewrite Hd.
  - intros e. destruct (decide (f = source e)) as [->|Hn].
    + exists w'. split; [by rewrite lookup_insert, decide_True|]. by apply He.
    + rewrite lookup_insert_ne, Hne by done. apply Hsrc.
  - destruct (decide (f = output)) as [->|Hn].
    + exists w'. split; [by rewrite lookup_insert, decide_True|]. by apply Hout.
    + rewrite lookup_insert_ne by done. exists wo. auto.
Qed.

(** Only the half changes, and not what was taken or that its end was passed
    on. *)
Lemma devices_half d h s :
  devices_ok s → taken h = taken (at_half d s) →
  (is_shutdown (at_half d s) = true → is_shutdown h = true) → devices_ok (with_half d h s).
Proof.
  intros [Hsrc (wo&Ho&Hoc)] Ht Hsh. split.
  - intros e. change (descriptors (with_half d h s)) with (descriptors s).
    destruct (side_cases d e) as [->| ->]; [rewrite at_with_half, Ht|rewrite at_with_other]; apply Hsrc.
  - exists wo. split; [done|]. intros Hc%Hoc. destruct d; [done|]. rewrite at_with_half. auto.
Qed.

Lemma source_not_output d : source d ≠ output.
Proof. by destruct d. Qed.

Lemma source_inj d e : source d = source e → d = e.
Proof. by destruct d, e. Qed.

Lemma read_source_ok d buf s a :
  devices_ok s → half_ok d (at_half d s) a → 0 < zlen buf →
  let '(r, s') := read_source os d buf s in
  moves d s s' ∧ devices_ok s' ∧
  match r with
  | Ok data => at_half d s' = take_bytes (zlen data) (at_half d s) ∧ zlen data ≤ zlen buf ∧
      data = slice (source_bytes os d) (taken (at_half d s)) (zlen data) ∧ taken (at_half d s) + zlen data ≤ total d
  | Err _ => at_half d s' = at_half d s
  end.
Proof.
  intros Hd Ha Hbuf. pose proof (ho_taken _ _ _ Ha) as Ht. pose proof (ho_total _ _ _ Ha) as Htot.
  destruct (do_source _ Hd d) as (w&Hw&Hcl&Heof).
  unfold read_source. rewrite bind_eq, copy_time_eq, bind_eq, get_half_eq, at_half_pass, bind_eq. unfold on_descriptor.
  change (descriptors (pass s)) with (descriptors s). rewrite Hw.
  destruct (FileDescriptor.read _ buf w) as [r w'] eqn:Hr.
  apply (source_read_ok _ (total d)) in Hr as [Hc Hr]; [|zlen|apply Hos; zlen|done].
  set (s1 := with_descriptors (<[source d := w']> (descriptors s)) (pass s)).
  assert (∀ e, at_half e s1 = at_half e s) as E1 by by intros [].
  destruct r as [data|e].
  - destruct Hr as (Hdata&Hl&Htot'&He). rewrite bind_eq, change_half_eq, E1. cbn [mret eff_ret].
    set (s2 := with_half d _ s1).
    assert (at_half d s2 = take_bytes (zlen data) (at_half d s)) as E2 by apply at_with_half.
    assert (at_half (other d) s2 = at_half (other d) s) as E3 by (rewrite <- E1; apply at_with_other).
    split; [|split].
    + split; try done; by rewrite E2.
    + apply (devices_insert (source d) w w' s); [done|done|done| | |by intros ?%source_not_output|].
      * intros e ->%source_inj. split; [congruence|]. rewrite E2. cbn. intros [?%Heof| ?]%He; lia || zlen.
      * intros e Hne. destruct (side_cases d e) as [->| ->]; [done|by rewrite E3].
      * destruct d; [by change Inbound with (other Outbound); rewrite E3|by rewrite E2].
    + split; [done|]. split; [done|]. split; [done|]. by apply Htot'.
  - split; [by split; rewrite ?E1|]. split; [|by rewrite E1].
    apply (devices_insert (source d) w w' s); [done|done|done| | |by intros ?%source_not_output|by rewrite E1].
    + intros e' ->%source_inj. split; [congruence|]. rewrite E1, Hr. apply Heof.
    + intros e' _. by rewrite E1.
Qed.

(** ** Filling a stream *)

Lemma half_pushed d h a data :
  half_ok d h a → is_shutdown h = false → (fin a = true → hung os) → zlen data ≤ room a →
  data = slice (source_bytes os d) (taken h) (zlen data) → taken h + zlen data ≤ total d →
  half_ok d (set_buffer (Writer.push data (buffer h)) (take_bytes (zlen data) h)) (spec_push data a).
Proof.
  intros [] Hs Hf Hl Hd Ht. split; cbn; try done.
  - by apply push_refines.
  - rewrite zlen_app, ztake_ge by lia. lia.
  - rewrite ztake_ge by lia. rewrite slice_app by zlen. rewrite ho_written0 at 1. f_equal. rewrite Z.add_0_l. done.
  - rewrite ztake_app_le; [done|]. pose proof (ref_nread _ _ ho_refines0). lia.
  - auto.
  - congruence.
Qed.

Lemma half_closed d h a :
  half_ok d h a → taken h = total d ∨ hung os → half_ok d (set_buffer (Writer.close (buffer h)) h) (spec_close a).
Proof. intros [] Ht. split; cbn; try done; [by apply close_refines|]. naive_solver. Qed.

Lemma half_failed d h a : half_ok d h a → half_ok d (set_buffer (set_error (buffer h)) h) (spec_set_error a).
Proof. intros []. split; cbn; try done. by apply set_error_refines. Qed.

Lemma safe_run {A B} (m : eff sys A) (f : A → eff sys B) s b s' : m s = (Ok b, s') → safe (f b) s' → safe (m ≫= f) s.
Proof. intros Hm Hf. apply post_bind. unfold post at 1. by rewrite Hm. Qed.
Lemma copy_then {A B} (m : eff sys A) (f : A → eff sys B) s :
  safe m s → (∀ b s', copy_inv s' → safe (f b) s') → safe (m ≫= f) s.
Proof.
  intros Hm Hf. apply post_bind. unfold safe, post in *. destruct (m s) as [[b|e] s']; [by apply Hf|done].
Qed.

(** A new stream in a half. *)
Lemma moves_buffer d b s :
  has_error b = has_error (buffer (at_half d s)) →
  (Writer.is_closed (buffer (at_half d s)) = true → Writer.is_closed b = true) →
  moves d s (with_half d (set_buffer b (at_half d s)) s).
Proof. intros He Hc. split; rewrite ?at_with_half, ?at_with_other; done. Qed.
Lemma devices_buffer d b s : devices_ok s → devices_ok (with_half d (set_buffer b (at_half d s)) s).
Proof. intros Hd. by apply devices_half. Qed.

Lemma push_flags data b :
  has_error (Writer.push data b) = has_error b ∧ Writer.is_closed (Writer.push data b) = Writer.is_closed b.
Proof. unfold Writer.push. by destruct (_ || _). Qed.

Lemma safe_close d s :
  copy_inv s → taken (at_half d s) = total d ∨ hung os → safe (on_buffer d Writer.close) s.
Proof.
  intros Hs Ht. destruct (ci_half _ Hs d) as [a Ha]. apply (inv_moves d s); [by apply moves_buffer| | |done].
  - by apply devices_buffer, Hs.
  - exists (spec_close a). unfold on_buffer. rewrite change_half_eq. cbn [snd]. rewrite at_with_half. by apply half_closed.
Qed.

Lemma safe_fill d s :
  copy_inv s → Writer.available_capacity (buffer (at_half d s)) > 0 → is_shutdown (at_half d s) = false →
  (Writer.is_closed (buffer (at_half d s)) = true → hung os) → safe (fill os d) s.
Proof.
  intros Hs Hroom Hopen Hcl. destruct (ci_half _ Hs d) as [a Ha]. pose proof (ho_refines _ _ _ Ha) as R.
  eapply safe_run; [apply get_half_eq|]. rewrite (available_refines R) in Hroom |- *.
  assert (zlen (resize (room a) []) = room a) as Hbuf by (apply zlen_resize; lia).
  pose proof (read_source_ok d (resize (room a) []) s a (ci_devices _ Hs) Ha) as Hread. rewrite Hbuf in Hread.
  destruct (read_source os d _ s) as [[data|e] s1] eqn:Hr; destruct Hread as (Hm&Hd&Hread); [lia| |lia|]; cycle 1.
  { unfold safe, post. rewrite bind_eq, Hr. apply (inv_moves d s); [done|done| |done]. exists a. cbn [snd]. by rewrite Hread. }
  destruct Hread as (E1&Hl&Hdata&Htot). eapply safe_run; [exact Hr|].
  eapply safe_run; [apply change_half_eq|].
  destruct (push_flags data (buffer (at_half d s1))) as [Hpe Hpc].
  set (s2 := with_half d _ s1).
  assert (copy_inv s2) as Hs2.
  { apply (inv_moves d s); [| | |done].
    - etransitivity; [exact Hm|]. apply moves_buffer; [done|by rewrite Hpc].
    - by apply devices_buffer.
    - exists (spec_push data a). unfold s2. rewrite at_with_half, E1.
      apply (half_pushed d (at_half d s) a data); try done.
      intros Hf. apply Hcl. unfold Writer.is_closed. by rewrite (ref_closed _ _ R). }
  destruct (do_source _ (ci_devices _ Hs2) d) as (w&Hw&_&Heof).
  eapply safe_run; [unfold wrapper; by rewrite Hw|].
  destruct (FileDescriptor.eof w) eqn:He; cbn [when]; [|done]. apply safe_close; [done|left]. by apply Heof.
Qed.

(** ** Draining a stream *)

Lemma sink_device d s : devices_ok s → ∃ w, descriptors s !! sink d = Some w.
Proof. intros [Hsrc (wo&Ho&_)]. destruct d; [|by exists wo]. destruct (Hsrc Inbound) as (w&Hw&_). by exists w. Qed.

(** A call on the sink that changes no flag. *)
Lemma devices_sink d w w' s s' :
  devices_ok s → descriptors s !! sink d = Some w → descriptors s' = <[sink d := w']> (descriptors s) → same_flags w w' →
  (∀ e, at_half e s' = at_half e s) → devices_ok s'.
Proof.
  intros Hd Hw Hds [He Hc] Hh. apply (devices_insert (sink d) w w' s); rewrite ?Hh; try done.
  - intros e Hse. destruct (do_source _ Hd e) as (x&Hx&Hxc&Hxe). rewrite Hse, Hw in Hx. injection Hx as <-.
    rewrite Hh, He, Hc. auto.
  - intros e _. by rewrite Hh.
  - intros Hsink. destruct (do_output _ Hd) as (x&Hx&Hxc). rewrite <- Hsink, Hw in Hx. injection Hx as <-.
    by rewrite Hc.
Qed.

Lemma write_sink_ok d view s :
  devices_ok s → view ≠ [] →
  let '(r, s') := write_sink os d view s in
  moves d s s' ∧ devices_ok s' ∧
  match r with
  | Ok n => at_half d s' = give_bytes (ztake n view) (at_half d s) ∧ 0 ≤ n ≤ zlen view
  | Err _ => at_half d s' = at_half d s
  end.
Proof.
  intros Hd Hv. destruct (sink_device d s Hd) as [w Hw].
  unfold write_sink. rewrite bind_eq, copy_time_eq, bind_eq, get_half_eq, at_half_pass, bind_eq. unfold on_descriptor.
  change (descriptors (pass s)) with (descriptors s). rewrite Hw.
  destruct (FileDescriptor.write _ view w) as [r w'] eqn:Hr.
  apply (sink_write_ok (λ _, True)) in Hr as [Hfl Hok]; [|done|intros m Hm; split; [by eapply os_write|done]].
  set (s1 := with_descriptors (<[sink d := w']> (descriptors s)) (pass s)).
  assert (∀ e, at_half e s1 = at_half e s) as E1 by by intros [].
  assert (devices_ok s1) as Hd1 by by apply (devices_sink d w w' s).
  destruct r as [n|e].
  - destruct (Hok n eq_refl) as [Hn _]. rewrite bind_eq, change_half_eq, E1. cbn [mret eff_ret].
    fold s1. split; [|split; [apply devices_half; [done|by rewrite E1|by rewrite E1]|by rewrite at_with_half]].
    split; rewrite ?at_with_half, ?at_with_other, ?E1; done.
  - split; [by split; rewrite ?E1|]. split; [done|by rewrite E1].
Qed.

Lemma half_popped d h a n view rest b :
  half_ok d h a → unread a = view ++ rest → 0 ≤ n ≤ zlen view → view ≠ [] → refines b (spec_pop n a) →
  half_ok d (set_buffer b (give_bytes (ztake n view) h)) (spec_pop n a).
Proof.
  intros [] Hu Hn Hv Hb. pose proof (ref_nread _ _ ho_refines0) as Hr.
  assert (nread (spec_pop n a) = nread a + n) as Hnr by (cbn; rewrite Hu; zlen).
  split; cbn [set_buffer give_bytes buffer taken given is_shutdown]; try done.
  - rewrite Hnr, ho_given0. cbn [written spec_pop]. rewrite ztake_add by lia. fold (unread a).
    by rewrite Hu, ztake_app_le by lia.
  - intros [_ Hnil]%ho_shut0. rewrite Hnil in Hu. symmetry in Hu. by apply app_nil in Hu as [-> _].
Qed.

(** Passing the end on leaves the halves; the output is closed only then. *)
Lemma end_sink_ok d s :
  devices_ok s →
  let '(r, s') := end_sink os d s in
  (∀ e, at_half e s' = at_half e s) ∧ _fd_rules s' = _fd_rules s ∧ _non_fd_rules s' = _non_fd_rules s ∧
  devices_ok (match r with Ok _ => with_half d (set_shutdown (at_half d s)) s' | Err _ => s' end).
Proof.
  intros Hd. destruct (sink_device d s Hd) as [w Hw]. unfold end_sink. rewrite bind_eq, copy_time_eq.
  assert (∀ w', same_flags w w' → devices_ok (with_descriptors (<[sink d := w']> (descriptors s)) (pass s))) as Hsame.
  { intros w' Hf. apply (devices_sink d w w' s); done. }
  assert (∀ ds e, at_half e (with_descriptors ds (pass s)) = at_half e s) as Hh by by intros ds [].
  destruct d; cbn [sink] in Hw, Hsame.
  - unfold on_descriptor. change (descriptors (pass s)) with (descriptors s). rewrite Hw.
    pose proof (same_flags_shutdown (sys_shutdown os (now (world s))) Socket.SHUT_WR w) as Hf.
    destruct (Socket.Socket.shutdown _ _ w) as [r w']. cbn [snd] in Hf. split; [intros e; apply Hh|].
    split; [done|]. split; [done|]. destruct r as [[]|e]; [|by apply Hsame]. apply devices_half; [by apply Hsame|by rewrite Hh|done].
  - rewrite bind_eq. unfold wrapper. change (descriptors (pass s)) with (descriptors s). rewrite Hw. unfold on_descriptor.
    change (descriptors (pass s)) with (descriptors s). rewrite Hw.
    unfold FileDescriptor.close. rewrite bind_eq.
    pose proof (same_flags_check "close" (sys_close os (now (world s)) (FileDescriptor.fd_num w)) w) as Hf.
    destruct (FileDescriptor.CheckSystemCall _ _ w) as [[m|e] w']; cbn [snd] in Hf; cycle 1.
    { split; [intros e'; apply Hh|]. split; [done|]. split; [done|]. by apply Hsame. }
    cbn [modify]. split; [intros e; apply Hh|]. split; [done|]. split; [done|].
    apply (devices_insert output w (FileDescriptor.with_closed w') s); try done; by intros [].
Qed.

Lemma half_shutdown d h a : half_ok d h a → fin a = true → unread a = [] → half_ok d (set_shutdown h) a.
Proof. intros []. by split. Qed.

Lemma safe_end d s :
  copy_inv s → Reader.is_finished (buffer (at_half d s)) = true → safe (end_sink os d ;; change_half d set_shutdown) s.
Proof.
  intros Hs Hfin. destruct (ci_half _ Hs d) as [a Ha]. rewrite (is_finished_refines (ho_refines _ _ _ Ha)) in Hfin.
  apply andb_true_iff in Hfin as [Hf Hu%bool_decide_eq_true].
  pose proof (end_sink_ok d s (ci_devices _ Hs)) as He. unfold safe, post. rewrite bind_eq.
  destruct (end_sink os d s) as [[[]|e] s1]; destruct He as (Hh&Er&En&Hd); cbn [snd].
  - rewrite change_half_eq. cbn [snd]. rewrite Hh. apply (inv_moves d s); [|done| |done].
    + split; rewrite ?at_with_half, ?at_with_other, ?Hh; done.
    + exists a. rewrite at_with_half. by apply half_shutdown.
  - apply (inv_moves d s); [|done| |done]; [by split; rewrite ?Hh|]. exists a. by rewrite Hh.
Qed.

Lemma safe_drain d s : copy_inv s → safe (drain os d) s.
Proof.
  intros Hs. unfold drain. eapply safe_run; [apply get_half_eq|]. apply copy_then; cycle 1.
  { intros [] s' Hs'. eapply safe_run; [apply get_half_eq|].
    destruct (Reader.is_finished _) eqn:Hf; cbn [when]; [by apply safe_end|done]. }
  destruct (ci_half _ Hs d) as [a Ha]. pose proof (ho_refines _ _ _ Ha) as R. rewrite (buffered_refines R).
  case_bool_decide as Hb; cbn [when]; [|done].
  destruct (peek_refines R) as (view&rest&Hpeek&Hu&Hnil&_). eapply safe_run; [unfold lift; by rewrite Hpeek|].
  assert (view ≠ []) as Hv by (intros Hv%Hnil; by rewrite Hv in Hb).
  pose proof (write_sink_ok d view s (ci_devices _ Hs) Hv) as Hw.
  destruct (write_sink os d view s) as [[n|e] s1] eqn:Hr; destruct Hw as (Hm&Hd&Hw); cycle 1.
  { unfold safe, post. rewrite bind_eq, Hr. apply (inv_moves d s); [done|done| |done]. exists a. cbn [snd]. by rewrite Hw. }
  destruct Hw as [E1 Hn]. eapply safe_run; [exact Hr|]. eapply safe_run; [apply get_half_eq|]. rewrite E1.
  destruct (pop_refines R n (proj1 Hn)) as (b&Hpop&Rb&_). eapply safe_run; [unfold lift; cbn [give_bytes buffer]; by rewrite Hpop|].
  unfold safe, post. rewrite change_half_eq. cbn [snd].
  apply (inv_moves d s); [| | |done].
  - etransitivity; [exact Hm|]. apply moves_buffer; rewrite E1.
    + unfold has_error. cbn [give_bytes buffer]. by rewrite (ref_error _ _ Rb), (ref_error _ _ R).
    + unfold Writer.is_closed. cbn [give_bytes buffer]. by rewrite (ref_closed _ _ Rb), (ref_closed _ _ R).
  - by apply devices_buffer.
  - exists (spec_pop n a). rewrite at_with_half, E1. by eapply half_popped.
Qed.

(** ** The rules *)

Definition ready (r : FDRule code) s : Prop :=
  match callback (basic r) with
  | Fill d => Writer.available_capacity (buffer (at_half d s)) > 0 ∧ is_shutdown (at_half d s) = false ∧
      (Writer.is_closed (buffer (at_half d s)) = true → hung os)
  | _ => True
  end.
Definition idle (r : FDRule code) s : Prop :=
  match callback (basic r) with
  | Fill d => has_error (buffer (at_half d s)) = true ∨ has_error (buffer (at_half (other d) s)) = true ∨
      Writer.available_capacity (buffer (at_half d s)) ≤ 0 ∨ Writer.is_closed (buffer (at_half d s)) = true
  | Drain d => Reader.bytes_buffered (buffer (at_half d s)) = 0 ∧
      (Reader.is_finished (buffer (at_half d s)) = true → is_shutdown (at_half d s) = true)
  | _ => True
  end.

Lemma asked_fill d s : copy_inv s → if wants_fill d (world s) then ready (fill_rule d) s else idle (fill_rule d) s.
Proof.
  intros Hs. unfold wants_fill. change (half_of ?e (world s)) with (at_half e s). unfold ready, idle. cbn.
  destruct (has_error (buffer (at_half d s))) eqn:He; [cbn; auto|]. destruct (has_error (buffer (at_half (other d) s))); [cbn; auto|].
  cbn [negb andb]. case_bool_decide as Hr; [|cbn; right; right; left; lia]. cbn [andb].
  destruct (Writer.is_closed _) eqn:Hc; cbn [negb]; [auto 10|]. split; [done|]. split; [|done].
  destruct (is_shutdown (at_half d s)) eqn:Hsh; [|done]. destruct (ci_half _ Hs d) as [a Ha].
  destruct (ho_shut _ _ _ Ha Hsh) as [Hf _]. unfold Writer.is_closed in Hc.
  rewrite (ref_closed _ _ (ho_refines _ _ _ Ha)) in Hc. congruence.
Qed.

Lemma asked_drain d s : if wants_drain d (world s) then ready (drain_rule d) s else idle (drain_rule d) s.
Proof.
  unfold wants_drain. change (half_of ?e (world s)) with (at_half e s). unfold ready, idle. cbn.
  case_bool_decide as Hb; [done|]. cbn [orb]. destruct (Reader.is_finished _), (is_shutdown _); cbn; try done; (split; [lia|done]).
Qed.

Lemma copy_log c s : copy_inv s → copy_inv (log_call c s).
Proof. intros [Hr Hso Hn [Hsrc Ho] Hh He Hf Hd]. split; try done. Qed.

(** Closing one stream. *)
Lemma ready_close d q s :
  (∀ e, q = fill_rule e → e = d → hung os) → q ∈ copy_rules → ready q s → ready q (on_buffer d Writer.close s).2.
Proof.
  intros Hh [e [->| ->]]%copy_rule; [|done]. unfold on_buffer. rewrite change_half_eq. unfold ready. cbn [fill_rule basic callback snd].
  destruct (side_cases d e) as [->| ->]; [|by rewrite at_with_other].
  rewrite at_with_half. intros (?&?&_). split_and!; try done. intros _. by eapply Hh.
Qed.

Lemma idle_close d q s :
  (∀ e, q = drain_rule e → e = d → False) → q ∈ copy_rules → idle q s → idle q (on_buffer d Writer.close s).2.
Proof.
  intros Hh [e Hq]%copy_rule. unfold on_buffer. rewrite change_half_eq. unfold idle.
  destruct Hq as [->| ->]; cbn [fill_rule drain_rule basic callback snd].
  - destruct (side_cases d e) as [->| ->].
    + rewrite at_with_half, at_with_other. intros [?|[?|[?|?]]]; auto.
    + rewrite other_other, at_with_half, at_with_other. intros [?|[?|[?|?]]]; auto.
  - destruct (side_cases d e) as [->| ->]; [by destruct (Hh d)|by rewrite at_with_other].
Qed.

(** The list without the rule at a position. *)
Lemma delete_sorted (rs : list (FDRule code)) i :
  StronglySorted lt ((λ r, rule_id (basic r)) <$> rs) → StronglySorted lt ((λ r, rule_id (basic r)) <$> delete i rs).
Proof.
  revert i. induction rs as [|r rs IH]; intros i Hs; [by destruct i|].
  rewrite fmap_cons in Hs. apply StronglySorted_inv in Hs as [Hs Hr]. destruct i as [|i]; [done|].
  change (delete (S i) (r :: rs)) with (r :: delete i rs). rewrite fmap_cons. constructor; [by apply IH|].
  rewrite Forall_fmap in Hr |- *. by apply Forall_delete.
Qed.

Lemma delete_other (rs : list (FDRule code)) i r q : rs !! i = Some r → q ≠ r → q ∈ rs → q ∈ delete i rs.
Proof.
  intros Hi Hq Hin. apply list_elem_of_lookup in Hin as [j Hj]. rewrite delete_take_drop, elem_of_app.
  destruct (decide (j < i)%nat).
  - left. apply list_elem_of_lookup. exists j. rewrite lookup_take_Some. done.
  - right. apply list_elem_of_lookup. assert (j ≠ i) by (intros ->; congruence). exists (j - S i)%nat.
    rewrite lookup_drop. rewrite <- Hj. f_equal. lia.
Qed.

(** Why a rule is cancelled. *)
Lemma defunct_fill d s : copy_inv s → defunct (fill_rule d) s → taken (at_half d s) = total d.
Proof.
  intros Hs (w&Hw&Hor). destruct (do_source _ (ci_devices _ Hs) d) as (w'&Hw'&Hc&He). cbn in Hw.
  rewrite Hw in Hw'. injection Hw' as <-. destruct Hor as [[_ ?]|?]; [auto|congruence].
Qed.
Lemma defunct_drain d s : copy_inv s → defunct (drain_rule d) s → is_shutdown (at_half d s) = true.
Proof.
  intros Hs (w&Hw&Hor). destruct Hor as [[? _]|Hc]; [done|]. destruct d; cbn in Hw.
  - destruct (do_source _ (ci_devices _ Hs) Inbound) as (w'&Hw'&Hc'&_). cbn in Hw'. congruence.
  - destruct (do_output _ (ci_devices _ Hs)) as (w'&Hw'&Hsh). assert (w' = w) as -> by congruence. auto.
Qed.
Lemma shutdown_taken d s : copy_inv s → is_shutdown (at_half d s) = true → taken (at_half d s) = total d ∨ hung os.
Proof. intros Hs Hsh. destruct (ci_half _ Hs d) as [a Ha]. apply (ho_fin _ _ _ Ha), (ho_shut _ _ _ Ha Hsh). Qed.

Lemma inv_cancelled i r s :
  copy_inv s → _fd_rules s !! i = Some r → defunct r s ∨ hung os →
  let s' := (invoke (call_back os) (Cancelled (rule_id (basic r))) (cancel r) s).2 in
  copy_inv s' ∧ copy_inv (with_fd_rules (delete i (_fd_rules s')) s') ∧ _fd_rules s' = _fd_rules s ∧
  ∀ q, q ∈ copy_rules → (rule_id (basic q) ≠ rule_id (basic r) → ready q s → ready q s') ∧
    ((rule_id (basic q) < rule_id (basic r))%nat → idle q s → idle q s').
Proof.
  intros Hs Hi Hd s'. assert (r ∈ _fd_rules s) as Hin by by eapply list_elem_of_lookup_2.
  destruct (proj1 (copy_rule r) (ci_rules _ Hs r Hin)) as [d Hr].
  assert (s' = (on_buffer d Writer.close (log_call (Cancelled (rule_id (basic r))) s)).2) as Es by (unfold s'; by destruct Hr as [->| ->]).
  assert (taken (at_half d s) = total d ∨ hung os) as Ht.
  { destruct Hd as [Hd|?]; [|by right]. destruct Hr as [->| ->]; [left; by apply defunct_fill|].
    by eapply shutdown_taken, defunct_drain. }
  assert (copy_inv s') as Hs' by (rewrite Es; by apply safe_close; [apply copy_log|]).
  assert (_fd_rules s' = _fd_rules s) as Ef by by rewrite Es.
  split; [done|]. split; [|split; [done|]].
  - destruct Hs' as [Hrules Hso Hn Hdev Hh He Hf Hdr]. split; cbn; try done.
    + intros q Hq%list_elem_of_delete_inv. by apply Hrules.
    + by apply delete_sorted.
    + destruct Hdev as [Hsrc Ho]. by split.
    + intros e. destruct (Hf e) as [Hq|]; [|by right].
      destruct (decide (r = fill_rule e)) as [->|Hne]; [right|left; eapply delete_other; [by rewrite Ef|done|done]].
      destruct Hr as [Heq|Heq]; [|by destruct e, d]. assert (e = d) as -> by (by destruct e, d).
      rewrite Es. unfold on_buffer. rewrite change_half_eq. cbn [snd].
      change (at_half d (with_fd_rules ?l ?x)) with (at_half d x). by rewrite at_with_half.
    + intros e. destruct (Hdr e) as [Hq|Hor]; [|by right].
      destruct (decide (r = drain_rule e)) as [->|Hne]; [right|left; eapply delete_other; [by rewrite Ef|done|done]].
      destruct Hd as [Hd|?]; [|by left]. right. apply defunct_drain in Hd; [|done].
      destruct Hr as [Heq|Heq]; [by destruct e, d|]. assert (e = d) as -> by (by destruct e, d).
      rewrite Es. unfold on_buffer. rewrite change_half_eq. cbn [snd].
      change (at_half d (with_fd_rules ?l ?x)) with (at_half d x). by rewrite at_with_half.
  - intros q Hq. rewrite Es. split.
    + intros Hne Hrd. apply ready_close; [|done|done]. intros e -> ->.
      destruct Hr as [->| ->]; [done|]. destruct Hd as [Hd%defunct_drain|?]; [|done|done].
      by destruct Hrd as (_&Hsh&_); congruence.
    + intros Hlt Hid. apply idle_close; [|done|done]. intros e -> ->. by destruct d, Hr as [->| ->]; cbn in Hlt; lia.
Qed.

Lemma fail_half d s : at_half d (fail s).2 = set_buffer (set_error (buffer (at_half d s))) (at_half d s).
Proof. by destruct d. Qed.

Lemma inv_errored s : copy_inv s → hung os → copy_inv (fail s).2.
Proof.
  intros [Hr Hso Hn Hdev Hh He Hf Hdr] Hhung. split; try done.
  - destruct Hdev as [Hsrc (w&Hw&Hc)]. split; [intros d|exists w; by rewrite fail_half]. rewrite fail_half. apply Hsrc.
  - intros d. destruct (Hh d) as [a Ha]. exists (spec_set_error a). rewrite fail_half. by apply half_failed.
  - intros d. by rewrite !fail_half.
  - intros d. rewrite fail_half. apply Hf.
  - intros d. rewrite fail_half. apply Hdr.
Qed.

Lemma ready_fail q s : q ∈ copy_rules → ready q s → ready q (fail s).2.
Proof. intros [e [->| ->]]%copy_rule; [|done]. unfold ready. cbn [fill_rule basic callback]. by rewrite fail_half. Qed.

Lemma copy_invariant :
  poll_invariant call_interest (call_back os) (λ r, r ∈ copy_rules) ready idle (hung os) copy_inv.
Proof.
  split.
  - intros s r Hs. apply Hs.
  - by intros r [d [->| ->]]%copy_rule.
  - apply ci_sorted.
  - apply ci_non_fd.
  - done.
  - done.
  - intros r s b Hs [d [->| ->]]%copy_rule [= <-]; [by apply asked_fill|apply asked_drain].
  - intros r s Hs [d Hr]%copy_rule Hrd. apply copy_log with (c := Ran (rule_id (basic r))) in Hs.
    destruct Hr as [->| ->]; [|by apply safe_drain].
    destruct Hrd as (Hroom&Hopen&Hcl). by apply safe_fill.
  - intros r s Hs [d Hr]%copy_rule Hh s'.
    assert (s' = (fail (log_call (Errored (rule_id (basic r))) s)).2) as -> by (by destruct Hr as [->| ->]).
    split; [by apply inv_errored; [apply copy_log|]|]. split; [done|]. intros q Hq Hrd. by apply ready_fail.
  - intros i r s Hs Hi Hd. by apply inv_cancelled.
Qed.

(** ** The loop *)

Lemma poll_hangup t ps timeout n revs revent :
  sys_poll os t ps timeout = Returned (n, revs) → revent ∈ revs → hangup revent → hung os.
Proof. intros. by exists t, ps, timeout, n, revs, revent. Qed.

Lemma inv_pass s : copy_inv s → copy_inv (pass s).
Proof.
  intros [Hr Hso Hn [Hsrc (w&Hw&Hc)] Hh He Hf Hd].
  split; try done; try by intros []; [apply (He Outbound)|apply (He Inbound)].
  all: try (intros d; rewrite ?at_half_pass; auto).
  split; [intros d; rewrite at_half_pass; apply Hsrc|by exists w].
Qed.

Lemma wait_ok timeout_ms s :
  copy_inv s →
  post (wait_next_event os timeout_ms) s (λ res s',
    copy_inv s' ∧ (res = Ok Exit → Forall (λ r, idle r s') (_fd_rules s'))).
Proof.
  intros Hs. apply post_bind. unfold post at 1. rewrite copy_time_eq. cbn [fst snd].
  apply post_bind. unfold post at 1. cbn [gets fst snd].
  apply (inv_wait copy_invariant); [apply poll_hangup|by apply inv_pass].
Qed.

(** When no rule has an interest and poll reported no hangup or error,
    everything was copied. *)
Lemma idle_complete s :
  copy_inv s → Forall (λ r, idle r s) (_fd_rules s) → ¬ hung os →
  ∀ d, given (at_half d s) = slice (source_bytes os d) 0 (total d) ∧ is_shutdown (at_half d s) = true.
Proof.
  intros Hs Hidle Hh d. destruct (ci_half _ Hs d) as [a Ha]. pose proof (ho_refines _ _ _ Ha) as R.
  rewrite Forall_forall in Hidle.
  assert (∀ e, has_error (buffer (at_half e s)) = false) as Herr.
  { intros e. destruct (has_error (buffer (at_half e s))) eqn:He; [|done]. by apply (ci_error _ Hs) in He as [_ ?]. }
  assert (is_shutdown (at_half d s) = true) as Hsh.
  { destruct (ci_drain _ Hs d) as [Hin|[?|?]]; [|done|done]. destruct (Hidle _ Hin) as [Hb Hfin].
    apply Hfin. rewrite (buffered_refines R) in Hb. apply zlen_0 in Hb.
    rewrite (is_finished_refines R), bool_decide_true, andb_true_r by done. rewrite <- (ref_closed _ _ R).
    destruct (ci_fill _ Hs d) as [Hin'|?]; [|done]. destruct (Hidle _ Hin') as [He|[He|[Hroom|?]]]; [..|done].
    - by rewrite Herr in He.
    - by rewrite Herr in He.
    - rewrite (available_refines R) in Hroom. unfold room in Hroom. rewrite (ho_cap _ _ _ Ha) in Hroom.
      pose proof (refines_unread R) as Hu. rewrite Hb, zlen_nil in Hu. unfold buffer_size in Hroom. lia. }
  split; [|done]. destruct (ho_shut _ _ _ Ha Hsh) as [Hf Hu].
  destruct (ho_fin _ _ _ Ha Hf) as [Ht|?]; [|done].
  pose proof (refines_unread R) as Hl. rewrite Hu, zlen_nil in Hl. pose proof (ho_taken _ _ _ Ha) as Htk.
  rewrite (ho_given _ _ _ Ha), ztake_ge by lia. rewrite (ho_written _ _ _ Ha). by rewrite Ht.
Qed.

(** What is known when the copying ends: the halves are in order, and without
    hangups everything was copied if it returned. *)
Definition outcome (res : result ()) s : Prop :=
  (∀ d, ∃ a, half_ok d (at_half d s) a) ∧
  (res = Ok () → ¬ hung os →
   ∀ d, given (at_half d s) = slice (source_bytes os d) 0 (total d) ∧ is_shutdown (at_half d s) = true).

Lemma loop_ok fuel s : copy_inv s → post (loop os fuel) s outcome.
Proof.
  revert s. induction fuel as [|fuel IH]; intros s Hs; cbn [loop]; [by split; [apply Hs|]|].
  apply post_bind. eapply post_mono; [by apply wait_ok|].
  intros [[]|e] s' [Hs' Hex]; [by apply IH|by apply IH| |by split; [apply Hs'|]].
  split; [apply Hs'|]. intros _ Hh. apply idle_complete; auto.
Qed.

(** ** The beginning *)

Record fresh s : Prop := mkFresh {
  fr_rules : _fd_rules s = [] ∧ _non_fd_rules s = [] ∧ _rule_categories s = [] ∧ next_rule s = 0%nat;
  fr_half d : at_half d s = mkHalf (ByteStream.new buffer_size) false 0 [];
  fr_device f : f ∈ [input; output; socket] → ∃ w, descriptors s !! f = Some w ∧ eof_ w = false ∧ closed_ w = false;
}.

Lemma new_half_ok d : half_ok d (mkHalf (ByteStream.new buffer_size) false 0 []) (spec_new buffer_size).
Proof. pose proof (os_total _ _ Hos d). split; try done. Qed.

Lemma start_fresh getfl sock s : start getfl sock = Ok s → eof_ sock = false → closed_ sock = false → fresh s.
Proof.
  intros Hs He Hc. unfold start in Hs. apply bind_Ok in Hs as (wi&Hwi%make_eof&Hs).
  apply bind_Ok in Hs as (wo&Hwo%make_eof&[= <-]). split; [done|by intros []|].
  intros f. rewrite !elem_of_cons, elem_of_nil. intros [->|[->|[->|[]]]]; by eexists.
Qed.

Lemma fresh_set_blocking getfl setfl f s : fresh s → fresh (set_blocking getfl setfl f s).2.
Proof.
  intros [Hr Hh Hd]. unfold set_blocking. rewrite bind_eq. unfold wrapper. destruct (descriptors s !! f) as [w|] eqn:Hw; [|done].
  unfold on_descriptor. rewrite Hw. set (n := FileDescriptor.fd_num w).
  pose proof (same_flags_set_blocking false (getfl n) (setfl n) w) as [He Hc].
  destruct (FileDescriptor.set_blocking _ _ _ w) as [r w']. cbn [snd] in *. split; [done|done|].
  intros g Hg. destruct (decide (f = g)) as [->|Hne].
  - exists w'. destruct (Hd g Hg) as (x&Hx&?&?). assert (x = w) as -> by congruence. cbn.
    rewrite lookup_insert, decide_True by done. split; [done|]. split; congruence.
  - cbn. rewrite lookup_insert_ne by done. by apply Hd.
Qed.

Lemma add_rule_eq name f d c1 c2 c3 c4 s :
  (length (_rule_categories s) < kCategories)%nat →
  add_rule name f d c1 c2 c3 c4 s =
    (Ok (next_rule s), with_next (S (next_rule s))
      (with_fd_rules (_fd_rules s ++
          [mkFDRule (mkBasicRule (next_rule s) (length (_rule_categories s)) c2 c1 false) f d c3 c4])
        (with_categories (_rule_categories s ++ [name]) s))).
Proof.
  intros Hl. unfold add_rule, add_category. rewrite bind_eq, bind_eq. cbn [gets]. rewrite bool_decide_false by lia.
  rewrite bind_eq. cbn [modify mret eff_ret]. unfold add_fd_rule. rewrite bind_eq.
  cbn [gets with_categories _rule_categories]. rewrite length_app. cbn [length]. by rewrite bool_decide_false by lia.
Qed.

Lemma add_rules_ok s : fresh s → ∃ s', add_rules s = (Ok (), s') ∧ copy_inv s'.
Proof.
  intros [(Er&En&Ec&Ei) Hh Hd]. unfold add_rules.
  rewrite bind_eq, add_rule_eq, bind_eq, add_rule_eq, bind_eq, add_rule_eq, bind_eq, add_rule_eq;
    cbn; rewrite ?Ec; unfold kCategories; cbn; try lia.
  eexists. split; [done|]. rewrite Er, Ei. unfold copy_rules.
  assert (∀ d, ∃ w, descriptors s !! source d = Some w ∧ eof_ w = false ∧ closed_ w = false) as Hsrc.
  { intros d. apply Hd. destruct d; cbn; set_solver. }
  split; cbn; try done.
  - by repeat constructor.
  - split.
    + intros d. destruct (Hsrc d) as (w&Hw&He&Hc). exists w. split; [done|]. split; [done|]. by rewrite He.
    + destruct (Hd output) as (w&Hw&_&Hc); [set_solver|]. exists w. split; [done|]. by rewrite Hc.
  - intros d. exists (spec_new buffer_size). change (half_ok d (at_half d s) (spec_new buffer_size)). rewrite Hh. apply new_half_ok.
  - intros d. change (has_error (buffer (at_half d s)) = true → has_error (buffer (at_half (other d) s)) = true ∧ hung os).
    by rewrite Hh.
  - intros d. left. destruct d; set_solver.
  - intros d. left. destruct d; set_solver.
Qed.

Lemma copy_ok fuel getfl setfl s : fresh s → post (bidirectional_stream_copy os fuel getfl setfl) s outcome.
Proof.
  intros Hs. unfold bidirectional_stream_copy.
  assert (∀ f t (m : eff sys ()), fresh t → (∀ t', fresh t' → post m t' outcome) →
    post (set_blocking getfl setfl f ;; m) t outcome) as Hstep.
  { intros f t m Ht Hm. apply post_bind. unfold post at 1. pose proof (fresh_set_blocking getfl setfl f t Ht) as Hb.
    destruct (set_blocking getfl setfl f t) as [[[]|e] t']; [by apply Hm|]. split; [|done].
    intros d. cbn [snd] in *. rewrite (fr_half _ Hb). eexists. apply new_half_ok. }
  apply Hstep; [done|]. intros s1 Hs1. apply Hstep; [done|]. intros s2 Hs2. apply Hstep; [done|]. intros s3 Hs3.
  destruct (add_rules_ok s3 Hs3) as (s4&Ha&Hs4). apply post_bind. unfold post at 1. rewrite Ha. cbn [fst snd].
  by apply loop_ok.
Qed.

(** What a direction's invariant says of the bytes. *)
Lemma half_ok_bytes d h a :
  half_ok d h a →
  given h = slice (source_bytes os d) 0 (zlen (given h)) ∧
  zlen (given h) ≤ taken h ≤ zlen (given h) + buffer_size ∧ taken h ≤ total d ∧
  (is_shutdown h = true → zlen (given h) = taken h).
Proof.
  intros [R Hcap Ht Htot Hw Hg _ Hsh].
  pose proof (ref_nread _ _ R) as Hr. pose proof (ref_bounded _ _ R) as Hb. rewrite Hcap in Hb.
  assert (zlen (given h) = nread a) as Hl by (rewrite Hg; zlen). rewrite Hl.
  split; [rewrite Hg, Hw, ztake_slice; f_equal; lia|]. split; [lia|]. split; [done|].
  intros [_ Hu]%Hsh. pose proof (refines_unread R) as Hru. rewrite Hu, zlen_nil in Hru. lia.
Qed.
End invariant.

(** * Properties *)

(** Whatever the kernel answers and however the copying ends, also on an
    exception, in each direction the bytes the sink was given are a prefix of
    those the source delivered, in order; at most one buffer of 1048576 bytes
    was taken and not given; and if the end was passed on to the sink, all that
    was taken was given. *)
Theorem stream_copy_streams (os : system) total fuel getfl setfl sock s :
  system_ok os total → start getfl sock = Ok s → eof_ sock = false → closed_ sock = false →
  let s' := (bidirectional_stream_copy os fuel getfl setfl s).2 in
  ∀ d, let h := half_of d (world s') in
    given h = slice (source_bytes os d) 0 (zlen (given h)) ∧
    zlen (given h) ≤ taken h ≤ zlen (given h) + buffer_size ∧ taken h ≤ total d ∧
    (is_shutdown h = true → zlen (given h) = taken h).
Proof.
  intros Hos Hs He Hc s' d h. pose proof (start_fresh _ _ _ Hs He Hc) as Hf.
  destruct (copy_ok os total Hos fuel getfl setfl s Hf) as [Hh _]. destruct (Hh d) as [a Ha].
  exact (half_ok_bytes os total d _ a Ha).
Qed.

(** C8: the copying is complete: if poll reports no hangup or error and
    [bidirectional_stream_copy] returns, each sink was given the whole stream of
    its source, and then its end. *)
Theorem stream_copy_complete (os : system) total fuel getfl setfl sock s s' :
  system_ok os total → ¬ hung os → start getfl sock = Ok s → eof_ sock = false → closed_ sock = false →
  bidirectional_stream_copy os fuel getfl setfl s = (Ok (), s') →
  ∀ d, given (half_of d (world s')) = slice (source_bytes os d) 0 (total d) ∧
    is_shutdown (half_of d (world s')) = true.
Proof.
  intros Hos Hh Hs He Hc Hrun. pose proof (start_fresh _ _ _ Hs He Hc) as Hf.
  destruct (copy_ok os total Hos fuel getfl setfl s Hf) as [_ Hex]. rewrite Hrun in Hex. by apply Hex.
Qed.

(** ** A run *)

(** Three bytes from the standard input, two from the socket; everything is
    always ready, and the sinks take two bytes at a time. *)
Definition demo_total (d : side) : Z := match d with Outbound => 3 | Inbound => 2 end.
Definition demo_os : system := mkSystem (λ _, demo_stream)
  (λ _ d pos n, Returned (Z.min n (demo_total d - pos)))
  (λ _ d pos bufs, Returned (Z.min 2 (zlen (concat bufs))))
  (λ _ _ _, Returned 0) (λ _ _, Returned 0)
  (λ _ ps _, Returned (1, (λ p, Z.land (events p) (Z.lor POLLIN POLLOUT)) <$> ps)) (λ _ _, Failed ENOTSOCK).
Definition demo_getfl (n : Z) : syscall Z := Returned 2.
Definition demo_setfl (n flags : Z) : syscall Z := Returned 0.
Definition demo_sock : FDWrapper := mkFDWrapper 5 false false false 0 0.
Definition demo_start : state code () copy :=
  mkState [] [] [] 0
    {[input := mkFDWrapper 0 false false false 0 0; output := mkFDWrapper 1 false false false 0 0; socket := demo_sock]}
    [] () (mkCopy (mkHalf (ByteStream.new buffer_size) false 0 []) (mkHalf (ByteStream.new buffer_size) false 0 []) 0).

Abbreviation demo_copy := (bidirectional_stream_copy demo_os 12 demo_getfl demo_setfl demo_start).

(** Each rule is called until its stream is through; the outbound rules first,
    since poll reports everything ready. *)
Example demo_copies :
  demo_copy.1 = Ok () ∧
  calls demo_copy.2 = [Ran 0; Ran 0; Cancelled 0; Ran 1; Ran 1; Ran 2; Ran 2; Cancelled 2; Ran 3; Cancelled 3].
Proof. vm_compute. split; reflexivity. Qed.

Lemma demo_ok : system_ok demo_os demo_total.
Proof.
  split.
  - by intros [].
  - intros n d pos Hpos k m Hk [= <-]. lia.
  - intros n d pos bufs m [= <-]. zlen.
Qed.

Lemma demo_quiet : ¬ hung demo_os.
Proof.
  intros (t&ps&timeout&n&revs&revent&[= <- <-]&(p&->&_)%list_elem_of_fmap&Hbad).
  assert (∀ m, Z.land (Z.lor POLLIN POLLOUT) m = 0 → has_bits (Z.land (events p) (Z.lor POLLIN POLLOUT)) m = false) as Hm.
  { intros m Hm. unfold has_bits. rewrite <- Z.land_assoc, Hm, Z.land_0_r. apply bool_decide_eq_false_2. auto. }
  unfold hangup in Hbad. rewrite !Hm in Hbad by done. by destruct Hbad.
Qed.

Lemma pair_eta {A B} (p : A * B) a : p.1 = a → p = (a, p.2).
Proof. by destruct p as [x y]; intros <-. Qed.

Lemma stream_copy_streams_witness :
  given (half_of Outbound (world demo_copy.2)) = slice demo_stream 0 (zlen (given (half_of Outbound (world demo_copy.2)))).
Proof.
  destruct (stream_copy_streams demo_os demo_total 12 demo_getfl demo_setfl demo_sock demo_start demo_ok eq_refl eq_refl
    eq_refl Outbound) as [H _]. exact H.
Defined.

Lemma stream_copy_complete_witness :
  given (half_of Outbound (world demo_copy.2)) = slice demo_stream 0 3.
Proof.
  assert (demo_copy = (Ok (), demo_copy.2)) as Hrun.
  { exact (pair_eta demo_copy (Ok ()) (proj1 demo_copies)). }
  destruct (stream_copy_complete demo_os demo_total 12 demo_getfl demo_setfl demo_sock demo_start demo_copy.2 demo_ok
    demo_quiet eq_refl eq_refl eq_refl Hrun Outbound) as [H _]. exact H.
Defined.
