(* ===== verification/Adapter.v ===== *)
(** The adapters that carry TCP messages over a file descriptor
    (src/util/tuntap_adapter.hh, tuntap_adapter.cc, lossy_fd_adapter.hh, tun.hh
    and tun.cc), behind the interface that TCPMinnowSocket uses. *)

From S2P Require Import Prelude Effects FileDescriptor WrappingIntegers TCPMessages Ref Parser Wire IPv4 TCPSegment Address.
From S2P Require Import TCPOverIP.
Import TCPOverIPv4Adapter.

(** * The TUN device *)

Definition O_RDWR : Z := 2.
Definition O_CLOEXEC : Z := 524288.
Definition IFF_TUN : Z := 1.
Definition IFF_TAP : Z := 2.
Definition IFF_NO_PI : Z := 4096.
Definition TUNSETIFF : Z := 1074025674.
Definition IFNAMSIZ : Z := 16.

Module TunTapFD.

Definition CLONEDEV : string := "/dev/net/tun".

(** [ifr_name] and [ifr_flags] of the request; [strncpy] stops at a zero byte
    and fills up with zeros. *)
Fixpoint strncpy (n : nat) (s : bytes) : bytes :=
  match n, s with
  | O, _ => []
  | S n, c :: s => if bool_decide (c = Byte.x00) then replicate (S n) Byte.x00 else c :: strncpy n s
  | S n, [] => replicate (S n) Byte.x00
  end.
Definition ifr_name (devname : bytes) : bytes := strncpy (Z.to_nat (IFNAMSIZ - 1)) devname ++ [Byte.x00].
Definition ifr_flags (is_tun : bool) : Z := Z.lor (if is_tun then IFF_TUN else IFF_TAP) IFF_NO_PI.

(** The constructor, given [open(2)], [fcntl( F_GETFL )] and [ioctl(2)]. *)
Definition make (open : string → Z → syscall Z) (getfl : Z → syscall Z) (ioctl : Z → Z → bytes * Z → syscall Z)
    (devname : bytes) (is_tun : bool) : result FDWrapper :=
  match open CLONEDEV (Z.lor O_RDWR O_CLOEXEC) with
  | Failed _ => Err (unix_error "open")
  | Returned fd =>
      w ← FileDescriptor.make fd (getfl fd);
      match FileDescriptor.CheckSystemCall "ioctl"
              (ioctl (FileDescriptor.fd_num w) TUNSETIFF (ifr_name devname, ifr_flags is_tun)) w with
      | (Ok _, w) => Ok w
      | (Err e, _) => Err e
      end
  end.

End TunTapFD.

(** * The interface *)

(** An adapter of type [A] works on the descriptor it owns, with [readv(2)] and
    [writev(2)] on it; to read a message may also mean to write. *)
Record fd_calls : Type := mkFdCalls {
  sys_readv : list Z → syscall bytes;
  sys_writev : list bytes → syscall Z;
}.
Class TCPDatagramAdapter (A : Type) : Type := {
  adapter_read : fd_calls → eff (FDWrapper * A) (option TCPMessage);
  adapter_write : (list bytes → syscall Z) → TCPMessage → eff (FDWrapper * A) ();
  adapter_set_listening : bool → A → A;
  adapter_config : A → FdAdapterConfig;
  adapter_set_config : FdAdapterConfig → A → A;
  adapter_tick : Z → A → A;
}.

(** A call on the descriptor alone, and one on the adapter alone. *)
Definition on_fd {A B} (m : eff FDWrapper B) : eff (FDWrapper * A) B :=
  λ '(w, a), let '(r, w) := m w in (r, (w, a)).
Definition on_adapter {A B} (m : A → result (B * A)) : eff (FDWrapper * A) B :=
  λ '(w, a), match m a with Ok (b, a) => (Ok b, (w, a)) | Err e => (Err e, (w, a)) end.

(** ** TCP over IPv4 over TUN *)

Module TunAdapter.
Section tun.
Context `{Resolver}.

Definition read (sys_readv : list Z → syscall bytes) : eff (FDWrapper * FdAdapterBase) (option TCPMessage) :=
  let strs := [resize IPv4Header.LENGTH []; resize TCPSegment.HEADER_LENGTH []; []] in
  strs ← on_fd (FileDescriptor.readv sys_readv strs);
  '(ip_dgram, ok) ← Effects.lift (parse IPv4Datagram.new (Owned <$> strs));
  if (ok : bool) then on_adapter (unwrap_tcp_in_ip ip_dgram) else mret None.

Definition write (sys_writev : list bytes → syscall Z) (seg : TCPMessage) : eff (FDWrapper * FdAdapterBase) () :=
  a ← gets snd;
  dgram ← Effects.lift (wrap_tcp_in_ip seg a);
  bufs ← Effects.lift (serialize dgram);
  on_fd (FileDescriptor.write_refs sys_writev bufs) ;; mret ().

(** [set_listening], [config], [config_mut() = cfg] and [tick] of
    FdAdapterBase. *)
Definition set_config (cfg : FdAdapterConfig) (a : FdAdapterBase) : FdAdapterBase := mkFdAdapterBase cfg (_listen a).
Definition tick (unused : Z) (a : FdAdapterBase) : FdAdapterBase := a.

#[export] Instance tun_adapter : TCPDatagramAdapter FdAdapterBase := {
  adapter_read sys := read (sys_readv sys);
  adapter_write := write;
  adapter_set_listening := FdAdapterBase.set_listening;
  adapter_config := FdAdapterBase.config;
  adapter_set_config := set_config;
  adapter_tick := tick;
}.
End tun.
End TunAdapter.
#[export] Existing Instance TunAdapter.tun_adapter.

(** ** Random losses *)

(** The engine [E] with its next number, and the adapter below. *)
Record LossyFdAdapter (E A : Type) : Type := mkLossyFdAdapter {
  _rand : E;
  _adapter : A;
}.
Arguments mkLossyFdAdapter {E A} _ _.
Arguments _rand {E A} _.
Arguments _adapter {E A} _.

Module LossyFdAdapter.
Section lossy.
Context {E A : Type} `{TCPDatagramAdapter A} (rand : E → Z * E).

Definition _should_drop (uplink : bool) : eff (FDWrapper * LossyFdAdapter E A) bool :=
  λ '(w, a),
    let cfg := adapter_config (_adapter a) in
    let loss := if uplink then loss_rate_up cfg else loss_rate_dn cfg in
    if bool_decide (loss ≠ 0) then
      let '(n, e) := rand (_rand a) in
      (Ok (bool_decide (u16 n < loss)), (w, mkLossyFdAdapter e (_adapter a)))
    else (Ok false, (w, a)).

(** A call of the adapter below. *)
Definition below {B} (m : eff (FDWrapper * A) B) : eff (FDWrapper * LossyFdAdapter E A) B :=
  λ '(w, a), let '(r, (w, x)) := m (w, _adapter a) in (r, (w, mkLossyFdAdapter (_rand a) x)).
Definition with_adapter (f : A → A) (a : LossyFdAdapter E A) : LossyFdAdapter E A :=
  mkLossyFdAdapter (_rand a) (f (_adapter a)).

Definition read (sys : fd_calls) : eff (FDWrapper * LossyFdAdapter E A) (option TCPMessage) :=
  ret ← below (adapter_read sys);
  drop ← _should_drop false;
  if (drop : bool) then mret None else mret ret.

Definition write (sys_writev : list bytes → syscall Z) (seg : TCPMessage) : eff (FDWrapper * LossyFdAdapter E A) () :=
  drop ← _should_drop true;
  if (drop : bool) then mret () else below (adapter_write sys_writev seg).

Definition lossy_adapter : TCPDatagramAdapter (LossyFdAdapter E A) := {|
  adapter_read := read;
  adapter_write := write;
  adapter_set_listening l := with_adapter (adapter_set_listening l);
  adapter_config a := adapter_config (_adapter a);
  adapter_set_config cfg := with_adapter (adapter_set_config cfg);
  adapter_tick ms := with_adapter (adapter_tick ms);
|}.
End lossy.
End LossyFdAdapter.

(** * Correctness *)

(** The buffers of a read are full up to a point and empty after it. *)
Lemma cut_0_empty buffers : text (Owned <$> FileDescriptor.cut 0 buffers) = [].
Proof. unfold text. rewrite <- list_fmap_compose. rewrite list_fmap_id. apply cut_0. Qed.

Lemma cut_packed n buffers :
  0 ≤ n → Forall (λ b, 0 < zlen b) buffers → packed (Owned <$> FileDescriptor.cut n buffers).
Proof.
  intros Hn Hb. revert n Hn. induction Hb as [|b buffers Hb _ IH]; intros n Hn; [done|].
  cbn [FileDescriptor.cut]. case_bool_decide as Hc; rewrite fmap_cons.
  - split; [right; simpl; lia|]. apply IH. lia.
  - split; [|apply packed_empty, cut_0_empty].
    destruct (decide (n = 0)) as [->|]; [left|right; simpl; rewrite zlen_resize; lia].
    rewrite text_cons, cut_0_empty. cbn. by rewrite resize_le, ztake_0 by zlen.
Qed.

Lemma scatter_sizes data buffers :
  Forall (λ b, 0 < zlen b) buffers → Forall (λ b, 0 < zlen b) (scatter data buffers).
Proof.
  intros Hb. revert data. induction Hb as [|b buffers Hb _ IH]; intros data; [constructor|].
  cbn [scatter]. constructor; [zlen|apply IH].
Qed.

Lemma text_owned bufs : text (Owned <$> bufs) = concat bufs.
Proof. unfold text. by rewrite <- list_fmap_compose, list_fmap_id. Qed.
Lemma owned_owned bufs : owned (Owned <$> bufs).
Proof. apply Forall_fmap, Forall_true. done. Qed.

Definition tun_buffers : list bytes := [resize IPv4Header.LENGTH []; resize TCPSegment.HEADER_LENGTH []; []].
Definition tun_room : Z := 16424.

(** A read that fits comes in order, in buffers of which only the last may be
    empty. *)
Lemma readv_packed sys_readv data buffers w :
  let room := FileDescriptor.widen_back buffers in
  buffers ≠ [] → Forall (λ b, 0 < zlen b) room → sys_readv (zlen <$> room) = Returned data →
  zlen data ≤ zlen (concat room) →
  ∃ bufs, FileDescriptor.readv sys_readv buffers w = (Ok bufs, counted_read w) ∧ concat bufs = data ∧
    packed (Owned <$> bufs).
Proof.
  intros room Hne Hp Hr Hd. unfold FileDescriptor.readv. rewrite bool_decide_false by done.
  fold room. clearbody room. rewrite Hr, bind_eq. cbv beta iota delta [FileDescriptor.register_read modify].
  rewrite (bool_decide_false (_ > _)) by lia. eexists. split; [done|]. split.
  - by apply cut_scatter.
  - apply cut_packed; [zlen|]. by apply scatter_sizes.
Qed.

Lemma tun_readv sys_readv data w :
  sys_readv [20; 20; 16384] = Returned data → zlen data ≤ tun_room →
  ∃ bufs, FileDescriptor.readv sys_readv tun_buffers w = (Ok bufs, counted_read w) ∧ concat bufs = data ∧
    packed (Owned <$> bufs).
Proof.
  intros Hr Hd. apply readv_packed; [done|by repeat constructor| |].
  - by replace (zlen <$> FileDescriptor.widen_back tun_buffers) with [20; 20; 16384] by by vm_compute.
  - by replace (zlen (concat (FileDescriptor.widen_back tun_buffers))) with tun_room by by vm_compute.
Qed.

Lemma cut_size n bufs : 0 ≤ n → zlen (concat (FileDescriptor.cut n bufs)) ≤ zlen (concat bufs).
Proof.
  revert n. induction bufs as [|b bufs IH]; intros n Hn; cbn [FileDescriptor.cut concat]; [done|].
  case_bool_decide; cbn [concat]; rewrite !zlen_app; [specialize (IH (n - zlen b) ltac:(lia)); lia|].
  rewrite cut_0, zlen_nil, zlen_resize by done. zlen.
Qed.
Lemma scatter_size data bufs : zlen (concat (scatter data bufs)) = zlen (concat bufs).
Proof.
  revert data. induction bufs as [|b bufs IH]; intros data; cbn [scatter concat]; [done|].
  rewrite !zlen_app, IH. zlen.
Qed.

(** Whatever the kernel answers, a read yields no more than there is room for. *)
Lemma readv_room sys_readv buffers w bufs w' :
  buffers ≠ [] → FileDescriptor.readv sys_readv buffers w = (Ok bufs, w') →
  zlen (concat bufs) ≤ zlen (concat (FileDescriptor.widen_back buffers)).
Proof.
  intros Hne. unfold FileDescriptor.readv. rewrite bool_decide_false by done.
  generalize (FileDescriptor.widen_back buffers) as room. intros room.
  destruct (sys_readv _) as [data|e]; cycle 1.
  { rewrite bind_eq. cbn [gets]. destruct (FileDescriptor.would_block e w); [|done]. intros [= <- _]. cbn [concat]. zlen. }
  rewrite bind_eq. cbv beta iota delta [FileDescriptor.register_read modify].
  case_bool_decide; [done|]. intros [= <- _]. rewrite <- (scatter_size data room). apply cut_size. zlen.
Qed.
Lemma readv_size sys_readv w bufs w' :
  FileDescriptor.readv sys_readv tun_buffers w = (Ok bufs, w') → zlen (concat bufs) ≤ tun_room.
Proof. intros Hr. by apply readv_room in Hr. Qed.

Lemma tun_read_nothing `{Resolver} sys_readv w b :
  sys_readv [20; 20; 16384] = Failed EAGAIN → non_blocking_ w = true →
  TunAdapter.read sys_readv (w, b) = (Ok None, (w, b)).
Proof.
  intros Hr Hn. assert (FileDescriptor.readv sys_readv tun_buffers w = (Ok [], w)) as He.
  { unfold FileDescriptor.readv. rewrite bool_decide_false by done.
    assert (zlen <$> FileDescriptor.widen_back tun_buffers = [20; 20; 16384]) as -> by by vm_compute.
    rewrite Hr. eff_run. unfold FileDescriptor.would_block. by rewrite Hn. }
  unfold TunAdapter.read. fold tun_buffers. rewrite bind_eq. unfold on_fd. by rewrite He.
Qed.

Section tun.
Context `{ResolverSpec}.
Context (saddr sport daddr dport : Z).
Context (Hsa : is_u32 saddr) (Hsp : is_u16 sport) (Hda : is_u32 daddr) (Hdp : is_u16 dport).

(** What is written to the device. *)
Lemma tun_write_ok msg a bufs sys_writev w :
  message_ok msg → connects a saddr sport daddr dport →
  serialize (wrapped saddr sport daddr dport msg) = Ok bufs → text bufs ≠ [] →
  sys_writev (Ref.get <$> bufs) = Returned (zlen (text bufs)) →
  TunAdapter.write sys_writev msg (w, a) = (Ok (), (counted_write w, a)).
Proof.
  intros Hm Ha Hs Hne Hw. unfold TunAdapter.write. eff_run. cbn [snd].
  rewrite (wrap_ok saddr sport daddr dport Hsa Hsp Hda Hdp msg a Ha Hm). eff_run. rewrite Hs. eff_run.
  unfold on_fd, FileDescriptor.write_refs, FileDescriptor.writev. rewrite Hw. cbn [FileDescriptor.CheckSystemCall].
  eff_run. unfold FileDescriptor.register_write. eff_run. fold (text bufs).
  rewrite (bool_decide_false (zlen (text bufs) = 0)) by (by intros ?%zlen_0). cbn [andb].
  by rewrite (bool_decide_false (_ > _)) by lia.
Qed.

Lemma tun_read_ok msg bufs sys_readv w b res :
  sys_readv [20; 20; 16384] = Returned (text bufs) → zlen (text bufs) ≤ tun_room →
  (∀ bufs', text bufs' = text bufs → owned bufs' → packed bufs' →
    ∃ d, parse IPv4Datagram.new bufs' = Ok (d, true) ∧ carries saddr sport daddr dport d msg) →
  (∀ d, carries saddr sport daddr dport d msg → unwrap_tcp_in_ip d b = Ok res) →
  TunAdapter.read sys_readv (w, b) = (Ok res.1, (counted_read w, res.2)).
Proof.
  intros Hr Hl Hp Hu. destruct (tun_readv sys_readv (text bufs) w Hr Hl) as (strs&He&Hc&Hk).
  unfold TunAdapter.read. fold tun_buffers. rewrite bind_eq. unfold on_fd at 1. rewrite He. eff_run.
  destruct (Hp (Owned <$> strs)) as (d&Hd&Hca); [by rewrite text_owned|apply owned_owned|done|].
  rewrite Hd. eff_run. unfold on_adapter. rewrite (Hu d Hca). by destruct res.
Qed.
End tun.

(** * Properties *)

(** TCP over a TUN device: writing a message hands the kernel one packet,
    and an adapter at the other end that reads the same packet, through its
    three buffers of which the last may stay empty, hands over the message; a
    listening one takes a SYN and adopts its sender.  With nothing to read, a
    non-blocking device yields no message. *)
Theorem tun_roundtrip `{ResolverSpec} saddr sport daddr dport (msg : TCPMessage) (a : FdAdapterBase) :
  is_u32 saddr → is_u16 sport → is_u32 daddr → is_u16 dport →
  message_ok msg → zlen (TCPMessages.payload (sender msg)) ≤ 16384 → connects a saddr sport daddr dport →
  ∃ packet,
    (∀ sys_writev w, (∀ bufs, concat bufs = packet → sys_writev bufs = Returned (zlen packet)) →
      TunAdapter.write sys_writev msg (w, a) = (Ok (), (counted_write w, a))) ∧
    ∀ sys_readv w b,
      (sys_readv [20; 20; 16384] = Returned packet →
        (_listen b = false → connects b daddr dport saddr sport →
          TunAdapter.read sys_readv (w, b) = (Ok (Some (normal_message msg)), (counted_read w, b))) ∧
        (∀ ip, _listen b = true → is_u32 ip → source (_cfg b) = inet ip dport →
          SYN (sender msg) && negb (RST (sender msg) || rRST (receiver msg)) = true →
          TunAdapter.read sys_readv (w, b) =
            (Ok (Some (normal_message msg)), (counted_read w, connected saddr sport daddr dport b)))) ∧
      (sys_readv [20; 20; 16384] = Failed EAGAIN → non_blocking_ w = true →
        TunAdapter.read sys_readv (w, b) = (Ok None, (w, b))).
Proof.
  intros Hsa Hsp Hda Hdp Hm Hp Ha.
  destruct (wrapped_arrives saddr sport daddr dport Hsa Hda msg Hm) as (bufs&Hs&Hb).
  assert (zlen (text bufs) = 40 + zlen (TCPMessages.payload (sender msg))) as Hl.
  { by apply (wrapped_length saddr sport daddr dport). }
  exists (text bufs). split.
  - intros sys_writev w Hw. apply (tun_write_ok saddr sport daddr dport Hsa Hsp Hda Hdp msg a bufs); [done..| |by apply Hw].
    intros Ht. rewrite Ht, zlen_nil in Hl. pose proof (zlen_nonneg (TCPMessages.payload (sender msg))). lia.
  - intros sys_readv w b. split.
    + intros Hr. assert (zlen (text bufs) ≤ tun_room) as Hroom by (unfold tun_room; lia). split.
      * intros Hn Hc. apply (tun_read_ok saddr sport daddr dport msg bufs sys_readv w b (_, _) Hr Hroom Hb).
        intros d Hd. by apply (unwrap_connected saddr sport daddr dport).
      * intros ip Hn Hip Hsrc Hsyn.
        apply (tun_read_ok saddr sport daddr dport msg bufs sys_readv w b (_, _) Hr Hroom Hb).
        intros d Hd. erewrite (unwrap_listening saddr sport daddr dport); [|try done..]. by rewrite Hsyn.
    + intros Hr Hn. by apply tun_read_nothing.
Qed.

Lemma tun_roundtrip_witness :
  let R := DottedQuad.resolver in
  let w := mkFDWrapper 5 false false true 0 0 in
  let msg := demo_message in
  ∃ packet,
    (∀ sys_writev w, (∀ bufs, concat bufs = packet → sys_writev bufs = Returned (zlen packet)) →
      TunAdapter.write sys_writev msg (w, demo_adapter) = (Ok (), (counted_write w, demo_adapter))) ∧
    ∀ sys_readv w b,
      (sys_readv [20; 20; 16384] = Returned packet →
        (_listen b = false → connects b 167772162 80 167772161 4000 →
          TunAdapter.read sys_readv (w, b) = (Ok (Some (normal_message msg)), (counted_read w, b))) ∧
        (∀ ip, _listen b = true → is_u32 ip → source (_cfg b) = inet ip 80 →
          SYN (sender msg) && negb (RST (sender msg) || rRST (receiver msg)) = true →
          TunAdapter.read sys_readv (w, b) =
            (Ok (Some (normal_message msg)), (counted_read w, connected 167772161 4000 167772162 80 b)))) ∧
      (sys_readv [20; 20; 16384] = Failed EAGAIN → non_blocking_ w = true →
        TunAdapter.read sys_readv (w, b) = (Ok None, (w, b))).
Proof. intros R w msg. apply (@tun_roundtrip R DottedQuad.resolver_spec); done. Defined.

(** ** Losses *)

(** The loss rates an adapter is configured with, which reading and writing
    leave alone. *)
Definition rates {A} `{TCPDatagramAdapter A} (a : A) : Z * Z :=
  (loss_rate_dn (adapter_config a), loss_rate_up (adapter_config a)).

Class KeepsRates (A : Type) `{TCPDatagramAdapter A} : Prop := {
  read_keeps sys : keeps (λ s t, rates t.2 = rates s.2) (adapter_read sys);
  write_keeps sys m : keeps (λ s t, rates t.2 = rates s.2) (adapter_write sys m);
}.

Section rates.
Context `{Resolver}.

(** Splits a chain of fallible steps that returned. *)
Ltac returned H :=
  repeat match type of H with
  | mbind _ ?m = Ok _ => destruct m as [?|?] eqn:?; [rewrite bind_Ok_l in H|done]
  | (if ?b then _ else _) = Ok _ => destruct b
  | (let '(_, _) := ?p in _) = Ok _ => destruct p
  | Ok _ = Ok _ => injection H as H
  end.

Lemma adopt_rates h seg a a' :
  adopt h seg a = Ok a' → rates a' = rates a.
Proof. unfold adopt. intros Hu. returned Hu. by subst. Qed.

Lemma unwrap_rates d a m a' : unwrap_tcp_in_ip d a = Ok (m, a') → rates a' = rates a.
Proof.
  unfold unwrap_tcp_in_ip. intros Hu. returned Hu; intros; subst; try done.
  all: match goal with Ha : (if _ then adopt _ _ _ else _) = Ok _ |- _ => revert Ha end.
  all: destruct (FdAdapterBase.listening a); [apply adopt_rates|by intros [= <-]].
Qed.

(** Steps on the descriptor leave the adapter alone. *)
Lemma keeps_on_fd {B} (m : eff FDWrapper B) :
  keeps (λ s t : FDWrapper * FdAdapterBase, rates t.2 = rates s.2) (on_fd m).
Proof. intros [w a]. unfold on_fd. by destruct (m w). Qed.

#[export] Instance tun_keeps_rates : KeepsRates FdAdapterBase.
Proof.
  assert (PreOrder (λ s t : FDWrapper * FdAdapterBase, rates t.2 = rates s.2)).
  { split; [done|]. intros x y z E1 E2. by rewrite E2. }
  split.
  - intros sys. apply keeps_bind; [done|apply keeps_on_fd|]. intros strs.
    apply keeps_bind; [done|by apply keeps_lift|]. intros [d ok]. destruct ok; [|by apply keeps_ret].
    intros [w a]. unfold on_adapter. destruct (unwrap_tcp_in_ip d a) as [[m a']|e] eqn:Hu; [|done].
    by eapply unwrap_rates.
  - intros sys m. repeat (apply keeps_bind; [done|first [apply keeps_on_fd|by intros s]|intros ?]).
    by apply keeps_ret.
Qed.
End rates.

(** Messages written one after another, and read one after another, each with
    the answer of its system call. *)
Fixpoint sends {A} (write : (list bytes → syscall Z) → TCPMessage → eff (FDWrapper * A) ())
    (calls : list ((list bytes → syscall Z) * TCPMessage)) : eff (FDWrapper * A) () :=
  match calls with
  | [] => mret ()
  | (sys, m) :: calls => write sys m ;; sends write calls
  end.
Fixpoint receives {A} (read : fd_calls → eff (FDWrapper * A) (option TCPMessage)) (calls : list fd_calls) : eff (FDWrapper * A) (list (option TCPMessage)) :=
  match calls with
  | [] => mret []
  | sys :: calls => m ← read sys; ms ← receives read calls; mret (m :: ms)
  end.

Section lossy.
Context {E A : Type} `{KeepsRates A} (rand : E → Z * E).

(** The decision leaves the adapter and its descriptor alone. *)
Lemma should_drop_ok up w (a : LossyFdAdapter E A) :
  ∃ drop e, LossyFdAdapter._should_drop rand up (w, a) = (Ok drop, (w, mkLossyFdAdapter e (_adapter a))) ∧
    ((if up then (rates (_adapter a)).2 else (rates (_adapter a)).1) = 0 → drop = false).
Proof.
  unfold LossyFdAdapter._should_drop, rates. destruct up; cbn [fst snd].
  all: case_bool_decide as Hl; [destruct (rand (_rand a)) as [n e]; by eexists _, _|].
  all: destruct a as [e x]; by eexists _, e.
Qed.

Lemma lossy_sends calls w (a : LossyFdAdapter E A) :
  ∃ kept e, sublist kept calls ∧ ((rates (_adapter a)).2 = 0 → kept = calls) ∧
    sends (LossyFdAdapter.write rand) calls (w, a) =
      (let '(r, (w, x)) := sends adapter_write kept (w, _adapter a) in (r, (w, mkLossyFdAdapter e x))).
Proof.
  revert w a. induction calls as [|[sys m] calls IH]; intros w a.
  { exists [], (_rand a). split; [done|]. split; [done|]. by destruct a. }
  destruct (should_drop_ok true w a) as (drop&e&Hd&Hz). cbn [sends]. rewrite bind_eq.
  unfold LossyFdAdapter.write at 1. rewrite bind_eq, Hd. destruct drop; cbn [mret eff_ret].
  - destruct (IH w (mkLossyFdAdapter e (_adapter a))) as (kept&e'&Hs&_&He).
    exists kept, e'. split; [by constructor|]. split; [by intros ?%Hz|]. done.
  - unfold LossyFdAdapter.below. cbn [_adapter _rand].
    pose proof (write_keeps sys m (w, _adapter a)) as Hk. cbn [snd] in Hk.
    destruct (adapter_write sys m (w, _adapter a)) as [[[]|ex] [w' x]] eqn:Hw.
    + destruct (IH w' (mkLossyFdAdapter e x)) as (kept&e'&Hs&Ha&He).
      exists ((sys, m) :: kept), e'. split; [by constructor|].
      split; [intros Hz'; f_equal; apply Ha; cbn [_adapter]; cbn [snd] in Hk; by rewrite Hk|].
      rewrite He. cbn [sends]. rewrite bind_eq, Hw. done.
    + exists ((sys, m) :: calls), e. split; [done|]. split; [done|].
      cbn [sends]. by rewrite bind_eq, Hw.
Qed.

(** What is left of the messages read when some are lost. *)
Definition masked (lost all : list (option TCPMessage)) : Prop :=
  Forall2 (λ l m, l = None ∨ l = m) lost all.

Lemma lossy_receives calls w (a : LossyFdAdapter E A) :
  ∃ e r, receives (LossyFdAdapter.read rand) calls (w, a) =
      (r, (let '(_, (w, x)) := receives adapter_read calls (w, _adapter a) in (w, mkLossyFdAdapter e x))) ∧
    match (receives adapter_read calls (w, _adapter a)).1, r with
    | Ok ms, Ok lost => masked lost ms ∧ ((rates (_adapter a)).1 = 0 → lost = ms)
    | Err x, Err y => x = y
    | _, _ => False
    end.
Proof.
  revert w a. induction calls as [|sys calls IH]; intros w a.
  { exists (_rand a), (Ok []). split; [by destruct a|]. cbn. split; [constructor|done]. }
  cbn [receives]. rewrite !bind_eq. unfold LossyFdAdapter.read at 1. rewrite bind_eq.
  unfold LossyFdAdapter.below.
  pose proof (read_keeps sys (w, _adapter a)) as Hk. cbn [snd] in Hk.
  destruct (adapter_read sys (w, _adapter a)) as [[m|ex] [w' x]] eqn:Hr; cbn [snd] in Hk.
  2: { by exists (_rand a), (Err ex). }
  destruct (should_drop_ok false w' (mkLossyFdAdapter (_rand a) x)) as (drop&e&Hd&Hz).
  rewrite bind_eq, Hd. cbn [_adapter] in *.
  set (seen := if drop then None else m).
  assert ((if drop then mret None else mret m) = (mret seen : eff (FDWrapper * LossyFdAdapter E A) _)) as ->
    by by destruct drop.
  assert (seen = None ∨ seen = m) as Hseen by (subst seen; destruct drop; auto).
  assert ((rates x).1 = 0 → seen = m) as Hsame by (intros Hx; subst seen; by rewrite Hz).
  clearbody seen.
  cbn [mret eff_ret]. rewrite !bind_eq.
  destruct (IH w' (mkLossyFdAdapter e x)) as (e'&r&He&Hm). rewrite He. cbn [_adapter] in *.
  destruct (receives adapter_read calls (w', x)) as [[ms|ex] [w'' y]]; cbn [fst] in Hm; destruct r as [lost|]; try done.
  - eexists e', _. split; [done|]. cbn -[rates]. destruct Hm as [Hl He']. split.
    + by constructor.
    + intros Hzero. rewrite <- Hk in Hzero. by rewrite (He' Hzero), (Hsame Hzero).
  - eexists e', _. split; [done|]. cbn. done.
Qed.
End lossy.

(** The lossy adapter only loses messages: what it writes is what the
    adapter below writes for some of the messages, in their order, and all of
    them when the uplink loss rate is zero; what it reads is what the adapter
    below reads with some messages missing, and nothing missing when the
    downlink rate is zero.  The descriptor and the adapter below end in the
    same state, and their exceptions pass. *)
Theorem lossy_loses {E A : Type} `{KeepsRates A} (rand : E → Z * E) (w : FDWrapper) (a : LossyFdAdapter E A) :
  (∀ calls, ∃ kept e, sublist kept calls ∧ ((rates (_adapter a)).2 = 0 → kept = calls) ∧
    sends (LossyFdAdapter.write rand) calls (w, a) =
      (let '(r, (w, x)) := sends adapter_write kept (w, _adapter a) in (r, (w, mkLossyFdAdapter e x)))) ∧
  (∀ calls, ∃ e r, receives (LossyFdAdapter.read rand) calls (w, a) =
      (r, (let '(_, (w, x)) := receives adapter_read calls (w, _adapter a) in (w, mkLossyFdAdapter e x))) ∧
    match (receives adapter_read calls (w, _adapter a)).1, r with
    | Ok ms, Ok lost => masked lost ms ∧ ((rates (_adapter a)).1 = 0 → lost = ms)
    | Err x, Err y => x = y
    | _, _ => False
    end).
Proof. split; intros calls; [apply lossy_sends|apply lossy_receives]. Qed.

(** [std::minstd_rand0], the default engine. *)
Definition minstd (x : Z) : Z * Z := let x := x * 16807 mod 2147483647 in (x, x).
Definition demo_lossy : LossyFdAdapter Z FdAdapterBase :=
  mkLossyFdAdapter 1 (mkFdAdapterBase (mkFdAdapterConfig (inet 167772161 4000) (inet 167772162 80) 0 32768) false).
Definition demo_calls : list ((list bytes → syscall Z) * TCPMessage) :=
  replicate 5 (λ bufs, Returned (zlen (concat bufs)), demo_message).
Definition demo_device : FDWrapper := mkFDWrapper 5 false false true 0 0.

Lemma lossy_loses_witness :
  let R := DottedQuad.resolver in
  ∃ kept e, sublist kept demo_calls ∧
    sends (LossyFdAdapter.write minstd) demo_calls (demo_device, demo_lossy) =
      (let '(r, (w, x)) := sends adapter_write kept (demo_device, _adapter demo_lossy) in
        (r, (w, mkLossyFdAdapter e x))).
Proof.
  intros R. destruct (lossy_loses minstd demo_device demo_lossy) as [Hs _].
  destruct (Hs demo_calls) as (kept&e&Hk&_&He). exists kept, e. exact (conj Hk He).
Defined.

(** At a loss rate of one half the first numbers of the engine lose the first,
    the second and the fourth of six messages. *)
Fixpoint decisions (n : nat) : eff (FDWrapper * LossyFdAdapter Z FdAdapterBase) (list bool) :=
  match n with
  | O => mret []
  | S n =>
      d ← LossyFdAdapter._should_drop (H := @TunAdapter.tun_adapter DottedQuad.resolver) minstd true;
      ds ← decisions n;
      mret (d :: ds)
  end.
Example lossy_demo :
  (decisions 6 (demo_device, demo_lossy)).1 = Ok [true; true; false; true; false; false].
Proof. vm_compute. reflexivity. Qed.
