(* ===== verification/PeerStreams.v ===== *)
(** What the two streams of a TCPPeer go through: how its calls, and those of
    the application on the streams, move the bytes written to it and the bytes
    it has put together. *)

From S2P Require Import Prelude Interfaces WrappingIntegers TCPMessages ByteStream TCPPeer.
From S2P Require Reassembler TCPReceiver TCPSender.

(** The inbound stream as the receiver sees it. *)
Definition sink_of (ar : stream) : sink := mkSink (written ar) (room ar) (err ar) (fin ar).

(** A peer whose application wrote [a] and whose receiver has assembled [ar]. *)
Record streams (st : Z → byte) (p : TCPPeer) (a : stream) (base : Z) (ar : stream) : Prop := mkStreams {
  ss_peer : peer_ok st p a base (sink_of ar);
  ss_inbound : refines (inbound p) ar;
}.

(** The outbound stream as segments come and go: only an error may be set. *)
Definition same_outbound (a a' : stream) : Prop :=
  written a' = written a ∧ fin a' = fin a ∧ cap a' = cap a ∧ (err a = true → err a' = true).

(** The inbound stream as segments arrive. *)
Record grown (ar ar' : stream) : Prop := mkGrown {
  gn_cap : cap ar' = cap ar;
  gn_nread : nread ar' = nread ar;
  gn_written : written ar `prefix_of` written ar';
  gn_fin : fin ar = true → fin ar' = true;
  gn_err : err ar = true → err ar' = true;
}.

#[export] Instance same_outbound_preorder : PreOrder same_outbound.
Proof. split; [by intros a|]. intros a b c (?&?&?&?) (?&?&?&?). split_and!; try congruence. auto. Qed.
#[export] Instance grown_preorder : PreOrder grown.
Proof. split; [by intros a|]. intros a b c [] []. split; try congruence; auto. by etransitivity. Qed.

(** The arriving messages: fields in range for their types. *)
Definition wire_message (msg : TCPMessage) : Prop :=
  wf (seqno (sender msg)) ∧ TCPSender.reply_ok (receiver msg) ∧ zlen (payload (sender msg)) ≤ 65535.

(** The window does not reach the end of the 64-bit indices. *)
Definition window_fits (ar : stream) : Prop := nread ar + cap ar < 2 ^ 63.

(** The Reassembler pushes on to the stream and may close it. *)
Lemma inserted_grown (rs rs' : Reassembler.Reassembler ByteStream) ar fi data last new k' :
  refines (Reassembler.output_ rs) ar →
  capacity_ (Reassembler.output_ rs') = capacity_ (Reassembler.output_ rs) →
  Reassembler.insert_spec fi data last rs (sink_of ar) rs' new k' →
  ∃ ar', refines (Reassembler.output_ rs') ar' ∧ k' = sink_of ar' ∧ grown ar ar'.
Proof.
  intros R Hcap I. pose proof (Reassembler.ins_ok _ _ _ _ _ _ _ _ I) as ((ar'&R'&->)&_).
  pose proof (Reassembler.ins_sink _ _ _ _ _ _ _ _ I) as Hk.
  exists ar'. split; [done|]. split; [done|].
  unfold sink_of, Reassembler.sink_advance in Hk. simpl in Hk. injection Hk as Hkw Hkr Hke Hkc.
  assert (cap ar' = cap ar) as Hc.
  { by rewrite <- (ref_capacity _ _ R), <- (ref_capacity _ _ R'). }
  split; [done| |by exists new| |congruence].
  - unfold room in Hkr. rewrite Hkw, zlen_app, Hc in Hkr. lia.
  - intros Hf. by rewrite Hkc, Hf.
Qed.

(** How a stream has grown is determined by the object. *)
Lemma grown_det s ar ar1 ar2 :
  0 ≤ nread ar ≤ zlen (written ar) → refines s ar1 → refines s ar2 → grown ar ar1 → grown ar ar2 → ar1 = ar2.
Proof.
  intros Hn R1 R2 [_ N1 [x1 W1] _ _] [_ N2 [x2 W2] _ _].
  pose proof (ref_content _ _ R1) as C1. rewrite (ref_content _ _ R2) in C1.
  unfold unread in C1. rewrite N1, N2, W1, W2, !zdrop_app_le in C1 by lia. apply app_inv_head in C1 as ->.
  pose proof (ref_capacity _ _ R1). pose proof (ref_capacity _ _ R2).
  pose proof (ref_error _ _ R1). pose proof (ref_error _ _ R2).
  pose proof (ref_closed _ _ R1). pose proof (ref_closed _ _ R2).
  destruct ar1, ar2. cbn in *. congruence.
Qed.

Section receiver.
Context {r : TCPReceiver.TCPReceiver ByteStream} {ar : stream}.
Context (Hr : TCPReceiver.receiver_ok r (sink_of ar)) (R : refines (TCPReceiver.writer r) ar).

Lemma window_end_sink : Reassembler.window_end (sink_of ar) = nread ar + cap ar.
Proof. unfold Reassembler.window_end, sink_of, room. simpl. lia. Qed.

(** A message leaves the receiver alone, resets it, or inserts its payload. *)
Lemma receive_grown m r' :
  wf (seqno m) → zlen (payload m) ≤ 65535 → window_fits ar → TCPReceiver.receive m r = Ok r' →
  ∃ ar', TCPReceiver.receiver_ok r' (sink_of ar') ∧ refines (TCPReceiver.writer r') ar' ∧ grown ar ar'.
Proof.
  intros Hs Hp Hw He. destruct (RST m) eqn:Hrst.
  { destruct (TCPReceiver.receive_rst r _ m Hr Hrst) as (r0&He0&Hr0&_). rewrite He in He0. injection He0 as <-.
    exists (spec_close (spec_set_error ar)). split; [done|]. split; [|by split; simpl].
    unfold TCPReceiver.receive in He. rewrite Hrst in He. injection He as <-.
    by apply (close_refines (set_error_refines R)). }
  assert (r' = r ∨ ∃ z, (TCPReceiver.isn_ r = Some z ∨ TCPReceiver.isn_ r = None ∧ SYN m = true ∧ seqno m = z) ∧ wf z)
    as [->|(z&Hz&Hwz)].
  { destruct (TCPReceiver.isn_ r) as [z|] eqn:Hi.
    - right. exists z. split; [by left|]. destruct Hr as [_ Hz]. by rewrite Hi in Hz.
    - destruct (SYN m) eqn:Hsy; [right; exists (seqno m); auto|left].
      rewrite TCPReceiver.receive_before_syn in He by done. congruence. }
  { exists ar. by split_and!. }
  destruct (TCPReceiver.receive_segment r _ m z Hr Hrst Hz Hwz Hs) as (r0&new&k'&He0&_&Hr0&I).
  { rewrite window_end_sink. unfold window_fits in Hw. lia. }
  rewrite He in He0. injection He0 as <-.
  assert (capacity_ (TCPReceiver.writer r') = capacity_ (TCPReceiver.writer r)) as Hcap.
  { unfold TCPReceiver.receive in He. rewrite Hrst in He.
    destruct Hz as [Hz|(Hz&Hsy&<-)]; rewrite Hz in He; [|rewrite Hsy in He];
      apply bind_Ok in He as (q&Hq&[= <-]); by apply (Reassembler.insert_capacity _ _ _ _ _ Hq). }
  destruct (inserted_grown _ _ _ _ _ _ _ _ R Hcap I) as (ar'&R'&->&Hg).
  by exists ar'.
Qed.
End receiver.

(** * The calls of a peer *)

Section peer.
Context {st : Z → byte} {p : TCPPeer} {a : stream} {base : Z} {ar : stream} (P : streams st p a base ar).

Lemma streams_receiver_ok : TCPReceiver.receiver_ok (receiver_ p) (sink_of ar).
Proof. apply (ss_peer _ _ _ _ _ P). Qed.

Lemma streams_error : has_error (inbound p) = err ar.
Proof. apply (ref_error _ _ (ss_inbound _ _ _ _ _ P)). Qed.

Lemma streams_push :
  ∃ p' sent a', push p = Ok (p', sent) ∧ streams st p' a' base ar ∧ same_outbound a a' ∧ receiver_ p' = receiver_ p.
Proof.
  destruct P as [Hp Hi]. destruct (push_peer_ok Hp) as (p'&sent&a'&He&Hp'&(Hw&Hf&Her&Hc)&Hr&_).
  exists p', sent, a'. split; [done|]. split; [split; [done|]|].
  - unfold inbound. by rewrite Hr.
  - split; [|done]. split_and!; [done..|]. congruence.
Qed.

Lemma streams_tick t :
  streams st (tick t p).1 a base ar ∧ receiver_ (tick t p).1 = receiver_ p.
Proof.
  destruct P as [[Hs Hr] Hi]. unfold tick.
  pose proof (TCPSender.tick_ok st _ a base t Hs) as R'.
  cbn [sender_ with_times]. destruct (TCPSender.tick t (sender_ p)) as [s' sent]. split; [by split; [split|]|done].
Qed.

(** The state between taking a message in and answering. *)
Lemma streams_taken_in msg r :
  wire_message msg → window_fits ar → TCPReceiver.receive (sender msg) (receiver_ p) = Ok r →
  ∃ a' base' ar', streams st (taken_in msg r p) a' base' ar' ∧ same_outbound a a' ∧ grown ar ar'.
Proof.
  intros (Hs&Hrep&Hp) Hw He.
  destruct (receive_grown streams_receiver_ok (ss_inbound _ _ _ _ _ P) _ _ Hs Hp Hw He) as (ar'&Hr'&R'&Hg).
  destruct (TCPSender.sender_total st _ a base (receiver msg) (proj1 (ss_peer _ _ _ _ _ P)) Hrep)
    as (a'&base'&Hsnd&Ha).
  exists a', base', ar'. split; [by split; [split|]|]. split; [|done]. rewrite Ha. by destruct (rRST _).
Qed.

Lemma streams_receive msg :
  wire_message msg → window_fits ar →
  ∃ p' sent a' base' ar', receive msg p = Ok (p', sent) ∧ streams st p' a' base' ar' ∧
    same_outbound a a' ∧ grown ar ar' ∧
    (receiver_ p' = receiver_ p ∧ ar' = ar ∨
     active p = true ∧ TCPReceiver.receive (sender msg) (receiver_ p) = Ok (receiver_ p')).
Proof.
  intros Hm Hw. unfold receive. destruct (active p) eqn:Ha; cbn [negb]; cycle 1.
  { exists p, [], a, base, ar. split_and!; try done. by left. }
  destruct (TCPReceiver.receiver_total (receiver_ p) _ (sender msg) streams_receiver_ok) as (r&k&He&_).
  { exact (proj1 Hm). }
  { rewrite window_end_sink. destruct Hm as (_&_&?). unfold window_fits in Hw. lia. }
  destruct (streams_taken_in msg r Hm Hw He) as (a1&base1&ar1&P1&Ho&Hg).
  cbn [receiver_ with_need_send with_times]. rewrite He, bind_Ok_l.
  match goal with |- context [push ?q] => change (push q) with (push (taken_in msg r p)) end.
  destruct P1 as [Hp1 Hi1]. destruct (push_peer_ok Hp1) as (p2&sent&a2&Hpush&P2&(Hw2&Hf2&He2&Hc2)&Hr2&_).
  rewrite Hpush, bind_Ok_l.
  assert (∀ p3, sender_ p3 = sender_ p2 → receiver_ p3 = receiver_ p2 → streams st p3 a2 base1 ar1 ∧
    receiver_ p3 = r) as Hp3.
  { intros p3 Hs3 Hr3. split; [split|by rewrite Hr3, Hr2].
    - destruct P2. split; congruence.
    - unfold inbound. by rewrite Hr3, Hr2. }
  assert (same_outbound a a2) as Ho2.
  { etransitivity; [exact Ho|]. split_and!; congruence. }
  eassert (∃ p3 sent3, (if need_send_ p2 then _ else (p2, sent)) = (p3, sent3) ∧ sender_ p3 = sender_ p2 ∧
    receiver_ p3 = receiver_ p2) as (p3&sent3&->&Hs3&Hr3) by (destruct (need_send_ p2); eexists _, _; by split_and!).
  destruct (Hp3 (if Writer.is_closed (inbound p3) && negb (Reader.is_finished (outbound p3))
    then with_linger false p3 else p3)) as [HP Hrr]; [by destruct (_ && _)..|].
  eexists _, sent3, a2, base1, ar1. split; [done|]. split_and!; try done. right. by rewrite Hrr.
Qed.

(** ** The calls of the application *)

Lemma streams_out f a' :
  TCPSender.sender_ok st (TCPSender.with_input f (sender_ p)) a' base → streams st (outbound_writer f p) a' base ar.
Proof. intros Hs. destruct P as [[_ Hr] Hi]. by split. Qed.

Lemma streams_write data :
  zlen data ≤ room a → data = slice st (zlen (written a)) (zlen data) → zlen (written a) + zlen data < 2 ^ 62 →
  ∃ a', streams st (outbound_writer (Writer.push data) p) a' base ar ∧
    written a' = written a ++ data ∧ fin a' = fin a.
Proof.
  intros Hl Hd Hb. exists (spec_push data a). destruct P as [[Hs _] _].
  assert (ztake (room a) data = data) as Ht by by apply ztake_ge.
  split; [|cbn; by rewrite Ht]. apply streams_out, TCPSender.write_ok; rewrite ?Ht; done.
Qed.

Lemma streams_close : streams st (outbound_writer Writer.close p) (spec_close a) base ar.
Proof. destruct P as [[Hs _] _]. by apply streams_out, TCPSender.close_input_ok. Qed.
Lemma streams_fail_out : streams st (outbound_writer set_error p) (spec_set_error a) base ar.
Proof. destruct P as [[Hs _] _]. by apply streams_out, TCPSender.set_error_input_ok. Qed.

Lemma streams_room : Writer.available_capacity (outbound p) = room a ∧ 0 ≤ room a < 2 ^ 64.
Proof.
  destruct P as [[Hs _] _]. pose proof (TCPSender.so_input Hs) as R. split; [by apply available_refines|]. exact (room_range R).
Qed.

(** A new inbound stream with the same bytes in it. *)
Lemma streams_in f s ar' :
  f (inbound p) = Ok s → refines s ar' → written ar' = written ar → fin ar' = fin ar → room ar ≤ room ar' →
  window_fits ar' →
  ∃ p', inbound_reader f p = Ok p' ∧ streams st p' a base ar' ∧ outbound p' = outbound p ∧
    TCPReceiver.reassembler_ (receiver_ p') =
      Reassembler.mkReassembler s (Reassembler.pending_ (TCPReceiver.reassembler_ (receiver_ p)))
        (Reassembler.end_index_ (TCPReceiver.reassembler_ (receiver_ p)))
        (Reassembler.eof_seen_ (TCPReceiver.reassembler_ (receiver_ p))) ∧
    TCPReceiver.isn_ (receiver_ p') = TCPReceiver.isn_ (receiver_ p).
Proof.
  intros Hf R Hw Hfin Hroom Hfit. unfold inbound_reader.
  change (Reassembler.output_ (TCPReceiver.reassembler_ (receiver_ p))) with (inbound p).
  rewrite Hf, bind_Ok_l. eexists. split; [done|]. split; [|done]. destruct P as [[Hs [Hr Hz]] Hi].
  split; [split; [done|split; [|done]]|done].
  apply (Reassembler.reasm_ok_output _ (sink_of ar)); cbn; try done; [by exists ar'|].
  change (Reassembler.window_end (sink_of ar') < 2 ^ 64). rewrite window_end_sink. unfold window_fits in Hfit. lia.
Qed.
End peer.

Section inbound.
Context {st : Z → byte} {p : TCPPeer} {a : stream} {base : Z} {ar : stream} (P : streams st p a base ar).

Lemma streams_peek :
  ∃ view rest, Reader.peek (inbound p) = Ok view ∧ unread ar = view ++ rest ∧ (view = [] ↔ unread ar = []).
Proof.
  destruct (peek_refines (ss_inbound _ _ _ _ _ P)) as (view&rest&?&?&?&_). by exists view, rest.
Qed.

Lemma streams_buffered : Reader.bytes_buffered (inbound p) = zlen (unread ar).
Proof. apply (buffered_refines (ss_inbound _ _ _ _ _ P)). Qed.
Lemma streams_finished : Reader.is_finished (inbound p) = fin ar && bool_decide (unread ar = []).
Proof. apply (is_finished_refines (ss_inbound _ _ _ _ _ P)). Qed.

Lemma pop_facts n :
  0 ≤ n ≤ zlen (unread ar) → 
  nread (spec_pop n ar) = nread ar + n ∧ 0 ≤ nread ar ∧ nread ar + zlen (unread ar) = zlen (written ar).
Proof.
  intros Hn. pose proof (ref_nread _ _ (ss_inbound _ _ _ _ _ P)) as Hr.
  pose proof (refines_unread (ss_inbound _ _ _ _ _ P)) as Hu. cbn. lia.
Qed.

Lemma streams_pop n :
  0 ≤ n ≤ zlen (unread ar) → window_fits (spec_pop n ar) →
  ∃ p', inbound_reader (Reader.pop n) p = Ok p' ∧ streams st p' a base (spec_pop n ar) ∧ outbound p' = outbound p ∧
    (∃ s, TCPReceiver.reassembler_ (receiver_ p') =
      Reassembler.mkReassembler s (Reassembler.pending_ (TCPReceiver.reassembler_ (receiver_ p)))
        (Reassembler.end_index_ (TCPReceiver.reassembler_ (receiver_ p)))
        (Reassembler.eof_seen_ (TCPReceiver.reassembler_ (receiver_ p)))) ∧
    TCPReceiver.isn_ (receiver_ p') = TCPReceiver.isn_ (receiver_ p).
Proof.
  intros Hn Hw. destruct (pop_refines (ss_inbound _ _ _ _ _ P) n (proj1 Hn)) as (s&He&R&_).
  destruct (streams_in P (Reader.pop n) s (spec_pop n ar) He R) as (p'&?&?&?&?&?); try done.
  { unfold room. destruct (pop_facts n Hn) as [-> _]. cbn. lia. }
  exists p'. split_and!; try done. by exists s.
Qed.
Lemma streams_fail_in :
  window_fits ar →
  ∃ p', inbound_reader (λ s, Ok (set_error s)) p = Ok p' ∧ streams st p' a base (spec_set_error ar) ∧
    outbound p' = outbound p ∧
    (∃ s, TCPReceiver.reassembler_ (receiver_ p') =
      Reassembler.mkReassembler s (Reassembler.pending_ (TCPReceiver.reassembler_ (receiver_ p)))
        (Reassembler.end_index_ (TCPReceiver.reassembler_ (receiver_ p)))
        (Reassembler.eof_seen_ (TCPReceiver.reassembler_ (receiver_ p)))) ∧
    TCPReceiver.isn_ (receiver_ p') = TCPReceiver.isn_ (receiver_ p).
Proof.
  intros Hw. pose proof (set_error_refines (ss_inbound _ _ _ _ _ P)) as R.
  destruct (streams_in P (λ s, Ok (set_error s)) _ (spec_set_error ar) eq_refl R) as (p'&?&?&?&?&?); try done.
  exists p'. split_and!; try done. by eexists.
Qed.
End inbound.

(** A fresh peer. *)
Lemma streams_new st cfg :
  config_ok cfg → streams st (new_peer cfg) (spec_new (send_capacity cfg)) 0 (spec_new (recv_capacity cfg)).
Proof.
  intros Hc. split.
  - pose proof (new_peer_ok st cfg Hc) as Hp. unfold sink_of, room. cbn.
    by replace (recv_capacity cfg - (zlen [] - 0)) with (recv_capacity cfg) by zlen.
  - apply new_refines, Hc.
Qed.

(** * An inbound stream with a purpose *)

(** What a claim about the inbound stream asks of the messages that arrive and
    of the receiver, and how it is kept. *)
Record inbound_law (good : TCPSenderMessage → Prop) (claim : TCPReceiver.TCPReceiver ByteStream → stream → Prop)
    : Prop := mkInboundLaw {
  law_receive r ar m r' ar' :
    TCPReceiver.receiver_ok r (sink_of ar) → refines (TCPReceiver.writer r) ar → err ar = false → good m →
    claim r ar → TCPReceiver.receive m r = Ok r' → refines (TCPReceiver.writer r') ar' → grown ar ar' →
    claim r' ar';
  law_output r ar s ar' z rs' :
    claim r ar → refines s ar' → written ar' = written ar → fin ar' = fin ar →
    (err ar = true → err ar' = true) → room ar ≤ room ar' → window_fits ar' →
    rs' = Reassembler.mkReassembler s (Reassembler.pending_ (TCPReceiver.reassembler_ r))
      (Reassembler.end_index_ (TCPReceiver.reassembler_ r)) (Reassembler.eof_seen_ (TCPReceiver.reassembler_ r)) →
    z = TCPReceiver.isn_ r → claim (TCPReceiver.mkTCPReceiver rs' z) ar';
}.

Lemma no_claim : inbound_law (λ _, True) (λ _ _, True).
Proof. by split. Qed.

(** ** The segments of one stream *)

Section genuine.
Context (z : Wrap32) (remote : Z → byte) (n : Z) (Hz : wf z) (Hn : 0 ≤ n < 2 ^ 31 - 2).

(** A segment that the other end of the connection may send: one of its stream
    of [n] bytes, an empty one after its FIN, or a reset. *)
Definition genuine (m : TCPSenderMessage) : Prop :=
  RST m = true ∨ (∃ b, TCPReceiver.segment_of z remote n b m) ∨
  m = mkTCPSenderMessage (Wrap32.wrap (n + 2) z) false [] false false.

(** The inbound stream is a prefix of the remote one and closed at its end. *)
Definition assembling (r : TCPReceiver.TCPReceiver ByteStream) (ar : stream) : Prop :=
  written ar = slice remote 0 (zlen (written ar)) ∧ zlen (written ar) ≤ n ∧
  (err ar = false →
    Reassembler.holding remote n n (TCPReceiver.reassembler_ r) (sink_of ar) ∧
    (TCPReceiver.isn_ r = None ∨ TCPReceiver.isn_ r = Some z)).

Lemma holding_assembling r ar :
  Reassembler.holding remote n n (TCPReceiver.reassembler_ r) (sink_of ar) →
  TCPReceiver.isn_ r = None ∨ TCPReceiver.isn_ r = Some z → assembling r ar.
Proof.
  intros A Hi. split_and!; [apply (Reassembler.hold_written A)|apply (Reassembler.hold_next A)|done].
Qed.

Lemma assembling_whole r ar :
  assembling r ar → err ar = false → fin ar = true → written ar = slice remote 0 n.
Proof.
  intros (Hw&_&Ha) He Hf. destruct (Ha He) as [A _]. pose proof (Reassembler.hold_closed A) as Hc.
  cbn in Hc. rewrite Hf in Hc. symmetry in Hc. apply andb_true_iff in Hc as [_ Hc%bool_decide_eq_true].
  rewrite Hw. unfold Reassembler.next_index in Hc. cbn in Hc. by rewrite Hc.
Qed.

(** A segment of the stream, when the SYN has arrived or is this one. *)
Lemma assembling_segment r ar b m r' ar' :
  refines (TCPReceiver.writer r) ar → TCPReceiver.segment_of z remote n b m →
  (TCPReceiver.isn_ r = Some z ∨ TCPReceiver.isn_ r = None ∧ SYN m = true ∧ seqno m = z) →
  Reassembler.holding remote n n (TCPReceiver.reassembler_ r) (sink_of ar) →
  TCPReceiver.receive m r = Ok r' → refines (TCPReceiver.writer r') ar' → grown ar ar' → assembling r' ar'.
Proof.
  intros R Hseg Hi A He R' Hg. pose proof Hseg as (Hb&_&_&_&Hpc).
  pose proof (Reassembler.hold_next A) as Hnx. pose proof (ref_nread _ _ R) as Hnr.
  assert (0 ≤ Reassembler.next_index (sink_of ar)) by (unfold Reassembler.next_index; zlen).
  destruct (Reassembler.holding_insert remote n n _ _ (TCPReceiver.piece b m) A Hpc) as (rs&new&k'&Hins&I&A'&_).
  { by destruct Hpc as (_&?&_). }
  assert (Z.abs (b - Reassembler.next_index (sink_of ar)) < 2 ^ 31) as Hd.
  { destruct Hpc as (_&Hpn&_). unfold TCPReceiver.piece, TCPReceiver.payload_index in Hpn. simpl in Hpn.
    pose proof (zlen_nonneg (payload m)). case_bool_decide; lia. }
  pose proof (TCPReceiver.receive_at z remote n r _ b m Hi Hz (Reassembler.hold_ok A) Hseg ltac:(lia) Hd) as Hrec.
  unfold TCPReceiver.piece in Hins, I. cbn [fst snd] in Hins, I.
  rewrite Hins, bind_Ok_l, He in Hrec. injection Hrec as ->.
  destruct (inserted_grown _ _ _ _ _ _ _ _ R (Reassembler.insert_capacity _ _ _ _ _ Hins) I) as (ar2&R2&->&Hg2).
  assert (ar' = ar2) as -> by by apply (grown_det rs.(Reassembler.output_) ar).
  apply holding_assembling; [done|by right].
Qed.

(** An empty segment moves at most what was waiting. *)
Lemma holding_empty rs k fi rs' new k' :
  Reassembler.holding remote n n rs k → Reassembler.insert_spec fi [] false rs k rs' new k' →
  Reassembler.holding remote n n rs' k'.
Proof.
  intros A I. pose proof (Reassembler.hold_lim A) as Hlim. pose proof (Reassembler.hold_next A) as Hnx.
  destruct (Reassembler.ins_consistent _ _ _ _ _ _ _ _ I remote eq_refl (Reassembler.hold_consistent A)) as [Hnew Hc].
  pose proof (Reassembler.ins_ok _ _ _ _ _ _ _ _ I) as Hok.
  pose proof (Reassembler.ins_eof _ _ _ _ _ _ _ _ I) as Heof. pose proof (Reassembler.ins_end _ _ _ _ _ _ _ _ I) as Hend.
  pose proof (Reassembler.ins_sink _ _ _ _ _ _ _ _ I) as Hk. cbn in Heof, Hend.
  assert (∀ i, Reassembler.next_index k ≤ i < Reassembler.next_index k + zlen new ∨ Reassembler.cov
    (Reassembler.pending_ rs') i → i < n) as Hcov.
  { intros i [Hi|Hi]%(Reassembler.ins_cov _ _ _ _ _ _ _ _ I); [by apply (Reassembler.hold_cov A)|].
    rewrite zlen_nil in Hi. lia. }
  assert (Reassembler.next_index k' = Reassembler.next_index k + zlen new) as Hnx'.
  { rewrite Hk. apply Reassembler.next_index_advance. }
  assert (Reassembler.next_index k' ≤ n) as Hle.
  { rewrite Hnx'. destruct (decide (zlen new = 0)); [lia|].
    specialize (Hcov (Reassembler.next_index k + zlen new - 1)). zlen. }
  split; rewrite ?Heof, ?Hend; try done.
  - rewrite Hk at 1. cbn. rewrite (Reassembler.hold_written A), Hnew at 1. rewrite Hnx'.
    apply slice_app'; unfold Reassembler.next_index; zlen.
  - intros i Hi. apply Hcov. by right.
  - by apply A.
  - pose proof (f_equal sink_closed Hk) as Hcl. cbn in Hcl.
    rewrite Hcl, (Reassembler.hold_closed A), Heof, Hend, Hnx'.
    destruct (Reassembler.eof_seen_ rs) eqn:He; [|done]. rewrite (Reassembler.hold_end A He). cbn.
    assert (0 ≤ zlen new) by zlen. repeat case_bool_decide; done || lia.
Qed.

Lemma assembling_empty r ar m r' ar' :
  TCPReceiver.receiver_ok r (sink_of ar) → refines (TCPReceiver.writer r) ar →
  m = mkTCPSenderMessage (Wrap32.wrap (n + 2) z) false [] false false → TCPReceiver.isn_ r = Some z →
  Reassembler.holding remote n n (TCPReceiver.reassembler_ r) (sink_of ar) →
  TCPReceiver.receive m r = Ok r' → refines (TCPReceiver.writer r') ar' → grown ar ar' → assembling r' ar'.
Proof.
  intros Hr R -> Hi A He R' Hg. pose proof (ref_nread _ _ R) as Hnr.
  destruct (TCPReceiver.receive_segment r _ (mkTCPSenderMessage (Wrap32.wrap (n + 2) z) false [] false false) z Hr)
    as (r0&new&k'&He0&Hi0&_&I); [done|by left|done|apply wrap_wf| |].
  { cbn. rewrite zlen_nil. destruct (TCPReceiver.writer_models _ _ Hr) as (?&?&_).
    pose proof (Reassembler.hold_ok A) as (_&_&Hb). lia. }
  rewrite He in He0. injection He0 as <-.
  assert (capacity_ (TCPReceiver.writer r') = capacity_ (TCPReceiver.writer r)) as Hcap.
  { unfold TCPReceiver.receive in He. cbn [RST] in He. rewrite Hi in He.
    apply bind_Ok in He as (q&Hq&[= <-]). by apply (Reassembler.insert_capacity _ _ _ _ _ Hq). }
  pose proof (holding_empty _ _ _ _ _ _ A I) as A'.
  destruct (inserted_grown _ _ _ _ _ _ _ _ R Hcap I) as (ar2&R2&->&Hg2).
  assert (ar' = ar2) as -> by by eapply (grown_det _ ar).
  apply holding_assembling; [done|]. by right.
Qed.

Lemma genuine_law : inbound_law genuine assembling.
Proof.
  split.
  - intros r ar m r' ar' Hr R Her Hm (Hw&Hl&Ha) He R' Hg. destruct (Ha Her) as [A Hi].
    pose proof (ref_nread _ _ R) as Hnr. destruct Hm as [Hrst|[[b Hseg]|Hm]]; cycle 2.
    { destruct Hi as [Hi|Hi]; [|by eapply assembling_empty]. subst m.
      rewrite TCPReceiver.receive_before_syn in He by done. injection He as <-.
      assert (ar' = ar) as -> by by eapply (grown_det _ ar). apply holding_assembling; [done|by left]. }
    { unfold TCPReceiver.receive in He. rewrite Hrst in He. injection He as <-.
      assert (ar' = spec_close (spec_set_error ar)) as ->.
      { eapply (grown_det _ ar); [done|done| |done|by split; simpl].
        by apply (close_refines (set_error_refines R)). }
      by split_and!. }
    pose proof Hseg as (Hb&Hs&Hsyn&Hrst&Hpc).
    destruct Hi as [Hi|Hi]; [destruct (SYN m) eqn:Hsy|].
    + eapply (assembling_segment r ar b); eauto. right. split_and!; [done..|].
      rewrite Hs. symmetry in Hsyn. apply bool_decide_eq_true in Hsyn as ->. apply wrap_0, Hz.
    + rewrite TCPReceiver.receive_before_syn in He by done. injection He as <-.
      assert (ar' = ar) as -> by by eapply (grown_det _ ar).
      apply holding_assembling; [done|by left].
    + eapply (assembling_segment r ar b); eauto.
  - intros r ar s ar' zz rs' (Hw&Hl&Ha) R Hww Hf He Hroom Hfit -> ->.
    split; [by rewrite Hww|]. split; [by rewrite Hww|]. intros Her. destruct (err ar); [by rewrite He in Her|].
    destruct (Ha eq_refl) as [A Hi]. split; [|done].
    apply (Reassembler.holding_output remote n n _ _ s _ A); cbn; try done; [by exists ar'|].
    change (Reassembler.window_end (sink_of ar') < 2 ^ 64). rewrite window_end_sink. unfold window_fits in Hfit. lia.
Qed.

Lemma assembling_new cfg : config_ok cfg → assembling (receiver_ (new_peer cfg)) (spec_new (recv_capacity cfg)).
Proof.
  intros Hc. pose proof (streams_new remote cfg Hc) as [[_ [Hr _]] R].
  assert (sink_of (spec_new (recv_capacity cfg)) = mkSink [] (recv_capacity cfg) false false) as Hk.
  { unfold sink_of, room. cbn. f_equal. zlen. }
  apply holding_assembling; [|by left]. eapply Reassembler.holding_weaken.
  - rewrite Hk. apply Reassembler.holding_new; [|lia]. rewrite <- Hk. apply Hr.
  - lia.
Qed.
End genuine.
