(* ===== verification/MinnowSocket.v ===== *)
(** The socket that puts a TCP connection on the event loop
    (src/util/tcp_minnow_socket.hh, tcp_minnow_socket_impl.hh): a TCPPeer, the
    adapter that carries its segments, and the pair of local sockets between
    the thread that runs the connection and its owner. *)

From stdpp Require Import pretty.
From S2P Require Import Prelude Interfaces Effects FileDescriptor EventRules EventLoop EpollEventLoop EpollInvariant.
From S2P Require Import WrappingIntegers TCPMessages ByteStream Address TCPOverIP Pipe Adapter PeerStreams.
From S2P Require Ref Parser IPv4 TCPSegment WireSize.
From S2P Require Reassembler TCPReceiver TCPSender TCPPeer Socket.

(** * The object *)

(** What the callbacks of the rules are. *)
Inductive code : Type :=
  | ReceiveSegment | IsActive
  | PushBytes | WantsBytes | CloseOutbound | FailOutbound
  | ReadInbound | WantsRoom | FailInbound
  | NoCallback.

(** The members, but for the descriptors and the event loop; and what passed
    between the thread and the kernel: the number of calls, the bytes taken
    from the owner and those the kernel accepted for it. *)
Record TCPMinnowSocket (A : Type) : Type := mkTCPMinnowSocket {
  _datagram_adapter : A;
  _tcp : option TCPPeer.TCPPeer;
  _inbound_shutdown : bool;
  _outbound_shutdown : bool;
  _fully_acked : bool;
  joinable : bool;          (* of [_tcp_thread] *)
  now : nat;
  taken : Z;
  given : bytes;
}.
Arguments mkTCPMinnowSocket {A} _ _ _ _ _ _ _ _ _.
Arguments _datagram_adapter {A} _.
Arguments _tcp {A} _.
Arguments _inbound_shutdown {A} _.
Arguments _outbound_shutdown {A} _.
Arguments _fully_acked {A} _.
Arguments joinable {A} _.
Arguments now {A} _.
Arguments taken {A} _.
Arguments given {A} _.

Section setters.
Context {A : Type}.
Implicit Types w : TCPMinnowSocket A.
Definition set_adapter (a : A) w : TCPMinnowSocket A :=
  mkTCPMinnowSocket a (_tcp w) (_inbound_shutdown w) (_outbound_shutdown w) (_fully_acked w) (joinable w) (now w)
    (taken w) (given w).
Definition set_tcp (p : option TCPPeer.TCPPeer) w : TCPMinnowSocket A :=
  mkTCPMinnowSocket (_datagram_adapter w) p (_inbound_shutdown w) (_outbound_shutdown w) (_fully_acked w) (joinable w)
    (now w) (taken w) (given w).
Definition set_inbound_shutdown w : TCPMinnowSocket A :=
  mkTCPMinnowSocket (_datagram_adapter w) (_tcp w) true (_outbound_shutdown w) (_fully_acked w) (joinable w) (now w)
    (taken w) (given w).
Definition set_outbound_shutdown w : TCPMinnowSocket A :=
  mkTCPMinnowSocket (_datagram_adapter w) (_tcp w) (_inbound_shutdown w) true (_fully_acked w) (joinable w) (now w)
    (taken w) (given w).
Definition set_fully_acked w : TCPMinnowSocket A :=
  mkTCPMinnowSocket (_datagram_adapter w) (_tcp w) (_inbound_shutdown w) (_outbound_shutdown w) true (joinable w) (now w)
    (taken w) (given w).
Definition set_joinable (b : bool) w : TCPMinnowSocket A :=
  mkTCPMinnowSocket (_datagram_adapter w) (_tcp w) (_inbound_shutdown w) (_outbound_shutdown w) (_fully_acked w) b (now w)
    (taken w) (given w).
Definition pass_time w : TCPMinnowSocket A :=
  mkTCPMinnowSocket (_datagram_adapter w) (_tcp w) (_inbound_shutdown w) (_outbound_shutdown w) (_fully_acked w)
    (joinable w) (S (now w)) (taken w) (given w).
Definition take_bytes (n : Z) w : TCPMinnowSocket A :=
  mkTCPMinnowSocket (_datagram_adapter w) (_tcp w) (_inbound_shutdown w) (_outbound_shutdown w) (_fully_acked w)
    (joinable w) (now w) (taken w + n) (given w).
Definition give_bytes (data : bytes) w : TCPMinnowSocket A :=
  mkTCPMinnowSocket (_datagram_adapter w) (_tcp w) (_inbound_shutdown w) (_outbound_shutdown w) (_fully_acked w)
    (joinable w) (now w) (taken w) (given w ++ data).
End setters.

(** The system: what the calls answer at the times they are made.  The owner
    writes a stream of bytes to its socket; a read of the other end, after
    those taken so far, answers how many come next.  A write tells how many
    bytes are accepted after those accepted so far.  The flag [_abort] is set
    by the owner's thread. *)
Record system (K : Type) : Type := mkSystem {
  net_readv : nat → list Z → syscall bytes;
  net_writev : nat → list bytes → syscall Z;
  owner_bytes : Z → byte;
  pipe_read : nat → Z → Z → syscall Z;
  pipe_writev : nat → Z → list bytes → syscall Z;
  sys_shutdown : nat → Z → Z → syscall Z;
  timestamp_ms : nat → Z;
  aborted : nat → bool;
  sys_epoll_ctl : Z → Z → Z → Z → K → syscall () * K;
  sys_epoll_wait : nat → Z → Z → Z → K → syscall (list (Z * Z));
  sys_getsockopt : nat → Z → syscall (Z * Z);
  map_order : gmap Z FdState → list Z;
}.
Arguments net_readv {K} _ _ _.
Arguments net_writev {K} _ _ _.
Arguments owner_bytes {K} _ _.
Arguments pipe_read {K} _ _ _ _.
Arguments pipe_writev {K} _ _ _ _.
Arguments sys_shutdown {K} _ _ _ _.
Arguments timestamp_ms {K} _ _.
Arguments aborted {K} _ _.
Arguments sys_epoll_ctl {K} _ _ _ _ _ _.
Arguments sys_epoll_wait {K} _ _ _ _ _ _.
Arguments sys_getsockopt {K} _ _ _.
Arguments map_order {K} _ _.

Definition net_calls {K} (os : system K) (n : nat) : fd_calls := mkFdCalls (net_readv os n) (net_writev os n).

Definition TCP_TICK_MS : Z := 10.

(** The descriptors: of the adapter, of the thread's end of the pair, and of
    the owner's, which the object itself is. *)
Definition adapter_fd : nat := 0.
Definition thread_data : nat := 1.
Definition own_fd : nat := 2.

Module TCPMinnowSocket.
Section socket.
Context {A K : Type} `{TCPDatagramAdapter A} (os : system K).
Abbreviation sys := (state code (EpollState K) (TCPMinnowSocket A)).

Definition change (f : TCPMinnowSocket A → TCPMinnowSocket A) : eff sys () :=
  modify (λ s, with_world (f (world s)) s).
Definition member {B} (f : TCPMinnowSocket A → B) : eff sys B := gets (λ s, f (world s)).

(** The time of the next call. *)
Definition call_time : eff sys nat := n ← member now; change pass_time ;; mret n.

(** [*_tcp]. *)
Definition tcp : eff sys TCPPeer.TCPPeer :=
  p ← member _tcp;
  match p with
  | Some p => mret p
  | None => mthrow (Undefined "no value in an optional")
  end.
(** [_tcp.value()]. *)
Definition tcp_value : eff sys TCPPeer.TCPPeer :=
  p ← member _tcp;
  match p with
  | Some p => mret p
  | None => mthrow (Throw "bad_optional_access")
  end.
Definition update_tcp (p : TCPPeer.TCPPeer) : eff sys () := change (set_tcp (Some p)).

(** A call of the adapter. *)
Definition adapter {B} (m : eff (FDWrapper * A) B) : eff sys B :=
  λ s, match descriptors s !! adapter_fd with
       | Some w =>
           let '(r, (w, a)) := m (w, _datagram_adapter (world s)) in
           (r, with_world (set_adapter a (world s)) (with_descriptors (<[adapter_fd := w]> (descriptors s)) s))
       | None => (Err (Undefined "no such descriptor"), s)
       end.

(** [_datagram_adapter.write( x )] for each message transmitted. *)
Fixpoint transmit (msgs : list TCPMessage) : eff sys () :=
  match msgs with
  | [] => mret ()
  | x :: msgs => n ← call_time; adapter (adapter_write (net_writev os n) x) ;; transmit msgs
  end.

(** [_thread_data.read( data )] and [_thread_data.write( buffer )]. *)
Definition read_thread_data (data : bytes) : eff sys bytes :=
  n ← call_time;
  pos ← member taken;
  data ← on_descriptor thread_data
    (FileDescriptor.read (source_read (owner_bytes os) pos (pipe_read os n pos)) data);
  change (take_bytes (zlen data)) ;;
  mret data.
Definition write_thread_data (buffer : bytes) : eff sys Z :=
  n ← call_time;
  pos ← member (λ w, zlen (given w));
  bytes_written ← on_descriptor thread_data (FileDescriptor.write (pipe_writev os n pos) buffer);
  change (give_bytes (ztake bytes_written buffer)) ;;
  mret bytes_written.

(** ** The rules *)

Definition receive_segment : eff sys () :=
  n ← call_time;
  seg ← adapter (adapter_read (net_calls os n));
  match seg with
  | Some seg =>
      p ← tcp;
      '(p, sent) ← lift (TCPPeer.receive seg p);
      update_tcp p ;;
      transmit sent
  | None => mret ()
  end ;;
  w ← wrapper thread_data;
  when (FileDescriptor.eof w)
    (p ← tcp_value;
     acked ← member _fully_acked;
     when (bool_decide (TCPSender.sequence_numbers_in_flight (TCPPeer.sender_ p) = 0) && negb acked)
       (change set_fully_acked)).

Definition push_bytes : eff sys () :=
  p ← tcp;
  data ← read_thread_data (resize (Writer.available_capacity (TCPPeer.outbound p)) []);
  update_tcp (TCPPeer.outbound_writer (Writer.push data) p) ;;
  w ← wrapper thread_data;
  when (FileDescriptor.eof w)
    (p ← tcp; update_tcp (TCPPeer.outbound_writer Writer.close p) ;; change set_outbound_shutdown) ;;
  p ← tcp;
  '(p, sent) ← lift (TCPPeer.push p);
  update_tcp p ;;
  transmit sent.

Definition wants_bytes (w : TCPMinnowSocket A) (p : TCPPeer.TCPPeer) : bool :=
  TCPPeer.active p && negb (_outbound_shutdown w)
  && bool_decide (Writer.available_capacity (TCPPeer.outbound p) > 0).

Definition close_outbound : eff sys () :=
  p ← tcp; update_tcp (TCPPeer.outbound_writer Writer.close p) ;; change set_outbound_shutdown.
Definition fail_outbound : eff sys () := p ← tcp; update_tcp (TCPPeer.outbound_writer set_error p).

Definition inbound_over (p : TCPPeer.TCPPeer) : bool :=
  Reader.is_finished (TCPPeer.inbound p) || has_error (TCPPeer.inbound p).

Definition read_inbound : eff sys () :=
  p ← tcp;
  when (bool_decide (Reader.bytes_buffered (TCPPeer.inbound p) ≠ 0))
    (buffer ← lift (Reader.peek (TCPPeer.inbound p));
     bytes_written ← write_thread_data buffer;
     p ← lift (TCPPeer.inbound_reader (Reader.pop bytes_written) p);
     update_tcp p) ;;
  p ← tcp;
  when (inbound_over p)
    (n ← call_time;
     on_descriptor thread_data (Socket.Socket.shutdown (sys_shutdown os n) Socket.SHUT_WR) ;;
     change set_inbound_shutdown).

Definition wants_room (w : TCPMinnowSocket A) (p : TCPPeer.TCPPeer) : bool :=
  bool_decide (Reader.bytes_buffered (TCPPeer.inbound p) ≠ 0) || (inbound_over p && negb (_inbound_shutdown w)).

Definition fail_inbound : eff sys () :=
  p ← tcp; p ← lift (TCPPeer.inbound_reader (λ s, Ok (set_error s)) p); update_tcp p.

Definition call_interest (c : code) (s : sys) : result bool :=
  match _tcp (world s) with
  | None => Err (Undefined "no value in an optional")
  | Some p =>
      match c with
      | IsActive => Ok (TCPPeer.active p)
      | WantsBytes => Ok (wants_bytes (world s) p)
      | WantsRoom => Ok (wants_room (world s) p)
      | _ => Ok true
      end
  end.

Definition call_back (c : code) : eff sys () :=
  match c with
  | ReceiveSegment => receive_segment
  | PushBytes => push_bytes
  | CloseOutbound => close_outbound
  | FailOutbound => fail_outbound
  | ReadInbound => read_inbound
  | FailInbound => fail_inbound
  | _ => mret ()
  end.

(** [add_rule] with the name of a category. *)
Definition add_rule (name : string) (fd : nat) (direction : Direction) (callback interest cancel error : code)
    : eff sys nat :=
  category_id ← EpollEventLoop.add_category name;
  EpollEventLoop.add_fd_rule category_id fd direction callback interest cancel error.

Definition _initialize_TCP (config : TCPConfig) : eff sys () :=
  update_tcp (TCPPeer.new_peer config) ;;
  add_rule "receive TCP segment from the network" adapter_fd In ReceiveSegment IsActive NoCallback NoCallback ;;
  add_rule "push bytes to TCPPeer" thread_data In PushBytes WantsBytes CloseOutbound FailOutbound ;;
  add_rule "read bytes from inbound stream" thread_data Out ReadInbound WantsRoom NoCallback FailInbound ;;
  mret ().

(** ** The loop of a connection *)

Definition wait_next_event : eff sys Result :=
  n ← call_time;
  rs ← gets _fd_rules;
  EpollEventLoop.wait_next_event call_interest call_back (sys_epoll_ctl os) (sys_epoll_wait os n) (sys_getsockopt os n)
    (map_order os) (S (length rs)) TCP_TICK_MS.

Definition read_clock : eff sys Z := n ← call_time; mret (timestamp_ms os n).

(** One turn; the result is the new [base_time], or none to leave. *)
Definition turn (base_time : Z) : eff sys (option Z) :=
  ret ← wait_next_event;
  n ← call_time;
  match ret, aborted os n with
  | Exit, _ | _, true => mret None
  | _, false =>
      p ← member _tcp;
      match p with
      | None => mthrow (Throw "_tcp_loop entered before TCPPeer initialized")
      | Some p =>
          if TCPPeer.active p then
            next_time ← read_clock;
            let '(p, sent) := TCPPeer.tick (u64 (next_time - base_time)) p in
            update_tcp p ;;
            transmit sent ;;
            change (λ w, set_adapter (adapter_tick (u64 (next_time - base_time)) (_datagram_adapter w)) w) ;;
            mret (Some next_time)
          else mret (Some base_time)
      end
  end.

(** With so much fuel, so many turns are made at most; a loop that is not over
    then is out of fuel. *)
Fixpoint loop (fuel : nat) (condition : eff sys bool) (base_time : Z) : eff sys () :=
  b ← condition;
  if (b : bool) then
    match fuel with
    | O => mthrow OutOfFuel
    | S fuel =>
        next ← turn base_time;
        match next with
        | None => mret ()
        | Some base_time => loop fuel condition base_time
        end
    end
  else mret ().
Definition _tcp_loop (fuel : nat) (condition : eff sys bool) : eff sys () :=
  base_time ← read_clock; loop fuel condition base_time.

(** ** Making a socket *)

(** [LocalStreamSocket( FileDescriptor&& fd )]. *)
Definition local_stream_socket (getsockopt : Z → Z → Z → syscall (Z * Z)) (w : FDWrapper) : result FDWrapper :=
  match Socket.Socket.of_descriptor getsockopt Socket.AF_UNIX Socket.SOCK_STREAM 0 w with
  | (Ok _, w) => Ok w
  | (Err e, _) => Err e
  end.

Definition socket_pair_helper (socketpair : syscall (Z * Z)) (getfl : Z → syscall Z)
    (getsockopt : Z → Z → Z → syscall (Z * Z)) : result (FDWrapper * FDWrapper) :=
  match socketpair with
  | Failed _ => Err (unix_error "socketpair")
  | Returned (fd0, fd1) =>
      first ← FileDescriptor.make fd0 (getfl fd0);
      first ← local_stream_socket getsockopt first;
      second ← FileDescriptor.make fd1 (getfl fd1);
      second ← local_stream_socket getsockopt second;
      Ok (first, second)
  end.

Definition set_non_blocking (getfl : Z → syscall Z) (setfl : Z → Z → syscall Z) (f : nat) : eff sys () :=
  w ← wrapper f;
  let n := FileDescriptor.fd_num w in
  on_descriptor f (FileDescriptor.set_blocking false (getfl n) (setfl n)).

(** The two constructors, from an adapter [a] on the descriptor [aw]. *)
Definition make (socketpair : syscall (Z * Z)) (getfl : Z → syscall Z) (setfl : Z → Z → syscall Z)
    (getsockopt : Z → Z → Z → syscall (Z * Z)) (epoll_create1 : syscall Z) (k : K) (aw : FDWrapper) (a : A)
    : result sys :=
  '(first, second) ← socket_pair_helper socketpair getfl getsockopt;
  own ← local_stream_socket getsockopt first;
  thread ← local_stream_socket getsockopt second;
  s ← EpollEventLoop.new epoll_create1
        (match epoll_create1 with Returned n => getfl n | Failed e => Failed e end) k
        {[adapter_fd := aw; thread_data := thread; own_fd := own]}
        (mkTCPMinnowSocket a None false false false false 0 0 []);
  match (set_non_blocking getfl setfl thread_data ;; set_non_blocking getfl setfl own_fd) s with
  | (Ok _, s) => Ok s
  | (Err e, _) => Err e
  end.

(** ** The calls of the owner *)

(** [fuel] bounds the turns of the loop. *)
Definition connect (fuel : nat) (c_tcp : TCPConfig) (c_ad : FdAdapterConfig) : eff sys () :=
  p ← member _tcp;
  match p with
  | Some _ => mthrow (Throw "connect() with TCPConnection already initialized")
  | None =>
      _initialize_TCP c_tcp ;;
      change (λ w, set_adapter (adapter_set_config c_ad (_datagram_adapter w)) w) ;;
      p ← tcp;
      '(p, sent) ← lift (TCPPeer.push p);
      update_tcp p ;;
      transmit sent ;;
      p ← tcp;
      if bool_decide (TCPSender.sequence_numbers_in_flight (TCPPeer.sender_ p) ≠ 1)
      then mthrow (Throw "After TCPConnection::connect(), expected sequence_numbers_in_flight() == 1")
      else
        _tcp_loop fuel
          (p ← tcp; mret (bool_decide (TCPSender.sequence_numbers_in_flight (TCPPeer.sender_ p) = 1))) ;;
        tcp ;;
        change (set_joinable true)
  end.

Definition listen_and_accept (fuel : nat) (c_tcp : TCPConfig) (c_ad : FdAdapterConfig) : eff sys () :=
  p ← member _tcp;
  match p with
  | Some _ => mthrow (Throw "listen_and_accept() with TCPConnection already initialized")
  | None =>
      _initialize_TCP c_tcp ;;
      change (λ w, set_adapter (adapter_set_listening true (adapter_set_config c_ad (_datagram_adapter w))) w) ;;
      _tcp_loop fuel
        (p ← tcp;
         mret (negb (TCPPeer.has_ackno p)
               || bool_decide (TCPSender.sequence_numbers_in_flight (TCPPeer.sender_ p) ≠ 0))) ;;
      change (set_joinable true)
  end.

(** The body of the thread. *)
Definition _tcp_main (fuel : nat) : eff sys () :=
  p ← member _tcp;
  match p with
  | None => mthrow (Throw "no TCP")
  | Some _ =>
      _tcp_loop fuel (mret true) ;;
      n ← call_time;
      on_descriptor own_fd (Socket.Socket.shutdown (sys_shutdown os n) Socket.SHUT_RDWR) ;;
      tcp_value ;;
      change (set_tcp None)
  end.

(** [join] returns when the thread has. *)
Definition wait_until_closed : eff sys () :=
  n ← call_time;
  on_descriptor own_fd (Socket.Socket.shutdown (sys_shutdown os n) Socket.SHUT_RDWR) ;;
  b ← member joinable;
  when b (change (set_joinable false)).

(** [peer_address], which hides that of the socket: the address configured. *)
Definition peer_address (s : sys) : Address := destination (adapter_config (_datagram_adapter (world s))).

End socket.
End TCPMinnowSocket.
Import TCPMinnowSocket.

(** The socket that stands in for one of the kernel, on the TUN adapter. *)
Module CS144TCPSocket.
Section socket.
Context `{Resolver} {K : Type} (os : system K).

Definition tcp_config : TCPConfig :=
  mkTCPConfig 100 (recv_capacity default_config) (send_capacity default_config) (isn default_config).

(** The source port is random. *)
Definition multiplexer_config (random : Z) (address : Address) : result FdAdapterConfig :=
  source ← Address.of_names "169.254.144.9" (pretty (Z.to_N (u16 random)));
  Ok (mkFdAdapterConfig source address 0 0).

Definition connect (fuel : nat) (random : Z) (address : Address)
    : eff (state code (EpollState K) (TCPMinnowSocket FdAdapterBase)) () :=
  cfg ← lift (multiplexer_config random address);
  TCPMinnowSocket.connect os fuel tcp_config cfg.
End socket.
End CS144TCPSocket.

(** * The invariant *)

(** The rules of the socket, as the loop numbers them. *)
Definition socket_rules : list (FDRule code) :=
  [mkFDRule (mkBasicRule 0 0 IsActive ReceiveSegment false) adapter_fd In NoCallback NoCallback;
   mkFDRule (mkBasicRule 1 1 WantsBytes PushBytes false) thread_data In CloseOutbound FailOutbound;
   mkFDRule (mkBasicRule 2 2 WantsRoom ReadInbound false) thread_data Out NoCallback FailInbound].
Definition known (r : FDRule code) : Prop := key r ∈ socket_rules.

(** What the thread was told by the loop: the rule that takes bytes from the
    owner is cancelled. *)
Definition told (l : list call) : Prop := Cancelled 1 ∈ l.

(** The system respects the documented behaviour of a stream socket: the owner
    writes [total] bytes, a read returns at most what was asked for, and none
    only at the end; neither direction carries 2^62 bytes. *)
Record system_ok {K} (os : system K) (total : Z) : Prop := mkSystemOk {
  sys_total : 0 ≤ total < 2 ^ 62;
  sys_read t pos : 0 ≤ pos ≤ total → reads_ok total pos (pipe_read os t pos);
  sys_write t pos bufs m :
    pipe_writev os t pos bufs = Returned m → 0 ≤ m ∧ pos + m < 2 ^ 62;
}.

(** The calls of an adapter keep what [sound] says of it, also when they throw. *)
Record adapter_keeps {A} `{TCPDatagramAdapter A} (sound : A → Prop) : Prop := mkAdapterKeeps {
  ak_read sys w a : sound a → sound (adapter_read sys (w, a)).2.2;
  ak_write sys m w a : sound a → sound (adapter_write sys m (w, a)).2.2;
  ak_listening b a : sound a → sound (adapter_set_listening b a);
  ak_config c a : sound a → sound (adapter_set_config c a);
  ak_tick ms a : sound a → sound (adapter_tick ms a);
}.

Section invariant.
Context {A K : Type} `{TCPDatagramAdapter A} (os : system K) (total : Z) (Hos : system_ok os total).
Context {good : TCPSenderMessage → Prop} {claim : TCPReceiver.TCPReceiver ByteStream → stream → Prop}.
Context (Hlaw : inbound_law good claim).
Context {sound : A → Prop} (Hsound : adapter_keeps sound).
Context (Hnet : ∀ n w a m s', sound a → adapter_read (net_calls os n) (w, a) = (Ok (Some m), s') →
  wire_message m ∧ good (sender m)).
Abbreviation sys := (state code (EpollState K) (TCPMinnowSocket A)).
Implicit Types (s : sys) (o : TCPMinnowSocket A).

(** The inbound stream failed, or it was finished when so many bytes or fewer
    were read. *)
Definition ended (ar : stream) : Prop :=
  err ar = true ∨
  fin ar = true ∧ ∃ r0 ar0, claim r0 ar0 ∧ err ar0 = false ∧ fin ar0 = true ∧
    nread ar0 = zlen (written ar0) ∧ nread ar0 ≤ nread ar.

Lemma ended_mono ar ar' :
  (err ar = true → err ar' = true) → (fin ar = true → fin ar' = true) → nread ar ≤ nread ar' → ended ar → ended ar'.
Proof.
  intros He Hf Hn [?|(?&r0&ar0&?&?&?&?&?)]; [by left; auto|right]. split; [auto|].
  exists r0, ar0. split_and!; try done. lia.
Qed.

(** The bytes of the owner are in the outbound stream, those of the inbound
    stream were handed over as far as it is read. *)
Record carried o (cancelled : Prop) (p : TCPPeer.TCPPeer) (a : stream) (base : Z) (ar : stream) : Prop := mkCarried {
  ca_streams : streams (owner_bytes os) p a base ar;
  ca_claim : claim (TCPPeer.receiver_ p) ar;
  ca_taken : taken o = zlen (written a);
  ca_total : taken o ≤ total;
  ca_fin : fin a = _outbound_shutdown o;
  ca_closed : fin a = true → taken o = total ∨ cancelled;
  ca_given : given o = ztake (nread ar) (written ar);
  ca_nread : nread ar < 2 ^ 62;
  ca_cap : cap ar ≤ 2 ^ 62;
  ca_shut : _inbound_shutdown o = true → ended ar;
}.

Record socket_inv s : Prop := mkSocketInv {
  si_rules r : r ∈ _fd_rules s → known r;
  si_non_fd : _non_fd_rules s = [];
  si_thread : ∃ w, descriptors s !! thread_data = Some w ∧ (eof_ w = true → taken (world s) = total);
  si_carried : ∃ p a base ar, _tcp (world s) = Some p ∧ carried (world s) (told (calls s)) p a base ar;
  si_sound : sound (_datagram_adapter (world s));
}.

(** ** Steps that move no bytes *)

Definition core o := (_tcp o, _inbound_shutdown o, _outbound_shutdown o, taken o, given o).

Record unmoved s s' : Prop := mkUnmoved {
  un_rules : _fd_rules s' = _fd_rules s;
  un_non_fd : _non_fd_rules s' = _non_fd_rules s;
  un_calls : calls s' = calls s;
  un_thread w : descriptors s !! thread_data = Some w →
    ∃ w', descriptors s' !! thread_data = Some w' ∧ eof_ w' = eof_ w;
  un_core : core (world s') = core (world s);
  un_sound : sound (_datagram_adapter (world s)) → sound (_datagram_adapter (world s'));
}.

#[local] Instance unmoved_preorder : PreOrder unmoved.
Proof.
  split; [intros s; split; try done; by eexists|]. intros s1 s2 s3 [E1 E2 E3 T1 E4 E5] [F1 F2 F3 T2 F4 F5].
  split; try congruence; [|by auto]. intros w (w1&(w2&?&?)%T2&?)%T1. exists w2. split; [done|congruence].
Qed.

Lemma carried_core o o' c c' p a base ar :
  core o' = core o → (c → c') → carried o c p a base ar → carried o' c' p a base ar.
Proof. intros [= E1 E2 E3 E4 E5] Hc []. split; rewrite ?E2, ?E3, ?E4, ?E5; try done. naive_solver. Qed.

Lemma inv_unmoved s s' : unmoved s s' → socket_inv s → socket_inv s'.
Proof.
  intros [E1 E2 E3 T E4 E5] [Hr Hn (w&Hw&He) (p&a&base&ar&Hp&Hc) Hsd].
  split; [by rewrite E1|by rewrite E2| | |by apply E5].
  - destruct (T w Hw) as (w'&Hw'&E). exists w'. split; [done|]. rewrite E. injection E4 as _ _ _ -> _. done.
  - exists p, a, base, ar. split; [by injection E4 as -> _|]. rewrite E3. by eapply carried_core.
Qed.

Lemma unmoved_change f :
  (∀ o, core (f o) = core o) → (∀ o, sound (_datagram_adapter o) → sound (_datagram_adapter (f o))) →
  keeps unmoved (change (K:=K) f).
Proof. intros Hf Hs s. split; try done; [by eexists|apply Hf|apply Hs]. Qed.
Lemma unmoved_call_time : keeps unmoved (call_time (A:=A) (K:=K)).
Proof. intros s. split; try done. by eexists. Qed.
Lemma unmoved_adapter {B} (m : eff (FDWrapper * A) B) :
  (∀ w a, sound a → sound (m (w, a)).2.2) → keeps unmoved (adapter (K:=K) m).
Proof.
  intros Hm s. unfold adapter. destruct (descriptors s !! adapter_fd) as [w|]; [|done].
  specialize (Hm w (_datagram_adapter (world s))). destruct (m _) as [r [w' a]]. split; try done. intros x Hx. exists x. split; [|done].
  cbn. by rewrite lookup_insert_ne.
Qed.
Lemma unmoved_transmit msgs : keeps unmoved (transmit os msgs).
Proof.
  induction msgs as [|m msgs IH]; [by intros s|]. cbn [transmit].
  apply keeps_bind; [apply _|apply unmoved_call_time|]. intros n.
  apply keeps_bind; [apply _|apply unmoved_adapter; intros w a; apply (ak_write _ Hsound)|done].
Qed.

(** [safe m s]: the invariant holds wherever [m] stops. *)
Definition safe {B} (m : eff sys B) s : Prop := post m s (λ _ s', socket_inv s').

Lemma safe_seq {B C} (m : eff sys B) (f : B → eff sys C) s :
  post m s (λ r s', match r with Ok b => safe (f b) s' | Err _ => socket_inv s' end) → safe (m ≫= f) s.
Proof. apply post_bind. Qed.
Lemma safe_stop {B} (b : B) s : socket_inv s → safe (mret b) s.
Proof. done. Qed.

(** A step that moves nothing, and what follows it. *)
Lemma safe_step {B C} (m : eff sys B) (f : B → eff sys C) s :
  keeps unmoved m → socket_inv s → (∀ b s', m s = (Ok b, s') → unmoved s s' → socket_inv s' → safe (f b) s') →
  safe (m ≫= f) s.
Proof.
  intros Hm Hs Hf. apply safe_seq. unfold post. pose proof (Hm s) as Hu.
  assert (socket_inv (m s).2) as Hs' by by eapply inv_unmoved.
  destruct (m s) as [[b|e] s']; [by apply Hf|done].
Qed.
Lemma safe_unmoved {B} (m : eff sys B) s : keeps unmoved m → socket_inv s → safe m s.
Proof. intros Hm Hs. eapply inv_unmoved; [apply Hm|done]. Qed.

Lemma safe_then {B C} (m : eff sys B) (f : B → eff sys C) s :
  safe m s → (∀ b s', socket_inv s' → safe (f b) s') → safe (m ≫= f) s.
Proof.
  intros Hm Hf. apply safe_seq. unfold safe, post in *. destruct (m s) as [[b|e] s']; [by apply Hf|done].
Qed.

(** After one call of the system. *)
Definition pass s : sys := with_world (pass_time (world s)) s.
Lemma call_time_eq s : call_time s = (Ok (now (world s)), pass s).
Proof. done. Qed.
Lemma member_eq {B} (f : TCPMinnowSocket A → B) s : member f s = (Ok (f (world s)), s).
Proof. done. Qed.

Lemma tcp_eq s p : _tcp (world s) = Some p → tcp s = (Ok p, s).
Proof. intros Hp. unfold tcp. rewrite bind_eq. cbn. by rewrite Hp. Qed.

(** A new peer with other streams. *)
Lemma inv_tcp s p a base ar :
  socket_inv s → carried (world s) (told (calls s)) p a base ar → socket_inv (update_tcp p s).2.
Proof.
  intros [Hr Hn Ht _ Hsd] Hc. split; [done..| |done]. exists p, a, base, ar. split; [done|]. destruct Hc. by split.
Qed.
Lemma update_tcp_eq p s : update_tcp p s = (Ok (), (update_tcp p s).2).
Proof. done. Qed.

(** ** The first rule *)

Lemma inv_peer s :
  socket_inv s → ∃ p a base ar, _tcp (world s) = Some p ∧ carried (world s) (told (calls s)) p a base ar.
Proof. by intros []. Qed.

Lemma carried_fits o c p a base ar : carried o c p a base ar → window_fits ar.
Proof. intros []. unfold window_fits. lia. Qed.

(** The streams after messages came and went. *)
Lemma carried_grown o c p a base ar p' a' base' ar' :
  carried o c p a base ar → streams (owner_bytes os) p' a' base' ar' → claim (TCPPeer.receiver_ p') ar' →
  same_outbound a a' → grown ar ar' → carried o c p' a' base' ar'.
Proof.
  intros [] P' Hc (Hw&Hf&_&_) [Gc Gn [x Gw] Gf Ge].
  pose proof (ref_nread _ _ (ss_inbound _ _ _ _ _ ca_streams0)) as Hr.
  split; rewrite ?Hw, ?Hf, ?Gc, ?Gn; try done.
  - rewrite Gw, ztake_app_le by lia. done.
  - intros Hi%ca_shut0. apply (ended_mono ar); [done|done|lia|done].
Qed.

Lemma carried_receive o c p a base ar msg :
  carried o c p a base ar → wire_message msg → good (sender msg) →
  ∃ p' sent a' base' ar', TCPPeer.receive msg p = Ok (p', sent) ∧ carried o c p' a' base' ar'.
Proof.
  intros C Hm Hg. pose proof (ca_streams _ _ _ _ _ _ C) as P.
  destruct (streams_receive P msg Hm (carried_fits _ _ _ _ _ _ C)) as (p'&sent&a'&base'&ar'&He&P'&Ho&Hgr&Hor).
  exists p', sent, a', base', ar'. split; [done|]. apply (carried_grown _ _ _ _ _ _ _ _ _ _ C P'); [|done..].
  destruct Hor as [[-> ->]|[Ha Hrec]]; [apply C|].
  apply (law_receive _ _ Hlaw (TCPPeer.receiver_ p) ar (sender msg) (TCPPeer.receiver_ p') ar'
    (streams_receiver_ok P) (ss_inbound _ _ _ _ _ P)); [|done|apply C|done|exact (ss_inbound _ _ _ _ _ P')|done].
  unfold TCPPeer.active in Ha. rewrite (streams_error P) in Ha. by destruct (err ar).
Qed.

Lemma safe_tcp {B} (f : TCPPeer.TCPPeer → eff sys B) s p :
  _tcp (world s) = Some p → safe (f p) s → safe (p ← tcp; f p) s.
Proof. intros Hp Hf. apply safe_seq. unfold post. by rewrite (tcp_eq s p Hp). Qed.

Lemma safe_lifted {B C} (m : result B) (f : B → eff sys C) s b : m = Ok b → safe (f b) s → safe (b ← lift m; f b) s.
Proof. intros -> Hf. done. Qed.

Lemma unmoved_tcp : keeps unmoved (tcp (A:=A) (K:=K)).
Proof. intros s. unfold tcp. rewrite bind_eq. cbn. by destruct (_tcp (world s)). Qed.

Lemma unmoved_note_acked :
  keeps unmoved
    (w ← wrapper thread_data;
     when (FileDescriptor.eof w)
       (p ← tcp_value;
        acked ← member _fully_acked;
        when (bool_decide (TCPSender.sequence_numbers_in_flight (TCPPeer.sender_ p) = 0) && negb acked)
          (change (A:=A) (K:=K) set_fully_acked))).
Proof.
  apply keeps_bind; [apply _|intros s; unfold wrapper; by destruct (_ !! _)|]. intros w.
  destruct (FileDescriptor.eof w); [|by intros s]. cbn [when].
  apply keeps_bind; [apply _|intros s; unfold tcp_value; rewrite bind_eq; cbn; by destruct (_tcp (world s))|].
  intros p. apply keeps_bind; [apply _|by intros s|]. intros acked.
  destruct (_ && _); [by apply unmoved_change|by intros s].
Qed.

Lemma safe_receive_segment s : socket_inv s → safe (receive_segment os) s.
Proof.
  intros Hs. apply safe_step; [apply unmoved_call_time|done|]. intros n s1 _ _ Hs1.
  apply safe_step; [apply unmoved_adapter; intros w a; apply (ak_read _ Hsound)|done|]. intros seg s2 Hseg _ Hs2.
  apply safe_then; [|intros [] s' Hs'; by apply safe_unmoved; [apply unmoved_note_acked|]].
  destruct seg as [seg|]; [|done].
  assert (wire_message seg ∧ good (sender seg)) as [Hm Hg].
  { unfold adapter in Hseg. destruct (descriptors s1 !! adapter_fd) as [w|]; [|done].
    destruct (adapter_read (net_calls os n) (w, _datagram_adapter (world s1))) as [r [w' a']] eqn:Hread.
    injection Hseg as -> _. eapply Hnet; [|exact Hread]. apply (si_sound s1 Hs1). }
  destruct (inv_peer s2 Hs2) as (p&a&base&ar&Hp&C). apply (safe_tcp _ _ p Hp).
  destruct (carried_receive _ _ _ _ _ _ seg C Hm Hg) as (p'&sent&a'&base'&ar'&He&C').
  apply (safe_lifted _ _ _ _ He). apply safe_seq. unfold post. rewrite update_tcp_eq. cbn [fst snd].
  apply safe_unmoved; [apply unmoved_transmit|]. by eapply inv_tcp.
Qed.

(** ** The second rule *)

(** What a read of the pipe leaves: some bytes moved, the rest as before. *)
Record read_from s (data : bytes) s' : Prop := mkReadFrom {
  rf_rules : _fd_rules s' = _fd_rules s;
  rf_non_fd : _non_fd_rules s' = _non_fd_rules s;
  rf_calls : calls s' = calls s;
  rf_core : core (world s') = core (take_bytes (zlen data) (world s));
  rf_thread : ∃ w, descriptors s' !! thread_data = Some w ∧ (eof_ w = true → taken (world s') = total);
  rf_data : data = slice (owner_bytes os) (taken (world s)) (zlen data);
  rf_total : taken (world s') ≤ total;
  rf_adapter : _datagram_adapter (world s') = _datagram_adapter (world s);
}.

Lemma read_thread_ok buf s :
  (∃ w, descriptors s !! thread_data = Some w ∧ (eof_ w = true → taken (world s) = total)) →
  0 ≤ taken (world s) ≤ total → 0 < zlen buf →
  match read_thread_data os buf s with
  | (Ok data, s') => read_from s data s' ∧ zlen data ≤ zlen buf
  | (Err _, s') => unmoved s s'
  end.
Proof.
  intros (w&Hw&Hweof) Ht Hb. unfold read_thread_data.
  rewrite bind_eq, call_time_eq, bind_eq, member_eq, bind_eq. unfold on_descriptor.
  change (descriptors (pass s)) with (descriptors s). change (taken (world (pass s))) with (taken (world s)).
  rewrite Hw.
  destruct (FileDescriptor.read _ buf w) as [r w'] eqn:Hr.
  eapply source_read_ok in Hr as [_ Hr]; [|lia|by apply (sys_read _ _ Hos)|done].
  destruct r as [data|e]; cbn.
  - destruct Hr as (Hd&Hl&Htot&He). split; [|done]. split; try done; cbn; try lia.
    exists w'. split; [by rewrite lookup_insert, decide_True|]. intros [?%Hweof|?]%He; lia || zlen.
  - split; try done. cbn. intros x Hx. exists w'. split; [by rewrite lookup_insert, decide_True|]. congruence.
Qed.

(** The bytes read go to the outbound stream. *)
Lemma inv_pushed s data s' p a base ar :
  socket_inv s → _tcp (world s) = Some p → carried (world s) (told (calls s)) p a base ar →
  _outbound_shutdown (world s) = false → read_from s data s' → zlen data ≤ room a →
  let p' := TCPPeer.outbound_writer (Writer.push data) p in
  ∃ a', carried (world s') (told (calls s')) p' a' base ar ∧ socket_inv (update_tcp p' s').2.
Proof.
  intros [Hrules Hnf _ _ Hsd] Hp C Hopen [Er En Ec Eo Ht Hd Htot Ead] Hl p'.
  pose proof (sys_total _ _ Hos) as Htotal. injection Eo as Eo1 Eo2 Eo3 Eo4 Eo5.
  destruct (streams_write (ca_streams _ _ _ _ _ _ C) data Hl) as (a'&P'&Hw&Hf).
  { by rewrite <- (ca_taken _ _ _ _ _ _ C). }
  { rewrite <- (ca_taken _ _ _ _ _ _ C). lia. }
  assert (carried (world s') (told (calls s')) p' a' base ar) as C'.
  { destruct C. split; rewrite ?Eo2, ?Eo3, ?Eo4, ?Eo5, ?Ec; try done.
    - rewrite Hw, zlen_app. congruence.
    - congruence.
    - congruence.
    - intros Hfin. congruence. }
  exists a'. split; [done|]. split;
    cbn [update_tcp change modify snd with_world _fd_rules _non_fd_rules]; [by rewrite Er|by rewrite En|done| |by cbn; rewrite Ead].
  exists p', a', base, ar. split; [done|]. cbn. destruct C'. by split.
Qed.

Lemma inv_closed s p a base ar :
  socket_inv s → carried (world s) (told (calls s)) p a base ar →
  taken (world s) = total ∨ told (calls s) →
  let p' := TCPPeer.outbound_writer Writer.close p in
  let s' := (change set_outbound_shutdown (update_tcp p' s).2).2 in
  carried (world s') (told (calls s')) p' (spec_close a) base ar ∧ socket_inv s'.
Proof.
  intros [Hrules Hnf Ht _ Hsd] C Hor p' s'.
  assert (carried (world s') (told (calls s')) p' (spec_close a) base ar) as C'.
  { pose proof (streams_close (ca_streams _ _ _ _ _ _ C)). destruct C. by split. }
  split; [done|]. split; try done. by exists p', (spec_close a), base, ar.
Qed.

Lemma safe_push s p a base ar :
  socket_inv s → _tcp (world s) = Some p → carried (world s) (told (calls s)) p a base ar →
  safe (p ← tcp; '(p, sent) ← lift (TCPPeer.push p); update_tcp p ;; transmit os sent) s.
Proof.
  intros Hs Hp C. apply (safe_tcp _ _ p Hp).
  destruct (streams_push (ca_streams _ _ _ _ _ _ C)) as (p'&sent&a'&He&P'&Ho&Hr). apply (safe_lifted _ _ _ _ He).
  apply safe_seq. unfold post. rewrite update_tcp_eq. cbn [fst snd].
  apply safe_unmoved; [apply unmoved_transmit|]. eapply inv_tcp; [done|].
  eapply carried_grown; [done|done| |done|done]. rewrite Hr. apply C.
Qed.

Lemma safe_push_bytes s p :
  socket_inv s → _tcp (world s) = Some p → wants_bytes (world s) p = true → safe (push_bytes os) s.
Proof.
  intros Hs Hp Hwant. destruct (inv_peer s Hs) as (q&a&base&ar&Hq&C). assert (q = p) as -> by congruence.
  unfold wants_bytes in Hwant. apply andb_true_iff in Hwant as [[_ Hopen]%andb_true_iff Hroom%bool_decide_eq_true].
  apply negb_true_iff in Hopen. destruct (streams_room (ca_streams _ _ _ _ _ _ C)) as [Hr Hr64]. rewrite Hr in Hroom.
  unfold push_bytes. apply (safe_tcp _ _ p Hp). rewrite Hr. apply safe_seq. unfold post.
  assert (zlen (resize (room a) []) = room a) as Hbuf by (apply zlen_resize; lia).
  pose proof (read_thread_ok (resize (room a) []) s) as Hread. rewrite Hbuf in Hread.
  destruct (read_thread_data os _ s) as [[data|e] s1]; cbn [fst snd]; cycle 1.
  { eapply inv_unmoved; [|done]. apply Hread; [apply Hs| |lia].
    pose proof (ca_total _ _ _ _ _ _ C). pose proof (ca_taken _ _ _ _ _ _ C). zlen. }
  destruct Hread as [Hread Hl]; [apply Hs| |lia|].
  { pose proof (ca_total _ _ _ _ _ _ C). pose proof (ca_taken _ _ _ _ _ _ C). zlen. }
  destruct (inv_pushed s data s1 p a base ar Hs Hp C Hopen Hread Hl) as (a1&C1&Hs1).
  apply safe_seq. unfold post. rewrite update_tcp_eq. cbn [fst snd].
  set (p1 := TCPPeer.outbound_writer (Writer.push data) p) in *. set (s2 := (update_tcp p1 s1).2) in *.
  assert (carried (world s2) (told (calls s2)) p1 a1 base ar) as C2 by (destruct C1; by split).
  destruct (rf_thread _ _ _ Hread) as (w&Hw&Heof).
  apply safe_seq. unfold post, wrapper. change (descriptors s2) with (descriptors s1). rewrite Hw. cbn [fst snd].
  destruct (FileDescriptor.eof w) eqn:He; cbn [when]; [|by apply (safe_push _ p1 a1 base ar)].
  destruct (inv_closed s2 p1 a1 base ar Hs1 C2) as [C3 Hs3]; [left; by apply Heof|].
  apply safe_seq. unfold post. rewrite bind_eq, (tcp_eq s2 p1), bind_eq, update_tcp_eq by done. cbn [fst snd].
  by apply (safe_push _ (TCPPeer.outbound_writer Writer.close p1) (spec_close a1) base ar).
Qed.

Lemma safe_close_outbound s : socket_inv s → told (calls s) → safe close_outbound s.
Proof.
  intros Hs Ht. destruct (inv_peer s Hs) as (p&a&base&ar&Hp&C). apply (safe_tcp _ _ p Hp).
  apply (inv_closed s p a base ar); auto.
Qed.

Lemma safe_fail_outbound s : socket_inv s → safe fail_outbound s.
Proof.
  intros Hs. destruct (inv_peer s Hs) as (p&a&base&ar&Hp&C). apply (safe_tcp _ _ p Hp).
  eapply (inv_tcp _ _ (spec_set_error a)); [done|]. pose proof (streams_fail_out (ca_streams _ _ _ _ _ _ C)).
  destruct C. by split.
Qed.

(** ** The third rule *)

(** What a write to the pipe leaves. *)
Record wrote_to s (data : bytes) s' : Prop := mkWroteTo {
  wt_rules : _fd_rules s' = _fd_rules s;
  wt_non_fd : _non_fd_rules s' = _non_fd_rules s;
  wt_calls : calls s' = calls s;
  wt_core : core (world s') = core (give_bytes data (world s));
  wt_thread w : descriptors s !! thread_data = Some w → ∃ w', descriptors s' !! thread_data = Some w' ∧ eof_ w' = eof_ w;
  wt_adapter : _datagram_adapter (world s') = _datagram_adapter (world s);
}.

Lemma write_thread_ok view s :
  view ≠ [] → is_Some (descriptors s !! thread_data) →
  match write_thread_data os view s with
  | (Ok n, s') => wrote_to s (ztake n view) s' ∧ 0 ≤ n ≤ zlen view ∧ zlen (given (world s)) + n < 2 ^ 62
  | (Err _, s') => unmoved s s'
  end.
Proof.
  intros Hv [w Hw]. unfold write_thread_data.
  rewrite bind_eq, call_time_eq, bind_eq, member_eq, bind_eq. unfold on_descriptor.
  change (descriptors (pass s)) with (descriptors s). change (given (world (pass s))) with (given (world s)).
  rewrite Hw. destruct (FileDescriptor.write _ view w) as [r w'] eqn:Hr.
  apply (sink_write_ok (λ m, zlen (given (world s)) + m < 2 ^ 62)) in Hr as [[He _] Hok];
    [|done|intros m; apply (sys_write _ _ Hos)].
  destruct r as [n|e]; [destruct (Hok n eq_refl) as [Hn Hb]; split; [|done]|].
  all: split; try done; cbn; intros x Hx; exists w'; split; [by rewrite lookup_insert, decide_True|congruence].
Qed.

(** The bytes accepted leave the inbound stream. *)
Lemma inv_popped s n view rest s' p a base ar :
  socket_inv s → carried (world s) (told (calls s)) p a base ar → unread ar = view ++ rest → 0 ≤ n ≤ zlen view →
  zlen (given (world s)) + n < 2 ^ 62 → wrote_to s (ztake n view) s' →
  ∃ p', TCPPeer.inbound_reader (Reader.pop n) p = Ok p' ∧
    carried (world s') (told (calls s')) p' a base (spec_pop n ar) ∧ socket_inv (update_tcp p' s').2.
Proof.
  intros [Hrules Hnf (w&Hw&Heof) _ Hsd] C Hu Hn Hb [Er En Ec Eo Ht Ead]. injection Eo as Eo1 Eo2 Eo3 Eo4 Eo5.
  pose proof (ca_streams _ _ _ _ _ _ C) as P. pose proof (ss_inbound _ _ _ _ _ P) as R.
  assert (0 ≤ n ≤ zlen (unread ar)) as Hnu by (rewrite Hu; zlen).
  destruct (pop_facts P n Hnu) as (Hnr&Hnr0&Hlen).
  assert (zlen (given (world s)) = nread ar) as Hg by (rewrite (ca_given _ _ _ _ _ _ C); zlen).
  assert (window_fits (spec_pop n ar)) as Hfit.
  { unfold window_fits. rewrite Hnr. pose proof (ca_cap _ _ _ _ _ _ C). cbn. lia. }
  destruct (streams_pop P n Hnu Hfit) as (p'&He&P'&_&[q Hq]&Hi). exists p'. split; [done|].
  assert (carried (world s') (told (calls s')) p' a base (spec_pop n ar)) as C'.
  { destruct C. split; rewrite ?Eo2, ?Eo3, ?Eo4, ?Eo5, ?Ec; try done.
    - destruct (TCPPeer.receiver_ p') as [rs z] eqn:Hrp. cbn in Hq, Hi.
      eapply (law_output _ _ Hlaw _ ar q); try done.
      + pose proof (ss_inbound _ _ _ _ _ P') as R'. unfold TCPPeer.inbound, TCPReceiver.writer in R'.
        rewrite Hrp in R'. cbn in R'. by rewrite Hq in R'.
      + unfold room. rewrite Hnr. cbn. lia.
    - rewrite Hnr, ca_given0. cbn [written spec_pop]. rewrite ztake_add by lia. fold (unread ar).
      by rewrite Hu, ztake_app_le by lia.
    - rewrite Hnr. lia.
    - intros Hend%ca_shut0. apply (ended_mono ar); [done|done|lia|done]. }
  split; [done|]. split;
    cbn [update_tcp change modify snd with_world _fd_rules _non_fd_rules]; [by rewrite Er|by rewrite En| | |by cbn; rewrite Ead].
  - destruct (Ht w Hw) as (w'&Hw'&E). exists w'. split; [done|]. rewrite E. cbn. by rewrite Eo4.
  - exists p', a, base, (spec_pop n ar). split; [done|]. cbn. destruct C'. by split.
Qed.

Lemma unmoved_shutdown n how :
  keeps unmoved (on_descriptor (C:=code) (X:=EpollState K) (W:=TCPMinnowSocket A) thread_data
    (Socket.Socket.shutdown (sys_shutdown os n) how)).
Proof.
  intros s. unfold on_descriptor. destruct (descriptors s !! thread_data) as [w|] eqn:Hw; [|done].
  pose proof (same_flags_shutdown (sys_shutdown os n) how w) as [Hk _]. destruct (Socket.Socket.shutdown _ how w) as [r w']. split; try done. intros x Hx. exists w'.
  split; [cbn; by rewrite lookup_insert, decide_True|]. cbn in Hk. congruence.
Qed.

(** The end of the inbound stream is passed on to the owner. *)
Lemma safe_finish s p :
  socket_inv s → _tcp (world s) = Some p → inbound_over p = true →
  safe (n ← call_time;
        on_descriptor thread_data (Socket.Socket.shutdown (sys_shutdown os n) Socket.SHUT_WR) ;;
        change set_inbound_shutdown) s.
Proof.
  intros Hs Hp Hover. destruct (inv_peer s Hs) as (q&a&base&ar&Hq&C). assert (q = p) as -> by congruence.
  assert (ended ar) as Hend.
  { unfold inbound_over in Hover. pose proof (ca_streams _ _ _ _ _ _ C) as P.
    rewrite (streams_finished P), (streams_error P) in Hover. destruct (err ar) eqn:Herr; [by left|right].
    rewrite orb_false_r in Hover. apply andb_true_iff in Hover as [Hf Hu%bool_decide_eq_true]. split; [done|].
    exists (TCPPeer.receiver_ p), ar. split_and!; [apply C|done..| |done].
    pose proof (ref_nread _ _ (ss_inbound _ _ _ _ _ P)). pose proof (refines_unread (ss_inbound _ _ _ _ _ P)) as Hl.
    rewrite Hu, zlen_nil in Hl. lia. }
  apply safe_step; [apply unmoved_call_time|done|]. intros n s1 _ U1 Hs1.
  apply safe_step; [apply unmoved_shutdown|done|]. intros [] s2 _ U2 Hs2.
  assert (unmoved s s2) as U by by etransitivity. destruct Hs2 as [Hr Hn Ht _ Hsd]. split; [done..| |done].
  destruct U as [_ _ Ec _ Eo _]. injection Eo as Eo1 Eo2 Eo3 Eo4 Eo5.
  exists p, a, base, ar. split; [cbn; congruence|]. destruct C.
  split; cbn; rewrite ?Eo3, ?Eo4, ?Eo5, ?Ec; try done.
Qed.

Lemma safe_read_inbound s : socket_inv s → safe (read_inbound os) s.
Proof.
  intros Hs. destruct (inv_peer s Hs) as (p&a&base&ar&Hp&C). pose proof (ca_streams _ _ _ _ _ _ C) as P.
  unfold read_inbound. apply (safe_tcp _ _ p Hp). apply safe_then; cycle 1.
  { intros [] s' Hs'. destruct (inv_peer s' Hs') as (p'&?&?&?&Hp'&_). apply (safe_tcp _ _ p' Hp').
    destruct (inbound_over p') eqn:Ho; [by apply (safe_finish _ p')|done]. }
  rewrite (streams_buffered P). case_bool_decide as Hb; cbn [when]; [|done].
  destruct (streams_peek P) as (view&rest&Hpeek&Hu&Hnil). apply (safe_lifted _ _ _ _ Hpeek).
  assert (view ≠ []) as Hv by (intros Hv%Hnil; by rewrite Hv in Hb).
  apply safe_seq. unfold post. destruct (si_thread s Hs) as (w&Hw&_).
  pose proof (write_thread_ok view s Hv (mk_is_Some _ _ Hw)) as Hwrite.
  destruct (write_thread_data os view s) as [[n|e] s1]; cbn [fst snd]; [|by eapply inv_unmoved].
  destruct Hwrite as (Hwrote&Hn&Hb').
  destruct (inv_popped s n view rest s1 p a base ar Hs C Hu Hn Hb' Hwrote) as (p'&He&_&Hs').
  by apply (safe_lifted _ _ _ _ He).
Qed.

Lemma safe_fail_inbound s : socket_inv s → safe fail_inbound s.
Proof.
  intros Hs. destruct (inv_peer s Hs) as (p&a&base&ar&Hp&C). pose proof (ca_streams _ _ _ _ _ _ C) as P.
  unfold fail_inbound. apply (safe_tcp _ _ p Hp).
  destruct (streams_fail_in P (carried_fits _ _ _ _ _ _ C)) as (p'&He&P'&_&[q Hq]&Hi).
  apply (safe_lifted _ _ _ _ He). eapply (inv_tcp _ _ a base (spec_set_error ar)); [done|].
  pose proof (carried_fits _ _ _ _ _ _ C) as Hfit. destruct C. split; try done; [|by left].
  destruct (TCPPeer.receiver_ p') as [rs z] eqn:Hrp. cbn in Hq, Hi.
  eapply (law_output _ _ Hlaw _ ar q); try done.
  pose proof (ss_inbound _ _ _ _ _ P') as R'. unfold TCPPeer.inbound, TCPReceiver.writer in R'.
  rewrite Hrp in R'. cbn in R'. by rewrite Hq in R'.
Qed.

(** ** The loop *)

Lemma inv_log c s : socket_inv s → socket_inv (log_call c s).
Proof.
  intros [Hr Hn Ht (p&a&base&ar&Hp&C) Hsd]. split; [done..| |done]. exists p, a, base, ar. split; [done|].
  eapply carried_core; [done| |done]. cbn. unfold told. intros Hin. apply elem_of_app. by left.
Qed.

Lemma known_cases r :
  known r →
  (rule_id (basic r), interest (basic r), callback (basic r), cancel r, error r) ∈
    [(0%nat, IsActive, ReceiveSegment, NoCallback, NoCallback);
     (1%nat, WantsBytes, PushBytes, CloseOutbound, FailOutbound);
     (2%nat, WantsRoom, ReadInbound, NoCallback, FailInbound)].
Proof.
  unfold known, socket_rules. rewrite !elem_of_cons, elem_of_nil.
  destruct r as [[id c i b q] f d cc e]. unfold key. cbn. naive_solver.
Qed.

Lemma invoke_safe c f s : safe (call_back os f) (log_call c s) → socket_inv (invoke (call_back os) c f s).2.
Proof. done. Qed.

Lemma socket_invariant : invariant_ok (call_interest (K:=K)) (call_back os) (λ _ _, True) known socket_inv.
Proof.
  split.
  - intros s r Hs. apply (si_rules s Hs).
  - by intros s [].
  - by intros x s [].
  - intros i s [Hr Hn Ht Hc Hsd]. split; [|done..]. intros r Hin. apply Hr.
    destruct (delete_perm (_fd_rules s) i) as [k Hk]. rewrite <- Hk. apply elem_of_app. by right.
  - intros r s Hs Hk Hi. pose proof (inv_log (Ran (rule_id (basic r))) s Hs) as Hs'. apply invoke_safe.
    apply known_cases in Hk. rewrite !elem_of_cons, elem_of_nil in Hk.
    destruct Hk as [[= _ E1 E2 _ _]|[[= _ E1 E2 _ _]|[[= _ E1 E2 _ _]|[]]]]; rewrite E1 in Hi; rewrite E2;
      cbn [call_back].
    + by apply safe_receive_segment.
    + destruct (inv_peer s Hs) as (p&_&_&_&Hp&_). unfold call_interest in Hi. rewrite Hp in Hi. injection Hi as Hi.
      by apply (safe_push_bytes _ p).
    + by apply safe_read_inbound.
  - intros r s Hs Hk _. pose proof (inv_log (Cancelled (rule_id (basic r))) s Hs) as Hs'. apply invoke_safe.
    apply known_cases in Hk. rewrite !elem_of_cons, elem_of_nil in Hk.
    destruct Hk as [[= E0 _ _ E _]|[[= E0 _ _ E _]|[[= E0 _ _ E _]|[]]]]; rewrite E; cbn [call_back]; try done.
    apply safe_close_outbound; [done|]. rewrite E0. cbn. unfold told. apply elem_of_app. right. by left.
  - intros r s Hs Hk. pose proof (inv_log (Errored (rule_id (basic r))) s Hs) as Hs'. apply invoke_safe.
    apply known_cases in Hk. rewrite !elem_of_cons, elem_of_nil in Hk.
    destruct Hk as [[= _ _ _ _ E]|[[= _ _ _ _ E]|[[= _ _ _ _ E]|[]]]]; rewrite E; cbn [call_back]; try done.
    + by apply safe_fail_outbound.
    + by apply safe_fail_inbound.
Qed.

Lemma safe_wait s : socket_inv s → safe (wait_next_event os) s.
Proof.
  intros Hs. apply safe_step; [apply unmoved_call_time|done|]. intros n s1 _ _ Hs1.
  apply safe_seq. unfold post. cbn [gets fst snd].
  by apply (keeps_inv_wait socket_invariant).
Qed.

Lemma safe_turn base_time s : socket_inv s → safe (turn os base_time) s.
Proof.
  intros Hs. apply safe_then; [by apply safe_wait|]. intros ret s1 Hs1.
  apply safe_step; [apply unmoved_call_time|done|]. intros n s2 _ _ Hs2.
  assert (safe (p ← member _tcp;
      match p with
      | None => mthrow (Throw "_tcp_loop entered before TCPPeer initialized")
      | Some p =>
          if TCPPeer.active p then
            next_time ← read_clock os;
            let '(p, sent) := TCPPeer.tick (u64 (next_time - base_time)) p in
            update_tcp p ;;
            transmit os sent ;;
            change (λ w, set_adapter (adapter_tick (u64 (next_time - base_time)) (_datagram_adapter w)) w) ;;
            mret (Some next_time)
          else mret (Some base_time)
      end) s2) as Hrest.
  { apply safe_seq. unfold post. rewrite member_eq. cbn [fst snd].
    destruct (inv_peer s2 Hs2) as (p&a&base&ar&Hp&C). rewrite Hp.
    destruct (TCPPeer.active p); [|by apply safe_stop].
    apply safe_step; [intros s'; apply unmoved_call_time|done|]. intros t s3 _ U Hs3.
    assert (_tcp (world s3) = Some p) as Hp3 by (destruct U as [_ _ _ _ [= E _ _ _ _] _]; congruence).
    destruct (inv_peer s3 Hs3) as (q&a3&base3&ar3&Hq&C3). assert (q = p) as -> by congruence.
    destruct (streams_tick (ca_streams _ _ _ _ _ _ C3) (u64 (t - base_time))) as [P' Hr].
    destruct (TCPPeer.tick _ p) as [p' sent]. cbn [fst] in P', Hr.
    apply safe_seq. unfold post. rewrite update_tcp_eq. cbn [fst snd].
    apply safe_step; [apply unmoved_transmit| |].
    { eapply inv_tcp; [done|]. destruct C3. split; try done. by rewrite Hr. }
    intros [] s4 _ _ Hs4. apply safe_step; [by apply unmoved_change; [|intros o; apply (ak_tick _ Hsound)]|done|]. intros [] s5 _ _ Hs5.
    by apply safe_stop. }
  destruct ret, (aborted os n); first [done|by apply safe_stop].
Qed.

Lemma safe_loop fuel condition base_time s :
  keeps unmoved condition → socket_inv s → safe (loop os fuel condition base_time) s.
Proof.
  intros Hc. revert base_time s. induction fuel as [|fuel IH]; intros base_time s Hs; cbn [loop];
    (apply safe_step; [done..|]); intros b s1 _ _ Hs1; destruct b; try done.
  apply safe_then; [by apply safe_turn|]. intros [next|] s2 Hs2; [by apply IH|done].
Qed.

Lemma safe_tcp_loop fuel condition s : keeps unmoved condition → socket_inv s → safe (_tcp_loop os fuel condition) s.
Proof.
  intros Hc Hs. apply safe_step; [intros s'; apply unmoved_call_time|done|]. intros t s1 _ _ Hs1. by apply safe_loop.
Qed.

(** ** The beginning *)

(** An object that was just made. *)
Record fresh s : Prop := mkFresh {
  fr_rules : _fd_rules s = [] ∧ _non_fd_rules s = [] ∧ _rule_categories s = [] ∧ next_rule s = 0%nat;
  fr_calls : calls s = [];
  fr_adapter : is_Some (descriptors s !! adapter_fd);
  fr_thread : ∃ w, descriptors s !! thread_data = Some w ∧ eof_ w = false;
  fr_world : _tcp (world s) = None ∧ _inbound_shutdown (world s) = false ∧ _outbound_shutdown (world s) = false ∧
    taken (world s) = 0 ∧ given (world s) = [];
}.

Lemma add_rule_ok name f d c1 c2 c3 c4 s w :
  (length (_rule_categories s) < kCategories)%nat → descriptors s !! f = Some w →
  ∃ x, add_rule (A:=A) (K:=K) name f d c1 c2 c3 c4 s =
    (Ok (next_rule s),
     with_extra x
       (with_next (S (next_rule s))
         (with_fd_rules
           (_fd_rules s ++
             [mkFDRule (mkBasicRule (next_rule s) (length (_rule_categories s)) c2 c1 false) f d c3 c4])
           (with_categories (_rule_categories s ++ [name]) s)))).
Proof.
  intros Hl Hw. unfold add_rule, EpollEventLoop.add_category, add_category.
  rewrite bind_eq, bind_eq. cbn [gets]. rewrite bool_decide_false by lia. rewrite bind_eq. cbn [modify mret eff_ret].
  unfold EpollEventLoop.add_fd_rule, add_fd_rule. rewrite bind_eq, bind_eq.
  cbn [gets with_categories _rule_categories]. rewrite length_app. cbn [length].
  rewrite bool_decide_false by lia. rewrite bind_eq. cbn [gets]. rewrite bind_eq. cbn [modify mret eff_ret].
  rewrite bind_eq. unfold wrapper. cbn [with_next with_fd_rules descriptors with_categories]. rewrite Hw.
  rewrite bind_eq. unfold EpollEventLoop.try_emplace, modify. cbn -[lookup].
  destruct (_fd_states (extra s) !! FileDescriptor.fd_num w); by eexists.
Qed.

Lemma initialize_runs cfg s :
  fresh s →
  ∃ s', _initialize_TCP cfg s = (Ok (), s') ∧ _fd_rules s' = socket_rules ∧ _non_fd_rules s' = [] ∧ calls s' = [] ∧
    descriptors s' = descriptors s ∧ world s' = set_tcp (Some (TCPPeer.new_peer cfg)) (world s).
Proof.
  intros [(Er&En&Ec&Ei) El (wa&Ha) (wt&Ht&He) _].
  unfold _initialize_TCP. rewrite bind_eq, update_tcp_eq. set (s1 := (update_tcp _ s).2).
  rewrite bind_eq.
  destruct (add_rule_ok "receive TCP segment from the network" adapter_fd In ReceiveSegment IsActive NoCallback NoCallback
    s1 wa) as [x1 ->]; [unfold s1; cbn; rewrite Ec; unfold kCategories; cbn; lia|done|].
  rewrite bind_eq.
  edestruct (add_rule_ok "push bytes to TCPPeer" thread_data In PushBytes WantsBytes CloseOutbound FailOutbound)
    as [x2 ->]; [|exact Ht|]; [cbn; rewrite Ec; unfold kCategories; cbn; lia|].
  rewrite bind_eq.
  edestruct (add_rule_ok "read bytes from inbound stream" thread_data Out ReadInbound WantsRoom NoCallback FailInbound)
    as [x3 ->]; [|exact Ht|]; [cbn; rewrite Ec; unfold kCategories; cbn; lia|].
  eexists. split; [done|]. split_and!; try done. cbn. by rewrite Er, Ec, Ei.
Qed.

Lemma initialize_inv cfg s :
  TCPPeer.config_ok cfg → recv_capacity cfg ≤ 2 ^ 62 →
  claim (TCPPeer.receiver_ (TCPPeer.new_peer cfg)) (spec_new (recv_capacity cfg)) → fresh s →
  sound (_datagram_adapter (world s)) →
  ∃ s', _initialize_TCP cfg s = (Ok (), s') ∧ socket_inv s' ∧
    _tcp (world s') = Some (TCPPeer.new_peer cfg) ∧ _fd_rules s' = socket_rules ∧ descriptors s' = descriptors s ∧
    world s' = set_tcp (Some (TCPPeer.new_peer cfg)) (world s).
Proof.
  intros Hcfg Hcap Hclaim Hf Hsd. destruct (initialize_runs cfg s Hf) as (s'&Hi&Hrules&Hn&Hl&Hd&Hw).
  destruct Hf as [_ _ _ (wt&Ht&He) (Et&Eis&Eos&Eta&Egi)].
  exists s'. split; [done|]. rewrite Hw. split; [|done]. split; rewrite ?Hw; [|done| | |done].
  - intros r. rewrite Hrules. unfold known, socket_rules. rewrite !elem_of_cons, elem_of_nil.
    intros [->|[->|[->|[]]]]; cbn; auto.
  - exists wt. rewrite Hd. split; [done|]. by rewrite He.
  - exists (TCPPeer.new_peer cfg), (spec_new (send_capacity cfg)), 0, (spec_new (recv_capacity cfg)). split; [done|].
    pose proof (sys_total _ _ Hos). split; cbn; rewrite ?Eis, ?Eos, ?Eta, ?Egi; try done; try lia.
    by apply streams_new.
Qed.

Lemma safe_first {B C} (m : eff sys B) (f : B → eff sys C) s b s' :
  m s = (Ok b, s') → safe (f b) s' → safe (m ≫= f) s.
Proof. intros Hm Hf. apply safe_seq. unfold post. by rewrite Hm. Qed.

Lemma unmoved_ret {B} (b : B) : keeps unmoved (mret b).
Proof. by intros s. Qed.
Lemma unmoved_flight f : keeps unmoved (p ← tcp; mret (f p) : eff sys bool).
Proof. apply keeps_bind; [apply _|apply unmoved_tcp|by intros p s]. Qed.

Section opening.
Context (cfg : TCPConfig) (Hcfg : TCPPeer.config_ok cfg) (Hcap : recv_capacity cfg ≤ 2 ^ 62).
Context (Hclaim : claim (TCPPeer.receiver_ (TCPPeer.new_peer cfg)) (spec_new (recv_capacity cfg))).

Lemma safe_connect fuel c_ad s :
  fresh s → sound (_datagram_adapter (world s)) → safe (connect os fuel cfg c_ad) s.
Proof.
  intros Hf Hsd. unfold connect. eapply safe_first; [apply member_eq|].
  destruct (fr_world s Hf) as (->&_). 
  destruct (initialize_inv cfg s Hcfg Hcap Hclaim Hf Hsd) as (s1&Hi&Hs1&Hp&_). eapply safe_first; [done|].
  apply safe_step; [by apply unmoved_change; [|intros o; apply (ak_config _ Hsound)]|done|]. intros [] s2 _ U Hs2.
  assert (_tcp (world s2) = Some (TCPPeer.new_peer cfg)) as Hp2 by (destruct U as [_ _ _ _ [= E _ _ _ _] _]; congruence).
  destruct (inv_peer s2 Hs2) as (q&a&base&ar&Hq&C). assert (q = TCPPeer.new_peer cfg) as -> by congruence.
  apply (safe_tcp _ _ _ Hp2).
  destruct (streams_push (ca_streams _ _ _ _ _ _ C)) as (p'&sent&a'&He&P'&Ho&Hr). apply (safe_lifted _ _ _ _ He).
  eapply safe_first; [apply update_tcp_eq|].
  assert (socket_inv (update_tcp p' s2).2) as Hs3.
  { eapply inv_tcp; [done|]. eapply carried_grown; [done|done| |done|done]. rewrite Hr. apply C. }
  apply safe_step; [apply unmoved_transmit|done|]. intros [] s4 _ _ Hs4.
  apply safe_step; [apply unmoved_tcp|done|]. intros p4 s5 _ _ Hs5. case_bool_decide; [done|].
  apply safe_then; [apply safe_tcp_loop; [apply unmoved_flight|done]|]. intros [] s6 Hs6.
  apply safe_step; [apply unmoved_tcp|done|]. intros p7 s7 _ _ Hs7.
  by apply safe_unmoved; [apply unmoved_change|].
Qed.

Lemma safe_listen fuel c_ad s :
  fresh s → sound (_datagram_adapter (world s)) → safe (listen_and_accept os fuel cfg c_ad) s.
Proof.
  intros Hf Hsd. unfold listen_and_accept. eapply safe_first; [apply member_eq|].
  destruct (fr_world s Hf) as (->&_).
  destruct (initialize_inv cfg s Hcfg Hcap Hclaim Hf Hsd) as (s1&Hi&Hs1&_). eapply safe_first; [done|].
  apply safe_step; [apply unmoved_change; [done|intros o Ho; by apply (ak_listening _ Hsound), (ak_config _ Hsound)]|done|].
  intros [] s2 _ _ Hs2.
  apply safe_then; [apply safe_tcp_loop; [apply unmoved_flight|done]|]. intros [] s3 Hs3.
  by apply safe_unmoved; [apply unmoved_change|].
Qed.
End opening.
End invariant.

(** ** The constructor *)

Lemma local_socket_eof getsockopt w w' : local_stream_socket getsockopt w = Ok w' → w' = w.
Proof.
  unfold local_stream_socket, Socket.Socket.of_descriptor.
  assert (∀ opt x v what, keeps eq (Socket.Socket.verify getsockopt opt x v what)) as Hk.
  { intros opt x v what. unfold Socket.Socket.verify. apply keeps_bind; [apply _| |intros [y l] s; by destruct (_ || _)].
    unfold Socket.Socket.getsockopt. apply keeps_bind; [apply _|by intros s|]. intros n.
    destruct (getsockopt _ _ _); [by intros s|]. apply keeps_bind; [apply _|by intros s|]. by intros [] s. }
  intros He. match type of He with match ?m w with _ => _ end = _ => assert (keeps eq m) as Hm end.
  { repeat (apply keeps_bind; [apply _|apply Hk|intros ?]). by intros s. }
  specialize (Hm w). match type of He with match ?m w with _ => _ end = _ => destruct (m w) as [[[]|e] x] end; [|done].
  by injection He as <-.
Qed.

(** A descriptor after calls that do not end or close it. *)
Definition kept_flags (w w' : FDWrapper) : Prop := same_flags w w' ∧ fd_ w' = fd_ w.
#[export] Instance kept_flags_preorder : PreOrder kept_flags.
Proof. split; [done|]. intros w1 w2 w3 [F1 E1] [F2 E2]. split; [by etransitivity|congruence]. Qed.

(** Everything but the descriptor is as it was, and that is not at its end. *)
Lemma non_blocking_ok {A K} getfl setfl f (s s' : state code (EpollState K) (TCPMinnowSocket A)) :
  set_non_blocking getfl setfl f s = (Ok (), s') →
  ∃ ds, s' = with_descriptors ds s ∧ ∀ g, option_Forall2 kept_flags (descriptors s !! g) (ds !! g).
Proof.
  unfold set_non_blocking, wrapper. rewrite bind_eq. destruct (descriptors s !! f) as [w|] eqn:Hw; [|done].
  unfold on_descriptor. rewrite Hw. set (n := FileDescriptor.fd_num w).
  pose proof (same_flags_set_blocking false (getfl n) (setfl n) w) as Hk.
  pose proof (keeps_set_blocking false (getfl n) (setfl n) w) as [_ Hn].
  destruct (FileDescriptor.set_blocking _ _ _ w) as [r w']. intros [= -> <-]. eexists. split; [done|].
  intros g. destruct (decide (f = g)) as [<-|].
  - rewrite lookup_insert, decide_True, Hw by done. by constructor.
  - by rewrite lookup_insert_ne.
Qed.

(** The object is made of an event loop on a new instance of epoll and of the
    three descriptors. *)
Lemma make_runs {A K} `{TCPDatagramAdapter A} socketpair getfl setfl getsockopt epoll_create1 (k : K) aw (a : A) s :
  make socketpair getfl setfl getsockopt epoll_create1 k aw a = Ok s →
  ∃ fd0 fd1 own thread n ds, socketpair = Returned (fd0, fd1) ∧
    FileDescriptor.make fd0 (getfl fd0) = Ok own ∧ FileDescriptor.make fd1 (getfl fd1) = Ok thread ∧
    s = mkState [] [] [] 0 ds [] (mkEpollState n ∅ k) (mkTCPMinnowSocket a None false false false false 0 0 []) ∧
    ∀ g, option_Forall2 kept_flags
      (({[adapter_fd := aw; thread_data := thread; own_fd := own]} : gmap nat FDWrapper) !! g) (ds !! g).
Proof.
  unfold make, socket_pair_helper. intros Hm. destruct socketpair as [[fd0 fd1]|e]; [|done].
  apply bind_Ok in Hm as ([first second]&Hpair&Hm).
  apply bind_Ok in Hpair as (w0&Hw0&Hpair). apply bind_Ok in Hpair as (w1&->%local_socket_eof&Hpair).
  apply bind_Ok in Hpair as (w2&Hw2&Hpair). apply bind_Ok in Hpair as (w3&->%local_socket_eof&[= <- <-]).
  apply bind_Ok in Hm as (own&->%local_socket_eof&Hm). apply bind_Ok in Hm as (thread&->%local_socket_eof&Hm).
  apply bind_Ok in Hm as (s0&Hnew&Hm). unfold EpollEventLoop.new in Hnew.
  apply bind_Ok in Hnew as (n&_&Hnew). apply bind_Ok in Hnew as (ew&_&[= <-]).
  rewrite bind_eq in Hm. destruct (set_non_blocking getfl setfl thread_data _) as [[[]|e] s1] eqn:H1; [|done].
  destruct (set_non_blocking getfl setfl own_fd s1) as [[[]|e] s2] eqn:H2; [|done]. injection Hm as <-.
  apply non_blocking_ok in H1 as (ds1&->&Hd1). apply non_blocking_ok in H2 as (ds2&->&Hd2). cbn in Hd1, Hd2.
  exists fd0, fd1, w0, w2, (FileDescriptor.fd_num ew), ds2. do 4 (split; [done|]). intros g. etransitivity; [apply Hd1|apply Hd2].
Qed.

Lemma socket_make_ok {A K} `{TCPDatagramAdapter A} socketpair getfl setfl getsockopt epoll_create1 (k : K) aw (a : A) s :
  make socketpair getfl setfl getsockopt epoll_create1 k aw a = Ok s →
  fresh s ∧ _datagram_adapter (world s) = a ∧ ∃ w, descriptors s !! own_fd = Some w ∧ eof_ w = false ∧ FileDescriptor.closed_ w = false.
Proof.
  intros (fd0&fd1&own&thread&n&ds&_&[He0 Hc0]%make_eof&[He1 _]%make_eof&->&Hd)%make_runs.
  assert (option_Forall2 kept_flags (Some aw) (ds !! adapter_fd)) as Ha by exact (Hd adapter_fd).
  assert (option_Forall2 kept_flags (Some thread) (ds !! thread_data)) as Ht by exact (Hd thread_data).
  assert (option_Forall2 kept_flags (Some own) (ds !! own_fd)) as Ho by exact (Hd own_fd).
  inversion Ha as [? wa Ka Ea Ea'|]. inversion Ht as [? wt [[Ft _] _] Et Et'|]. inversion Ho as [? wo [[Fo Co] _] Eo Eo'|].
  split; [|split; [done|]].
  - split; try done. exists wt. split; [done|congruence].
  - exists wo. split; [done|]. split; congruence.
Qed.

Lemma make_fresh {A K} `{TCPDatagramAdapter A} socketpair getfl setfl getsockopt epoll_create1 (k : K) aw (a : A) s :
  make socketpair getfl setfl getsockopt epoll_create1 k aw a = Ok s → fresh s.
Proof. by intros [? _]%socket_make_ok. Qed.

(** * A session *)

(** A connection opened from one side or the other, and so many turns of its
    thread. *)
Definition session {A K} `{TCPDatagramAdapter A} (os : system K) (active : bool) (fuel turns : nat)
    (c_tcp : TCPConfig) (c_ad : FdAdapterConfig) : eff (state code (EpollState K) (TCPMinnowSocket A)) () :=
  (if active then connect os fuel c_tcp c_ad else listen_and_accept os fuel c_tcp c_ad) ;;
  _tcp_loop os turns (mret true).

Lemma session_inv {A K} `{TCPDatagramAdapter A} (os : system K) total good claim sound active fuel turns cfg c_ad s :
  system_ok os total → inbound_law good claim → adapter_keeps sound →
  (∀ n w a m s', sound a → adapter_read (net_calls os n) (w, a) = (Ok (Some m), s') → wire_message m ∧ good (sender m)) →
  TCPPeer.config_ok cfg → recv_capacity cfg ≤ 2 ^ 62 →
  claim (TCPPeer.receiver_ (TCPPeer.new_peer cfg)) (spec_new (recv_capacity cfg)) →
  fresh s → sound (_datagram_adapter (world s)) →
  socket_inv os total (claim := claim) (sound := sound) (session os active fuel turns cfg c_ad s).2.
Proof.
  intros Hos Hlaw Hkeeps Hnet Hcfg Hcap Hclaim Hf Hsd.
  apply (safe_then os total _ (λ _, _tcp_loop os turns (mret true))).
  - destruct active; [eapply safe_connect|eapply safe_listen]; eauto.
  - intros [] s' Hs'. eapply safe_tcp_loop; eauto. apply unmoved_ret.
Qed.

(** Adapters whose messages have their fields in range, as long as what they
    hold is sound. *)
Class WireAdapter (A : Type) `{TCPDatagramAdapter A} : Type := {
  adapter_sound : A → Prop;
  wire_keeps : adapter_keeps adapter_sound;
  read_wire sys w a m s' : adapter_sound a → adapter_read sys (w, a) = (Ok (Some m), s') → wire_message m;
}.

(** ** The adapters of the repository *)

(** A message from the device. *)
Lemma tun_reads `{Resolver} sys x m x' : TunAdapter.read (sys_readv sys) x = (Ok (Some m), x') → wire_message m.
Proof.
  destruct x as [w b]. intros Hr.
  unfold TunAdapter.read in Hr. fold tun_buffers in Hr. rewrite bind_eq in Hr. unfold on_fd at 1 in Hr.
  destruct (FileDescriptor.readv (sys_readv sys) tun_buffers w) as [[bufs|e] w1] eqn:Hv; [|done].
  apply readv_size in Hv. rewrite bind_eq in Hr.
  destruct (Wire.parse IPv4.IPv4Datagram.new (Ref.Owned <$> bufs)) as [[d ok]|e] eqn:Hp; [|done].
  cbn [lift] in Hr. destruct ok; [|done]. unfold on_adapter in Hr.
  destruct (TCPOverIPv4Adapter.unwrap_tcp_in_ip d b) as [[o b']|e] eqn:Hu; [|done]. injection Hr as -> _.
  apply WireSize.unwrap_sound in Hu as (Hs&Ha&Hw&Hl). apply WireSize.datagram_size in Hp.
  rewrite text_owned in Hp. unfold tun_room in Hv. split; [done|]. split; [done|]. lia.
Qed.

(** An adapter that holds nothing a message could come from. *)
Lemma keeps_true {A} `{TCPDatagramAdapter A} : adapter_keeps (λ _ : A, True).
Proof. done. Qed.

#[export] Instance tun_wire `{Resolver} : WireAdapter FdAdapterBase := {|
  adapter_sound _ := True;
  wire_keeps := keeps_true;
  read_wire sys w a m s' _ := tun_reads sys (w, a) m s';
|}.

Section lossy.
Context {E A : Type} `{WireAdapter A} (rand : E → Z * E).
#[local] Existing Instance LossyFdAdapter.lossy_adapter.
Definition lossy_sound (a : LossyFdAdapter E A) : Prop := adapter_sound (_adapter a).

Lemma should_drop_adapter uplink (x : FDWrapper * LossyFdAdapter E A) :
  _adapter (LossyFdAdapter._should_drop rand uplink x).2.2 = _adapter x.2.
Proof.
  destruct x as [w a]. unfold LossyFdAdapter._should_drop. cbv zeta. case_bool_decide; [|done]. by destruct (rand _).
Qed.

Lemma lossy_keeps : @adapter_keeps _ (LossyFdAdapter.lossy_adapter rand) lossy_sound.
Proof.
  destruct (wire_keeps (A:=A)) as [Kr Kw Kl Kc Kt]. split.
  - intros sys w a Ha. cbn [adapter_read LossyFdAdapter.lossy_adapter]. unfold LossyFdAdapter.read. rewrite bind_eq.
    unfold LossyFdAdapter.below. specialize (Kr sys w (_adapter a) Ha).
    destruct (adapter_read sys (w, _adapter a)) as [[o|e] [w1 a1]]; [|done]. rewrite bind_eq.
    pose proof (should_drop_adapter false (w1, mkLossyFdAdapter (_rand a) a1)) as Hd.
    destruct (LossyFdAdapter._should_drop rand false _) as [[[]|e] [w2 a2]]; unfold lossy_sound in *; cbn in *; by rewrite Hd.
  - intros sys m w a Ha. cbn [adapter_write LossyFdAdapter.lossy_adapter]. unfold LossyFdAdapter.write. rewrite bind_eq.
    pose proof (should_drop_adapter true (w, a)) as Hd.
    destruct (LossyFdAdapter._should_drop rand true (w, a)) as [[b|e] [w2 a2]]; unfold lossy_sound in *; cbn in *; [|by rewrite Hd].
    destruct b; [cbn; by rewrite Hd|]. unfold LossyFdAdapter.below. rewrite <- Hd in Ha. specialize (Kw sys m w2 (_adapter a2) Ha).
    by destruct (adapter_write sys m (w2, _adapter a2)) as [o [w3 a3]].
  - intros b a. apply Kl.
  - intros c a. apply Kc.
  - intros ms a. apply Kt.
Qed.

Lemma lossy_reads sys w a m x' :
  lossy_sound a → LossyFdAdapter.read rand sys (w, a) = (Ok (Some m), x') → wire_message m.
Proof.
  intros Ha Hr. unfold LossyFdAdapter.read in Hr. rewrite bind_eq in Hr. unfold LossyFdAdapter.below in Hr.
  destruct (adapter_read sys (w, _adapter a)) as [[o|e] [w1 a1]] eqn:Hread; [|done]. rewrite bind_eq in Hr.
  destruct (LossyFdAdapter._should_drop rand false _) as [[[]|e] s1]; try done.
  injection Hr as -> _. by eapply read_wire.
Qed.

Definition lossy_wire : @WireAdapter (LossyFdAdapter E A) (LossyFdAdapter.lossy_adapter rand) :=
  {| adapter_sound := lossy_sound : LossyFdAdapter E A → Prop; wire_keeps := lossy_keeps; read_wire := lossy_reads |}.
End lossy.

(** What the invariant says of the bytes, without a claim about the remote
    stream. *)
Lemma socket_inv_streams {A K} `{TCPDatagramAdapter A} (os : system K) total claim sound
    (s : state code (EpollState K) (TCPMinnowSocket A)) :
  socket_inv (claim := claim) (sound := sound) os total s →
  ∃ p a ar, _tcp (world s) = Some p ∧ refines (TCPPeer.outbound p) a ∧ refines (TCPPeer.inbound p) ar ∧
    written a = slice (owner_bytes os) 0 (taken (world s)) ∧ fin a = _outbound_shutdown (world s) ∧
    (fin a = true → taken (world s) = total ∨ told (calls s)) ∧
    given (world s) = ztake (nread ar) (written ar) ∧
    (_inbound_shutdown (world s) = true → err ar = true ∨ fin ar = true).
Proof.
  intros [_ _ _ (p&a&base&ar&Hp&C) _].
  exists p, a, ar. destruct C as [P _ Ht _ Hfin Hcl Hg _ _ Hsh]. split_and!; try done.
  - apply (TCPSender.so_input (proj1 (ss_peer _ _ _ _ _ P))).
  - apply (ss_inbound _ _ _ _ _ P).
  - rewrite Ht. apply (TCPSender.so_written (proj1 (ss_peer _ _ _ _ _ P))).
  - intros [?|[? _]]%Hsh; auto.
Qed.

(** * Properties *)

(** A session on an adapter that keeps its own invariant. *)
Lemma wire_session {A K} `{WireAdapter A} (os : system K) total active fuel turns cfg c_ad s :
  system_ok os total → TCPPeer.config_ok cfg → recv_capacity cfg ≤ 2 ^ 62 → fresh s →
  adapter_sound (_datagram_adapter (world s)) →
  socket_inv (claim := λ _ _, True) (sound := adapter_sound) os total (session os active fuel turns cfg c_ad s).2.
Proof.
  intros Hos Hcfg Hcap Hf Hsd.
  apply (session_inv os total _ _ _ active fuel turns cfg c_ad s Hos no_claim wire_keeps); try done.
  intros n w x m t' Hx Hr. split; [|done]. by eapply read_wire.
Qed.

(** A session whose segments are those of one remote stream, or resets. *)
Lemma genuine_session {A K} `{WireAdapter A} (os : system K) total active fuel turns cfg c_ad s z remote n :
  system_ok os total → TCPPeer.config_ok cfg → recv_capacity cfg ≤ 2 ^ 62 → fresh s →
  adapter_sound (_datagram_adapter (world s)) → wf z → 0 ≤ n < 2 ^ 31 - 2 →
  (∀ t w x m x', adapter_sound x → adapter_read (net_calls os t) (w, x) = (Ok (Some m), x') →
    genuine z remote n (sender m)) →
  socket_inv (claim := assembling z remote n) (sound := adapter_sound) os total (session os active fuel turns cfg c_ad s).2.
Proof.
  intros Hos Hcfg Hcap Hf Hsd Hz Hn Hgen.
  apply (session_inv os total _ _ _ active fuel turns cfg c_ad s Hos (genuine_law z remote n Hz Hn) wire_keeps); try done.
  - intros t w x m x' Hx Hr. split; [by eapply read_wire|by eapply Hgen].
  - by apply assembling_new.
Qed.

(** What the owner is handed then. *)
Lemma socket_inv_delivers {A K} `{TCPDatagramAdapter A} (os : system K) total z remote n sound
    (s : state code (EpollState K) (TCPMinnowSocket A)) :
  socket_inv (claim := assembling z remote n) (sound := sound) os total s →
  given (world s) = slice remote 0 (zlen (given (world s))) ∧ zlen (given (world s)) ≤ n ∧
  ∀ p, _tcp (world s) = Some p → _inbound_shutdown (world s) = true → has_error (TCPPeer.inbound p) = false →
    given (world s) = slice remote 0 n.
Proof.
  intros [_ _ _ (p&a&base&ar&Hp&C) _]. destruct C as [P (Hw&Hl&Hh) _ _ _ _ Hg _ _ Hsh].
  pose proof (ref_nread _ _ (ss_inbound _ _ _ _ _ P)) as Hr.
  assert (zlen (given (world s)) = nread ar) as Hgl by (rewrite Hg; zlen).
  assert (given (world s) = slice remote 0 (zlen (given (world s)))) as Hpre.
  { rewrite Hgl, Hg, Hw. rewrite ztake_slice. f_equal. lia. }
  split_and!; [done|lia|]. intros q Hq Hi He. assert (q = p) as -> by congruence.
  rewrite (streams_error P) in He. destruct (Hsh Hi) as [?|(Hfin&r0&ar0&Hc0&He0&Hf0&Hn0&Hle)]; [congruence|].
  pose proof (assembling_whole _ _ _ _ _ Hc0 He0 Hf0) as Hwhole.
  rewrite Hwhole, zlen_slice in Hn0. rewrite Hpre, Hgl. f_equal. lia.
Qed.

(** The stand-in for a socket of the kernel is such a session. *)
Lemma cs144_session `{Resolver} {K} (os : system K) total fuel turns random address s :
  system_ok os total → fresh s → (∃ cfg, CS144TCPSocket.multiplexer_config random address = Ok cfg) →
  socket_inv (claim := λ _ _, True) (sound := adapter_sound) os total
    ((CS144TCPSocket.connect os fuel random address ;; _tcp_loop os turns (mret true)) s).2.
Proof.
  intros Hos Hf [cfg Hcfg].
  pose proof (wire_session os total true fuel turns CS144TCPSocket.tcp_config cfg s Hos) as Hs.
  revert Hs. unfold session, CS144TCPSocket.connect. rewrite !bind_eq, Hcfg. intros Hs. apply Hs; done.
Qed.

(** C4: if the segments that arrive are those of one remote stream, or resets,
    the owner is handed a prefix of that stream; and once the end is passed on
    without an error, all of it. *)
Theorem minnow_socket_delivers {A K} `{WireAdapter A} (os : system K) total active fuel turns cfg c_ad s
    z remote n :
  system_ok os total → TCPPeer.config_ok cfg → recv_capacity cfg ≤ 2 ^ 62 → fresh s →
  adapter_sound (_datagram_adapter (world s)) →
  wf z → 0 ≤ n < 2 ^ 31 - 2 →
  (∀ t w x m x', adapter_sound x → adapter_read (net_calls os t) (w, x) = (Ok (Some m), x') →
    genuine z remote n (sender m)) →
  let s' := (session os active fuel turns cfg c_ad s).2 in
  given (world s') = slice remote 0 (zlen (given (world s'))) ∧ zlen (given (world s')) ≤ n ∧
  ∀ p, _tcp (world s') = Some p → _inbound_shutdown (world s') = true → has_error (TCPPeer.inbound p) = false →
    given (world s') = slice remote 0 n.
Proof.
  intros Hos Hcfg Hcap Hf Hsd Hz Hn Hgen s'.
  apply (socket_inv_delivers os total z remote n adapter_sound). by apply (genuine_session os total).
Qed.

(** The segment that opens a connection. *)
Definition syn_message (cfg : TCPConfig) : TCPMessage :=
  mkTCPMessage (mkTCPSenderMessage (Wrap32.add (isn cfg) 0) true [] false false)
    (mkTCPReceiverMessage None (Z.min (recv_capacity cfg) 65535) false).

Lemma new_peer_reply cfg :
  TCPPeer.config_ok cfg →
  TCPReceiver.send (TCPPeer.receiver_ (TCPPeer.new_peer cfg)) =
    mkTCPReceiverMessage None (Z.min (recv_capacity cfg) 65535) false.
Proof.
  intros (_&_&Hr&_). unfold is_u64 in Hr.
  change (TCPReceiver.send (TCPPeer.receiver_ (TCPPeer.new_peer cfg))) with
    (mkTCPReceiverMessage None (u16 (Z.min (u64 (recv_capacity cfg - 0)) 65535)) false).
  rewrite u64_small by word. rewrite u16_small by word. do 2 f_equal. lia.
Qed.

Lemma push_new_peer cfg :
  TCPPeer.config_ok cfg →
  ∃ p, TCPPeer.push (TCPPeer.new_peer cfg) = Ok (p, [syn_message cfg]) ∧
    TCPSender.sequence_numbers_in_flight (TCPPeer.sender_ p) = 1.
Proof.
  intros Hc. unfold syn_message. rewrite <- (new_peer_reply cfg Hc). by eexists.
Qed.

(** C39: opening a connection.  On a socket as the constructor leaves it,
    [connect] puts the three rules on the loop and writes one segment: the SYN,
    with the initial sequence number, no payload, no acknowledgement and the
    window of an empty stream; the check of one number in flight after it never
    fails, and the loop runs while that number is in flight.
    [listen_and_accept] writes nothing before its loop.  Either call on a
    socket that has a connection throws and changes nothing. *)
Theorem minnow_opening {A K} `{TCPDatagramAdapter A} (os : system K) fuel cfg c_ad s :
  TCPPeer.config_ok cfg → fresh s →
  let answered p := bool_decide (TCPSender.sequence_numbers_in_flight (TCPPeer.sender_ p) = 1) in
  let accepted p := negb (TCPPeer.has_ackno p)
    || bool_decide (TCPSender.sequence_numbers_in_flight (TCPPeer.sender_ p) ≠ 0) in
  (∃ s1 p, connect os fuel cfg c_ad s =
      (transmit os [syn_message cfg] ;; _tcp_loop os fuel (p ← tcp; mret (answered p)) ;; tcp ;;
       change (set_joinable true)) s1 ∧
    _tcp (world s1) = Some p ∧ answered p = true ∧ _fd_rules s1 = socket_rules ∧ descriptors s1 = descriptors s ∧
    _datagram_adapter (world s1) = adapter_set_config c_ad (_datagram_adapter (world s))) ∧
  (∃ s1, listen_and_accept os fuel cfg c_ad s =
      (_tcp_loop os fuel (p ← tcp; mret (accepted p)) ;; change (set_joinable true)) s1 ∧
    _tcp (world s1) = Some (TCPPeer.new_peer cfg) ∧ _fd_rules s1 = socket_rules ∧ descriptors s1 = descriptors s ∧
    _datagram_adapter (world s1) =
      adapter_set_listening true (adapter_set_config c_ad (_datagram_adapter (world s)))) ∧
  ∀ t, is_Some (_tcp (world t)) → ∃ m1 m2,
    connect os fuel cfg c_ad t = (Err (Throw m1), t) ∧ listen_and_accept os fuel cfg c_ad t = (Err (Throw m2), t).
Proof.
  intros Hcfg Hf answered accepted. split_and!.
  - destruct (initialize_runs cfg s Hf) as (s1&Hi&Hrules&_&_&Hd&Hw). destruct (push_new_peer cfg Hcfg) as (p&Hp&Hfl).
    unfold connect. rewrite bind_eq, member_eq. destruct (fr_world s Hf) as (->&_). rewrite bind_eq, Hi, bind_eq.
    set (s2 := with_world (set_adapter (adapter_set_config c_ad (_datagram_adapter (world s1))) (world s1)) s1).
    assert (world s2 = set_adapter (adapter_set_config c_ad (_datagram_adapter (world s)))
      (set_tcp (Some (TCPPeer.new_peer cfg)) (world s))) as Hw2 by (unfold s2; cbn; by rewrite Hw).
    exists (update_tcp p s2).2, p. split_and!; try done.
    + unfold change at 1. cbv beta iota delta [modify]. fold s2.
      rewrite bind_eq, (tcp_eq s2 (TCPPeer.new_peer cfg)) by by rewrite Hw2. rewrite Hp.
      rewrite bind_eq. cbn [lift]. rewrite bind_eq, update_tcp_eq. set (s3 := (update_tcp p s2).2). cbn [fst snd].
      rewrite bind_eq. symmetry. change (Ok (), s3).2 with s3. rewrite bind_eq.
      pose proof (unmoved_transmit os keeps_true [syn_message cfg] s3) as Ht.
      destruct (transmit os [syn_message cfg] s3) as [[[]|e] s4]; [|done].
      assert (_tcp (world s4) = Some p) as Hp4 by (injection (un_core _ _ Ht) as -> _ _ _ _; done).
      rewrite (bind_eq tcp), (tcp_eq s4 p Hp4). by rewrite bool_decide_false by (rewrite Hfl; lia).
    + by apply bool_decide_true.
    + transitivity (_datagram_adapter (world s2)); [done|by rewrite Hw2].
  - destruct (initialize_runs cfg s Hf) as (s1&Hi&Hrules&_&_&Hd&Hw).
    unfold listen_and_accept. rewrite bind_eq, member_eq. destruct (fr_world s Hf) as (->&_). rewrite bind_eq, Hi, bind_eq.
    eexists. split; [done|]. cbn. rewrite Hw. by split_and!.
  - intros t [p Hp]. eexists _, _. unfold connect, listen_and_accept. by rewrite !bind_eq, !member_eq, Hp.
Qed.

(** A packet of a message, and the adapter it is for. *)
Definition demo_packet `{Resolver} : bytes :=
  match (dgram ← TCPOverIPv4Adapter.wrap_tcp_in_ip demo_message demo_adapter; @Wire.serialize _ IPv4.IPv4Datagram_wire dgram) with
  | Ok bufs => Ref.text bufs
  | Err _ => []
  end.
Definition demo_peer_adapter : FdAdapterBase :=
  mkFdAdapterBase (mkFdAdapterConfig (inet 167772162 80) (inet 167772161 4000) 0 0) false.

Example demo_packet_read :
  let R := DottedQuad.resolver in
  TunAdapter.read (λ _, Returned demo_packet) (demo_device, demo_peer_adapter) =
    (Ok (Some (normal_message demo_message)), (mkFDWrapper 5 false false true 1 0, demo_peer_adapter)).
Proof. vm_compute. reflexivity. Qed.

(** ** A run *)

(** An adapter that plays a script: the other end answers the SYN, sends five
    bytes in two segments, out of order, and closes. *)
Definition remote_isn : Wrap32 := mkWrap32 5000.
Definition reply_of (a : option Z) : TCPReceiverMessage := mkTCPReceiverMessage (mkWrap32 <$> a) 1000 false.
Definition script : list TCPMessage :=
  [mkTCPMessage (mkTCPSenderMessage (mkWrap32 5000) true [] false false) (reply_of (Some 138));
   mkTCPMessage (mkTCPSenderMessage (mkWrap32 5004) false (slice demo_stream 3 2) true false) (reply_of (Some 138));
   mkTCPMessage (mkTCPSenderMessage (mkWrap32 5001) false (slice demo_stream 0 3) false false) (reply_of (Some 138));
   mkTCPMessage (mkTCPSenderMessage (Wrap32.wrap (5 + 2) remote_isn) false [] false false) (reply_of (Some 143))].

#[local] Instance scripted_adapter : TCPDatagramAdapter nat := {|
  adapter_read _ := λ '(w, i), (Ok (script !! i), ((FileDescriptor.register_read w).2, S i));
  adapter_write _ _ := λ '(w, i), (Ok (), ((FileDescriptor.register_write w).2, i));
  adapter_set_listening _ i := i;
  adapter_config _ := mkFdAdapterConfig (inet 0 0) (inet 0 0) 0 0;
  adapter_set_config _ i := i;
  adapter_tick _ i := i;
|}.

(** Turns serve the network and the owner alternately; the owner writes four
    bytes, and its socket accepts two at a time. *)
Definition demo_os : system () := mkSystem ()
  (λ _ _, Failed EAGAIN) (λ _ bufs, Returned (zlen (concat bufs)))
  demo_stream (λ _ pos n, Returned (Z.min n (4 - pos)))
  (λ _ pos bufs, if bool_decide (pos < 1000) then Returned (Z.min 2 (zlen (concat bufs))) else Failed EAGAIN)
  (λ _ _ _, Returned 0) (λ t, Z.of_nat t) (λ _, false)
  (λ _ _ _ _ k, (Returned (), k))
  (λ t _ _ _ _, Returned (if bool_decide (t `mod` 8 < 4)%nat then [(5, EPOLLIN); (6, Z.lor EPOLLIN EPOLLOUT)]
                          else [(6, Z.lor EPOLLIN EPOLLOUT); (5, EPOLLIN)]))
  (λ _ _, Failed ENOTSOCK) (λ m, (map_to_list m).*1).

Definition demo_socket : state code (EpollState ()) (TCPMinnowSocket nat) :=
  mkState [] [] [] 0
    {[adapter_fd := mkFDWrapper 5 false false false 0 0;
      thread_data := mkFDWrapper 6 false false true 0 0;
      own_fd := mkFDWrapper 7 false false true 0 0]} []
    (mkEpollState 4 ∅ ()) (mkTCPMinnowSocket 0%nat None false false false false 0 0 []).

Abbreviation demo_session turns :=
  (session demo_os true 5 turns default_config (adapter_config 0%nat) demo_socket).

(** The whole connection: the handshake, both streams in pieces, both ends. *)
Example demo_session_runs :
  let '(r, s) := demo_session 12%nat in
  (r, taken (world s), given (world s), calls s) =
    (Ok (), 4, slice demo_stream 0 5,
     [Ran 0; Ran 0; Ran 1; Ran 0; Ran 1; Cancelled 1; Ran 2; Ran 0; Ran 2; Ran 2]).
Proof. vm_compute. reflexivity. Qed.

Lemma script_read sys x m x' : adapter_read (A := nat) sys x = (Ok (Some m), x') → m ∈ script.
Proof. destruct x as [w i]. intros [= Hm _]. by eapply list_elem_of_lookup_2. Qed.

Lemma script_wire m : m ∈ script → wire_message m.
Proof.
  unfold script. rewrite !elem_of_cons, elem_of_nil.
  intros [->|[->|[->|[->|[]]]]]; (split; [done|]); (split; [|done]); (split; [done|]); by intros ? [= <-].
Qed.

#[local] Instance scripted_wire : WireAdapter nat := {|
  adapter_sound _ := True;
  wire_keeps := keeps_true;
  read_wire sys w a m s' _ H := script_wire m (script_read sys (w, a) m s' H);
|}.

Lemma script_genuine m : m ∈ script → genuine remote_isn demo_stream 5 (sender m).
Proof.
  unfold script. rewrite !elem_of_cons, elem_of_nil. intros [->|[->|[->|[->|[]]]]]; right.
  - left. exists 0. by vm_compute.
  - left. exists 4. repeat split; vm_compute; done.
  - left. exists 1. repeat split; vm_compute; done.
  - by right.
Qed.

Lemma demo_os_ok : system_ok demo_os 4.
Proof.
  split; [done| |].
  - intros t pos Hpos n m Hn [= <-]. lia.
  - intros t pos bufs m. cbn. case_bool_decide; [|done]. intros [= <-]. zlen.
Qed.

Lemma demo_socket_fresh : fresh demo_socket.
Proof. split; try done; by eexists. Qed.

Lemma minnow_socket_delivers_witness :
  given (world (demo_session 12%nat).2) = slice demo_stream 0 (zlen (given (world (demo_session 12%nat).2))).
Proof.
  destruct (minnow_socket_delivers demo_os 4 true 5 12 default_config (adapter_config 0%nat) demo_socket
    remote_isn demo_stream 5) as [Hg _].
  - exact demo_os_ok.
  - exact TCPPeer.default_config_ok.
  - done.
  - exact demo_socket_fresh.
  - exact I.
  - done.
  - done.
  - intros t w x m x' _ Hm. by apply script_genuine, (script_read _ _ _ _ Hm).
  - exact Hg.
Defined.

Lemma minnow_opening_witness :
  ∃ s1 p, connect demo_os 5 default_config (adapter_config 0%nat) demo_socket =
      (transmit demo_os [syn_message default_config] ;;
       _tcp_loop demo_os 5 (p ← tcp; mret (bool_decide (TCPSender.sequence_numbers_in_flight (TCPPeer.sender_ p) = 1))) ;;
       tcp ;; change (set_joinable true)) s1 ∧
    _tcp (world s1) = Some p ∧ TCPSender.sequence_numbers_in_flight (TCPPeer.sender_ p) = 1.
Proof.
  destruct (minnow_opening demo_os 5 default_config (adapter_config 0%nat) demo_socket TCPPeer.default_config_ok
    demo_socket_fresh) as ((s1&p&Hc&Hp&Ha&_)&_).
  exists s1, p. split; [exact Hc|]. split; [exact Hp|]. exact (bool_decide_eq_true_1 _ Ha).
Defined.
