(* ===== verification/SocketOwner.v ===== *)
(** The owner's end of a TCPMinnowSocket: the thread of the connection works on
    the adapter and on its own end of the pair, and leaves the descriptor that
    the object itself is as it was. *)

From S2P Require Import Prelude Effects FileDescriptor EventRules EventLoop EventInvariant EpollEventLoop EpollInvariant.
From S2P Require Import TCPMessages Pipe Adapter MinnowSocket.
From S2P Require TCPPeer Socket.

(** The descriptor of the owner is the same, and there are still no rules
    without a descriptor. *)
Definition apart {C X W} (s s' : state C X W) : Prop :=
  _non_fd_rules s' = _non_fd_rules s ∧ descriptors s' !! own_fd = descriptors s !! own_fd.

#[export] Instance apart_preorder {C X W} : PreOrder (@apart C X W).
Proof. split; [done|]. intros s1 s2 s3 [E1 E2] [F1 F2]. split; congruence. Qed.

Create HintDb apart.

Section owner.
Context {A K : Type} `{TCPDatagramAdapter A} (os : system K).
Abbreviation sys := (state code (EpollState K) (TCPMinnowSocket A)).
Import TCPMinnowSocket.

Lemma apart_descriptor {B} f (m : eff FDWrapper B) : f ≠ own_fd → keeps apart (on_descriptor (C:=code) (X:=EpollState K) (W:=TCPMinnowSocket A) f m).
Proof.
  intros Hf s. unfold on_descriptor. destruct (descriptors s !! f); [|done]. destruct (m _) as [r w].
  split; [done|]. by apply lookup_insert_ne.
Qed.
Lemma apart_adapter {B} (m : eff (FDWrapper * A) B) : keeps apart (adapter (K:=K) m).
Proof.
  intros s. unfold adapter. destruct (descriptors s !! adapter_fd); [|done]. destruct (m _) as [r [w a]].
  split; [done|]. by apply lookup_insert_ne.
Qed.
Lemma apart_wrapper f : keeps apart (wrapper (C:=code) (X:=EpollState K) (W:=TCPMinnowSocket A) f).
Proof. intros s. unfold wrapper. by destruct (descriptors s !! f). Qed.
Lemma apart_tcp : keeps apart (tcp (A:=A) (K:=K)).
Proof. intros s. unfold tcp. rewrite bind_eq. cbn. by destruct (_tcp (world s)). Qed.
Lemma apart_tcp_value : keeps apart (tcp_value (A:=A) (K:=K)).
Proof. intros s. unfold tcp_value. rewrite bind_eq. cbn. by destruct (_tcp (world s)). Qed.
Lemma apart_try_emplace n : keeps apart (EpollEventLoop.try_emplace (C:=code) (K:=K) (W:=TCPMinnowSocket A) n).
Proof. intros s. unfold EpollEventLoop.try_emplace, modify. cbn [snd]. by destruct (_ !! n). Qed.

(** A computation made of such steps. *)
Ltac apart :=
  repeat first
    [ apply keeps_bind; [apply _| |intros ?]
    | apply keeps_when; [apply _|]
    | apply keeps_ret; apply _ | apply keeps_throw; apply _ | apply keeps_gets; apply _ | apply keeps_lift; apply _
    | apply apart_adapter | apply apart_wrapper | apply apart_tcp | apply apart_tcp_value | apply apart_try_emplace
    | apply apart_descriptor; done
    | progress auto with apart nocore
    | match goal with
      | |- keeps _ (modify _) => by intros ?
      | |- keeps _ (match ?x with _ => _ end) => destruct x
      | |- keeps _ (let '_ := ?x in _) => destruct x
      end ].

Lemma apart_change f : keeps apart (change (A:=A) (K:=K) f).
Proof. by intros s. Qed.
Lemma apart_member {B} (f : TCPMinnowSocket A → B) : keeps apart (member (K:=K) f).
Proof. by intros s. Qed.
Lemma apart_call_time : keeps apart (call_time (A:=A) (K:=K)).
Proof. by intros s. Qed.
Hint Resolve apart_change apart_member apart_call_time : apart.
Lemma apart_update_tcp p : keeps apart (update_tcp (A:=A) (K:=K) p).
Proof. by intros s. Qed.
Hint Resolve apart_update_tcp : apart.
Lemma apart_transmit msgs : keeps apart (transmit os msgs).
Proof. induction msgs as [|m msgs IH]; cbn [transmit]; apart. Qed.
Hint Resolve apart_transmit : apart.
Lemma apart_read_thread data : keeps apart (read_thread_data (A:=A) os data).
Proof. unfold read_thread_data. apart. Qed.
Lemma apart_write_thread buffer : keeps apart (write_thread_data (A:=A) os buffer).
Proof. unfold write_thread_data. apart. Qed.
Hint Resolve apart_read_thread apart_write_thread : apart.

Lemma apart_call_back c : keeps apart (call_back os c).
Proof.
  destruct c; cbn [call_back];
    unfold receive_segment, push_bytes, close_outbound, fail_outbound, read_inbound, fail_inbound; apart.
Qed.

(** The loop of the connection. *)
Definition untouched (w : FDWrapper) (s : sys) : Prop := _non_fd_rules s = [] ∧ descriptors s !! own_fd = Some w.

Lemma apart_untouched w s s' : apart s s' → untouched w s → untouched w s'.
Proof. intros [E1 E2] [? ?]. split; congruence. Qed.

Lemma untouched_invariant w : invariant_ok (call_interest (A:=A) (K:=K)) (call_back os) (λ _ _, True) (λ _, True) (untouched w).
Proof.
  split; try done; [by intros s []| | |]; intros r s Hs _; intros; apply (apart_untouched w s); try done;
    unfold invoke; (apply keeps_bind; [apply _|by intros ?|intros _; apply apart_call_back]).
Qed.

Definition keeps_owner {B} (m : eff sys B) : Prop := ∀ w, keeps (λ s s', untouched w s → untouched w s') m.

Lemma owner_apart {B} (m : eff sys B) : keeps apart m → keeps_owner m.
Proof. intros Hm w s. by apply apart_untouched. Qed.
Lemma owner_bind {B C} (m : eff sys B) (f : B → eff sys C) : keeps_owner m → (∀ b, keeps_owner (f b)) → keeps_owner (m ≫= f).
Proof. intros Hm Hf w. apply keeps_bind; [apply (inv_preorder (Inv := untouched w))|apply Hm|intros b; apply Hf]. Qed.

Lemma owner_wait : keeps_owner (wait_next_event (A:=A) os).
Proof.
  apply owner_bind; [apply owner_apart; auto with apart|]. intros n. apply owner_bind; [by intros w s|]. intros rs w.
  by apply (keeps_inv_wait (untouched_invariant w)).
Qed.

Lemma owner_turn base_time : keeps_owner (turn os base_time).
Proof.
  apply owner_bind; [apply owner_wait|]. intros ret. apply owner_apart.
  unfold read_clock. apart. 
Qed.

Lemma owner_loop fuel condition base_time : keeps_owner condition → keeps_owner (loop os fuel condition base_time).
Proof.
  intros Hc. revert base_time. induction fuel as [|fuel IH]; intros base_time; cbn [loop]; (apply owner_bind; [done|]);
    intros []; try by intros w s.
  apply owner_bind; [apply owner_turn|]. intros [next|]; [apply IH|by intros w s].
Qed.

Lemma owner_tcp_loop fuel condition : keeps_owner condition → keeps_owner (_tcp_loop os fuel condition).
Proof.
  intros Hc. apply owner_bind; [apply owner_apart; unfold read_clock; apart|]. intros base_time. by apply owner_loop.
Qed.

Lemma apart_initialize cfg : keeps apart (_initialize_TCP (A:=A) (K:=K) cfg).
Proof.
  unfold _initialize_TCP, add_rule, EpollEventLoop.add_category, add_category, EpollEventLoop.add_fd_rule, add_fd_rule. apart.
Qed.

(** The opening, too, leaves the owner's end alone. *)
Lemma owner_connect fuel c_tcp c_ad : keeps_owner (connect os fuel c_tcp c_ad).
Proof.
  apply owner_bind; [by intros w s|]. intros [p|]; [by intros w s|].
  apply owner_bind; [apply owner_apart, apart_initialize|]. intros _.
  do 2 (apply owner_bind; [apply owner_apart; apart|]; intros ?). apply owner_bind; [by intros w s|]. intros [p sent].
  do 3 (apply owner_bind; [apply owner_apart; apart|]; intros ?). case_bool_decide; [by intros w s|].
  apply owner_bind; [apply owner_tcp_loop, owner_apart; apart|]. intros _. apply owner_apart. apart.
Qed.

Lemma owner_listen fuel c_tcp c_ad : keeps_owner (listen_and_accept os fuel c_tcp c_ad).
Proof.
  apply owner_bind; [by intros w s|]. intros [p|]; [by intros w s|].
  apply owner_bind; [apply owner_apart, apart_initialize|]. intros _. apply owner_bind; [apply owner_apart; apart|]. intros _.
  apply owner_bind; [apply owner_tcp_loop, owner_apart; apart|]. intros _. apply owner_apart. apart.
Qed.
End owner.
