(* ===== verification/SocketLoop.v ===== *)
(** The thread of a TCPMinnowSocket and its event loop: what the callbacks leave
    alone, hence why the rule that takes the owner's bytes is ever cancelled, and
    that the kernel watches what the rules want. *)

From stdpp Require Import sets.
From S2P Require Import Prelude Interfaces Effects FileDescriptor EventRules EventLoop EpollEventLoop EpollInvariant.
From S2P Require Import WrappingIntegers TCPMessages ByteStream Address TCPOverIP Pipe Adapter PeerStreams MinnowSocket SocketOwner.
From S2P Require TCPPeer TCPSender Socket.
Import TCPMinnowSocket.

(** * What the callbacks leave alone *)

(** A descriptor with its number, open or closed as it was, and at its end for
    good. *)
Record ages (w w' : FDWrapper) : Prop := mkAges {
  ag_same : same_descriptor w w';
  ag_eof : eof_ w = true → eof_ w' = true;
}.

#[export] Instance ages_preorder : PreOrder ages.
Proof. split; [by split|]. intros w1 w2 w3 [S1 E1] [S2 E2]. split; [by etransitivity|auto]. Qed.

Lemma ages_flags {B} (m : eff FDWrapper B) : keeps same_descriptor m → keeps same_flags m → keeps ages m.
Proof. intros Hs Hf w. destruct (Hf w) as [He _]. split; [apply Hs|congruence]. Qed.

Lemma ages_read sys buffer : keeps ages (FileDescriptor.read sys buffer).
Proof.
  intros w. split; [apply keeps_read|]. intros He. unfold FileDescriptor.read. destruct (sys _) as [data|errno].
  - rewrite bind_eq. cbn [FileDescriptor.register_read modify]. rewrite bind_eq.
    case_bool_decide; cbn [when]; by case_bool_decide.
  - rewrite bind_eq. cbn [gets]. by destruct (FileDescriptor.would_block errno w).
Qed.
Lemma ages_writev sys bufs : keeps ages (FileDescriptor.writev sys bufs).
Proof. apply ages_flags; [apply keeps_writev|apply same_flags_writev]. Qed.
Lemma ages_write sys buffer : keeps ages (FileDescriptor.write sys buffer).
Proof. apply ages_writev. Qed.
Lemma ages_shutdown sys how : keeps ages (Socket.Socket.shutdown sys how).
Proof.
  apply ages_flags; [|apply same_flags_shutdown]. apply keeps_bind; [apply _|by intros w|]. intros n.
  apply keeps_bind; [apply _|apply keeps_check|]. intros _ w. by repeat case_bool_decide.
Qed.

(** The rules, the log and the loop are as they were, time did not run backwards,
    and the descriptors that are [which] only grew older. *)
Record steady {C X A} (which : nat → Prop) (s s' : state C X (TCPMinnowSocket A)) : Prop := mkSteady {
  sd_rules : _fd_rules s' = _fd_rules s;
  sd_non_fd : _non_fd_rules s' = _non_fd_rules s;
  sd_next : next_rule s' = next_rule s;
  sd_calls : calls s' = calls s;
  sd_extra : extra s' = extra s;
  sd_descriptors f : which f → option_Forall2 ages (descriptors s !! f) (descriptors s' !! f);
  sd_now : (now (world s) ≤ now (world s'))%nat;
}.

#[export] Instance steady_preorder {C X A} which : PreOrder (@steady C X A which).
Proof.
  split; [by intros s; split|]. intros s1 s2 s3 [R1 N1 I1 C1 X1 D1 T1] [R2 N2 I2 C2 X2 D2 T2].
  split; try congruence; [|lia]. intros f Hf. etransitivity; [by apply D1|by apply D2].
Qed.

Section steady.
Context {C X A : Type} (which : nat → Prop).
Implicit Types s : state C X (TCPMinnowSocket A).

Lemma steady_descriptor {B} f (m : eff FDWrapper B) :
  keeps ages m → keeps (steady which) (on_descriptor (C:=C) (X:=X) (W:=TCPMinnowSocket A) f m).
Proof.
  intros Hm s. unfold on_descriptor. destruct (descriptors s !! f) as [w|] eqn:Hf; [|done].
  specialize (Hm w). destruct (m w) as [r w']. split; try done. intros g _. cbn. destruct (decide (f = g)) as [<-|].
  - rewrite lookup_insert, decide_True, Hf by done. by constructor.
  - by rewrite lookup_insert_ne.
Qed.
End steady.

(** All descriptors: a step of the program that the loop can live with. *)
Abbreviation all_descriptors := (λ _ : nat, True).

Lemma steady_grows {C X A} (s s' : state C X (TCPMinnowSocket A)) : steady all_descriptors s s' → grows s s'.
Proof.
  intros [R N Ni Cs _ D _]. apply grows_same; unfold fd_keys, non_fd_ids; rewrite ?R, ?N; try done.
  intros f w Hw. specialize (D f Logic.I). rewrite Hw in D. inversion D as [? w' [[_ Hn] _]|]. by exists w'.
Qed.

Lemma steady_reg {C K A} (registered : K → gmap Z Z) (s s' : state C (EpollState K) (TCPMinnowSocket A)) :
  steady all_descriptors s s' → reg_ok registered s → reg_ok registered s'.
Proof.
  intros [R N Ni Cs X D _] [Hw Hs Ho Hn].
  assert (∀ (f : nat) w', descriptors s' !! f = Some w' → ∃ w, descriptors s !! f = Some w ∧ fd_ w = fd_ w' ∧ FileDescriptor.closed_ w = FileDescriptor.closed_ w') as Hold.
  { intros f w' Hw'. specialize (D f Logic.I). rewrite Hw' in D. inversion D as [w ? [[Hc Hf] _]|]. by exists w. }
  split; unfold watched in *; rewrite ?R, ?X; [exact Hw| | |].
  - intros r w' Hr (w&Hl&<-&_)%Hold. by eapply Hs.
  - intros r w' st Hr (w&Hl&<-&<-)%Hold. by eapply Ho.
  - intros f g w w' (v&Hv&<-&<-)%Hold (v'&Hv'&<-&<-)%Hold. by apply Hn.
Qed.

Create HintDb steady.

(** The calls of an adapter work on its descriptor and leave it open, with its
    number. *)
Record adapter_steady (A : Type) `{TCPDatagramAdapter A} : Prop := mkAdapterSteady {
  as_read sys (w : FDWrapper) (a : A) : ages w (adapter_read sys (w, a)).2.1;
  as_write sys m (w : FDWrapper) (a : A) : ages w (adapter_write sys m (w, a)).2.1;
}.

Section socket.
Context {A K : Type} `{TCPDatagramAdapter A} (os : system K).
Abbreviation sys := (state code (EpollState K) (TCPMinnowSocket A)).
Implicit Types s : sys.
Context (which : nat → Prop) (Hadapter : which adapter_fd → adapter_steady A).

Lemma steady_adapter {B} (m : eff (FDWrapper * A) B) :
  (which adapter_fd → ∀ w a, ages w (m (w, a)).2.1) → keeps (steady which) (adapter (K:=K) m).
Proof.
  intros Hm s. unfold adapter. destruct (descriptors s !! adapter_fd) as [w|] eqn:Hw; [|done].
  specialize (λ H, Hm H w (_datagram_adapter (world s))). destruct (m _) as [r [w' a]]. split; try done.
  intros f Hf. cbn. destruct (decide (adapter_fd = f)) as [<-|].
  - rewrite lookup_insert, decide_True, Hw by done. constructor. by apply Hm.
  - by rewrite lookup_insert_ne.
Qed.
Lemma steady_wrapper f : keeps (steady which) (wrapper (C:=code) (X:=EpollState K) (W:=TCPMinnowSocket A) f).
Proof. intros s. unfold wrapper. by destruct (descriptors s !! f). Qed.
Lemma steady_tcp : keeps (steady which) (tcp (A:=A) (K:=K)).
Proof. intros s. unfold tcp. rewrite bind_eq. cbn. by destruct (_tcp (world s)). Qed.
Lemma steady_tcp_value : keeps (steady which) (tcp_value (A:=A) (K:=K)).
Proof. intros s. unfold tcp_value. rewrite bind_eq. cbn. by destruct (_tcp (world s)). Qed.
Lemma steady_change f : (∀ w, now (f w) = now w) → keeps (steady which) (change (A:=A) (K:=K) f).
Proof. intros Hf s. split; try done. cbn. by rewrite Hf. Qed.
Lemma steady_member {B} (f : TCPMinnowSocket A → B) : keeps (steady which) (member (K:=K) f).
Proof. by intros s. Qed.
Lemma steady_call_time : keeps (steady which) (call_time (A:=A) (K:=K)).
Proof. intros s. rewrite call_time_eq. split; try done. apply Nat.le_succ_diag_r. Qed.
Lemma steady_update_tcp p : keeps (steady which) (update_tcp (A:=A) (K:=K) p).
Proof. by intros s. Qed.
Lemma steady_adapter_read n : keeps (steady which) (adapter (K:=K) (adapter_read (net_calls os n))).
Proof. apply steady_adapter. intros Hw w a. by apply as_read, Hadapter. Qed.
Lemma steady_adapter_write n m : keeps (steady which) (adapter (K:=K) (adapter_write (net_writev os n) m)).
Proof. apply steady_adapter. intros Hw w a. by apply as_write, Hadapter. Qed.
Hint Resolve steady_wrapper steady_tcp steady_tcp_value steady_member steady_call_time
  steady_update_tcp steady_adapter_read steady_adapter_write : steady.
Hint Resolve ages_read ages_write ages_writev ages_shutdown steady_descriptor : steady.

(** A computation made of such steps. *)
Ltac steady :=
  repeat first
    [ apply keeps_bind; [apply _| |intros ?]
    | apply keeps_when; [apply _|]
    | apply keeps_ret; apply _ | apply keeps_throw; apply _ | apply keeps_gets; apply _ | apply keeps_lift; apply _
    | apply steady_change; by intros []
    | progress auto with steady nocore
    | match goal with
      | |- keeps _ (match ?x with _ => _ end) => destruct x
      | |- keeps _ (let '_ := ?x in _) => destruct x
      end ].

Lemma steady_transmit msgs : keeps (steady which) (transmit os msgs).
Proof. induction msgs as [|m msgs IH]; cbn [transmit]; steady. Qed.
Lemma steady_read_thread data : keeps (steady which) (read_thread_data (A:=A) os data).
Proof. unfold read_thread_data. steady. Qed.
Lemma steady_write_thread buffer : keeps (steady which) (write_thread_data (A:=A) os buffer).
Proof. unfold write_thread_data. steady. Qed.
Hint Resolve steady_transmit steady_read_thread steady_write_thread : steady.

Lemma steady_call_back c : keeps (steady which) (call_back os c).
Proof.
  destruct c; cbn [call_back];
    unfold receive_segment, push_bytes, close_outbound, fail_outbound, read_inbound, fail_inbound; steady.
Qed.

(** What follows the wait in a turn. *)
Lemma steady_rest_of_turn base_time ret :
  keeps (steady which)
    (n ← call_time;
     match ret, aborted os n with
     | Exit, _ | _, true => mret None
     | _, false =>
         p ← member _tcp;
         match p with
         | None => mthrow (Throw "_tcp_loop entered before TCPPeer initialized")
         | Some p =>
             if TCPPeer.active p then
               next_time ← read_clock os;
               let '(p, sent) := TCPPeer.tick (u64 (next_time - base_time)) p in
               update_tcp p ;;
               transmit os sent ;;
               change (λ w, set_adapter (adapter_tick (u64 (next_time - base_time)) (_datagram_adapter w)) w) ;;
               mret (Some next_time)
             else mret (Some base_time)
         end
     end).
Proof. unfold read_clock. steady. Qed.

(** ** A session *)

(** What holds of an object from its opening on: [P] while the thread runs, and
    [Q] at every stop, also on an exception; a wait may end in an exception that
    spares only [Q]. *)
Section session.
Context (P Q : sys → Prop) (HPQ : ∀ s, P s → Q s).
Hypothesis steady_P : ∀ s s', steady which s s' → P s → P s'.
Definition held {B} (m : eff sys B) : Prop := ∀ s, P s → post m s (λ r s', Q s' ∧ ∀ b, r = Ok b → P s').
Hypothesis wait_held : held (wait_next_event os).

Lemma held_steady {B} (m : eff sys B) : keeps (steady which) m → held m.
Proof. intros Hm s Hs. pose proof (steady_P _ _ (Hm s) Hs). split; [by apply HPQ|done]. Qed.
Lemma held_bind {B C} (m : eff sys B) (f : B → eff sys C) : held m → (∀ b, held (f b)) → held (m ≫= f).
Proof.
  intros Hm Hf s Hs. apply post_bind. eapply post_mono; [by apply Hm|]. cbv beta. intros [b|e] s' [Hq Hp].
  - by apply Hf, Hp with b.
  - split; [done|by intros b].
Qed.

Lemma held_turn base_time : held (turn os base_time).
Proof. apply held_bind; [done|]. intros ret. apply held_steady, steady_rest_of_turn. Qed.
Lemma held_loop fuel condition base_time : keeps (steady which) condition → held (loop os fuel condition base_time).
Proof.
  intros Hc. revert base_time. induction fuel as [|fuel IH]; intros base_time; cbn [loop];
    (apply held_bind; [by apply held_steady|]); intros []; try by (apply held_steady; intros s).
  apply held_bind; [apply held_turn|]. intros [next|]; [apply IH|by apply held_steady; intros s].
Qed.
Lemma held_tcp_loop fuel condition : keeps (steady which) condition → held (_tcp_loop os fuel condition).
Proof. intros Hc. apply held_bind; [apply held_steady; unfold read_clock; steady|]. intros t. by apply held_loop. Qed.

Context (cfg : TCPConfig) (c_ad : FdAdapterConfig).

(** From an object that was just made, once the rules are on the loop. *)
Lemma held_session active fuel turns s :
  fresh s → (∀ s1, _initialize_TCP cfg s = (Ok (), s1) → P s1) → Q (session os active fuel turns cfg c_ad s).2.
Proof.
  intros Hf Hinit. destruct (initialize_runs cfg s Hf) as (s1&Hi&_). specialize (Hinit s1 Hi).
  assert (∀ o m : eff sys (), o s = m s1 → held m → Q ((o ;; _tcp_loop os turns (mret true)) s).2) as Hrest.
  { intros o m Ho Hm. rewrite bind_eq, Ho, <- (bind_eq m (λ _, _)). apply held_bind; [done| |done].
    intros _. apply held_tcp_loop. steady. }
  destruct (fr_world s Hf) as [Hnone _]. unfold session. destruct active; eapply Hrest.
  - unfold connect. rewrite bind_eq, member_eq, Hnone, bind_eq, Hi. done.
  - do 2 (apply held_bind; [apply held_steady; steady|]; intros ?). apply held_bind; [apply held_steady; steady|].
    intros [p sent]. do 3 (apply held_bind; [apply held_steady; steady|]; intros ?).
    case_bool_decide; [apply held_steady; steady|].
    apply held_bind; [apply held_tcp_loop; steady|]. intros _. apply held_steady. steady.
  - unfold listen_and_accept. rewrite bind_eq, member_eq, Hnone, bind_eq, Hi. done.
  - apply held_bind; [apply held_steady; steady|]. intros _.
    apply held_bind; [apply held_tcp_loop; steady|]. intros _. apply held_steady. steady.
Qed.
End session.
End socket.

(** * Why the owner's bytes are no longer taken *)

(** Before [t], epoll reported an error of the descriptor number, or a hang-up
    alone, without EPOLLIN. *)
Definition owner_gone {K} (os : system K) (num : Z) (t : nat) : Prop :=
  ∃ n ep size ms k events revents, (n < t)%nat ∧ sys_epoll_wait os n ep size ms k = Returned events ∧
    (num, revents) ∈ events ∧
    (has_bits revents EPOLLERR = true ∨ has_bits revents EPOLLHUP = true ∧ has_bits revents EPOLLIN = false).

Lemma owner_gone_mono {K} (os : system K) num t t' : (t ≤ t')%nat → owner_gone os num t → owner_gone os num t'.
Proof.
  intros Ht (n&ep&size&ms&k&events&revents&Hn&H). exists n, ep, size, ms, k, events, revents. split; [lia|done].
Qed.

Section watching.
Context {A K : Type} `{TCPDatagramAdapter A} (os : system K) (num : Z).
Abbreviation sys := (state code (EpollState K) (TCPMinnowSocket A)).
Implicit Types s : sys.

(** The thread's end of the pair is open, and the rule that takes from it was
    cancelled for no other reason than the end of the owner's bytes or such a
    report. *)
Record watching (since : nat) s : Prop := mkWatching {
  wa_since : (since ≤ now (world s))%nat;
  wa_rules r : r ∈ _fd_rules s → known r;
  wa_non_fd : _non_fd_rules s = [];
  wa_thread : ∃ w, descriptors s !! thread_data = Some w ∧ fd_ w = num ∧ FileDescriptor.closed_ w = false ∧
    (told (calls s) → eof_ w = true ∨ owner_gone os num (now (world s)));
}.

Abbreviation thread_only := (λ f, f = thread_data).

Lemma watching_steady since s s' : steady thread_only s s' → watching since s → watching since s'.
Proof.
  intros [R N _ Cs _ D T] [Hs Hr Hn (w&Hw&Hnum&Hc&Ht)]. split; [lia|by rewrite R|congruence|].
  specialize (D _ eq_refl). rewrite Hw in D. inversion D as [? w' [[Ec En] Ee] E1 E2|]. subst.
  exists w'. split_and!; [done|done|congruence|]. rewrite Cs. intros [?|?]%Ht; [left; auto|right].
  by eapply owner_gone_mono.
Qed.

Lemma watching_log since c s : c ≠ Cancelled 1 → watching since s → watching since (log_call c s).
Proof.
  intros Hc [Hs Hr Hn (w&Hw&Hnum&Hcl&Ht)]. split; [done..|]. exists w. split_and!; try done.
  unfold told. cbn. rewrite elem_of_app, list_elem_of_singleton. intros [?|?]; [by apply Ht|by destruct Hc].
Qed.

Lemma call_back_watching since c s : watching since s → watching since (call_back os c s).2.
Proof. apply watching_steady, steady_call_back. done. Qed.

(** The rule with identity 1 is the one that takes the owner's bytes. *)
Lemma known_taker r : known r → rule_id (basic r) = 1%nat → fd r = thread_data ∧ direction r = In.
Proof.
  unfold known, socket_rules. rewrite !elem_of_cons, elem_of_nil.
  destruct r as [[id c i b q] f d cc e]. unfold key. cbn. naive_solver.
Qed.

(** What the call of epoll at the time [n] reports. *)
Definition reported_at (n : nat) (fd_num revents : Z) : Prop :=
  ∃ ep size ms k events, sys_epoll_wait os n ep size ms k = Returned events ∧ (fd_num, revents) ∈ events.

Lemma watching_cancelled n r s :
  watching (S n) s → known r → dismissed (reported_at n) (watching (S n)) r s →
  watching (S n) (log_call (Cancelled (rule_id (basic r))) s).
Proof.
  intros Hw Hk Hd. destruct (decide (rule_id (basic r) = 1%nat)) as [Hid|Hne]; [|by apply watching_log; [congruence|]].
  destruct (known_taker r Hk Hid) as [Hfd Hdir]. destruct Hw as [Hs Hr Hn (w&Hl&Hnum&Hc&Ht)]. split; [done..|].
  exists w. split_and!; try done. intros _. destruct Hd as [(w'&Hw'&Hor)|(s0&w0&revents&W0&Hw0&Hrep&Hor)].
  - rewrite Hfd, Hl in Hw'. injection Hw' as <-. destruct Hor as [?|[_ ?]]; [congruence|by left].
  - right. destruct W0 as [_ _ _ (w1&Hw1&<-&_)]. rewrite Hfd, Hw1 in Hw0. injection Hw0 as <-.
    destruct Hrep as (ep&size&ms&k&events&He&Hin). exists n, ep, size, ms, k, events, revents.
    split_and!; [exact Hs|done|done|]. destruct Hor as [?|[Hh Hi]]; [by left|right]. by auto.
Qed.

Lemma watching_invariant n :
  invariant_ok (call_interest (A:=A) (K:=K)) (call_back os) (reported_at n) known (watching (S n)).
Proof.
  split.
  - intros s r Hs. apply (wa_rules _ _ Hs).
  - by intros s [].
  - by intros x s [].
  - intros i s [Hs Hr Hn Ht]. split; [done| |done..]. intros r Hin. apply Hr.
    destruct (delete_perm (_fd_rules s) i) as [k Hk]. rewrite <- Hk. apply elem_of_app. by right.
  - intros r s Hs _ _. by apply call_back_watching, watching_log.
  - intros r s Hs Hk Hd. by apply call_back_watching, watching_cancelled.
  - intros r s Hs _. by apply call_back_watching, watching_log.
Qed.

Lemma watching_wait s : watching 0 s → watching 0 (wait_next_event os s).2.
Proof.
  intros Hs. unfold wait_next_event. rewrite bind_eq, call_time_eq, bind_eq. cbn [gets].
  assert (watching (S (now (world s))) (pass s)) as Hp.
  { destruct Hs as [_ Hr Hn (w&?&?&?&Ht)]. split; [done..|]. exists w. split_and!; try done. intros [?|?]%Ht; [by left|right].
    eapply owner_gone_mono; [|done]. apply Nat.le_succ_diag_r. }
  assert (∀ ep n ms k events, sys_epoll_wait os (now (world s)) ep n ms k = Returned events →
    ∀ fd_num revents, (fd_num, revents) ∈ events → reported_at (now (world s)) fd_num revents) as Hrep.
  { intros ep n ms k events He fd_num revents Hin. by repeat eexists. }
  pose proof (keeps_inv_wait (watching_invariant (now (world s))) (sys_epoll_ctl os) (sys_epoll_wait os (now (world s)))
    (sys_getsockopt os (now (world s))) (map_order os) Hrep (S (length (_fd_rules (pass s)))) TCP_TICK_MS (pass s) Hp) as H'.
  destruct H' as [_ Hr Hn Ht]. split; [lia|done..].
Qed.

Lemma watching_session active fuel turns cfg c_ad s w :
  fresh s → descriptors s !! thread_data = Some w → fd_ w = num → FileDescriptor.closed_ w = false →
  watching 0 (session os active fuel turns cfg c_ad s).2.
Proof.
  intros Hf Hw Hnum Hc. apply (held_session os thread_only) with (P := watching 0); try done.
  - intros s1 s2. apply watching_steady.
  - intros s1 Hs1. pose proof (watching_wait s1 Hs1). split; [done|]. by intros r _.
  - intros s1 Hi. destruct (initialize_runs cfg s Hf) as (s2&Hi2&Hrules&Hn&Hcs&Hd&Hworld). rewrite Hi in Hi2.
    injection Hi2 as <-. split; [lia| |done|].
    + intros r. rewrite Hrules. unfold known, socket_rules. rewrite !elem_of_cons, elem_of_nil.
      intros [->|[->|[->|[]]]]; cbn; auto.
    + exists w. rewrite Hd, Hcs. split_and!; try done. by intros ?%elem_of_nil.
Qed.
End watching.

(** * The kernel's registrations *)

Lemma ages_readv sys buffers : keeps ages (FileDescriptor.readv sys buffers).
Proof.
  intros w. split; [apply keeps_readv|]. intros He. unfold FileDescriptor.readv. case_bool_decide; [done|].
  destruct (sys _) as [data|errno]; rewrite bind_eq; cbn [FileDescriptor.register_read modify gets].
  - by case_bool_decide.
  - by destruct (FileDescriptor.would_block errno w).
Qed.

Lemma ages_on_fd {A B} (m : eff FDWrapper B) w (a : A) : keeps ages m → ages w (on_fd m (w, a)).2.1.
Proof. intros Hm. specialize (Hm w). unfold on_fd. by destruct (m w). Qed.

(** The adapters of the repository. *)
Lemma tun_steady `{Resolver} : adapter_steady FdAdapterBase.
Proof.
  split; intros sys; [|intros m]; intros w a; cbn [adapter_read adapter_write TunAdapter.tun_adapter].
  - unfold TunAdapter.read. rewrite bind_eq.
    match goal with |- context [on_fd ?m (w, a)] => pose proof (ages_on_fd m w a (ages_readv _ _)) as Hr; destruct (on_fd m (w, a)) as [[bufs|e] [w1 a1]] end;
      [|done].
    rewrite bind_eq. cbn [Effects.lift]. destruct (Wire.parse _ _) as [[d []]|e]; [|done..].
    unfold on_adapter. by destruct (TCPOverIPv4Adapter.unwrap_tcp_in_ip d a1) as [[o b]|e].
  - unfold TunAdapter.write. rewrite bind_eq. cbn [gets]. rewrite bind_eq. cbn [Effects.lift].
    destruct (TCPOverIPv4Adapter.wrap_tcp_in_ip _ _) as [dgram|e]; [|done]. rewrite bind_eq. cbn [Effects.lift].
    destruct (Wire.serialize dgram) as [bufs|e]; [|done]. rewrite bind_eq.
    pose proof (ages_on_fd (FileDescriptor.write_refs sys bufs) w a (ages_writev _ _)) as Hw.
    by destruct (on_fd _ (w, a)) as [[n|e] [w1 a1]].
Qed.

Lemma lossy_steady {E A} `{TCPDatagramAdapter A} (rand : E → Z * E) :
  adapter_steady A → @adapter_steady (LossyFdAdapter E A) (LossyFdAdapter.lossy_adapter rand).
Proof.
  intros [Hr Hw]. split; intros sys; [|intros m]; intros w a; cbn [adapter_read adapter_write LossyFdAdapter.lossy_adapter].
  - unfold LossyFdAdapter.read. rewrite bind_eq. unfold LossyFdAdapter.below. specialize (Hr sys w (_adapter a)).
    destruct (adapter_read sys (w, _adapter a)) as [[o|e] [w1 a1]]; [|done]. rewrite bind_eq.
    unfold LossyFdAdapter._should_drop. cbv zeta. case_bool_decide; [|done]. destruct (rand _) as [k e]. by case_bool_decide.
  - unfold LossyFdAdapter.write. rewrite bind_eq. unfold LossyFdAdapter._should_drop, LossyFdAdapter.below. cbv zeta.
    assert (∀ x : LossyFdAdapter E A, ages w (let '(r, (w1, a1)) := adapter_write sys m (w, _adapter x) in
      (r, (w1, mkLossyFdAdapter (_rand x) a1))).2.1) as Hsend.
    { intros x. specialize (Hw sys m w (_adapter x)). by destruct (adapter_write _ _ _) as [r [w1 a1]]. }
    case_bool_decide; [|by apply Hsend]. destruct (rand _) as [k e]. case_bool_decide; [done|by apply Hsend].
Qed.

Section registrations.
Context {A K : Type} `{TCPDatagramAdapter A} (os : system K) (registered : K → gmap Z Z).
Abbreviation sys := (state code (EpollState K) (TCPMinnowSocket A)).
Implicit Types s : sys.
Context (Hadapter : adapter_steady A).
Context (Hlaws : epoll_laws (sys_epoll_ctl os) registered).

Lemma back_grows_socket c : keeps grows (call_back os (A:=A) c).
Proof. intros s. by apply steady_grows, steady_call_back. Qed.
Lemma back_reg_socket c s : reg_ok registered s → reg_ok registered (call_back os c s).2.
Proof. by apply steady_reg, steady_call_back. Qed.

(** Before the first wait no descriptor is registered. *)
Definition idle s : Prop := reg_ok registered s ∧ ∀ n st, _fd_states (extra s) !! n = Some st → in_epoll st = false.

Lemma idle_add_fd_rule k f d c1 c2 c3 c4 s id s' :
  idle s → EpollEventLoop.add_fd_rule k f d c1 c2 c3 c4 s = (Ok id, s') → idle s'.
Proof.
  intros [Hr Hi] Hadd. split.
  - destruct (reg_ok_add_fd_rule registered k f d c1 c2 c3 c4 s Hr) as [Hreg|He].
    + intros w st _ _ Hst Hin. apply Hi in Hst. congruence.
    + by rewrite Hadd in Hreg.
    + by rewrite Hadd in He.
  - revert Hadd. unfold EpollEventLoop.add_fd_rule, add_fd_rule. eff_run. case_bool_decide; [done|]. eff_run.
    unfold wrapper. cbn. destruct (descriptors s !! f) as [w|]; [|done]. unfold EpollEventLoop.try_emplace. eff_run.
    intros [= _ <-]. cbn. destruct (_fd_states (extra s) !! FileDescriptor.fd_num w) eqn:Hst; [exact Hi|]. cbn.
    intros n st. rewrite lookup_insert_Some. intros [[_ <-]|[_ Hn]]; [done|by eapply Hi].
Qed.

Lemma idle_add_rule name f d c1 c2 c3 c4 s id s' :
  idle s → add_rule name f d c1 c2 c3 c4 s = (Ok id, s') → idle s'.
Proof.
  intros [Hr Hi]. unfold add_rule, EpollEventLoop.add_category, add_category. rewrite !bind_eq. cbn [gets].
  case_bool_decide; [done|]. rewrite bind_eq. cbn [modify mret eff_ret].
  apply idle_add_fd_rule. split; [by destruct Hr|done].
Qed.

Lemma idle_initialize cfg s s' : idle s → _initialize_TCP cfg s = (Ok (), s') → idle s'.
Proof.
  intros Hs. unfold _initialize_TCP. rewrite bind_eq, update_tcp_eq.
  assert (idle (update_tcp (TCPPeer.new_peer cfg) s).2) as H0 by (destruct Hs as [[] ?]; by split; [|done]).
  do 3 (rewrite bind_eq; match goal with |- context [match ?m with _ => _ end] => destruct m as [[?|?] ?] eqn:?; [|done] end).
  intros [= <-]. by do 3 (eapply idle_add_rule; [|done]).
Qed.

Lemma grows_initialize cfg : keeps grows (_initialize_TCP (A:=A) (K:=K) cfg).
Proof.
  assert (∀ name f d c1 c2 c3 c4, keeps grows (add_rule (A:=A) (K:=K) name f d c1 c2 c3 c4)) as Hadd.
  { intros. apply keeps_bind; [apply _|apply keeps_add_category|]. intros k. apply keeps_epoll_add_fd_rule. }
  unfold _initialize_TCP. apply keeps_bind; [apply _| |].
  { intros s. apply grows_same; try done. by apply numbers_same. }
  intros _. do 3 (apply keeps_bind; [apply _|apply Hadd|]; intros ?). by intros s.
Qed.

(** The loop and the kernel agree from the opening on. *)
Lemma registered_session active fuel turns cfg c_ad s :
  fresh s → idle s → reg_ok registered (session os active fuel turns cfg c_ad s).2.
Proof.
  intros Hf Hs. eapply (held_session os all_descriptors) with
    (P := λ s, loop_ok s ∧ reg_ok registered s) (Q := reg_ok registered); try done.
  - by intros s1 [].
  - intros s1 s2 Hst [Hl Hr]. split; [|by eapply steady_reg]. eapply loop_ok_grows; [done|by apply steady_grows].
  - intros s1 [Hl Hr]. unfold wait_next_event, post. rewrite bind_eq, call_time_eq, bind_eq. cbn [gets].
    pose proof (wait_in_step call_interest (call_back os) back_grows_socket (sys_epoll_ctl os)
      (sys_epoll_wait os (now (world s1))) (sys_getsockopt os (now (world s1))) (map_order os) registered Hlaws
      back_reg_socket (S (length (_fd_rules (pass s1)))) TCP_TICK_MS (pass s1)) as Hw.
    destruct (EpollEventLoop.wait_next_event _ _ _ _ _ _ _ _ _) as [r s2].
    destruct Hw as [Hr2 Hl2]; [by destruct Hl|by destruct Hr|]. cbn. split; [done|]. intros b Hb. split; [by eapply Hl2|done].
  - intros s1 Hi. split; [|by eapply idle_initialize].
    pose proof (grows_initialize cfg s) as Hg. rewrite Hi in Hg. eapply loop_ok_grows; [|exact Hg].
    destruct (fr_rules s Hf) as (?&?&_). apply loop_ok_start; try done. apply (fr_calls s Hf).
Qed.

Lemma make_number fd getfl w : FileDescriptor.make fd getfl = Ok w → fd_ w = fd.
Proof.
  unfold FileDescriptor.make. case_bool_decide; [done|]. set (w0 := mkFDWrapper _ _ _ _ _ _).
  pose proof (keeps_check "fcntl" getfl w0) as [_ Hk].
  destruct (FileDescriptor.CheckSystemCall "fcntl" getfl w0) as [[flags|e] w1]; [|done]. by intros [= <-].
Qed.

(** An object that was just made: its three descriptors have numbers of their
    own, and nothing is registered. *)
Lemma make_idle fd0 fd1 getfl setfl getsockopt epoll_create1 k aw (a : A) s :
  make (Returned (fd0, fd1)) getfl setfl getsockopt epoll_create1 k aw a = Ok s →
  NoDup [fd_ aw; fd0; fd1] → registered k = ∅ → idle s ∧
  ∃ w, descriptors s !! thread_data = Some w ∧ fd_ w = fd1 ∧ FileDescriptor.closed_ w = false.
Proof.
  intros (fd0'&fd1'&own&thread&n&ds&[= <- <-]&Hown&Hthread&->&Hd)%make_runs Hnum Hk.
  pose proof (make_number _ _ _ Hown) as Hn0. pose proof (make_number _ _ _ Hthread) as Hn1.
  set (number f := match f with 0%nat => Some (fd_ aw) | 1%nat => Some fd1 | 2%nat => Some fd0 | _ => None end).
  assert (∀ f w, ds !! f = Some w → number f = Some (fd_ w)) as Hds.
  { intros f w Hw. specialize (Hd f). rewrite Hw in Hd.
    assert (∀ x, ({[adapter_fd := aw; thread_data := thread; own_fd := own]} : gmap nat FDWrapper) !! f = Some x →
      number f = Some (fd_ x)) as Hx.
    { intros x. unfold number. rewrite !lookup_insert_Some, lookup_singleton_Some.
      intros [[<- <-]|[Hf [[<- <-]|[Hf' [<- <-]]]]]; cbn; congruence. }
    inversion Hd as [x ? [_ E] Ex|]. subst. rewrite (Hx x) by done. congruence. }
  split.
  - split; [|done]. split; unfold watched; cbn; try done.
    + intros i m. rewrite Hk. by rewrite lookup_empty.
    + by intros r w ?%elem_of_nil.
    + intros f g w w' Hw%Hds Hw'%Hds _ _ E. rewrite !NoDup_cons, !elem_of_cons, elem_of_nil in Hnum.
      destruct f as [|[|[|f]]], g as [|[|[|g]]]; cbn in Hw, Hw'; simplify_eq; naive_solver congruence.
  - assert (option_Forall2 kept_flags (Some thread) (ds !! thread_data)) as Ht by exact (Hd thread_data).
    inversion Ht as [x w [[_ Hc] Hf]|]. exists w. apply make_eof in Hthread as [_ Hopen].
    split; [done|]. split; congruence.
Qed.

Lemma call_interest_extra c x s : call_interest c (with_extra x s) = call_interest c s.
Proof. done. Qed.
End registrations.

(** * Properties *)

(** C3: the bytes of a TCPMinnowSocket, whatever the network sends and whatever
    fails, on an adapter that holds nothing it could not have received: from the
    opening of a connection on, at every turn of its thread and when it stops on
    an exception, the outbound stream is exactly what the thread has taken from
    its owner, in order.  It is closed only when all the bytes of the owner were
    taken, or after epoll reported an error of the thread's end of the pair, or
    a hang-up there without EPOLLIN, for which a full buffer does not ask.  What
    was handed to the owner is exactly the part read of the inbound stream, and
    the end is passed on to the owner only when that stream was closed or
    failed. *)
Theorem minnow_socket_streams {A K} `{WireAdapter A} (os : system K) total active fuel turns cfg c_ad s w :
  system_ok os total → TCPPeer.config_ok cfg → recv_capacity cfg ≤ 2 ^ 62 → fresh s →
  adapter_sound (_datagram_adapter (world s)) →
  descriptors s !! thread_data = Some w → FileDescriptor.closed_ w = false →
  let s' := (session os active fuel turns cfg c_ad s).2 in
  ∃ p a ar, _tcp (world s') = Some p ∧ refines (TCPPeer.outbound p) a ∧ refines (TCPPeer.inbound p) ar ∧
    written a = slice (owner_bytes os) 0 (taken (world s')) ∧ fin a = _outbound_shutdown (world s') ∧
    (fin a = true → taken (world s') = total ∨ owner_gone os (fd_ w) (now (world s'))) ∧
    given (world s') = ztake (nread ar) (written ar) ∧
    (_inbound_shutdown (world s') = true → err ar = true ∨ fin ar = true).
Proof.
  intros Hos Hcfg Hcap Hf Hsd Hw Hc s'.
  assert (socket_inv (claim := λ _ _, True) (sound := adapter_sound) os total s') as Hinv by by apply wire_session.
  destruct (socket_inv_streams os total _ _ s' Hinv) as (p&a&ar&Hp&Ha&Har&Hwr&Hfin&Hcl&Hg&Hi).
  exists p, a, ar. split_and!; try done. intros [?|Ht]%Hcl; [by left|].
  destruct (watching_session os (fd_ w) active fuel turns cfg c_ad s w Hf Hw eq_refl Hc) as [_ _ _ (w1&Hw1&_&_&Hor)].
  destruct (Hor Ht) as [He|]; [left|by right]. destruct (si_thread _ _ _ Hinv) as (w2&Hw2&Heof).
  apply Heof. fold s' in Hw1. congruence.
Qed.

(** C37: the kernel watches what the rules of a TCPMinnowSocket want.  For an
    object that its constructor made on descriptors with numbers of their own,
    from the opening of its connection on, at every turn of its thread and also
    when it stops on an exception of a callback or of a system call: the loop's
    record of the registrations agrees with the kernel; and whenever the wait of
    the next turn comes to [epoll_wait], each open descriptor with a rule is
    watched for exactly the directions in which its rules are interested, no
    other is watched, and Exit is returned exactly if no rule is interested. *)
Theorem minnow_registration {A K} `{TCPDatagramAdapter A} (os : system K) registered getfl setfl getsockopt epoll_create1
    k aw (a : A) s fd0 fd1 active fuel turns cfg c_ad :
  adapter_steady A → epoll_laws (sys_epoll_ctl os) registered → (∀ m, map_order os m ≡ₚ (map_to_list m).*1) →
  registered k = ∅ → NoDup [fd_ aw; fd0; fd1] →
  make (Returned (fd0, fd1)) getfl setfl getsockopt epoll_create1 k aw a = Ok s →
  let s' := (session os active fuel turns cfg c_ad s).2 in
  reg_ok registered s' ∧
  ∀ s1, EpollEventLoop.prepare call_interest (call_back os) (sys_epoll_ctl os) (map_order os) (S (length (_fd_rules s')))
      (pass s') = (Ok (), s1) →
    in_step call_interest registered s1 ∧
    ((wait_next_event os s').1 = Ok Exit ↔ ¬ anyone_interested call_interest s1).
Proof.
  intros Had Hlaws Hord Hk Hnum Hm s'. pose proof (make_fresh _ _ _ _ _ _ _ _ _ Hm) as Hf.
  destruct (make_idle registered _ _ _ _ _ _ _ _ _ _ Hm Hnum Hk) as (Hidle&w&Hw&_&Hc).
  pose proof (registered_session os registered Had Hlaws active fuel turns cfg c_ad s Hf Hidle) as Hreg. fold s' in Hreg.
  split; [done|]. intros s1 Hprep.
  pose proof (wa_non_fd _ _ _ _ (watching_session os (fd_ w) active fuel turns cfg c_ad s w Hf Hw eq_refl Hc)) as Hnf.
  fold s' in Hnf. unfold wait_next_event. rewrite bind_eq, call_time_eq, bind_eq. cbn [gets].
  apply (registration_exact _ _ _ _ _ _ _ _ _ _ (pass s') s1 Hlaws Hord call_interest_extra
    (back_reg_socket os registered Had)). { by destruct Hreg. } 2: { exact Hprep. }
  unfold EpollEventLoop.serve_non_fd_rules, serve_non_fd_rules. rewrite bind_eq. cbn [gets].
  change (_non_fd_rules (pass s')) with (_non_fd_rules s'). rewrite Hnf. cbn [length serve_from]. rewrite bind_eq. cbn [gets].
  change (_non_fd_rules (pass s')) with (_non_fd_rules s'). by rewrite Hnf.
Qed.

(** A run. *)
#[local] Existing Instances scripted_adapter scripted_wire.
Lemma minnow_socket_streams_witness :
  let s' := (demo_session 12%nat).2 in
  ∃ p a ar, _tcp (world s') = Some p ∧ refines (TCPPeer.outbound p) a ∧ refines (TCPPeer.inbound p) ar ∧
    written a = slice demo_stream 0 (taken (world s')) ∧ fin a = _outbound_shutdown (world s') ∧
    (fin a = true → taken (world s') = 4 ∨ owner_gone demo_os 6 (now (world s'))) ∧
    given (world s') = ztake (nread ar) (written ar) ∧
    (_inbound_shutdown (world s') = true → err ar = true ∨ fin ar = true).
Proof.
  exact (minnow_socket_streams demo_os 4 true 5 12 default_config (adapter_config 0%nat) demo_socket
    (mkFDWrapper 6 false false true 0 0) demo_os_ok TCPPeer.default_config_ok ltac:(done) demo_socket_fresh Logic.I
    eq_refl eq_refl).
Defined.

(** An owner that writes 4000 bytes and closes its end while the window and the
    outbound buffer are full: the rule is not interested, so that EPOLLIN is not
    asked for and epoll reports the hang-up alone.  The rule is cancelled and the
    stream closed, with 2500 bytes never read. *)
Definition hung_up_os : system () := mkSystem ()
  (λ _ _, Failed EAGAIN) (λ _ bufs, Returned (zlen (concat bufs)))
  demo_stream (λ _ pos n, Returned (Z.min n (4000 - pos)))
  (λ _ _ _, Failed EAGAIN) (λ _ _ _, Returned 0) (λ t, Z.of_nat t) (λ _, false)
  (λ _ _ _ _ k, (Returned (), k))
  (λ t _ _ _ _, Returned [if bool_decide (t < 4)%nat then (5, EPOLLIN)
                          else if bool_decide (t < 20)%nat then (6, EPOLLIN) else (6, EPOLLHUP)])
  (λ _ _, Failed ENOTSOCK) (λ m, (map_to_list m).*1).
Definition small_buffer : TCPConfig :=
  mkTCPConfig (rt_timeout default_config) (recv_capacity default_config) 500 (isn default_config).

Example bytes_lost_on_hang_up :
  let s := (session hung_up_os true 5 6 small_buffer (adapter_config 0%nat) demo_socket).2 in
  (taken (world s), _outbound_shutdown (world s), calls s) =
    (1500, true, [Ran 0; Ran 1; Ran 1; Ran 1; Cancelled 1; Cancelled 2]).
Proof. vm_compute. reflexivity. Qed.

(** The same connection on a kernel that keeps the interest list and reports what
    is asked for. *)
Definition ready_now (t : nat) : list (Z * Z) :=
  if bool_decide (t `mod` 8 < 4)%nat then [(5, EPOLLIN); (6, Z.lor EPOLLIN EPOLLOUT)]
  else [(6, Z.lor EPOLLIN EPOLLOUT); (5, EPOLLIN)].
Definition watching_os : system (gmap Z Z) := mkSystem (gmap Z Z)
  (λ _ _, Failed EAGAIN) (λ _ bufs, Returned (zlen (concat bufs)))
  demo_stream (pipe_read demo_os) (pipe_writev demo_os) (λ _ _ _, Returned 0) (λ t, Z.of_nat t) (λ _, false) demo_ctl
  (λ t _ _ _ k, Returned (omap (λ '(n, e),
     m ← k !! n; if bool_decide (Z.land e m = 0) then None else Some (n, Z.land e m)) (ready_now t)))
  (λ _ _, Failed ENOTSOCK) demo_order.

Definition unix_options (n level option : Z) : syscall (Z * Z) :=
  Returned (if bool_decide (option = Socket.SO_PROTOCOL) then 0 else 1, 4).
Definition made_socket : result (state code (EpollState (gmap Z Z)) (TCPMinnowSocket nat)) :=
  make (Returned (7, 6)) (λ _, Returned 0) (λ _ _, Returned 0) unix_options (Returned 4) ∅
    (mkFDWrapper 5 false false false 0 0) 0%nat.

Abbreviation watched_session s := (session watching_os true 5 6 default_config (adapter_config 0%nat) s).2.
Abbreviation prepared s :=
  (EpollEventLoop.prepare call_interest (call_back watching_os) demo_ctl demo_order (S (length (_fd_rules s))) (pass s)).

Example made_socket_runs :
  match made_socket with
  | Ok s =>
      let s' := watched_session s in
      (prepared s').1 = Ok () ∧
      (taken (world s'), calls s', map_to_list (kernel (extra s'))) =
        (4, [Ran 0; Ran 0; Ran 1; Ran 0; Ran 1; Cancelled 1; Ran 2; Ran 0], [(5, 1); (6, 4)])
  | Err _ => False
  end.
Proof. by vm_compute. Qed.

Lemma scripted_steady : adapter_steady nat.
Proof. split; intros sys; [|intros m]; by intros w a. Qed.

Lemma minnow_registration_witness :
  match made_socket with
  | Ok s =>
      reg_ok id (watched_session s) ∧
      match prepared (watched_session s) with (Ok _, s1) => in_step call_interest id s1 | (Err _, _) => False end
  | Err _ => False
  end.
Proof.
  pose proof made_socket_runs as Hrun. destruct made_socket as [s|] eqn:Hs; [|done].  destruct Hrun as [Hrun _].
  destruct (minnow_registration watching_os id (λ _, Returned 0) (λ _ _, Returned 0) unix_options (Returned 4) ∅
    (mkFDWrapper 5 false false false 0 0) 0%nat s 7 6 true 5 6 default_config (adapter_config 0%nat)
    scripted_steady demo_ctl_laws (λ m, reflexivity _) eq_refl ltac:(repeat constructor; set_solver) Hs) as [Hreg Hstep].
  split; [exact Hreg|]. destruct (prepared (watched_session s)) as [[[]|e] s1] eqn:Hp; [|done].
  exact (proj1 (Hstep s1 Hp)).
Defined.
