(* ===== verification/SocketCopy.v ===== *)
(** A TCPMinnowSocket and the copying over it in one process: what an
    application does with its socket once the connection is open, and how the
    bytes of the copying and those of the connection's thread meet in the pair
    of local sockets between them (src/apps/tcp_ipv4.cc and
    src/apps/endtoend.cc). *)

From S2P Require Import Prelude ByteStream Effects FileDescriptor EventRules EpollEventLoop Adapter PeerStreams MinnowSocket.
From S2P Require TCPPeer StreamCopy.
Open Scope Z_scope.

(** How the process ends: it returns a status, or [std::terminate] or [abort]
    is called. *)
Inductive exit : Type :=
  | Exit (status : Z)
  | Terminated.
Definition EXIT_SUCCESS : Z := 0.
Definition EXIT_FAILURE : Z := 1.

(** An exception that [main] catches. *)
Definition caught (e : exn) : result exit := match e with Throw _ => Ok (Exit EXIT_FAILURE) | _ => Err e end.

(** The end of the process, given how the thread of the connection ended: it is
    waited for, and an exception that leaves it ends the process. *)
Definition joined (thread : result ()) (status : result exit) : result exit :=
  match thread with
  | Ok _ => status
  | Err (Throw _) => Ok Terminated
  | Err e => Err e
  end.

(** The copying over the owner's end of an open socket [s], and
    [wait_until_closed] once it has returned; the thread of the connection runs
    beside it. *)
Definition copy_and_wait {A K} `{TCPDatagramAdapter A} (owner : MinnowSocket.system K)
    (copying : FDWrapper → result () * option (state StreamCopy.code () StreamCopy.copy))
    (s : state MinnowSocket.code (EpollState K) (TCPMinnowSocket A))
    : result () * option (state StreamCopy.code () StreamCopy.copy) :=
  match descriptors s !! own_fd with
  | None => (Err (Undefined "no descriptor"), None)
  | Some w =>
      let '(r, copied) := copying w in
      (match r with
       | Err e => Err e
       | Ok _ =>
           let w := match copied with Some c => default w (descriptors c !! StreamCopy.socket) | None => w end in
           (TCPMinnowSocket.wait_until_closed owner (with_descriptors (<[own_fd := w]> (descriptors s)) s)).1
       end, copied)
  end.

Lemma joined_exit thread status n : joined thread status = Ok (Exit n) → thread = Ok () ∧ status = Ok (Exit n).
Proof. destruct thread as [[]|[]]; cbn; naive_solver. Qed.

Lemma caught_success (e : exn) : caught e ≠ Ok (Exit EXIT_SUCCESS).
Proof. by destruct e. Qed.

Lemma copy_and_wait_ok {A K} `{TCPDatagramAdapter A} owner copying (s : state MinnowSocket.code (EpollState K) (TCPMinnowSocket A)) copied :
  copy_and_wait owner copying s = (Ok (), copied) → ∃ w, descriptors s !! own_fd = Some w ∧ copying w = (Ok (), copied).
Proof.
  unfold copy_and_wait. destruct (descriptors s !! own_fd) as [w|]; [|done].
  destruct (copying w) as [[[]|e] c] eqn:Hc; intros [= Hw ->]. by exists w.
Qed.

(** * The bytes *)

(** What is read at one end of a pair of sockets is the first part of what was
    written at the other: between the thread, at [t], and the copying, at [c]. *)
Record paired {A K} (thread : MinnowSocket.system K) (owner : StreamCopy.system) (t : TCPMinnowSocket A) (c : StreamCopy.copy)
    : Prop := mkPaired {
  pair_out : slice (owner_bytes thread) 0 (taken t) `prefix_of` StreamCopy.given (StreamCopy.outbound c);
  pair_in : slice (StreamCopy.source_bytes owner StreamCopy.Inbound) 0 (StreamCopy.taken (StreamCopy.inbound c)) `prefix_of` given t;
}.

Lemma prefix_slice {B} (f g : Z → B) k (l : list B) :
  slice f 0 k `prefix_of` l → l = slice g 0 (zlen l) → slice f 0 k = slice g 0 k.
Proof.
  intros [r Hr] Hl. destruct (decide (k ≤ 0)); [by rewrite !slice_nil|].
  assert (zlen (slice f 0 k) = k) as Hk by (rewrite zlen_slice; lia).
  apply (f_equal (ztake k)) in Hl. rewrite ztake_slice in Hl. rewrite Hr in Hl at 1.
  rewrite <- Hk in Hl at 1. rewrite ztake_app_zlen in Hl. rewrite Hl. f_equal. rewrite Hr, zlen_app, Hk.
  pose proof (zlen_nonneg r). lia.
Qed.

(** The connection carries what the copying does: its outbound stream is the
    beginning of the standard input; the standard output has the beginning of
    what its thread gave. *)
Lemma bytes_carried {A K} (thread : MinnowSocket.system K) (owner : StreamCopy.system) total (t : TCPMinnowSocket A) c :
  (∀ d, ∃ a, StreamCopy.half_ok owner total d (StreamCopy.half_of d c) a) → paired thread owner t c →
  slice (owner_bytes thread) 0 (taken t) = slice (StreamCopy.source_bytes owner StreamCopy.Outbound) 0 (taken t) ∧
  StreamCopy.given (StreamCopy.inbound c) `prefix_of` given t.
Proof.
  intros Hh [Po Pi]. destruct (Hh StreamCopy.Outbound) as [ao Ho], (Hh StreamCopy.Inbound) as [ai Hi]. cbn [StreamCopy.half_of] in *.
  apply StreamCopy.half_ok_bytes in Ho as (Ho&_). apply StreamCopy.half_ok_bytes in Hi as (Hi&[Hl _]&_).
  split; [by eapply prefix_slice|]. etrans; [|exact Pi]. rewrite Hi.
  set (n := zlen (StreamCopy.given (StreamCopy.inbound c))) in *. pose proof (zlen_nonneg (StreamCopy.given (StreamCopy.inbound c))).
  replace (StreamCopy.taken (StreamCopy.inbound c)) with (n + (StreamCopy.taken (StreamCopy.inbound c) - n)) by lia.
  rewrite slice_app by lia. by eexists.
Qed.

(** What a process has passed on, given the state of the thread and that of the
    copying. *)
Section carried.
Context {A K : Type} `{TCPDatagramAdapter A} (thread : MinnowSocket.system K) (owner : StreamCopy.system).
Context (total : StreamCopy.side → Z) (mtotal : Z) {sound : A → Prop}.
Implicit Types t : state MinnowSocket.code (EpollState K) (TCPMinnowSocket A).

Lemma streams_carried claim t c :
  socket_inv (claim := claim) (sound := sound) thread mtotal t →
  (∀ d, ∃ a, StreamCopy.half_ok owner total d (StreamCopy.half_of d c) a) → paired thread owner (world t) c →
  ∃ p a ar, _tcp (world t) = Some p ∧ refines (TCPPeer.outbound p) a ∧ refines (TCPPeer.inbound p) ar ∧
    written a = slice (StreamCopy.source_bytes owner StreamCopy.Outbound) 0 (taken (world t)) ∧
    StreamCopy.given (StreamCopy.inbound c) `prefix_of` written ar.
Proof.
  intros Hi Hh [Hout Hin]%(bytes_carried _ _ total); [|done].
  destruct (socket_inv_streams thread mtotal claim sound t Hi) as (p&a&ar&Hp&Ra&Rr&Hw&_&_&Hg&_).
  exists p, a, ar. split_and!; try done; [by rewrite Hw|]. etrans; [exact Hin|]. rewrite Hg.
  exists (zdrop (nread ar) (written ar)). by rewrite ztake_zdrop.
Qed.

Lemma stdout_delivered z remote n t c :
  socket_inv (claim := assembling z remote n) (sound := sound) thread mtotal t →
  (∀ d, ∃ a, StreamCopy.half_ok owner total d (StreamCopy.half_of d c) a) → paired thread owner (world t) c →
  StreamCopy.given (StreamCopy.inbound c) `prefix_of` slice remote 0 n.
Proof.
  intros Hi Hh [_ Hin]%(bytes_carried _ _ total); [|done]. etrans; [exact Hin|].
  destruct (socket_inv_delivers thread mtotal z remote n sound t Hi) as (He&Hle&_).
  rewrite He. set (k := zlen (given _)) in *. replace n with (k + (n - k)) by lia.
  rewrite slice_app by (unfold k; zlen || lia). by eexists.
Qed.
End carried.
