(* ===== verification/EpollServer.v ===== *)
(** The demo's non-blocking server (src/demo/epoll_server.cpp): connections as
    objects that the rules of the epoll loop refer to, kept in a map by the
    number of their descriptor. *)

From S2P Require Import Prelude Effects FileDescriptor EventRules EventLoop EpollEventLoop EpollInvariant.
From S2P Require Import Protocol.
From S2P Require Socket.

(** * The objects *)

(** [ConnBuffers] of server_handler.hh. *)
Record ConnBuffers : Type := mkConnBuffers {
  read_buffer : bytes;
  write_buffer : bytes;
  close_after_write : bool;
}.

(** A connection; its socket is the descriptor of the same number.  All that was
    received and sent is recorded with it. *)
Record Conn : Type := mkConn {
  buf : ConnBuffers;
  received : bytes;
  sent : bytes;
}.
Definition new_conn : Conn := mkConn (mkConnBuffers [] [] false) [] [].

(** What the callbacks of the rules are: closures over a reference to a
    connection or over the number of a descriptor. *)
Inductive code : Type :=
  | Accept | Always | Nothing
  | OnReadable (conn : nat) | Disconnect (fd : Z) | CloseSocket (conn : nat)
  | OnWritable (conn : nat) | WantsWrite (conn : nat).

(** The objects that are alive, [clients], and the number of the next object;
    and the number of calls of the system. *)
Record server : Type := mkServer {
  heap : gmap nat Conn;
  clients : gmap Z nat;
  next_conn : nat;
  now : nat;
}.

(** The system: what the calls answer at the times they are made.  Several
    reads of one callback are bounded by [max_reads]. *)
Record system (K : Type) : Type := mkSystem {
  sys_accept : nat → Z → syscall Z;
  sys_getfl : nat → Z → syscall Z;
  sys_setfl : nat → Z → Z → syscall Z;
  sys_socket_option : nat → Z → Z → Z → syscall (Z * Z);
  sys_getpeername : nat → Z → Z → syscall (bytes * Z);
  sys_read : nat → nat → Z → syscall bytes;
  sys_writev : nat → nat → list bytes → syscall Z;
  sys_close : nat → Z → syscall Z;
  ctime : nat → bytes;
  max_reads : nat;
  sys_epoll_ctl : Z → Z → Z → Z → K → syscall () * K;
  sys_epoll_wait : nat → Z → Z → Z → K → syscall (list (Z * Z));
  sys_getsockopt : nat → Z → syscall (Z * Z);
  map_order : gmap Z FdState → list Z;
}.
Arguments sys_accept {K} _ _ _.
Arguments sys_getfl {K} _ _ _.
Arguments sys_setfl {K} _ _ _ _.
Arguments sys_socket_option {K} _ _ _ _ _.
Arguments sys_getpeername {K} _ _ _ _.
Arguments sys_read {K} _ _ _ _.
Arguments sys_writev {K} _ _ _ _.
Arguments sys_close {K} _ _ _.
Arguments ctime {K} _ _.
Arguments max_reads {K} _.
Arguments sys_epoll_ctl {K} _ _ _ _ _ _.
Arguments sys_epoll_wait {K} _ _ _ _ _ _.
Arguments sys_getsockopt {K} _ _ _.
Arguments map_order {K} _ _.

Definition listener : nat := 0.

(** * The program *)

Section program.
Context {K : Type} (os : system K).
Abbreviation sys := (state code (EpollState K) server).

Definition change (f : server → server) : eff sys () := modify (λ s, with_world (f (world s)) s).
Definition call_time : eff sys nat :=
  n ← gets (λ s, now (world s));
  change (λ w, mkServer (heap w) (clients w) (next_conn w) (S (now w))) ;;
  mret n.

(** The object behind a reference, and an update of it. *)
Definition conn (c : nat) : eff sys Conn :=
  h ← gets (λ s, heap (world s));
  match h !! c with
  | Some k => mret k
  | None => mthrow (Undefined "use after free")
  end.
Definition set_conn (c : nat) (k : Conn) : eff sys () :=
  change (λ w, mkServer (<[c := k]> (heap w)) (clients w) (next_conn w) (now w)).

(** [conn.socket.close()]. *)
Definition close_socket (c : nat) : eff sys () :=
  conn c ;;
  n ← call_time;
  w ← wrapper c;
  on_descriptor c (FileDescriptor.close (sys_close os n (FileDescriptor.fd_num w))).

(** The loop that drains what the kernel has buffered. *)
Fixpoint read_loop (fuel : nat) (c : nat) : eff sys () :=
  match fuel with
  | O => mthrow OutOfFuel
  | S fuel =>
      n ← call_time;
      k ← conn c;
      chunk ← on_descriptor c (FileDescriptor.read (sys_read os n c) []);
      if bool_decide (chunk = []) then mret ()
      else
        set_conn c
          (mkConn (mkConnBuffers (read_buffer (buf k) ++ chunk) (write_buffer (buf k)) (close_after_write (buf k)))
             (received k ++ chunk) (sent k)) ;;
        read_loop fuel c
  end.

(** The loop over the messages in the buffer, with the last result of
    [try_parse_message]; a message takes at least its header off the buffer. *)
Fixpoint parse_loop (fuel : nat) (c : nat) : eff sys ParseResult :=
  match fuel with
  | O => mthrow OutOfFuel
  | S fuel =>
      k ← conn c;
      match try_parse_message (read_buffer (buf k)) with
      | (ParseOk msg, rest) =>
          n ← call_time;
          let reply := handle_message (ctime os n) msg in
          let quit := bool_decide (type msg = Quit) in
          set_conn c
            (mkConn (mkConnBuffers rest (write_buffer (buf k) ++ encode_message reply) (close_after_write (buf k) || quit))
               (received k) (sent k)) ;;
          if quit then mret (ParseOk msg) else parse_loop fuel c
      | (r, _) => mret r
      end
  end.

Definition on_readable (c : nat) : eff sys () :=
  read_loop (max_reads os) c ;;
  k ← conn c;
  r ← parse_loop (S (length (read_buffer (buf k)))) c;
  match r with
  | Invalid =>
      k ← conn c;
      set_conn c (mkConn (mkConnBuffers (read_buffer (buf k)) [] (close_after_write (buf k))) (received k) (sent k)) ;;
      close_socket c
  | _ => mret ()
  end.

(** The loop that writes the buffer out; whether it is empty then.  A write
    takes at least a byte. *)
Fixpoint write_loop (fuel : nat) (c : nat) : eff sys bool :=
  match fuel with
  | O => mthrow OutOfFuel
  | S fuel =>
      k ← conn c;
      let buffer := write_buffer (buf k) in
      if bool_decide (buffer = []) then mret true
      else
        t ← call_time;
        n ← on_descriptor c (FileDescriptor.write (sys_writev os t c) buffer);
        if bool_decide (n = 0) then mret false
        else
          set_conn c
            (mkConn (mkConnBuffers (read_buffer (buf k)) (zdrop n buffer) (close_after_write (buf k)))
               (received k) (sent k ++ ztake n buffer)) ;;
          write_loop fuel c
  end.

Definition on_writable (c : nat) : eff sys () :=
  k ← conn c;
  written ← write_loop (S (length (write_buffer (buf k)))) c;
  if (written : bool) then
    k ← conn c;
    when (close_after_write (buf k)) (close_socket c)
  else mret ().

(** [clients.erase( fd )]: the object is destroyed. *)
Definition erase_client (fd : Z) : eff sys () :=
  change (λ w,
    match clients w !! fd with
    | Some c => mkServer (delete c (heap w)) (delete fd (clients w)) (next_conn w) (now w)
    | None => w
    end).

Definition add_rule (name : string) (fd : nat) (direction : Direction) (callback interest cancel error : code)
    : eff sys nat :=
  category_id ← EpollEventLoop.add_category name;
  EpollEventLoop.add_fd_rule category_id fd direction callback interest cancel error.

(** A new object from an accepted socket. *)
Definition make_conn (client : FDWrapper) : eff sys nat :=
  c ← gets (λ s, next_conn (world s));
  modify (λ s, with_descriptors (<[c := client]> (descriptors s)) s) ;;
  change (λ w, mkServer (<[c := new_conn]> (heap w)) (clients w) (S (next_conn w)) (now w)) ;;
  mret c.

Definition register_client (client : FDWrapper) : eff sys () :=
  t ← call_time;
  let n := FileDescriptor.fd_num client in
  match FileDescriptor.set_blocking false (sys_getfl os t n) (sys_setfl os t n) client with
  | (Err e, _) => mthrow e
  | (Ok _, client) =>
      let fd := FileDescriptor.fd_num client in
      t ← call_time;
      match Socket.Socket.peer_address (sys_getpeername os t) client with
      | (Err e, _) => mthrow e
      | (Ok peer, client) =>
          c ← make_conn client;
          m ← gets (λ s, clients (world s));
          match m !! fd with
          | Some _ => change (λ w, mkServer (delete c (heap w)) (clients w) (next_conn w) (now w))
          | None =>
              change (λ w, mkServer (heap w) (<[fd := c]> (clients w)) (next_conn w) (now w)) ;;
              add_rule "read from client" c In (OnReadable c) Always (Disconnect fd) (CloseSocket c) ;;
              add_rule "write to client" c Out (OnWritable c) (WantsWrite c) Nothing Nothing ;;
              mret ()
          end
      end
  end.

Definition accept : eff sys () :=
  n ← call_time;
  client ← on_descriptor listener (Socket.TCPSocket.accept (sys_accept os n) (sys_getfl os n) (sys_socket_option os n));
  on_descriptor listener FileDescriptor.register_read ;;
  register_client client.

Definition call_interest (c : code) (s : sys) : result bool :=
  match c with
  | WantsWrite c =>
      match heap (world s) !! c with
      | Some k => Ok (negb (bool_decide (write_buffer (buf k) = [])))
      | None => Err (Undefined "use after free")
      end
  | _ => Ok true
  end.

Definition call_back (c : code) : eff sys () :=
  match c with
  | Accept => accept
  | OnReadable c => on_readable c
  | Disconnect fd => erase_client fd
  | CloseSocket c => close_socket c
  | OnWritable c => on_writable c
  | _ => mret ()
  end.

Definition wait_next_event (timeout_ms : Z) : eff sys Result :=
  n ← call_time;
  rs ← gets _fd_rules;
  EpollEventLoop.wait_next_event call_interest call_back (sys_epoll_ctl os) (sys_epoll_wait os n) (sys_getsockopt os n)
    (map_order os) (S (length rs)) timeout_ms.

(** [fuel] bounds the calls of [wait_next_event]. *)
Fixpoint loop (fuel : nat) : eff sys () :=
  match fuel with
  | O => mthrow OutOfFuel
  | S fuel =>
      res ← wait_next_event (-1);
      match res with Exit => mret () | _ => loop fuel end
  end.

(** [main]: the loop, the rule for the listening socket, and the calls. *)
Definition start (epoll_create1 getfl : syscall Z) (k : K) (listening : FDWrapper) : result sys :=
  EpollEventLoop.new epoll_create1 getfl k {[listener := listening]} (mkServer ∅ ∅ 1 0).
Definition main (fuel : nat) : eff sys () :=
  add_rule "accept" listener In Accept Always Nothing Nothing ;;
  loop fuel.
End program.

(** The socket that [main] listens on. *)
Section listening.
Context `{Address.Resolver}.

Definition open_listener (socket : Z → Z → Z → syscall Z) (getfl : syscall Z) (setsockopt : Z → Z → Z → bytes → syscall Z)
    (bind : Z → bytes → Z → syscall Z) (listen : Z → Z → syscall Z) (getsockname : Z → Z → syscall (bytes * Z))
    : result FDWrapper :=
  w ← Socket.Socket.make socket getfl Address.AF_INET Socket.SOCK_STREAM 0;
  let '(r, w) :=
    (Socket.Socket.set_reuseaddr setsockopt ;;
     address ← lift (Address.Address.of_ip_port "0.0.0.0" 8080);
     Socket.Socket.bind bind address ;;
     Socket.TCPSocket.listen listen 16 ;;
     local ← Socket.Socket.local_address getsockname;
     lift (Address.Address.to_string local)) w in
  _ ← r; Ok w.
End listening.

(** * Replies *)

Section replies.
Context {K : Type} (os : system K).
Abbreviation sys := (state code (EpollState K) server).
Implicit Types (s : sys) (k : Conn).

(** What is true of a connection: what came in is messages and an unparsed
    rest; what went out and what waits is the replies to them, in order, unless
    the connection was dropped for a malformed rest. *)
Definition conn_ok k : Prop :=
  ∃ ms rs, Forall msg_ok ms ∧ received k = concat (encode_message <$> ms) ++ read_buffer (buf k) ∧
    Forall2 (λ m r, ∃ n, r = handle_message (ctime os n) m) ms rs ∧ close_after_write (buf k) = quits ms ∧
    (sent k ++ write_buffer (buf k) = concat (encode_message <$> rs) ∨
     write_buffer (buf k) = [] ∧ sent k `prefix_of` concat (encode_message <$> rs) ∧
     (try_parse_message (read_buffer (buf k))).1 = Invalid).

Lemma conn_ok_new : conn_ok new_conn.
Proof. exists [], []. split_and!; [constructor|done|constructor|done|by left]. Qed.

(** A chunk is read. *)
Lemma conn_ok_read k chunk : conn_ok k →
  conn_ok (mkConn (mkConnBuffers (read_buffer (buf k) ++ chunk) (write_buffer (buf k)) (close_after_write (buf k)))
    (received k ++ chunk) (sent k)).
Proof.
  intros (ms&rs&Hm&Hr&Hrs&Hc&Hs). exists ms, rs. cbn [buf read_buffer write_buffer close_after_write received sent].
  rewrite Hr, <- app_assoc. split_and!; try done.
  destruct Hs as [Hs|(Hw&Hp&Hi)]; [by left|right]. split_and!; [done|done|by apply invalid_app].
Qed.

(** A message is parsed and answered. *)
Lemma conn_ok_parse k msg rest n : conn_ok k → try_parse_message (read_buffer (buf k)) = (ParseOk msg, rest) →
  conn_ok (mkConn
    (mkConnBuffers rest (write_buffer (buf k) ++ encode_message (handle_message (ctime os n) msg))
       (close_after_write (buf k) || bool_decide (type msg = Quit)))
    (received k) (sent k)).
Proof.
  intros (ms&rs&Hm&Hr&Hrs&Hc&Hs) Hp. destruct (parse_inverse _ _ _ Hp) as [Hmsg Hb].
  exists (ms ++ [msg]), (rs ++ [handle_message (ctime os n) msg]).
  cbn [buf read_buffer write_buffer close_after_write received sent]. rewrite !fmap_app, !concat_app. split_and!.
  - apply Forall_app. split; [done|]. by constructor.
  - rewrite Hr, Hb, !fmap_cons. cbn [concat]. by rewrite app_nil_r, <- app_assoc.
  - apply Forall2_app; [done|]. constructor; [by exists n|constructor].
  - rewrite Hc, quits_app, quits_cons. f_equal. unfold quits at 1.
    rewrite (bool_decide_false (Exists _ [])) by (by intros ?%Exists_nil). by rewrite orb_false_r.
  - destruct Hs as [Hs|(_&_&Hi)]; [left|by rewrite Hp in Hi].
    rewrite app_assoc, Hs, !fmap_cons. cbn [concat]. by rewrite app_nil_r.
Qed.

(** Some of the replies are written. *)
Lemma conn_ok_write k n : conn_ok k →
  conn_ok (mkConn (mkConnBuffers (read_buffer (buf k)) (zdrop n (write_buffer (buf k))) (close_after_write (buf k)))
    (received k) (sent k ++ ztake n (write_buffer (buf k)))).
Proof.
  intros (ms&rs&Hm&Hr&Hrs&Hc&Hs). exists ms, rs. cbn [buf read_buffer write_buffer close_after_write received sent].
  split_and!; try done. destruct Hs as [Hs|(Hw&Hp&Hi)].
  - left. by rewrite <- app_assoc, ztake_zdrop.
  - right. rewrite Hw. unfold ztake, zdrop. by rewrite take_nil, drop_nil, app_nil_r.
Qed.

(** The connection is dropped. *)
Lemma conn_ok_drop k : conn_ok k → (try_parse_message (read_buffer (buf k))).1 = Invalid →
  conn_ok (mkConn (mkConnBuffers (read_buffer (buf k)) [] (close_after_write (buf k))) (received k) (sent k)).
Proof.
  intros (ms&rs&Hm&Hr&Hrs&Hc&Hs) Hi. exists ms, rs. cbn [buf read_buffer write_buffer close_after_write received sent].
  split_and!; try done. right. split_and!; [done| |done]. destruct Hs as [<-|(_&Hp&_)]; [by eexists|done].
Qed.

(** ** The invariant of the server *)

Inductive known_rule : FDRule code → Prop :=
  | known_accept id cat f : known_rule (mkFDRule (mkBasicRule id cat Always Accept f) listener In Nothing Nothing)
  | known_read id cat c n f :
      known_rule (mkFDRule (mkBasicRule id cat Always (OnReadable c) f) c In (Disconnect n) (CloseSocket c))
  | known_write id cat c f :
      known_rule (mkFDRule (mkBasicRule id cat (WantsWrite c) (OnWritable c) f) c Out Nothing Nothing).

Record server_inv s : Prop := mkServerInv {
  si_rules : Forall known_rule (_fd_rules s);
  si_non_fd : _non_fd_rules s = [];
  si_categories : (next_rule s ≤ length (_rule_categories s) ≤ kCategories)%nat;
  si_conns : map_Forall (λ _, conn_ok) (heap (world s));
}.

(** What the calls on descriptors leave alone. *)
Definition untouched s s' : Prop :=
  _fd_rules s' = _fd_rules s ∧ _non_fd_rules s' = _non_fd_rules s ∧ _rule_categories s' = _rule_categories s ∧
  next_rule s' = next_rule s ∧ heap (world s') = heap (world s) ∧ clients (world s') = clients (world s).
#[local] Instance untouched_preorder : PreOrder untouched.
Proof. split; [done|]. unfold untouched. intros ???. naive_solver congruence. Qed.

Lemma server_inv_untouched s s' : untouched s s' → server_inv s → server_inv s'.
Proof. intros (Hf&Hn&Hc&Hx&Hh&_) []. split; by rewrite ?Hf, ?Hn, ?Hc, ?Hx, ?Hh. Qed.

Lemma untouched_time : keeps untouched (call_time (K:=K)).
Proof. by intros s. Qed.
Lemma untouched_conn c : keeps untouched (conn (K:=K) c).
Proof. intros s. unfold conn. rewrite bind_eq. cbn [gets]. by destruct (heap (world s) !! c). Qed.
Lemma untouched_descriptor {A} f (m : eff FDWrapper A) : keeps untouched (on_descriptor (X:=EpollState K) f m).
Proof. intros s. unfold on_descriptor. destruct (_ !! f); [|done]. by destruct (m _). Qed.
Lemma untouched_wrapper f : keeps untouched (wrapper (C:=code) (X:=EpollState K) (W:=server) f).
Proof. intros s. unfold wrapper. by destruct (_ !! f). Qed.
Hint Resolve untouched_time untouched_conn untouched_descriptor untouched_wrapper untouched_preorder : keeps.

Lemma untouched_close c : keeps untouched (close_socket os c).
Proof. unfold close_socket. eauto 6 with keeps. Qed.

(** [safe m s]: the invariant holds when the run of [m] from [s] ends. *)
Definition safe {A} (m : eff sys A) s : Prop := server_inv (m s).2.

Lemma server_safe_untouched {A} (m : eff sys A) s : keeps untouched m → server_inv s → safe m s.
Proof. intros Hm. apply server_inv_untouched, Hm. Qed.
Lemma server_safe_then {A B} (m : eff sys A) (f : A → eff sys B) s :
  keeps untouched m → server_inv s → (∀ a s', server_inv s' → untouched s s' → safe (f a) s') → safe (m ≫= f) s.
Proof.
  intros Hm Hs Hf. unfold safe. rewrite bind_eq. specialize (Hm s). pose proof (server_inv_untouched _ _ Hm Hs).
  destruct (m s) as [[a|e] s']; [by apply Hf|done].
Qed.
Lemma server_safe_conn {B} c (f : Conn → eff sys B) s :
  server_inv s → (∀ k, heap (world s) !! c = Some k → conn_ok k → safe (f k) s) → safe (conn c ≫= f) s.
Proof.
  intros Hs Hf. unfold safe, conn. rewrite bind_eq. cbv beta. rewrite bind_eq. cbn [gets].
  destruct (heap (world s) !! c) as [k|] eqn:Hk; [|done]. apply Hf; [done|]. by apply (si_conns _ Hs c).
Qed.
Lemma server_inv_conn c k s : server_inv s → conn_ok k → server_inv (set_conn c k s).2.
Proof. intros [] Hk. split; try done. by apply map_Forall_insert_2. Qed.
Lemma server_safe_set_conn {B} c k (f : () → eff sys B) s :
  server_inv s → conn_ok k →
  (∀ s', server_inv s' → heap (world s') !! c = Some k → safe (f ()) s') → safe (set_conn c k ≫= f) s.
Proof.
  intros Hs Hk Hf. unfold safe. rewrite bind_eq. pose proof (server_inv_conn c k s Hs Hk) as Hs'.
  cbn in *. apply Hf; [done|]. cbn. by rewrite lookup_insert, decide_True.
Qed.

(** ** The handlers keep it *)

Lemma server_safe_read_loop fuel c s : server_inv s → safe (read_loop os fuel c) s.
Proof.
  revert s. induction fuel as [|fuel IH]; intros s Hs; cbn [read_loop]; [done|].
  apply server_safe_then; [auto with keeps|done|]. intros n s1 Hs1 _. apply server_safe_conn; [done|]. intros k Hk Hok.
  apply server_safe_then; [auto with keeps|done|]. intros chunk s2 Hs2 _. case_bool_decide; [done|].
  apply server_safe_set_conn; [done|by apply conn_ok_read|]. intros s3 Hs3 _. by apply IH.
Qed.

Lemma server_safe_parse_loop fuel c s : server_inv s →
  post (parse_loop os fuel c) s (λ r s', server_inv s' ∧
    (r = Ok Invalid → ∃ k, heap (world s') !! c = Some k ∧ (try_parse_message (read_buffer (buf k))).1 = Invalid)).
Proof.
  revert s. induction fuel as [|fuel IH]; intros s Hs; cbn [parse_loop]; [done|].
  apply post_bind. unfold post at 1, conn. rewrite bind_eq. cbn [gets].
  destruct (heap (world s) !! c) as [k|] eqn:Hk; [|done]. cbn [fst snd mret eff_ret].
  pose proof (si_conns s Hs c k Hk) as Hok.
  destruct (try_parse_message _) as [[msg| |] rest] eqn:Hp; [|done|].
  - apply post_bind. unfold post at 1, call_time. rewrite bind_eq. cbn [gets]. rewrite bind_eq. cbn [change modify fst snd mret eff_ret].
    pose proof (conn_ok_parse k msg rest (now (world s)) Hok Hp) as Hok'.
    set (s1 := with_world _ s).
    assert (server_inv s1) as Hs1 by by destruct Hs.
    apply post_bind. unfold post at 1. pose proof (server_inv_conn c _ s1 Hs1 Hok') as Hs2.
    cbn [set_conn change modify fst snd] in *. case_bool_decide; [done|by apply IH].
  - unfold post. cbn. split; [done|]. intros _. exists k. by rewrite Hp.
Qed.

Lemma server_safe_on_readable c s : server_inv s → safe (on_readable os c) s.
Proof.
  intros Hs. unfold on_readable, safe. rewrite bind_eq. pose proof (server_safe_read_loop (max_reads os) c s Hs) as H1.
  unfold safe in H1. destruct (read_loop _ _ _ s) as [[[]|e] s1]; [|done]. cbn [snd] in H1.
  apply server_safe_conn; [done|]. intros k Hk Hok. unfold safe. rewrite bind_eq.
  pose proof (server_safe_parse_loop (S (length (read_buffer (buf k)))) c s1 H1) as H2. unfold post in H2.
  destruct (parse_loop _ _ _ s1) as [[r|e] s2]; [|by destruct H2]. cbn [fst snd] in H2.
  destruct H2 as [H2 Hinv]. destruct r; [done|done|]. destruct (Hinv eq_refl) as (k'&Hk'&Hi).
  apply server_safe_conn; [done|]. intros k2 Hk2 Hok2. rewrite Hk' in Hk2. injection Hk2 as <-.
  apply server_safe_set_conn; [done|by apply conn_ok_drop|]. intros s3 Hs3 _.
  apply server_safe_untouched; [apply untouched_close|done].
Qed.

Lemma server_safe_write_loop fuel c s : server_inv s → safe (write_loop os fuel c) s.
Proof.
  revert s. induction fuel as [|fuel IH]; intros s Hs; cbn [write_loop]; [done|].
  apply server_safe_conn; [done|]. intros k Hk Hok. case_bool_decide; [done|].
  apply server_safe_then; [auto with keeps|done|]. intros t s1 Hs1 _.
  apply server_safe_then; [auto with keeps|done|]. intros n s2 Hs2 _. case_bool_decide; [done|].
  apply server_safe_set_conn; [done|by apply conn_ok_write|]. intros s3 Hs3 _. by apply IH.
Qed.

Lemma server_safe_on_writable c s : server_inv s → safe (on_writable os c) s.
Proof.
  intros Hs. apply server_safe_conn; [done|]. intros k Hk Hok. unfold safe. rewrite bind_eq.
  pose proof (server_safe_write_loop (S (length (write_buffer (buf k)))) c s Hs) as H1. unfold safe in H1.
  destruct (write_loop _ _ _ s) as [[[]|e] s1]; [|done|done]. cbn [snd] in H1.
  apply server_safe_conn; [done|]. intros k1 Hk1 Hok1.
  apply server_safe_untouched; [|done]. apply (keeps_when untouched), untouched_close.
Qed.

Lemma server_inv_erase n s : server_inv s → server_inv (erase_client n s).2.
Proof.
  intros []. unfold erase_client, change. cbn [modify snd]. destruct (clients (world s) !! n); split; try done.
  by apply map_Forall_delete.
Qed.

Lemma server_safe_add_rule {B} name f d callback interest cancel error (h : nat → eff sys B) s :
  server_inv s →
  (∀ id cat, known_rule (mkFDRule (mkBasicRule id cat interest callback false) f d cancel error)) →
  (∀ id s', server_inv s' → safe (h id) s') →
  safe (add_rule name f d callback interest cancel error ≫= h) s.
Proof.
  intros Hs Hk Hh. unfold safe. rewrite bind_eq.
  assert (server_inv (add_rule name f d callback interest cancel error s).2) as Ha.
  { destruct Hs as [Hr Hn Hc Hw]. unfold add_rule, EpollEventLoop.add_category, add_category, EpollEventLoop.add_fd_rule, EventRules.add_fd_rule.
    repeat (rewrite bind_eq; cbn [gets]). case_bool_decide as Hcat; [done|].
    rewrite bind_eq. cbn [modify mret eff_ret].
    rewrite bind_eq. cbn [gets]. rewrite bind_eq. cbn [gets _rule_categories with_categories].
    rewrite bool_decide_false by (rewrite length_app; cbn; lia). rewrite bind_eq. cbn [gets].
    rewrite bind_eq. cbn [modify]. cbn [mret eff_ret]. rewrite bind_eq.
    set (s2 := with_next _ _).
    assert (server_inv s2) as Hs2.
    { split; cbn; [|done|rewrite length_app; cbn; lia|done]. apply Forall_app. split; [done|]. by constructor. }
    unfold wrapper. destruct (descriptors s2 !! f); [|done]. rewrite bind_eq. cbn [EpollEventLoop.try_emplace modify].
    cbn [mret eff_ret snd]. destruct (_fd_states _ !! _); [done|]. by destruct Hs2. }
  destruct (add_rule _ _ _ _ _ _ _ s) as [[id|e] s']; [by apply Hh|done].
Qed.

Lemma server_inv_descriptors ds s : server_inv s → server_inv (with_descriptors ds s).
Proof. by intros []. Qed.

Lemma server_safe_register client s : server_inv s → safe (register_client os client) s.
Proof.
  intros Hs. apply server_safe_then; [auto with keeps|done|]. intros t s1 Hs1 _.
  cbv beta zeta. destruct (FileDescriptor.set_blocking _ _ _ client) as [[[]|e] w]; [|done].
  apply server_safe_then; [auto with keeps|done|]. intros t' s2 Hs2 _.
  cbv beta zeta. destruct (Socket.Socket.peer_address _ w) as [[a|e] w']; [|done].
  unfold safe, make_conn. rewrite bind_eq. cbn [modify]. rewrite bind_eq. cbn [gets].
  rewrite bind_eq. cbn [modify]. rewrite bind_eq. cbn [change modify mret eff_ret]. rewrite bind_eq. cbn [gets].
  set (c := next_conn (world s2)). set (s3 := with_world _ _).
  assert (server_inv s3) as Hs3.
  { destruct Hs2. split; cbn; try done. apply map_Forall_insert_2; [apply conn_ok_new|done]. }
  destruct (clients (world s3) !! _).
  { destruct Hs3. split; try done. cbn. by apply map_Forall_delete. }
  rewrite bind_eq. cbn [change modify]. apply server_safe_add_rule; [by destruct Hs3|by constructor|]. intros id s4 Hs4.
  apply server_safe_add_rule; [done|by constructor|]. by intros id' s5 Hs5.
Qed.

Lemma server_safe_accept s : server_inv s → safe (accept os) s.
Proof.
  intros Hs. apply server_safe_then; [auto with keeps|done|]. intros n s1 Hs1 _.
  apply server_safe_then; [auto with keeps|done|]. intros client s2 Hs2 _.
  apply server_safe_then; [auto with keeps|done|]. intros [] s3 Hs3 _. by apply server_safe_register.
Qed.

Lemma server_safe_call c s : server_inv s → safe (call_back os c) s.
Proof.
  intros Hs. destruct c; cbn [call_back]; try done.
  - by apply server_safe_accept.
  - by apply server_safe_on_readable.
  - by apply server_inv_erase.
  - by apply server_safe_untouched; [apply untouched_close|].
  - by apply server_safe_on_writable.
Qed.

Lemma server_safe_invoke cl c s : server_inv s → server_inv (invoke (call_back os) cl c s).2.
Proof.
  intros Hs. unfold invoke. rewrite bind_eq. cbn [modify]. apply server_safe_call. by destruct Hs.
Qed.

Lemma server_invariant : invariant_ok (call_interest (K:=K)) (call_back os) (λ _ _, True) known_rule server_inv.
Proof.
  split.
  - intros s r [Hr _ _ _] Hin. rewrite Forall_forall in Hr. by apply Hr.
  - by intros s [].
  - by intros x s [].
  - intros i s [Hr Hn Hc Hw]. split; try done. cbn. rewrite delete_take_drop. apply Forall_app. by split; [apply Forall_take|apply Forall_drop].
  - intros r s Hs _ _. by apply server_safe_invoke.
  - intros r s Hs _ _. by apply server_safe_invoke.
  - intros r s Hs _. by apply server_safe_invoke.
Qed.

Lemma server_safe_wait timeout_ms s : server_inv s → safe (wait_next_event os timeout_ms) s.
Proof.
  intros Hs. apply server_safe_then; [auto with keeps|done|]. intros n s1 Hs1 _.
  unfold safe. rewrite bind_eq. cbn [gets]. by apply (keeps_inv_wait server_invariant).
Qed.

Lemma server_safe_loop fuel s : server_inv s → safe (loop os fuel) s.
Proof.
  revert s. induction fuel as [|fuel IH]; intros s Hs; cbn [loop]; [done|].
  unfold safe. rewrite bind_eq. pose proof (server_safe_wait (-1) s Hs) as H1. unfold safe in H1.
  destruct (wait_next_event _ _ s) as [[[]|e] s1]; [by apply IH|by apply IH|done|done].
Qed.

Lemma server_safe_main fuel epoll_create1 getfl x listening s :
  start epoll_create1 getfl x listening = Ok s → safe (main os fuel) s.
Proof.
  intros Hs. assert (server_inv s) as Hi.
  { revert Hs. unfold start, EpollEventLoop.new. destruct (EpollEventLoop.create_epoll_fd _) as [n|]; [|done].
    cbn [mbind result_bind]. destruct (FileDescriptor.make n getfl) as [w|]; [|done]. intros [= <-].
    split; [constructor|done|unfold kCategories; cbn; lia|by apply map_Forall_empty]. }
  apply server_safe_add_rule; [done|by constructor|]. intros id s1 Hs1. by apply server_safe_loop.
Qed.
End replies.

(** * Categories *)

Section categories.
Context {K : Type}.
Abbreviation sys := (state code (EpollState K) server).

Definition full : exn := Throw "maximum categories reached".

Lemma add_rule_full {B} name f d callback interest cancel error (h : nat → eff sys B) s :
  (kCategories ≤ length (_rule_categories s))%nat →
  ((add_rule name f d callback interest cancel error ≫= h) s).1 = Err full.
Proof.
  intros Hc. rewrite bind_eq. unfold add_rule. rewrite bind_eq. unfold EpollEventLoop.add_category, add_category.
  rewrite bind_eq. cbn [gets]. by rewrite bool_decide_true.
Qed.

Lemma add_rule_adds {B} name f d callback interest cancel error (h : nat → eff sys B) s r :
  (length (_rule_categories s) < kCategories)%nat → is_Some (descriptors s !! f) →
  (∀ id s', length (_rule_categories s') = S (length (_rule_categories s)) → (h id s').1 = r) →
  ((add_rule name f d callback interest cancel error ≫= h) s).1 = r.
Proof.
  intros Hc [w Hw] Hh. rewrite bind_eq.
  unfold add_rule, EpollEventLoop.add_category, add_category, EpollEventLoop.add_fd_rule, EventRules.add_fd_rule.
  repeat (rewrite bind_eq; cbn [gets]). rewrite bool_decide_false by lia. rewrite bind_eq. cbn [modify mret eff_ret].
  rewrite bind_eq. cbn [gets]. rewrite bind_eq. cbn [gets _rule_categories with_categories].
  rewrite bool_decide_false by (rewrite length_app; cbn; lia). rewrite bind_eq. cbn [gets].
  rewrite bind_eq. cbn [modify]. cbn [mret eff_ret]. rewrite bind_eq. unfold wrapper. cbn [descriptors with_next with_fd_rules with_categories].
  rewrite Hw, bind_eq. cbn [EpollEventLoop.try_emplace modify mret eff_ret]. apply Hh.
  destruct (_fd_states _ !! _); cbn; rewrite length_app; cbn; lia.
Qed.
End categories.

(** * A client that leaves *)

Section leaving.
Context {K : Type} (os : system K).
Abbreviation sys := (state code (EpollState K) server).
Implicit Types s : sys.

(** A rule that the sweep passes over. *)
Definition stays s (r : FDRule code) : Prop :=
  cancel_requested (basic r) = false ∧
  ∃ w, descriptors s !! fd r = Some w ∧ (direction r = In → eof_ w = false) ∧ closed_ w = false.

Lemma sweep_stays n fuel i s :
  (∀ j r, (i ≤ j < i + n)%nat → _fd_rules s !! j = Some r → stays s r) → (i + n ≤ length (_fd_rules s))%nat →
  EpollEventLoop.sweep (call_back os) (n + fuel) i s = EpollEventLoop.sweep (call_back os) fuel (i + n) s.
Proof.
  revert i. induction n as [|n IH]; intros i Hs Hn; [by rewrite Nat.add_0_r|].
  cbn [plus EpollEventLoop.sweep]. rewrite bind_eq. cbn [gets].
  destruct (lookup_lt_is_Some_2 (_fd_rules s) i) as [r Hr]; [lia|]. rewrite Hr.
  destruct (Hs i r) as (Hc&w&Hw&Hi&Hcl); [lia|done|]. rewrite Hc, bind_eq. unfold wrapper. rewrite Hw.
  unfold FileDescriptor.eof, FileDescriptor.closed. rewrite Hcl.
  assert (bool_decide (direction r = In) && eof_ w = false) as ->.
  { case_bool_decide as Hd; [by rewrite Hi|done]. }
  rewrite IH, Nat.add_succ_r; [done| |lia]. intros j q Hj. apply Hs. lia.
Qed.

(** What asks for the interest of a rule asks an object that is alive. *)
Definition alive s (r : FDRule code) : Prop := ∃ b, call_interest (interest (basic r)) s = Ok b.
Definition undefined : exn := Undefined "use after free".

Lemma any_rule_ok rs n s :
  Forall (λ r, is_Some (descriptors s !! fd r)) rs → ∃ b, EpollEventLoop.any_rule rs n s = (Ok b, s) ∧
    (∀ r w, r ∈ rs → descriptors s !! fd r = Some w → fd_ w = n → b = true).
Proof.
  induction 1 as [|r rs [w Hw] Hrs (b&IH&Hb)]; [by exists false; split; [|intros ?? ?%not_elem_of_nil]|].
  cbn [EpollEventLoop.any_rule]. rewrite bind_eq. unfold wrapper. rewrite Hw. case_bool_decide as Hn; [by exists true|].
  exists b. split; [done|]. intros r' w' [->|Hr]%elem_of_cons Hw' Hn'; [|by eapply Hb].
  rewrite Hw in Hw'. injection Hw' as <-. by destruct Hn.
Qed.

(** Without a dead rule on the descriptor, its events are found; with one,
    they are not. *)
Lemma desired_from_alive rs n mask s :
  Forall (λ r, is_Some (descriptors s !! fd r)) rs →
  Forall (λ r, alive s r ∨ call_interest (interest (basic r)) s = Err undefined) rs →
  (∃ m, EpollEventLoop.desired_from call_interest rs n mask s = (Ok m, s) ∧
     ∀ r w, r ∈ rs → cancel_requested (basic r) = false → descriptors s !! fd r = Some w → fd_ w = n → alive s r) ∨
  EpollEventLoop.desired_from call_interest rs n mask s = (Err undefined, s).
Proof.
  intros Hd Ha. revert mask. induction Hd as [|r rs [w Hw] Hrs IH]; intros mask.
  { left. exists mask. split; [done|]. by intros ?? ?%not_elem_of_nil. }
  apply Forall_cons in Ha as [Ha Has]. specialize (IH Has). cbn [EpollEventLoop.desired_from].
  assert (∀ mask, (cancel_requested (basic r) = true ∨ fd_ w ≠ n ∨ alive s r) →
    (∃ m, EpollEventLoop.desired_from call_interest rs n mask s = (Ok m, s) ∧
       ∀ q v, q ∈ r :: rs → cancel_requested (basic q) = false → descriptors s !! fd q = Some v → fd_ v = n → alive s q) ∨
    EpollEventLoop.desired_from call_interest rs n mask s = (Err undefined, s)) as Hskip.
  { intros mask' Hr. destruct (IH mask') as [(m&Hm&Hall)|He]; [left|by right]. exists m. split; [done|].
    intros q v [->|Hq]%elem_of_cons Hcq Hv Hnv; [|by eapply Hall]. rewrite Hw in Hv. injection Hv as <-.
    destruct Hr as [Hr|[Hr|Hr]]; [congruence|by destruct Hr|done]. }
  destruct (cancel_requested (basic r)) eqn:Hc; [apply Hskip; by left|].
  rewrite bind_eq. unfold wrapper. rewrite Hw. case_bool_decide as Hn; [apply Hskip; auto|].
  rewrite bind_eq. unfold interested. destruct Ha as [[b Hb]| ->]; [|by right]. rewrite Hb.
  assert (alive s r) by by exists b. destruct b; cbn [negb]; apply Hskip; auto.
Qed.

Hypothesis ctl_ok : ∀ fd op n e x, ∃ y, sys_epoll_ctl os fd op n e x = (Returned (), y).

Lemma ctl_returns op n e s : ∃ s', EpollEventLoop.ctl (sys_epoll_ctl os) op n e s = (Ok (Returned ()), s').
Proof.
  unfold EpollEventLoop.ctl. destruct (ctl_ok (_epoll_fd (extra s)) op n e (kernel (extra s))) as [y ->]. by eexists.
Qed.

Lemma sync_returns n d s : (EpollEventLoop.sync_fd_registration (sys_epoll_ctl os) n d s).1 = Ok ().
Proof.
  unfold EpollEventLoop.sync_fd_registration. rewrite bind_eq. cbn [gets]. destruct (_ !! n) as [st|]; [|done].
  destruct (in_epoll st); cbn [negb]; [case_bool_decide; [done|]|]; rewrite bind_eq.
  - by destruct (ctl_returns EPOLL_CTL_MOD n d s) as [s' ->].
  - by destruct (ctl_returns EPOLL_CTL_ADD n d s) as [s' ->].
Qed.

Lemma drop_state_returns n s : (EpollEventLoop.drop_state (sys_epoll_ctl os) n s).1 = Ok ().
Proof.
  unfold EpollEventLoop.drop_state. rewrite bind_eq. cbn [gets]. destruct (_ !! n) as [st|]; [|done].
  rewrite bind_eq. destruct (in_epoll st); [|done]. rewrite bind_eq.
  by destruct (ctl_returns EPOLL_CTL_DEL n 0 s) as [s' ->].
Qed.

(** A rule whose interest reads an object that is gone, on descriptor [n]. *)
Definition dead_on s n : Prop :=
  ∃ r w, r ∈ _fd_rules s ∧ cancel_requested (basic r) = false ∧ descriptors s !! fd r = Some w ∧ fd_ w = n ∧ ¬ alive s r.
Definition all_asked s : Prop :=
  Forall (λ r, is_Some (descriptors s !! fd r)) (_fd_rules s) ∧
  Forall (λ r, alive s r ∨ call_interest (interest (basic r)) s = Err undefined) (_fd_rules s).

Lemma refresh_one_dead n s : all_asked s →
  let r := (EpollEventLoop.refresh_one call_interest (sys_epoll_ctl os) n s).1 in
  (r = Ok () ∨ r = Err undefined) ∧ (dead_on s n → r = Err undefined).
Proof.
  intros [Hd Ha]. unfold EpollEventLoop.refresh_one. rewrite bind_eq. cbn [gets]. rewrite bind_eq.
  destruct (any_rule_ok (_fd_rules s) n s Hd) as (b&->&Hb). destruct b; cbn [negb]; cbv zeta.
  2: { rewrite drop_state_returns. split; [by left|]. intros (r&w&Hr&_&Hw&Hn&_). by specialize (Hb r w Hr Hw Hn). }
  rewrite bind_eq. unfold EpollEventLoop.desired_events_for_fd. rewrite bind_eq. cbn [gets].
  destruct (desired_from_alive (_fd_rules s) n 0 s Hd Ha) as [(m&->&Hall)| ->]; [|by split; [right|]].
  rewrite sync_returns. split; [by left|]. intros (r&w&Hr&Hc&Hw&Hn&Hdead). destruct Hdead. by eapply Hall.
Qed.

Lemma refresh_dead keys s n : all_asked s → dead_on s n → n ∈ keys →
  (EpollEventLoop.refresh call_interest (sys_epoll_ctl os) keys s).1 = Err undefined.
Proof.
  intros Ha Hdead. revert s Ha Hdead. induction keys as [|m keys IH]; intros s Ha Hdead Hn; [by apply not_elem_of_nil in Hn|].
  cbn [EpollEventLoop.refresh]. rewrite bind_eq. destruct (refresh_one_dead m s Ha) as [Hr Hm].
  pose proof (same_refresh_one call_interest (sys_epoll_ctl os) m s) as [x Hx].
  destruct (EpollEventLoop.refresh_one _ _ m s) as [r s']. cbn [fst snd] in *. subst s'.
  destruct Hr as [-> | ->]; [|done]. apply IH; [done|done|].
  apply elem_of_cons in Hn as [->|Hn]; [by specialize (Hm Hdead)|done].
Qed.

(** The sweep of the rules when one reader is at its end of file. *)
Lemma sweep_leaves s pre r post w :
  _fd_rules s = pre ++ r :: post → Forall (stays s) pre → Forall (stays s) post →
  cancel_requested (basic r) = false → direction r = In → descriptors s !! fd r = Some w → eof_ w = true →
  let s' := (invoke (call_back os) (Cancelled (rule_id (basic r))) (cancel r) s).2 in
  (invoke (call_back os) (Cancelled (rule_id (basic r))) (cancel r) s).1 = Ok () →
  _fd_rules s' = _fd_rules s → descriptors s' = descriptors s →
  EpollEventLoop.sweep (call_back os) (S (length (_fd_rules s))) 0 s = (Ok (), with_fd_rules (pre ++ post) s').
Proof.
  intros Hrs Hpre Hpost Hc Hd Hw He s' Hok Hf Hds.
  assert (S (length (_fd_rules s)) = length pre + S (length post + 1))%nat as -> by (rewrite Hrs, length_app; cbn; lia).
  rewrite (sweep_stays (length pre)); [|intros j q Hj Hq|rewrite Hrs, length_app; lia].
  2: { rewrite Hrs, lookup_app_l in Hq by lia. by eapply (Forall_lookup_1 _ pre). }
  cbn [plus EpollEventLoop.sweep]. rewrite bind_eq. cbn [gets]. rewrite Hrs, list_lookup_middle by done.
  rewrite Hc, bind_eq. unfold wrapper. rewrite Hw, Hd, bool_decide_true by done. unfold FileDescriptor.eof. rewrite He.
  cbn [andb]. rewrite bind_eq. unfold retire. rewrite bind_eq.
  subst s'. destruct (invoke _ _ _ s) as [res s1]. cbn [fst snd] in *. subst res.
  unfold erase_fd_rule. cbn [modify]. rewrite Hf, Hrs, delete_middle.
  rewrite (sweep_stays (length post)).
  - cbn [EpollEventLoop.sweep]. rewrite bind_eq. cbn [gets _fd_rules with_fd_rules].
    by rewrite lookup_ge_None_2 by (rewrite length_app; lia).
  - cbn [_fd_rules with_fd_rules]. intros j q Hj Hq. rewrite lookup_app_r in Hq by lia.
    destruct (Forall_lookup_1 _ _ _ _ Hpost Hq) as (Hqc&v&Hv&Hq'). split; [done|]. exists v. cbn. by rewrite Hds.
  - cbn. rewrite length_app. lia.
Qed.
End leaving.

(** * Concrete runs *)

(** A system whose n-th call of [epoll_wait] reports [events n], whose reads
    yield [reads n], and which takes every connection and up to 12 bytes of a write. *)
Definition demo_os (events : nat → list (Z * Z)) (reads : nat → syscall bytes) : system () := {|
  sys_accept n _ := Returned (100 + Z.of_nat n);
  sys_getfl _ _ := Returned 0;
  sys_setfl _ _ _ := Returned 0;
  sys_socket_option _ := Socket.tcp_option;
  sys_getpeername _ _ _ := Returned (Byte.x02 :: replicate 15 Byte.x00, 16);
  sys_read n _ _ := reads n;
  sys_writev _ _ bs := Returned (Z.min 12 (zlen (concat bs)));
  sys_close _ _ := Returned 0;
  ctime _ := literal "now";
  max_reads := 4;
  sys_epoll_ctl _ _ _ _ k := (Returned (), k);
  sys_epoll_wait n _ _ _ _ := Returned (events n);
  sys_getsockopt _ _ := Failed ENOTSOCK;
  map_order m := (map_to_list m).*1;
|}.
Definition demo_listening : FDWrapper := mkFDWrapper 3 false false false 0 0.
Definition demo_started : state code (EpollState ()) server := mkState [] [] [] 0 {[listener := demo_listening]} [] (mkEpollState 4 ∅ ()) (mkServer ∅ ∅ 1 0).

(** A client connects, sends a message and a piece of another, and takes the
    reply. *)
Definition demo_answer : system () :=
  demo_os (λ n, match n with 0%nat => [(3, EPOLLIN)] | 4%nat => [(101, EPOLLIN)] | _ => [(101, EPOLLOUT)] end)
    (λ n, if bool_decide (n = 5%nat) then Returned (encode_message (mkMessage Echo (literal "hi")) ++ htonl Time)
          else Failed EAGAIN).
Definition demo_answered : state code (EpollState ()) server := Eval vm_compute in (main demo_answer 3 demo_started).2.
Definition demo_conn : Conn :=
  mkConn (mkConnBuffers (htonl Time) [] false) (encode_message (mkMessage Echo (literal "hi")) ++ htonl Time)
    (encode_message (mkMessage Echo (literal "hi"))).

(** Clients connect one after the other. *)
Definition demo_crowd : system () := demo_os (λ _, [(3, EPOLLIN)]) (λ _, Failed EAGAIN).
Definition demo_crowded : state code (EpollState ()) server := Eval vm_compute in (main demo_crowd 31 demo_started).2.
Definition demo_client : FDWrapper := mkFDWrapper 5 false false false 0 0.

(** A client connects and leaves. *)
Definition demo_visit : system () :=
  demo_os (λ n, match n with 0%nat => [(3, EPOLLIN)] | _ => [(101, EPOLLIN)] end) (λ _, Returned []).
Definition demo_left : state code (EpollState ()) server := Eval vm_compute in (main demo_visit 2 demo_started).2.
Definition demo_rule (id : nat) (interest callback cancel error : code) (f : nat) (d : Direction) : FDRule code :=
  mkFDRule (mkBasicRule id id interest callback false) f d cancel error.

(** * Properties *)

(** C28: what the epoll server sends.  Throughout every run of [main], whatever
    the system answers, also when it ends in an exception: what a connection
    received is a sequence of messages and an unparsed rest, and what it sent
    followed by what waits to be sent is exactly the encoded replies to those
    messages, in order, unless the rest is malformed, when nothing waits and
    what was sent begins the replies; the connection is marked to be closed if
    one of the messages was a [Quit]. *)
Theorem epoll_server_replies {K} (os : system K) fuel epoll_create1 getfl x listening s c k :
  start epoll_create1 getfl x listening = Ok s →
  heap (world (main os fuel s).2) !! c = Some k →
  ∃ ms rs, Forall msg_ok ms ∧ received k = concat (encode_message <$> ms) ++ read_buffer (buf k) ∧
    Forall2 (λ m r, ∃ n, r = handle_message (ctime os n) m) ms rs ∧
    close_after_write (buf k) = quits ms ∧
    (sent k ++ write_buffer (buf k) = concat (encode_message <$> rs) ∨
     write_buffer (buf k) = [] ∧ sent k `prefix_of` concat (encode_message <$> rs) ∧
     (try_parse_message (read_buffer (buf k))).1 = Invalid).
Proof. intros Hs Hk. exact (si_conns os _ (server_safe_main os fuel _ _ _ _ _ Hs) c k Hk). Qed.

Lemma epoll_server_replies_witness :
  heap (world (main demo_answer 3 demo_started).2) !! 1%nat = Some demo_conn ∧
  ∃ ms rs, Forall msg_ok ms ∧ received demo_conn = concat (encode_message <$> ms) ++ read_buffer (buf demo_conn) ∧
    Forall2 (λ m r, ∃ n, r = handle_message (ctime demo_answer n) m) ms rs ∧
    close_after_write (buf demo_conn) = quits ms ∧
    (sent demo_conn ++ write_buffer (buf demo_conn) = concat (encode_message <$> rs) ∨
     write_buffer (buf demo_conn) = [] ∧ sent demo_conn `prefix_of` concat (encode_message <$> rs) ∧
     (try_parse_message (read_buffer (buf demo_conn))).1 = Invalid).
Proof.
  assert (heap (world (main demo_answer 3 demo_started).2) !! 1%nat = Some demo_conn) as H by (vm_compute; reflexivity).
  split; [exact H|].
  exact (epoll_server_replies demo_answer 3 (Returned 4) (Returned 0) () demo_listening demo_started 1 demo_conn eq_refl H).
Defined.

(** C29: the bound on the clients of the epoll server.  Every rule has a
    category of its own, so that in every run no more than 64 rules are ever
    added, one for the listening socket and two for each client; and when 63 or
    more have been, the next client makes [register_client] throw, which nothing
    catches. *)
Theorem epoll_server_capacity {K} (os : system K) epoll_create1 getfl x listening s fuel r client w peer w' :
  start epoll_create1 getfl x listening = Ok s →
  main os fuel s = r →
  let n := FileDescriptor.fd_num client in
  let t := now (world r.2) in
  FileDescriptor.set_blocking false (sys_getfl os t n) (sys_setfl os t n) client = (Ok (), w) →
  Socket.Socket.peer_address (sys_getpeername os (S t)) w = (Ok peer, w') →
  clients (world r.2) !! FileDescriptor.fd_num w = None →
  (next_rule r.2 ≤ kCategories)%nat ∧
  ((kCategories - 1 ≤ next_rule r.2)%nat →
   (register_client os client r.2).1 = Err (Throw "maximum categories reached")).
Proof.
  intros Hs <- n t Hw Hp Hnew. pose proof (server_safe_main os fuel _ _ _ _ _ Hs) as Hi. unfold safe in Hi.
  set (s1 := (main os fuel s).2) in *. destruct (si_categories _ _ Hi) as [H1 H2]. split; [lia|]. intros Hfull.
  unfold register_client. rewrite bind_eq. unfold call_time at 1. rewrite bind_eq. cbn [gets].
  rewrite bind_eq. cbn [change modify mret eff_ret]. fold n t. rewrite Hw. cbv zeta.
  rewrite bind_eq. unfold call_time at 1. rewrite bind_eq. cbn [gets]. rewrite bind_eq. cbn [change modify mret eff_ret].
  change (now (world (with_world _ s1))) with (S t). rewrite Hp.
  rewrite bind_eq. unfold make_conn. rewrite bind_eq. cbn [gets]. rewrite bind_eq. cbn [modify].
  rewrite bind_eq. cbn [change modify mret eff_ret]. rewrite bind_eq. cbn [gets].
  set (s2 := with_world _ _). change (clients (world s2)) with (clients (world s1)). rewrite Hnew.
  rewrite bind_eq. cbn [change modify]. set (s3 := with_world _ s2). set (c := next_conn _).
  assert (length (_rule_categories s3) = length (_rule_categories s1)) as Hl by done.
  destruct (decide (kCategories ≤ length (_rule_categories s3))%nat) as [Hge|Hlt]; [by apply add_rule_full|].
  apply add_rule_adds; [lia| |intros id s4 H4; apply add_rule_full; lia].
  exists w'. by cbn; rewrite lookup_insert, decide_True.
Qed.

Lemma epoll_server_capacity_witness :
  let s := (main demo_crowd 31 demo_started).2 in
  next_rule s = 63%nat ∧ (register_client demo_crowd demo_client s).1 = Err (Throw "maximum categories reached").
Proof.
  intros s. assert (next_rule s = 63%nat) as Hn by (vm_compute; reflexivity). split; [exact Hn|].
  destruct (epoll_server_capacity demo_crowd (Returned 4) (Returned 0) () demo_listening demo_started 31
    (main demo_crowd 31 demo_started) demo_client (mkFDWrapper 5 false false true 0 0)
    (Address.mkAddress 16 (Byte.x02 :: replicate 15 Byte.x00 ++ replicate 112 Byte.x00)) (mkFDWrapper 5 false false true 0 0)
    eq_refl eq_refl) as [_ H]; [vm_compute; reflexivity..|].
  apply H. fold s. rewrite Hn. unfold kCategories. lia.
Defined.

(** C30: a client that closes its side of the connection.  Let the reader [r] of
    a connection be at its end of file while the connection is not closed, and
    the rule [rw] that writes to it still be there, as it is until the
    connection is closed.  Then the next [wait_next_event] reads the object
    after it was destroyed: the sweep cancels [r], which erases the client,
    and the refresh of the registrations asks [rw] for its interest.  The other
    rules and their connections may be anything that is alive. *)
Theorem epoll_server_use_after_free {K} (os : system K) s pre r post rw c n w timeout_ms :
  (∀ fd op n e x, ∃ y, sys_epoll_ctl os fd op n e x = (Returned (), y)) →
  (∀ m n, is_Some (m !! n) → n ∈ map_order os m) →
  _non_fd_rules s = [] → _fd_rules s = pre ++ r :: post →
  Forall (stays s) pre → Forall (stays s) post → Forall (alive s) (pre ++ post) →
  cancel_requested (basic r) = false → direction r = In → cancel r = Disconnect n →
  clients (world s) !! n = Some c →
  descriptors s !! fd r = Some w → eof_ w = true → fd_ w = n →
  rw ∈ pre ++ post → interest (basic rw) = WantsWrite c → fd rw = fd r →
  is_Some (_fd_states (extra s) !! n) →
  (wait_next_event os timeout_ms s).1 = Err (Undefined "use after free").
Proof.
  intros Hctl Hord Hnf Hrs Hpre Hpost Hal Hc Hd Hcan Hcl Hw He Hn Hrw Hint Hfd Hst.
  unfold wait_next_event. rewrite bind_eq. unfold call_time. rewrite bind_eq. cbn [gets].
  rewrite bind_eq. cbn [change modify mret eff_ret]. rewrite bind_eq. cbn [gets]. set (s1 := with_world _ s).
  change (_fd_rules s1) with (_fd_rules s).
  unfold EpollEventLoop.wait_next_event, EpollEventLoop.serve_non_fd_rules, serve_non_fd_rules.
  rewrite bind_eq. rewrite bind_eq. cbn [gets]. change (_non_fd_rules s1) with (_non_fd_rules s). rewrite Hnf.
  cbn [length serve_from]. rewrite bind_eq. cbn [gets]. change (_non_fd_rules s1) with (_non_fd_rules s). rewrite Hnf.
  cbn [lookup list_lookup mret eff_ret]. rewrite bind_eq. unfold EpollEventLoop.prepare. rewrite bind_eq.
  pose proof (sweep_leaves os s1 pre r post w) as Hsw.
  assert (invoke (call_back os) (Cancelled (rule_id (basic r))) (cancel r) s1 = (Ok (),
    with_world (mkServer (delete c (heap (world s))) (delete n (clients (world s))) (next_conn (world s)) (S (now (world s))))
      (log_call (Cancelled (rule_id (basic r))) s))) as Hinv.
  { rewrite Hcan. unfold invoke. rewrite bind_eq. cbn. unfold erase_client, change, modify. cbn. by rewrite Hcl. }
  rewrite Hinv in Hsw. cbv zeta in Hsw. change (_fd_rules s1) with (_fd_rules s) in Hsw. rewrite Hsw by (done || by eapply Forall_impl). clear Hsw Hinv.
  cbn [fst snd]. rewrite bind_eq. cbn [gets]. set (s2 := with_fd_rules _ _).
  change (_fd_states (extra s2)) with (_fd_states (extra s)).
  assert (∀ q, q ∈ pre ++ post → stays s q) as Hstays.
  { intros q Hq. apply elem_of_app in Hq. rewrite !Forall_forall in *. naive_solver. }
  pose proof (refresh_dead os Hctl (map_order os (_fd_states (extra s))) s2 n) as Hdead.
  assert ((EpollEventLoop.refresh call_interest (sys_epoll_ctl os) (map_order os (_fd_states (extra s))) s2).1 = Err undefined) as Hr.
  { apply Hdead.
    - split; apply Forall_forall; intros q Hq; cbn in Hq.
      + destruct (Hstays q Hq) as (_&v&Hv&_). by exists v.
      + rewrite Forall_forall in Hal. destruct (Hal q Hq) as [b Hb]. unfold alive. clear -Hb. subst s2.
        destruct (interest (basic q)) as [| | |?|?|?|?|c']; try by left; exists true.
        cbn in *. destruct (decide (c' = c)) as [->|Hne].
        * right. by rewrite lookup_delete, decide_True.
        * left. rewrite lookup_delete_ne by done. by exists b.
    - exists rw, w. destruct (Hstays rw Hrw) as (Hq&_). split_and!; try done; [by cbn; rewrite Hfd|].
      intros [b Hb]. revert Hb. rewrite Hint. subst s2. cbn. by rewrite lookup_delete, decide_True.
    - by apply Hord. }
  destruct (EpollEventLoop.refresh _ _ _ s2) as [res s3]. cbn [fst] in Hr. by subst res.
Qed.

Lemma epoll_server_use_after_free_witness :
  (main demo_visit 2 demo_started).2 = demo_left ∧
  (wait_next_event demo_visit (-1) demo_left).1 = Err (Undefined "use after free").
Proof.
  split; [vm_compute; reflexivity|].
  apply (epoll_server_use_after_free demo_visit demo_left [demo_rule 0 Always Accept Nothing Nothing listener In]
    (demo_rule 1 Always (OnReadable 1) (Disconnect 101) (CloseSocket 1) 1 In)
    [demo_rule 2 (WantsWrite 1) (OnWritable 1) Nothing Nothing 1 Out]
    (demo_rule 2 (WantsWrite 1) (OnWritable 1) Nothing Nothing 1 Out) 1 101
    (mkFDWrapper 101 true false true 1 0)); try (vm_compute; reflexivity).
  - intros. by exists x.
  - intros m n [v Hv]. cbn. apply list_elem_of_fmap. exists (n, v). split; [done|]. by apply elem_of_map_to_list.
  - constructor; [|constructor]. split; [done|]. eexists. by split_and!; [vm_compute|..].
  - constructor; [|constructor]. split; [done|]. eexists. by split_and!; [vm_compute|..].
  - repeat (constructor; [by eexists|]). constructor.
  - apply elem_of_app. right. by left.
  - vm_compute. by eexists.
Defined.
