(* ===== verification/Client.v ===== *)
(** The demo's line-driven client (src/demo/client.cpp): each line is sent as a
    message and the reply to it is read and printed. *)

From S2P Require Import Prelude Effects FileDescriptor Pipe Protocol.
From S2P Require Address Socket.

(** * The program *)

(** The socket and the buffer of what came in; [received] counts the bytes
    taken from the socket, [sent] holds the bytes given to it, and [shown] the
    bodies printed. *)
Record client : Type := mkClient {
  sock : FDWrapper;
  read_buffer : bytes;
  received : Z;
  sent : bytes;
  shown : list bytes;
  calls : nat;
}.

Section program.
(** The stream that comes in and what read(2) and writev(2) answer to each
    call, a read at its position in the stream. *)
Context (stream : Z → byte).
Context (answer : nat → Z → Z → syscall Z) (sys_writev : nat → list bytes → syscall Z).

Definition call : eff client nat :=
  λ s, (Ok (calls s), mkClient (sock s) (read_buffer s) (received s) (sent s) (shown s) (S (calls s))).
Definition on_socket {A} (m : eff FDWrapper A) : eff client A :=
  λ s, let '(r, w) := m (sock s) in (r, mkClient w (read_buffer s) (received s) (sent s) (shown s) (calls s)).
Definition set_buffer (b : bytes) : eff client () :=
  modify (λ s, mkClient (sock s) b (received s) (sent s) (shown s) (calls s)).
Definition give (b : bytes) : eff client () :=
  modify (λ s, mkClient (sock s) (read_buffer s) (received s) (sent s ++ b) (shown s) (calls s)).
Definition take_in (n : Z) : eff client () :=
  modify (λ s, mkClient (sock s) (read_buffer s) (received s + n) (sent s) (shown s) (calls s)).
Definition show (b : bytes) : eff client () :=
  modify (λ s, mkClient (sock s) (read_buffer s) (received s) (sent s) (shown s ++ [b]) (calls s)).

(** The loop that writes the message out; a write takes at least a byte. *)
Fixpoint send_loop (fuel : nat) (framed : bytes) : eff client () :=
  match fuel with
  | O => mthrow OutOfFuel
  | S fuel =>
      if bool_decide (framed = []) then mret ()
      else
        t ← call;
        n ← on_socket (FileDescriptor.write (sys_writev t) framed);
        if bool_decide (n = 0) then mthrow (Throw "write returned 0 on blocking socket")
        else give (ztake n framed) ;; send_loop fuel (zdrop n framed)
  end.
Definition send_message (msg : Message) : eff client () :=
  let framed := encode_message msg in send_loop (S (length framed)) framed.

(** [sock.read( chunk )]. *)
Definition read_chunk : eff client bytes :=
  t ← call;
  pos ← gets received;
  chunk ← on_socket (FileDescriptor.read (source_read stream pos (answer t pos)) []);
  take_in (zlen chunk) ;;
  mret chunk.

(** The message, or none when [false] is returned; [fuel] bounds the reads. *)
Fixpoint recv_one_message (fuel : nat) : eff client (option Message) :=
  match fuel with
  | O => mthrow OutOfFuel
  | S fuel =>
      b ← gets read_buffer;
      match try_parse_message b with
      | (ParseOk out, rest) => set_buffer rest ;; mret (Some out)
      | (Invalid, _) => mret None
      | (NeedMore, _) =>
          chunk ← read_chunk;
          if bool_decide (chunk = []) then mret None
          else b ← gets read_buffer; set_buffer (b ++ chunk) ;; recv_one_message fuel
      end
  end.

Definition request (line : bytes) : Message :=
  mkMessage (if bool_decide (line = literal "quit") then Quit else Echo) line.

(** The loop of [main] over the lines of the input. *)
Fixpoint session (fuel : nat) (lines : list bytes) : eff client () :=
  match lines with
  | [] => mret ()
  | line :: lines =>
      if bool_decide (line = []) then mret ()
      else
        let out := request line in
        send_message out ;;
        reply ← recv_one_message fuel;
        match reply with
        | None => mret ()
        | Some reply =>
            show (body reply) ;;
            if bool_decide (type out = Quit) then mret () else session fuel lines
        end
  end.
End program.

(** The connection that [main] makes first. *)
Section connecting.
Context `{Address.Resolver}.

Definition open_connection (socket : Z → Z → Z → syscall Z) (getfl : syscall Z) (connect : Z → bytes → Z → syscall Z)
    (getpeername : Z → Z → syscall (bytes * Z)) : result client :=
  w ← Socket.Socket.make socket getfl Address.AF_INET Socket.SOCK_STREAM 0;
  let '(r, w) :=
    (address ← lift (Address.Address.of_ip_port "127.0.0.1" 8080);
     Socket.Socket.connect connect address ;;
     peer ← Socket.Socket.peer_address getpeername;
     lift (Address.Address.to_string peer)) w in
  _ ← r; Ok (mkClient w [] 0 [] [] 0).
End connecting.

(** * A conversation *)

(** The messages sent when every one is answered. *)
Fixpoint until_empty (lines : list bytes) : list bytes :=
  match lines with
  | [] => []
  | line :: lines => if bool_decide (line = []) then [] else line :: until_empty lines
  end.
Definition asked (lines : list bytes) : list Message := until_quit (request <$> until_empty lines).

Lemma until_quit_elem m ms : m ∈ until_quit ms → m ∈ ms.
Proof.
  induction ms as [|q ms IH]; [done|]. cbn [until_quit]. rewrite elem_of_cons. case_bool_decide.
  - intros ->%list_elem_of_singleton. by left.
  - intros [->|Hm]%elem_of_cons; auto.
Qed.

(** What the server says to a message of the client. *)
Lemma asked_answers lines i m ctime :
  asked lines !! i = Some m →
  body (handle_message ctime m) = if bool_decide (type m = Quit) then literal "bye" else body m.
Proof.
  intros Hm%list_elem_of_lookup_2%until_quit_elem. apply list_elem_of_fmap in Hm as (line&->&_).
  unfold request, handle_message. cbn [type body]. by destruct (bool_decide (line = _)).
Qed.

Section conversation.
Context (stream : Z → byte) (total : Z).
Context (answer : nat → Z → Z → syscall Z) (sys_writev : nat → list bytes → syscall Z).
Implicit Types s : client.

(** The socket blocks: a read yields something until the end of the stream, and
    a write takes at least a byte. *)
Hypothesis answer_ok : ∀ t pos len, 0 ≤ pos ≤ total → 0 < len →
  ∃ m, answer t pos len = Returned m ∧ 0 ≤ m ≤ len ∧ pos + m ≤ total ∧ (m = 0 → pos = total).
Hypothesis writev_ok : ∀ t b, b ≠ [] → ∃ m, sys_writev t [b] = Returned m ∧ 1 ≤ m ≤ zlen b.

Abbreviation send_loop := (send_loop sys_writev).
Abbreviation read_chunk := (read_chunk stream answer).
Abbreviation recv := (recv_one_message stream answer).
Abbreviation session := (session stream answer sys_writev).

Lemma send_loop_ok fuel framed s : (length framed < fuel)%nat →
  ∃ s', send_loop fuel framed s = (Ok (), s') ∧ sent s' = sent s ++ framed ∧
    read_buffer s' = read_buffer s ∧ received s' = received s ∧ shown s' = shown s.
Proof.
  revert framed s. induction fuel as [|fuel IH]; intros framed s Hf; [lia|]. cbn [Client.send_loop].
  case_bool_decide as Hb; [subst; exists s; by rewrite app_nil_r|].
  rewrite bind_eq. unfold call. cbv beta iota. rewrite bind_eq. unfold on_socket. cbn [sock].
  destruct (writev_ok (calls s) framed Hb) as (m&Hm&Hr).
  destruct (sink_write_returns (sys_writev (calls s)) framed (sock s) m Hb Hm Hr) as [w ->].
  rewrite bool_decide_false by lia. rewrite bind_eq. cbn [give modify].
  edestruct (IH (zdrop m framed)) as (s'&->&Hs&Hrest).
  { unfold zdrop, zlen in *. rewrite length_drop. lia. }
  exists s'. split; [done|]. split; [|done]. rewrite Hs. cbn. by rewrite <- app_assoc, ztake_zdrop.
Qed.

Lemma send_message_ok msg s :
  ∃ s', send_message sys_writev msg s = (Ok (), s') ∧ sent s' = sent s ++ encode_message msg ∧
    read_buffer s' = read_buffer s ∧ received s' = received s ∧ shown s' = shown s.
Proof. apply send_loop_ok. lia. Qed.

Lemma read_chunk_ok s : 0 ≤ received s ≤ total →
  ∃ m s', read_chunk s = (Ok (slice stream (received s) m), s') ∧ 0 ≤ m ∧ received s + m ≤ total ∧
    (m = 0 → received s = total) ∧ received s' = received s + m ∧
    read_buffer s' = read_buffer s ∧ sent s' = sent s ∧ shown s' = shown s.
Proof.
  intros Hpos. unfold Client.read_chunk. rewrite bind_eq. unfold call. cbv beta iota. rewrite bind_eq.
  cbn [gets received]. rewrite bind_eq. unfold on_socket. cbn [sock].
  set (len := FileDescriptor.kReadBufferSize).
  destruct (answer_ok (calls s) (received s) len Hpos) as (m&Hm&Hr&Hle&Hend); [done|].
  assert (zlen (resize len []) = len) as Hlen by by rewrite zlen_resize.
  destruct (source_read_returns stream (received s) (answer (calls s) (received s)) (resize len []) (sock s) m)
    as [w Hw]; rewrite ?Hlen; [done|done|done|].
  change (FileDescriptor.read ?sys []) with (FileDescriptor.read sys (resize len [])). rewrite Hw.
  rewrite bind_eq. cbn [take_in modify mret eff_ret]. exists m. eexists. split; [done|].
  cbn. rewrite zlen_slice. split_and!; [lia|lia|done|lia|done..].
Qed.

(** What is still to be parsed: the replies [rs] and an incomplete message. *)
Definition ahead s (rs : list Message) (tail : bytes) : Prop :=
  0 ≤ received s ≤ total ∧ needs_more tail ∧ Forall msg_ok rs ∧
  read_buffer s ++ slice stream (received s) (total - received s) = concat (encode_message <$> rs) ++ tail.

Lemma recv_ok fuel s rs tail : ahead s rs tail → (Z.to_nat (total - received s) < fuel)%nat →
  ∃ s', recv fuel s = (Ok (head rs), s') ∧ ahead s' (tl rs) tail ∧ received s ≤ received s' ∧
    sent s' = sent s ∧ shown s' = shown s.
Proof.
  revert s. induction fuel as [|fuel IH]; intros s (Hpos&Ht&Hrs&Hin) Hf; [lia|]. cbn [recv_one_message].
  rewrite bind_eq. cbn [gets].
  assert (needs_more (read_buffer s) → (rs ≠ [] → received s < total) →
    ∃ s', (chunk ← read_chunk;
           if bool_decide (chunk = []) then mret None
           else b ← gets read_buffer; set_buffer (b ++ chunk) ;; recv fuel) s = (Ok (head rs), s') ∧
      ahead s' (tl rs) tail ∧ received s ≤ received s' ∧ sent s' = sent s ∧ shown s' = shown s) as Hmore.
  { intros Hn Hne. rewrite bind_eq. destruct (read_chunk_ok s Hpos) as (m&s1&->&Hm&Hle&Hend&Hr&Hb&Hs&Hsh).
    case_bool_decide as Hc.
    - assert (m = 0) as -> by (assert (zlen (slice stream (received s) m) = 0) as H0 by (by rewrite Hc); rewrite zlen_slice in H0; lia).
      specialize (Hend eq_refl). destruct rs; [|exfalso; specialize (Hne ltac:(done)); lia].
      exists s1. cbn [head tl mret eff_ret]. split_and!; try done; [|lia]. split; [lia|].
      split_and!; [done..|]. rewrite Hb. replace (received s1) with (received s) by lia. exact Hin.
    - assert (0 < m) by (destruct (decide (m = 0)) as [->|]; [by destruct Hc; apply slice_nil|lia]).
      rewrite bind_eq. cbn [gets]. rewrite bind_eq. cbn [set_buffer modify]. rewrite Hb.
      edestruct (IH (mkClient (sock s1) (read_buffer s ++ slice stream (received s) m) (received s1) (sent s1) (shown s1) (calls s1)))
        as (s'&->&Ha&Hr'&Hs'&Hsh').
      + split; [cbn; lia|]. split_and!; [done..|]. cbn [read_buffer received]. rewrite <- app_assoc, Hr.
        rewrite (slice_app' stream (received s) m), <- Hin by lia. do 2 f_equal. lia.
      + cbn. lia.
      + cbn in *. exists s'. split_and!; [done..|lia|congruence|congruence]. }
  destruct rs as [|r rs].
  { cbn [fmap list_fmap concat app] in Hin. assert (needs_more (read_buffer s)) as Hn.
    { rewrite <- Hin in Ht. by eapply needs_more_prefix. }
    specialize (Hmore Hn). rewrite Hn. by apply Hmore. }
  apply Forall_cons in Hrs as [Hr Hrs]. rewrite fmap_cons in Hin. cbn [concat] in Hin. rewrite <- app_assoc in Hin.
  destruct (first_message _ _ _ _ Hr Hin) as [(k&Hb&Hk)|[Hn Hne]].
  - rewrite Hb, parse_encode by done. rewrite bind_eq. cbn [set_buffer modify mret eff_ret head tl].
    eexists. split; [done|]. by split_and!.
  - specialize (Hmore Hn). rewrite Hn. apply Hmore. intros _.
    destruct (decide (received s = total)); [|lia]. destruct Hne. apply slice_nil. lia.
Qed.

Lemma session_runs fuel lines s rs tail : ahead s rs tail → (Z.to_nat (total - received s) < fuel)%nat →
  ∃ s', session fuel lines s = (Ok (), s') ∧
    shown s' = shown s ++ (body <$> take (length (asked lines)) rs) ∧
    sent s' = sent s ++ concat (encode_message <$> take (S (length rs)) (asked lines)).
Proof.
  revert s rs. induction lines as [|line lines IH]; intros s rs Ha Hf.
  { exists s. unfold asked. cbn. by rewrite !app_nil_r. }
  cbn [Client.session]. unfold asked. cbn [until_empty]. case_bool_decide as Hl.
  { exists s. cbn. by rewrite !app_nil_r. }
  rewrite bind_eq. destruct (send_message_ok (request line) s) as (s1&->&Hs1&Hb1&Hr1&Hsh1).
  assert (ahead s1 rs tail) as Ha1 by (unfold ahead; by rewrite Hb1, Hr1).
  rewrite bind_eq. destruct (recv_ok fuel s1 rs tail Ha1) as (s2&->&Ha2&Hr2&Hs2&Hsh2); [by rewrite Hr1|].
  rewrite fmap_cons. cbn [until_quit].
  destruct rs as [|r rs]; cbn [head tl] in *.
  { exists s2. split; [done|]. destruct (bool_decide (type (request line) = Quit)); cbn [length take firstn].
    all: by rewrite Hs2, Hs1, Hsh2, Hsh1, ?take_nil, !app_nil_r, fmap_cons; cbn [fmap list_fmap concat]; rewrite app_nil_r. }
  rewrite bind_eq. cbn [show modify]. set (s3 := mkClient _ _ _ _ _ _).
  destruct (bool_decide (type (request line) = Quit)).
  { exists s3. split; [done|]. cbn [length take firstn]. rewrite !fmap_cons. cbn. by rewrite Hs2, Hs1, Hsh2, Hsh1, ?app_nil_r. }
  destruct (IH s3 rs) as (s'&->&Hsh&Hs); [done|cbn; lia|].
  exists s'. split; [done|]. rewrite Hsh, Hs. subst s3. cbn [shown sent length take firstn]. rewrite !fmap_cons. cbn [concat].
  by rewrite Hs2, Hs1, Hsh2, Hsh1, <- !app_assoc.
Qed.
End conversation.

(** * Properties *)

(** C31: a conversation of the client, over a socket that blocks.  If what comes
    in is the encoded messages [rs] and an incomplete one, however it is cut into
    pieces, then the client ends without an exception, having sent the lines up
    to the first empty one or [quit] as messages, but for those after the first
    that is not replied to, and having printed the bodies of the replies in
    order; and if [rs] are what the server answers to these messages, it printed
    what it sent, and [bye] for [quit].  A read for each byte is enough. *)
Theorem client_conversation stream total answer sys_writev rs tail lines s fuel :
  (∀ t pos len, 0 ≤ pos ≤ total → 0 < len →
    ∃ m, answer t pos len = Returned m ∧ 0 ≤ m ≤ len ∧ pos + m ≤ total ∧ (m = 0 → pos = total)) →
  (∀ t b, b ≠ [] → ∃ m, sys_writev t [b] = Returned m ∧ 1 ≤ m ≤ zlen b) →
  0 ≤ total → slice stream 0 total = concat (encode_message <$> rs) ++ tail →
  Forall msg_ok rs → needs_more tail →
  read_buffer s = [] → received s = 0 → sent s = [] → shown s = [] → (Z.to_nat total < fuel)%nat →
  ∃ s', session stream answer sys_writev fuel lines s = (Ok (), s') ∧
    sent s' = concat (encode_message <$> take (S (length rs)) (asked lines)) ∧
    shown s' = body <$> take (length (asked lines)) rs ∧
    ∀ ctime, rs = handle_message ctime <$> asked lines →
      shown s' = (λ m, if bool_decide (type m = Quit) then literal "bye" else body m) <$> asked lines.
Proof.
  intros Ha Hw Htot Hin Hrs Ht Hb Hr Hs Hsh Hf.
  destruct (session_runs stream total answer sys_writev Ha Hw fuel lines s rs tail) as (s'&->&Hsh'&Hs').
  { split; [lia|]. split_and!; [done..|]. rewrite Hb, Hr. by rewrite Z.sub_0_r. }
  { by rewrite Hr, Z.sub_0_r. }
  exists s'. rewrite Hsh', Hs', Hs, Hsh. split_and!; [done..|]. intros ctime ->. cbn [app].
  rewrite take_ge by by rewrite length_fmap. rewrite <- list_fmap_compose.
  apply list_fmap_ext. intros i m Hm. unfold compose. by rewrite (asked_answers lines i m ctime Hm).
Qed.

(** The server's answers to two lines come in one byte at a time. *)
Definition demo_lines : list bytes := [literal "hello"; literal "quit"; literal "more"].
Definition demo_input : bytes := concat (encode_message <$> [mkMessage Echo (literal "hello"); mkMessage Quit (literal "bye")]).
Definition demo_stream (k : Z) : byte := default Byte.x00 (demo_input !! Z.to_nat k).
Definition demo_answer (t : nat) (pos len : Z) : syscall Z := Returned (Z.min 1 (Z.min len (zlen demo_input - pos))).
Definition demo_client : client := mkClient (mkFDWrapper 3 false false false 0 0) [] 0 [] [] 0.

Lemma client_conversation_witness :
  ∃ s', session demo_stream demo_answer (λ _ bs, Returned (zlen (concat bs))) 28 demo_lines demo_client = (Ok (), s') ∧
    shown s' = [literal "hello"; literal "bye"].
Proof.
  destruct (client_conversation demo_stream 24 demo_answer (λ _ bs, Returned (zlen (concat bs)))
    [mkMessage Echo (literal "hello"); mkMessage Quit (literal "bye")] [] demo_lines demo_client 28)
    as (s'&Hs&_&_&Hsh).
  - intros t pos len Hp Hl. unfold demo_answer. change (zlen demo_input) with 24. eexists. split; [done|]. lia.
  - intros t b Hb. exists (zlen b). cbn [concat]. rewrite app_nil_r. split; [done|].
    destruct b as [|x b]; [done|]. rewrite zlen_cons. pose proof (zlen_nonneg b). lia.
  - lia.
  - by vm_compute.
  - by repeat constructor.
  - done.
  - done.
  - done.
  - done.
  - done.
  - lia.
  - exists s'. split; [exact Hs|]. by rewrite (Hsh (literal "")).
Defined.
