(* ===== verification/Server.v ===== *)
(** The program of src/demo/server.cpp: [main] accepts connections and submits
    them to the pool, whose workers serve them.  Threads are program points, as
    in WorkerPool.v; a connection is known by the call of accept(2) that
    delivered it. *)

From S2P Require Import Prelude Effects FileDescriptor Address Protocol WorkerPool.
From S2P Require Socket.
Open Scope Z_scope.

Definition kWorkerCount : Z := 64.
Definition kQueueCapacity : Z := 256.

(** What the system answers; [reads n] is all that the n-th connection ever
    delivers, [write n] what its calls of write(2) take. *)
Record system : Type := mkSystem {
  sys_socket : Z → Z → Z → syscall Z;
  sys_getfl : Z → syscall Z;
  sys_setsockopt : Z → Z → Z → bytes → syscall Z;
  sys_bind : Z → bytes → Z → syscall Z;
  sys_listen : Z → Z → syscall Z;
  sys_getsockname : Z → Z → syscall (bytes * Z);
  sys_accept : nat → Z → syscall Z;
  sys_accepted_getfl : nat → Z → syscall Z;
  sys_getsockopt : nat → Z → Z → Z → syscall (Z * Z);
  sys_getpeername : nat → Z → Z → syscall (bytes * Z);
  reads : nat → list (bytes * bool);
  write : nat → nat → bytes → Z;
  ctime : nat → bytes;
}.

(** The n-th connection. *)
Definition connection : Type := nat * FDWrapper.

(** Where [main] is. *)
Inductive place : Type :=
  | Accepting
  | Submitting (call : nat)   (* in the call of [submit] of this number *)
  | Leaving                   (* out of the loop, about to destroy the pool *)
  | Joining                   (* waiting for the workers *)
  | Finished
  | Terminated (e : exn).     (* an exception has left [main] *)

Record program : Type := mkProgram {
  listener : FDWrapper;
  pool : WorkerPool connection;
  at_ : place;
  accepted : list connection;   (* what accept(2) delivered, in order *)
}.

Section server.
Context `{Resolver} (os : system).

(** Up to the loop. *)
Definition open_listener : result FDWrapper :=
  w ← match sys_socket os AF_INET Socket.SOCK_STREAM 0 with
      | Effects.Returned fd => Socket.Socket.make (sys_socket os) (sys_getfl os fd) AF_INET Socket.SOCK_STREAM 0
      | Failed _ => Err (unix_error "socket")
      end;
  let '(r, w) :=
    (Socket.Socket.set_reuseaddr (sys_setsockopt os) ;;
     address ← lift (Address.of_ip_port "0.0.0.0" 8080);
     Socket.Socket.bind (sys_bind os) address ;;
     Socket.TCPSocket.listen (sys_listen os) 16 ;;
     local ← Socket.Socket.local_address (sys_getsockname os);
     lift (Address.to_string local)) w in
  _ ← r; Ok w.

Definition start : result program :=
  listener ← open_listener;
  Ok (mkProgram listener (WorkerPool.new kWorkerCount kQueueCapacity) Accepting []).

(** [listener.accept()], the n-th time. *)
Definition accept (n : nat) : eff FDWrapper FDWrapper :=
  Socket.TCPSocket.accept (sys_accept os n) (sys_accepted_getfl os n) (sys_getsockopt os n).

(** [serve_client]: the peer's name, then the conversation. *)
Definition serve (c : connection) : result (ending * Serving) :=
  let '(n, client) := c in
  _ ← ((address ← Socket.Socket.peer_address (sys_getpeername os n); lift (Address.to_string address)) client).1;
  Ok (serve_client (ctime os n) (write os n) (reads os n)).

(** Whether the handler returns or throws in the end: a worker stays with a
    client that says nothing more and does not leave. *)
Definition ends (c : connection) : bool :=
  match serve c with Ok (Reading, _) => false | _ => true end.

(** What wakes a waiter without a cause. *)
Inductive wakes : WorkerPool connection → WorkerPool connection → Prop :=
  | wakes_worker q ws ps acc hd cl i :
      ws !! i = Some Waiting → wakes (mkWorkerPool q ws ps acc hd cl) (mkWorkerPool q (<[i := Popping]> ws) ps acc hd cl)
  | wakes_submission q ws ps acc hd cl i x :
      ps !! i = Some (Blocked x) →
      wakes (mkWorkerPool q ws ps acc hd cl) (mkWorkerPool q ws (<[i := Pushing x]> ps) acc hd cl).

(** A call of [submit] begins; the queue is closed. *)
Definition submit (c : connection) (p : WorkerPool connection) : WorkerPool connection :=
  mkWorkerPool (queue_ p) (workers_ p) (submissions_ p ++ [Pushing c]) (accepted_ p) (handled_ p) (closing_ p).
Definition close (p : WorkerPool connection) : WorkerPool connection :=
  mkWorkerPool (BoundedBlockingQueue.close (queue_ p)) (workers_ p) (submissions_ p) (accepted_ p) (handled_ p) (S (closing_ p)).

(** A step of [main] at its place. *)
Inductive main_step (s : program) : program → Prop :=
  | main_accepts client l :
      at_ s = Accepting → accept (length (accepted s)) (listener s) = (Ok client, l) →
      main_step s (mkProgram l (submit (length (accepted s), client) (pool s)) (Submitting (length (submissions_ (pool s))))
        (accepted s ++ [(length (accepted s), client)]))
  | main_throws e l :
      at_ s = Accepting → accept (length (accepted s)) (listener s) = (Err e, l) →
      main_step s (mkProgram l (pool s) (Terminated e) (accepted s))
  | main_continues i :
      at_ s = Submitting i → submissions_ (pool s) !! i = Some (WorkerPool.Returned true) →
      main_step s (mkProgram (listener s) (pool s) Accepting (accepted s))
  | main_breaks i :
      at_ s = Submitting i → submissions_ (pool s) !! i = Some (WorkerPool.Returned false) →
      main_step s (mkProgram (listener s) (pool s) Leaving (accepted s))
  | main_closes :
      at_ s = Leaving → main_step s (mkProgram (listener s) (close (pool s)) Joining (accepted s))
  | main_joins :
      at_ s = Joining → Forall (λ w, w = WorkerPool.Exited) (workers_ (pool s)) →
      main_step s (mkProgram (listener s) (pool s) Finished (accepted s)).

(** Whether the process runs. *)
Definition running (p : place) : bool := match p with Finished | Terminated _ => false | _ => true end.

(** What the process does by itself: a step of [main], or of a thread of the
    pool, where a handler is left only once its conversation is over. *)
Inductive moves (s : program) : program → Prop :=
  | moves_main s' : main_step s s' → moves s s'
  | moves_pool p :
      running (at_ s) = true → WorkerPool.step (pool s) p →
      (∀ c, handled_ p = handled_ (pool s) ++ [c] → ends c = true) →
      moves s (mkProgram (listener s) p (at_ s) (accepted s)).

Inductive step (s : program) : program → Prop :=
  | step_moves s' : moves s s' → step s s'
  | step_wakes p :
      running (at_ s) = true → wakes (pool s) p → step s (mkProgram (listener s) p (at_ s) (accepted s)).

Definition reachable (s : program) : Prop := ∃ s0, start = Ok s0 ∧ rtc step s0 s.
End server.

(** * The invariant *)

(** The connections in calls of [submit] that have not returned. *)
Definition call (p : submission connection) : list connection :=
  match p with Pushing c | Blocked c => [c] | WorkerPool.Returned _ => [] end.
Definition outstanding (ps : list (submission connection)) : list connection := ps ≫= call.
Arguments outstanding : simpl never.

Lemma outstanding_same ps i p p' : ps !! i = Some p → call p' = call p → outstanding (<[i := p']> ps) = outstanding ps.
Proof.
  revert i. unfold outstanding. induction ps as [|q ps IH]; intros [|i] Hi Hc; try done; cbn in *.
  - injection Hi as ->. by rewrite Hc.
  - f_equal. by apply IH.
Qed.

Lemma outstanding_none ps : (∀ j p, ps !! j = Some p → call p = []) → outstanding ps = [].
Proof.
  unfold outstanding. induction ps as [|p ps IH]; intros Hn; [done|]. rewrite bind_cons, (Hn 0%nat p) by done.
  apply IH. intros j q Hj. by apply (Hn (S j)).
Qed.

(** All that is outstanding is in the i-th call. *)
Lemma outstanding_only ps i p :
  ps !! i = Some p → (∀ j q, j ≠ i → ps !! j = Some q → call q = []) → outstanding ps = call p.
Proof.
  intros Hi Ho. rewrite <- (take_drop_middle ps i p Hi). unfold outstanding. rewrite bind_app, bind_cons.
  pose proof (lookup_lt_Some _ _ _ Hi). fold (outstanding (take i ps)) (outstanding (drop (S i) ps)).
  rewrite !outstanding_none; [by rewrite app_nil_r| |].
  - intros j q Hj. rewrite lookup_drop in Hj. apply (Ho (S i + j)%nat); [lia|done].
  - intros j q Hj. pose proof (lookup_lt_Some _ _ _ Hj) as Hl. rewrite length_take in Hl.
    rewrite lookup_take_lt in Hj by lia. apply (Ho j); [lia|done].
Qed.

Lemma outstanding_snoc ps c : outstanding (ps ++ [Pushing c]) = outstanding ps ++ [c].
Proof. unfold outstanding. by rewrite bind_app. Qed.

Lemma length_in_hand {T} (ws : list (worker T)) : (length (in_hand ws) ≤ length ws)%nat.
Proof.
  unfold in_hand. induction ws as [|w ws IH]; [done|]. rewrite bind_cons, length_app. cbn [length].
  assert (length (hand w) ≤ 1)%nat by by destruct w; cbn; lia. lia.
Qed.

Section invariant.
Context `{Resolver} (os : system).

(** The calls of [submit], and what the pool has taken, while [main] is at a
    place. *)
Record calls_ok (at_ : place) (accepted : list connection) (p : WorkerPool connection) : Prop := mkCallsOk {
  co_open : WorkerPool.closed_ (queue_ p) = false ∧ closing_ p = 0%nat;
  co_accepted : accepted = accepted_ p ++ outstanding (submissions_ p);
  co_place : match at_ with
    | Accepting | Terminated _ => True
    | Submitting i => ∃ x, submissions_ p !! i = Some x
    | _ => False
    end;
  co_calls j x : submissions_ p !! j = Some x → x = WorkerPool.Returned true ∨ at_ = Submitting j;
  co_taken j : submissions_ p !! j ≠ Some (WorkerPool.Returned false);
}.

Record ok (s : program) : Prop := mkOk {
  ok_pool : WorkerPool.reachable kWorkerCount kQueueCapacity (pool s);
  ok_calls : calls_ok (at_ s) (accepted s) (pool s);
  ok_numbers : (accepted s).*1 = seq 0 (length (accepted s));
  ok_handled : Forall (λ c, ends os c = true) (handled_ (pool s));
}.

(** A call goes to sleep or is woken. *)
Lemma calls_moved at_ accepted q ws ps acc hd q' ws' hd' i c x x' :
  calls_ok at_ accepted (mkWorkerPool q ws ps acc hd 0) → WorkerPool.closed_ q' = false →
  ps !! i = Some x → call x = [c] → call x' = [c] →
  calls_ok at_ accepted (mkWorkerPool q' ws' (<[i := x']> ps) acc hd' 0).
Proof.
  intros [_ Ha Hp Hc Ht] Hq Hi Hx Hx'. assert (i < length ps)%nat as Hl by by eapply lookup_lt_Some.
  split; cbn in *; [done| | | |].
  - rewrite Ha. by erewrite outstanding_same; [|done|congruence].
  - destruct at_ as [|j| | | |]; try done. destruct Hp as [y Hy]. destruct (decide (i = j)) as [->|Hn].
    + exists x'. by rewrite list_lookup_insert_eq.
    + exists y. by rewrite list_lookup_insert_ne.
  - intros j y. destruct (decide (i = j)) as [->|Hn].
    + intros _. destruct (Hc j x Hi) as [->|?]; [done|auto].
    + rewrite list_lookup_insert_ne by done. apply Hc.
  - intros j. destruct (decide (i = j)) as [->|Hn].
    + rewrite list_lookup_insert_eq by done. intros [= ->]. done.
    + rewrite list_lookup_insert_ne by done. apply Ht.
Qed.

(** A call is taken. *)
Lemma calls_taken at_ accepted q ws ps acc hd q' ws' i c :
  calls_ok at_ accepted (mkWorkerPool q ws ps acc hd 0) → WorkerPool.closed_ q' = false →
  ps !! i = Some (Pushing c) →
  calls_ok at_ accepted (mkWorkerPool q' ws' (<[i := WorkerPool.Returned true]> ps) (acc ++ [c]) hd 0).
Proof.
  intros [_ Ha Hp Hc Ht] Hq Hi. assert (i < length ps)%nat as Hl by by eapply lookup_lt_Some. cbn in *.
  assert (at_ = Submitting i) as -> by (destruct (Hc i _ Hi); done).
  assert (∀ j y, j ≠ i → ps !! j = Some y → y = WorkerPool.Returned true) as Ho.
  { intros j y Hj Hy. destruct (Hc j y Hy) as [|[= ->]]; done. }
  split; cbn; [done| | | |].
  - rewrite Ha, (outstanding_only ps i _ Hi) by (intros j y Hj Hy; by rewrite (Ho j y Hj Hy)).
    rewrite (outstanding_only _ i (WorkerPool.Returned true)); [by rewrite app_nil_r|by rewrite list_lookup_insert_eq|].
    intros j y Hj. rewrite list_lookup_insert_ne by done. intros Hy. by rewrite (Ho j y Hj Hy).
  - exists (WorkerPool.Returned true). by rewrite list_lookup_insert_eq.
  - intros j y. destruct (decide (j = i)) as [->|Hn]; [auto|].
    rewrite list_lookup_insert_ne by done. intros Hy. left. by apply (Ho j).
  - intros j. destruct (decide (j = i)) as [->|Hn]; [by rewrite list_lookup_insert_eq|].
    rewrite list_lookup_insert_ne by done. apply Ht.
Qed.

(** At most one call is under way. *)
Lemma outstanding_small at_ ps :
  (∀ j x, ps !! j = Some x → x = WorkerPool.Returned true ∨ at_ = Submitting j) → (length (outstanding ps) ≤ 1)%nat.
Proof.
  intros Hc. assert (∀ j x, ps !! j = Some x → at_ ≠ Submitting j → call x = []) as Hno.
  { intros j x Hj Ha. by destruct (Hc j x Hj) as [->|?]. }
  assert (outstanding ps = [] ∨ ∃ i x, ps !! i = Some x ∧ outstanding ps = call x) as [->|(i&x&_&->)]; [|cbn; lia|by destruct x; cbn; lia].
  destruct at_ as [|i| | | |]; [|destruct (ps !! i) as [x|] eqn:Hx|..].
  1,3-7: left; apply outstanding_none; intros j y Hj; apply (Hno j y Hj); congruence.
  right. exists i, x. split; [done|]. apply (outstanding_only _ _ _ Hx). intros j y Hji Hj. apply (Hno j y Hj). congruence.
Qed.

(** The threads of the pool keep what is known of the calls, and nothing but a
    finished handler adds to what was handled. *)
Lemma pool_step_calls at_ accepted p p' :
  calls_ok at_ accepted p → WorkerPool.step p p' →
  calls_ok at_ accepted p' ∧ (handled_ p' = handled_ p ∨ ∃ c, handled_ p' = handled_ p ++ [c]).
Proof.
  intros Hok Hs. destruct (co_open _ _ _ Hok) as [Ho Hcl].
  destruct Hs as [q ws ps acc hd cl i x q' ps' Hi Hp Hn|q ws ps acc hd cl i q' Hi Hp|q ws ps acc hd cl i Hi Hp
    |q ws ps acc hd cl i x Hi|q ws ps acc hd cl i x q' ws' Hi Hp Hn|q ws ps acc hd cl i x q' Hi Hp
    |q ws ps acc hd cl i x Hi Hp|q ws ps acc hd cl]; cbn in *; subst;
    try pose proof (pop_inv q) as Hq; try pose proof (push_inv x q) as Hq2; rewrite ?Hp in *.
  - destruct Hq as (_&_&Hq). split; [|by left]. destruct Hn as [[-> _]|(j&y&Hj&->)].
    + destruct Hok. split; cbn in *; try done. by rewrite Hq.
    + eapply calls_moved; [exact Hok|by rewrite Hq|exact Hj|done..].
  - destruct Hq as (->&_&?). congruence.
  - split; [|by left]. by destruct Hok; split.
  - split; [|right; by eexists]. by destruct Hok; split.
  - destruct Hq2 as (_&_&Hq2&_). split; [|by left]. by eapply calls_taken.
  - destruct Hq2 as (->&?). congruence.
  - split; [|by left]. by eapply calls_moved.
  - done.
Qed.

Lemma ok_start s : start os = Ok s → ok s.
Proof.
  unfold start. intros (w&_&[= <-])%bind_Ok. split; cbn; [apply WorkerPool.reachable_new| |done|done].
  by split.
Qed.

Lemma ok_step s s' : ok s → step os s s' → ok s'.
Proof.
  intros [Hr Hc Hn Hh] Hs. destruct Hs as [s' [s1 Hm|p Hrun Hp He]|p Hrun Hw].
  - destruct Hm as [client l Ha _|e l Ha _|i Ha Hi|i Ha Hi|Ha|Ha _]; rewrite Ha in Hc.
    2-6: destruct Hc as [Ho Hac Hpl Hca Ht]; try done; try (by destruct (Ht i)).
    + split; cbn [pool at_ accepted]; [|..|done].
      * eapply WorkerPool.reachable_event; [exact Hr|]. destruct (pool s). apply WorkerPool.event_submit.
      * destruct Hc as [Ho Hac _ Hca Ht]. split; cbn; [done| | | |].
        -- by rewrite outstanding_snoc, app_assoc, <- Hac.
        -- exists (Pushing (length (accepted s), client)). by apply list_lookup_middle.
        -- intros j x [[Hj Hx]|[-> <-]]%lookup_snoc_Some; [|auto]. destruct (Hca j x Hx) as [->|]; [auto|done].
        -- intros j [[Hj Hx]|[-> [=]]]%lookup_snoc_Some. by destruct (Ht j).
      * by rewrite fmap_app, Hn, length_app, seq_app.
    + split; cbn [pool at_ accepted]; try done. split; try done.
      intros j x Hx. destruct (Hca j x Hx) as [->|]; [auto|done].
    + split; cbn [pool at_ accepted]; try done. split; try done.
      intros j x Hx. destruct (Hca j x Hx) as [->|[= ->]]; [auto|]. left. congruence.
  - destruct (pool_step_calls _ _ _ _ Hc Hp) as [Hc' Hh'].
    split; cbn [pool at_ accepted]; [by eapply WorkerPool.reachable_step|done|done|].
    destruct Hh' as [->|[c Hx]]; [done|]. rewrite Hx. apply Forall_app. split; [done|]. constructor; [by apply He|done].
  - assert (calls_ok (at_ s) (accepted s) p ∧ WorkerPool.event (pool s) p ∧ handled_ p = handled_ (pool s)) as (Hc'&Hev&Hh').
    { destruct (co_open _ _ _ Hc) as [Ho Hcl]. destruct Hw as [q ws ps acc hd cl i Hi|q ws ps acc hd cl i x Hi]; cbn in *; subst.
      - split_and!; [by destruct Hc; split|by apply WorkerPool.event_wake_worker|done].
      - split_and!; [by eapply calls_moved|by apply WorkerPool.event_wake_submission|done]. }
    split; cbn [pool at_ accepted]; [by eapply WorkerPool.reachable_event|done|done|by rewrite Hh'].
Qed.

Lemma ok_reachable s : reachable os s → ok s.
Proof.
  intros (s0&H0%ok_start&Hs). induction Hs as [s|s1 s2 s3 Hs _ IH]; [done|]. apply IH. by eapply ok_step.
Qed.
End invariant.

(** * Being stuck *)

(** A worker that serves a client which says nothing more. *)
Definition held `{Resolver} (os : system) (w : worker connection) : Prop := ∃ c, w = Handling c ∧ ends os c = false.

Section stuck.
Context `{Resolver} (os : system).

(** The pool can move, unless all its workers are held and its calls asleep. *)
Lemma pool_moves at_ accepted p :
  calls_ok at_ accepted p → (∀ p', WorkerPool.step p p' → ∃ c, handled_ p' = handled_ p ++ [c] ∧ ends os c = false) →
  Forall (λ w, held os w ∨ w = Waiting ∨ w = WorkerPool.Exited) (workers_ p) ∧
  (∀ i x, submissions_ p !! i ≠ Some (Pushing x)).
Proof.
  destruct p as [q ws ps acc hd cl]. intros Hok Hno. cbn in *.
  assert (∀ (l : list connection) c, l ≠ l ++ [c]) as Hl.
  { intros l c Hl. apply (f_equal length) in Hl. rewrite length_app in Hl. cbn in Hl. lia. }
  split.
  - apply Forall_forall. intros w (i&Hi)%list_elem_of_lookup. destruct w as [| |c|]; [exfalso|auto|left|auto].
    + destruct (BoundedBlockingQueue.pop q) as [[[x|] q']|] eqn:Hp.
      * destruct (notify_submission_total ps) as [ps' Hn].
        destruct (Hno _ (WorkerPool.step_take q ws ps acc hd cl i x q' ps' Hi Hp Hn)) as (c&Hc&_). by apply (Hl hd c).
      * destruct (Hno _ (WorkerPool.step_exit q ws ps acc hd cl i q' Hi Hp)) as (c&Hc&_). by apply (Hl hd c).
      * destruct (Hno _ (WorkerPool.step_wait q ws ps acc hd cl i Hi Hp)) as (c&Hc&_). by apply (Hl hd c).
    + destruct (Hno _ (WorkerPool.step_handled q ws ps acc hd cl i c Hi)) as (c'&[_ <-]%app_inj_tail&He). by exists c.
  - intros i x Hi. destruct (BoundedBlockingQueue.push x q) as [[[] q']|] eqn:Hp.
    + destruct (notify_worker_total ws) as [ws' Hn].
      destruct (Hno _ (WorkerPool.step_push q ws ps acc hd cl i x q' ws' Hi Hp Hn)) as (c&Hc&_). by apply (Hl hd c).
    + destruct (Hno _ (WorkerPool.step_reject q ws ps acc hd cl i x q' Hi Hp)) as (c&Hc&_). by apply (Hl hd c).
    + destruct (Hno _ (WorkerPool.step_block q ws ps acc hd cl i x Hi Hp)) as (c&Hc&_). by apply (Hl hd c).
Qed.

(** The program stops only when the queue is full, every worker is held, and
    [main] is blocked in [submit]. *)
Lemma stuck_saturated s :
  ok os s → (∀ s', ¬ moves os s s') → (∀ e, at_ s ≠ Terminated e) →
  (∃ i c, at_ s = Submitting i ∧ submissions_ (pool s) !! i = Some (Blocked c)) ∧
  zlen (q_ (queue_ (pool s))) = kQueueCapacity ∧ zlen (workers_ (pool s)) = kWorkerCount ∧
  Forall (held os) (workers_ (pool s)).
Proof.
  intros [Hr Hc _ _] Hno Hrun. destruct (reachable_pool_ok _ _ _ Hr) as [_ Hb _ Hl Hw Hbl He].
  destruct (co_open _ _ _ Hc) as [Ho Hcl]. specialize (Hw Hcl). specialize (Hbl Hcl). rewrite Ho in *.
  assert (∃ i, at_ s = Submitting i) as [i Hi].
  { destruct (at_ s) as [|i| | | |e] eqn:Ha; [|by eexists|by destruct (co_place _ _ _ Hc)..|by destruct (Hrun e)].
    destruct (accept os (length (accepted s)) (listener s)) as [[client|e] l] eqn:Hacc; exfalso; eapply Hno, moves_main.
    - by eapply main_accepts.
    - by eapply main_throws. }
  destruct (pool_moves _ _ _ Hc) as [Hws Hps].
  { intros p' Hp. destruct (pool_step_calls _ _ _ _ Hc Hp) as [_ [Hh|[c Hh]]].
    - destruct (Hno (mkProgram (listener s) p' (at_ s) (accepted s))). apply moves_pool; [by rewrite Hi|done|].
      intros c Hc'. rewrite Hh in Hc'. apply (f_equal length) in Hc'. rewrite length_app in Hc'. cbn in Hc'. lia.
    - exists c. split; [done|]. destruct (ends os c) eqn:Hend; [|done].
      destruct (Hno (mkProgram (listener s) p' (at_ s) (accepted s))). apply moves_pool; [by rewrite Hi|done|].
      intros c' Hc'. rewrite Hh in Hc'. apply app_inj_tail in Hc' as [_ ->]. done. }
  assert (∃ c, submissions_ (pool s) !! i = Some (Blocked c)) as [c Hbk].
  { pose proof (co_place _ _ _ Hc) as Hpl. rewrite Hi in Hpl. destruct Hpl as [[x|c|[]] Hx]; [by destruct (Hps i x)|by eexists| |].
    - exfalso. by eapply Hno, moves_main, main_continues.
    - by destruct (co_taken _ _ _ Hc i). }
  assert (zlen (q_ (queue_ (pool s))) = kQueueCapacity) as Hfull.
  { destruct Hbl as [_ Hroom]; [pose proof (count_pos is_blocked _ _ _ Hbk eq_refl); lia|].
    rewrite (count_none is_pushing) in Hroom; [unfold kQueueCapacity in *; lia|].
    intros j x Hj. destruct x; [by destruct (Hps j item)|done..]. }
  assert (count is_popping (workers_ (pool s)) = 0) as Hpop.
  { apply count_none. intros j w Hj. destruct (Forall_lookup_1 _ _ _ _ Hws Hj) as [(?&->&_)|[->| ->]]; done. }
  split; [by exists i, c|]. split; [done|]. split; [unfold zlen; rewrite Hl; done|].
  apply Forall_lookup. intros j w Hj. destruct (Forall_lookup_1 _ _ _ _ Hws Hj) as [?|[->| ->]]; [done|exfalso..].
  - destruct Hw as [_ Hx]; [pose proof (count_pos is_waiting _ _ _ Hj eq_refl); lia|]. unfold kQueueCapacity in *. lia.
  - destruct He as [? _]; [pose proof (count_pos is_exited _ _ _ Hj eq_refl); lia|done].
Qed.
End stuck.

(** * Properties *)

(** C26: the blocking server, in every interleaving of [main] and its workers: [main] never
    leaves its loop but by an exception of accept(2), for no [submit] is refused; every
    connection accepted is, once, with a worker, served, queued (in the order
    of arrival) or in the one call of [submit] under way, with at most 64 being
    served and 256 queued; a connection counts as served only when its
    conversation is over; and the program stands still only when all is
    saturated: the queue full, [main] blocked in [submit] with one more
    connection, and each of the 64 workers waiting for a client that says
    nothing more. *)
Theorem server_serves `{Resolver} (os : system) s :
  reachable os s →
  (at_ s = Accepting ∨ (∃ i, at_ s = Submitting i) ∨ ∃ e, at_ s = Terminated e) ∧
  (∃ taken pending,
    accepted s = taken ++ q_ (queue_ (pool s)) ++ pending ∧ (length pending ≤ 1)%nat ∧
    taken ≡ₚ handled_ (pool s) ++ in_hand (workers_ (pool s))) ∧
  NoDup (accepted s).*1 ∧
  zlen (in_hand (workers_ (pool s))) ≤ kWorkerCount ∧ zlen (q_ (queue_ (pool s))) ≤ kQueueCapacity ∧
  Forall (λ c, ends os c = true) (handled_ (pool s)) ∧
  ((∀ s', ¬ moves os s s') → (∀ e, at_ s ≠ Terminated e) →
    (∃ i c, at_ s = Submitting i ∧ submissions_ (pool s) !! i = Some (Blocked c)) ∧
    zlen (q_ (queue_ (pool s))) = kQueueCapacity ∧ zlen (workers_ (pool s)) = kWorkerCount ∧
    Forall (held os) (workers_ (pool s))).
Proof.
  intros Hs%ok_reachable. split_and!; [| | | | | |by apply stuck_saturated].
  all: destruct Hs as [Hr [_ Ha Hp Hc _] Hn Hh]; destruct (reachable_pool_ok _ _ _ Hr) as [_ Hb (taken&Ht&Htk) Hl _ _ _].
  - destruct (at_ s); naive_solver.
  - exists taken, (outstanding (submissions_ (pool s))). split; [by rewrite Ha, Ht, app_assoc|]. split; [|done].
    by apply outstanding_small with (at_ s).
  - rewrite Hn. apply NoDup_seq.
  - pose proof (length_in_hand (workers_ (pool s))). unfold zlen. rewrite Hl in *. unfold kWorkerCount in *. lia.
  - by unfold kQueueCapacity in *.
  - done.
Qed.

(** ** A flood *)

(** Connections without end, whose clients say nothing. *)
Definition flood : system := {|
  sys_socket _ _ _ := Effects.Returned 4;
  sys_getfl _ := Effects.Returned 2;
  sys_setsockopt _ _ _ _ := Effects.Returned 0;
  sys_bind _ _ _ := Effects.Returned 0;
  sys_listen _ _ := Effects.Returned 0;
  sys_getsockname _ _ := Effects.Returned (sockaddr_in 0 8080, SOCKADDR_IN_SIZE);
  sys_accept n _ := Effects.Returned (5 + Z.of_nat n);
  sys_accepted_getfl _ _ := Effects.Returned 2;
  sys_getsockopt _ := Socket.tcp_option;
  sys_getpeername _ _ _ := Effects.Returned (sockaddr_in 167772162 4000, SOCKADDR_IN_SIZE);
  reads _ := [];
  write _ _ s := zlen s;
  ctime _ := [];
|}.

#[local] Existing Instance DottedQuad.resolver.

Definition client (n : nat) : connection := (n, mkFDWrapper (5 + Z.of_nat n) false false false 0 0).

Lemma flood_accepts n l : ∃ l', accept flood n l = (Ok (client n).2, l').
Proof.
  assert (accept flood n l = (Socket.TCPSocket.of_number (sys_accepted_getfl flood n) Socket.tcp_option (5 + Z.of_nat n), counted_read l))
    as -> by done.
  destruct (Socket.of_number_ok (sys_accepted_getfl flood n) Socket.tcp_option (5 + Z.of_nat n) 2) as [[_ Hok] _];
    [lia|done|done|]. rewrite Hok by by vm_compute. by eexists.
Qed.

Lemma flood_held n : ends flood (client n) = false.
Proof. unfold ends, serve, client. by vm_compute. Qed.

(** Nobody has been served yet, and [main] accepts. *)
Definition crowd (l : FDWrapper) (q : list connection) (ws : list (worker connection)) (n : nat) : program :=
  mkProgram l
    (mkWorkerPool (mkBoundedBlockingQueue q kQueueCapacity false) ws (replicate n (WorkerPool.Returned true)) (client <$> seq 0 n) [] 0)
    Accepting (client <$> seq 0 n).

(** The next connection goes into the queue. *)
Lemma flood_queues l q ws n :
  zlen q < kQueueCapacity → Waiting ∉ ws → ∃ l', rtc (step flood) (crowd l q ws n) (crowd l' (q ++ [client n]) ws (S n)).
Proof.
  intros Hq Hws. destruct (flood_accepts n l) as [l' Hl]. exists l'.
  assert (length (client <$> seq 0 n) = n) as Hn by by rewrite length_fmap, length_seq.
  assert (length (replicate n (@WorkerPool.Returned connection true)) = n) as Hps by by rewrite length_replicate.
  eapply rtc_l; [eapply step_moves, moves_main, (main_accepts _ _ (client n).2 l'); cbn [at_ accepted crowd listener]; by rewrite ?Hn|].
  cbn [accepted crowd pool]. rewrite Hn. unfold submit. cbn [queue_ workers_ submissions_ accepted_ handled_ closing_]. rewrite Hps.
  eapply rtc_l.
  { apply step_moves, moves_pool; [done| |].
    - cbn [pool]. apply (WorkerPool.step_push _ _ _ _ _ _ n (client n) (mkBoundedBlockingQueue (q ++ [client n]) kQueueCapacity false) ws).
      + by apply list_lookup_middle.
      + unfold BoundedBlockingQueue.push. cbn [q_ capacity_ WorkerPool.closed_]. by rewrite bool_decide_true.
      + left. split; [done|]. intros i Hi. by apply Hws, (list_elem_of_lookup_2 _ i).
    - cbn. intros c Hc. by apply (f_equal length) in Hc. }
  cbn [at_ accepted listener]. rewrite insert_app_r_alt, Hps, Nat.sub_diag by by rewrite Hps.
  eapply rtc_l; [eapply step_moves, moves_main, (main_continues _ _ n); [done|by apply list_lookup_middle]|].
  cbn [listener pool accepted]. unfold crowd. rewrite seq_S, fmap_app, replicate_S_end. apply rtc_refl.
Qed.

(** A worker takes it. *)
Lemma flood_taken l c ws n i :
  ws !! i = Some Popping → step flood (crowd l [c] ws n) (crowd l [] (<[i := Handling c]> ws) n).
Proof.
  intros Hi. apply step_moves, (moves_pool flood (crowd l [c] ws n)); [done| |].
  - apply (WorkerPool.step_take _ _ _ _ _ _ i c (mkBoundedBlockingQueue [] kQueueCapacity false)); [done|done|].
    left. split; [done|]. intros j x [? _]%lookup_replicate. done.
  - cbn. intros c' Hc. by apply (f_equal length) in Hc.
Qed.

(** So many workers are held, the others are free. *)
Definition crew (n : nat) : list (worker connection) := (Handling ∘ client <$> seq 0 n) ++ replicate (64 - n) Popping.

Lemma crew_awake n : Waiting ∉ crew n.
Proof.
  unfold crew. rewrite elem_of_app, list_elem_of_fmap. intros [(?&[=]&_)|[[=] _]%elem_of_replicate].
Qed.

Lemma flood_served n l : (n ≤ 64)%nat → ∃ l', rtc (step flood) (crowd l [] (crew 0) 0) (crowd l' [] (crew n) n).
Proof.
  induction n as [|n IH]; intros Hn; [by exists l|]. destruct IH as [l1 H1]; [lia|].
  destruct (flood_queues l1 [] (crew n) n) as [l2 H2]; [done|apply crew_awake|]. exists l2.
  etrans; [exact H1|]. etrans; [exact H2|]. apply rtc_once.
  assert (crew (S n) = <[n := Handling (client n)]> (crew n)) as ->.
  { unfold crew. assert (length (Handling ∘ client <$> seq 0 n) = n) as Hl by by rewrite length_fmap, length_seq.
    rewrite insert_app_r_alt, Hl, Nat.sub_diag by by rewrite Hl. rewrite seq_S, fmap_app, <- app_assoc. f_equal.
    by replace (64 - n)%nat with (S (64 - S n)) by lia. }
  apply (flood_taken l2 (client n) (crew n) (S n) n). unfold crew.
  replace (64 - n)%nat with (S (64 - S n)) by lia. cbn [replicate]. apply list_lookup_middle. by rewrite length_fmap, length_seq.
Qed.

Lemma flood_waits m l : (m ≤ 256)%nat →
  ∃ l', rtc (step flood) (crowd l [] (crew 64) 64) (crowd l' (client <$> seq 64 m) (crew 64) (64 + m)).
Proof.
  induction m as [|m IH]; intros Hm; [by exists l|]. destruct IH as [l1 H1]; [lia|].
  destruct (flood_queues l1 (client <$> seq 64 m) (crew 64) (64 + m)) as [l2 H2]; [|apply crew_awake|].
  { rewrite zlen_fmap. unfold zlen, kQueueCapacity. rewrite length_seq. lia. }
  exists l2. etrans; [exact H1|]. rewrite seq_S, fmap_app, Nat.add_succ_r. exact H2.
Qed.

(** 64 clients are being served, 256 wait in the queue, [main] has one more. *)
Definition jam (l : FDWrapper) : program :=
  mkProgram l
    (mkWorkerPool (mkBoundedBlockingQueue (client <$> seq 64 256) kQueueCapacity false) (crew 64)
       (replicate 320 (WorkerPool.Returned true) ++ [Blocked (client 320)]) (client <$> seq 0 320) [] 0)
    (Submitting 320) (client <$> seq 0 321).

Lemma flood_jams : ∃ l, reachable flood (jam l).
Proof.
  destruct (start flood) as [s0|] eqn:H0; [|by vm_compute in H0].
  assert (∃ l, s0 = crowd l [] (crew 0) 0) as [l ->].
  { unfold start in H0. apply bind_Ok in H0 as (w&_&[= <-]). by exists w. }
  destruct (flood_served 64 l) as [l1 H1]; [lia|]. destruct (flood_waits 256 l1) as [l2 H2]; [lia|].
  destruct (flood_accepts 320 l2) as [l3 H3]. exists l3. exists (crowd l [] (crew 0) 0). split; [done|].
  etrans; [exact H1|]. etrans; [exact H2|].
  eapply rtc_l; [eapply step_moves, moves_main, (main_accepts _ _ (client 320).2 l3); [done|exact H3]|].
  apply rtc_once. apply (step_moves _ _ (jam l3)). apply (moves_pool _ (mkProgram l3 (submit (client 320) _) (Submitting 320) _)).
  - done.
  - by apply (WorkerPool.step_block _ _ (replicate 320 _ ++ [Pushing (client 320)]) _ _ _ 320).
  - cbn. intros c Hc. by apply (f_equal length) in Hc.
Qed.

Lemma held_pool os p p' :
  Forall (held os) (workers_ p) → (∀ i x, submissions_ p !! i ≠ Some (Pushing x)) → closing_ p = 0%nat → WorkerPool.step p p' →
  ∃ c, handled_ p' = handled_ p ++ [c] ∧ ends os c = false.
Proof.
  intros Hws Hps Hcl Hs.
  destruct Hs as [q ws ps acc hd cl i x q' ps' Hi|q ws ps acc hd cl i q' Hi|q ws ps acc hd cl i Hi
    |q ws ps acc hd cl i x Hi|q ws ps acc hd cl i x q' ws' Hi|q ws ps acc hd cl i x q' Hi
    |q ws ps acc hd cl i x Hi|q ws ps acc hd cl]; cbn in *; try done; try (by destruct (Hps i x));
    destruct (Forall_lookup_1 _ _ _ _ Hws Hi) as (c&[= ->]&Hc).
  by exists c.
Qed.

Lemma jam_still l s : ¬ moves flood (jam l) s.
Proof.
  assert (∀ i x, submissions_ (pool (jam l)) !! i = Some x → x = WorkerPool.Returned true ∧ i ≠ 320%nat ∨ x = Blocked (client 320)) as Hcalls.
  { intros i x [[? Hi]%lookup_replicate|[_ Hx]]%lookup_app_Some; [left; split; [done|lia]|]. rewrite length_replicate in Hx.
    destruct (i - 320)%nat as [|[|]]; [injection Hx as <-; auto|done..]. }
  intros [s' Hs|p _ Hs He].
  - destruct Hs as [client' l' Ha|e l' Ha|i Ha Hi|i Ha Hi|Ha|Ha]; try done; injection Ha as <-;
      destruct (Hcalls 320%nat _ Hi) as [[? ?]|]; done.
  - apply (held_pool flood) in Hs as (c&Hc&Hend); [by rewrite He in Hend| | |done].
    + apply Forall_app. split; [|done]. apply Forall_fmap, Forall_forall. intros n _. exists (client n). split; [done|apply flood_held].
    + intros i x Hi. by destruct (Hcalls i _ Hi) as [[? _]|].
Qed.

(** No step of the program itself leads out of the jam. *)
Lemma server_serves_witness :
  ∃ l, reachable flood (jam l) ∧ (∀ s, ¬ moves flood (jam l) s) ∧
    zlen (workers_ (pool (jam l))) = 64 ∧ Forall (held flood) (workers_ (pool (jam l))).
Proof.
  destruct flood_jams as [l Hl]. exists l. split; [exact Hl|]. split; [apply jam_still|].
  destruct (server_serves flood (jam l) Hl) as (_&_&_&_&_&_&H). destruct (H (jam_still l)) as (_&_&Hn&Hheld); [done|].
  split; [exact Hn|exact Hheld].
Defined.
