(* ===== verification/Endtoend.v ===== *)
(** The end-to-end application (src/apps/endtoend.cc): TCP over an interface of
    its own, and a thread with a router between that interface and the Internet,
    a UDP socket that carries Ethernet frames. *)

From S2P Require Import Prelude Effects Ref Parser Wire Ethernet IPv4 TCPSegment TCPMessages Address TCPOverIP.
From S2P Require Import ARPTable ARPMessageQueue NetworkInterface Router FileDescriptor EventRules EventLoop Adapter.
From S2P Require EpollEventLoop MinnowSocket.
From S2P Require Socket.

(** * Addresses *)

(** [random n] is the n-th number from [random_device()], 32 bits wide. *)
Definition random_host_ethernet_address (random : nat → Z) : EthernetAddress :=
  let addr := (λ n, u8 (random n)) <$> seq 0 6 in
  let addr := <[0%nat := Z.lor (addr !!! 0%nat) 2]> addr in
  <[0%nat := Z.land (addr !!! 0%nat) 254]> addr.
Definition random_router_ethernet_address (random : nat → Z) : EthernetAddress :=
  let addr := (λ n, u8 (random n)) <$> seq 0 6 in
  <[2%nat := 0]> (<[1%nat := 0]> (<[0%nat := 2]> addr)).

(** * Frames on descriptors *)

Definition frame_buffers : list bytes :=
  [resize EthernetHeader.LENGTH []; resize IPv4Header.LENGTH []; resize TCPSegment.HEADER_LENGTH []; []].

Definition maybe_receive_frame (sys_readv : list Z → syscall bytes) : eff FDWrapper (option EthernetFrame) :=
  strs ← FileDescriptor.readv sys_readv frame_buffers;
  '(frame, ok) ← Effects.lift (parse (mkEthernetFrame blank_header []) (Owned <$> strs));
  mret (if (ok : bool) then Some frame else None).

(** [write( serialize( x ) )]. *)
Definition write_frame (sys_writev : list bytes → syscall Z) (x : EthernetFrame) : eff FDWrapper () :=
  bufs ← Effects.lift (serialize x);
  FileDescriptor.write_refs sys_writev bufs ;; mret ().

Definition make_socket_pair (socketpair : Z → Z → Z → syscall (Z * Z)) (getfl : Z → syscall Z) : result (FDWrapper * FDWrapper) :=
  match socketpair 1 2 0 with
  | Failed _ => Err (unix_error "socketpair")
  | Returned (fd0, fd1) =>
      first ← FileDescriptor.make fd0 (getfl fd0);
      second ← FileDescriptor.make fd1 (getfl fd1);
      Ok (first, second)
  end.

(** * The adapter *)

(** [FdAdapterBase], the interface and the next hop.  The descriptor is the
    first of [Sender]'s sockets; what the interface transmits is written to it
    at once, so that its port is empty between calls. *)
Record NetworkInterfaceAdapter : Type := mkNetworkInterfaceAdapter {
  base : FdAdapterBase;
  _interface : NetworkInterface;
  _next_hop : Address;
}.

Module NetworkInterfaceAdapter.
Section adapter.
Context `{Resolver}.
Abbreviation call := (eff (FDWrapper * NetworkInterfaceAdapter)).

(** The adapter is moved into the socket, so nothing shares its interface when
    a timeout is reported. *)
Definition new (random : nat → Z) (ip_address next_hop : Address) : result NetworkInterfaceAdapter :=
  any ← Address.of_ip_port "0" 0;
  Ok (mkNetworkInterfaceAdapter (mkFdAdapterBase (mkFdAdapterConfig any any 0 0) false)
    (NetworkInterface.initialize false
       (NetworkInterface.new "network interface adapter" (random_host_ethernet_address random) ip_address))
    next_hop).

Definition set_interface (i : NetworkInterface) (a : NetworkInterfaceAdapter) : NetworkInterfaceAdapter :=
  mkNetworkInterfaceAdapter (base a) i (_next_hop a).
Definition set_base (f : FdAdapterBase → FdAdapterBase) (a : NetworkInterfaceAdapter) : NetworkInterfaceAdapter :=
  mkNetworkInterfaceAdapter (f (base a)) (_interface a) (_next_hop a).

(** [Sender::transmit], for the frames of one call. *)
Fixpoint transmit (sys_writev : list bytes → syscall Z) (frames : list EthernetFrame) : eff FDWrapper () :=
  match frames with
  | [] => mret ()
  | x :: frames => write_frame sys_writev x ;; transmit sys_writev frames
  end.

(** A call of the interface. *)
Definition on_interface (sys_writev : list bytes → syscall Z) (m : NetworkInterface → result NetworkInterface) : call () :=
  a ← gets snd;
  i ← Effects.lift (m (_interface a));
  modify (λ '(w, a), (w, set_interface (NetworkInterface.with_port [] i) a)) ;;
  on_fd (transmit sys_writev (port_ i)).

Definition unwrap (dgram : IPv4Datagram) : call (option TCPMessage) :=
  on_adapter (λ a,
    '(msg, b) ← TCPOverIPv4Adapter.unwrap_tcp_in_ip dgram (base a);
    Ok (msg, set_base (λ _, b) a)).

Definition read (sys : fd_calls) : call (option TCPMessage) :=
  frame_opt ← on_fd (maybe_receive_frame (sys_readv sys));
  match frame_opt with
  | None => mret None
  | Some frame =>
      on_interface (sys_writev sys) (NetworkInterface.recv_frame frame) ;;
      a ← gets snd;
      match datagrams_received_ (_interface a) with
      | [] => mret None
      | dgram :: rest =>
          modify (λ '(w, a), (w, set_interface (NetworkInterface.with_received rest (_interface a)) a)) ;;
          unwrap dgram
      end
  end.

Definition write (sys_writev : list bytes → syscall Z) (msg : TCPMessage) : call () :=
  a ← gets snd;
  dgram ← Effects.lift (TCPOverIPv4Adapter.wrap_tcp_in_ip msg (base a));
  on_interface sys_writev (NetworkInterface.send_datagram dgram (_next_hop a)).

(** A timeout transmits nothing, because the callback finds no interface; the
    order in which the waiting datagrams are visited plays no part. *)
Definition tick (ms_since_last_tick : Z) (a : NetworkInterfaceAdapter) : NetworkInterfaceAdapter :=
  match NetworkInterface.tick ms_since_last_tick (map_to_list (pending_ (arp_queue_ (_interface a)))).*1 (_interface a) with
  | Ok i => set_interface i a
  | Err _ => a
  end.

#[export] Instance interface_adapter : TCPDatagramAdapter NetworkInterfaceAdapter := {
  adapter_read := read;
  adapter_write := write;
  adapter_set_listening l := set_base (FdAdapterBase.set_listening l);
  adapter_config a := FdAdapterBase.config (base a);
  adapter_set_config cfg := set_base (TunAdapter.set_config cfg);
  adapter_tick := tick;
}.
End adapter.
End NetworkInterfaceAdapter.
#[export] Existing Instance NetworkInterfaceAdapter.interface_adapter.

(** * The socket *)

Module TCPSocketEndToEnd.
Section socket.
Context `{Resolver}.

(** The address of a connection that is made, with a random port, and the
    configuration of its adapter. *)
Definition connect_config (random : Z) (_local_address address : Address) : result (Address * FdAdapterConfig) :=
  ip ← Address.ip _local_address;
  local ← Address.of_ip_port ip (u16 random);
  Ok (local, mkFdAdapterConfig local address 0 0).

Definition bind (_local_address address : Address) : result Address :=
  there ← Address.ip address;
  here ← Address.ip _local_address;
  if bool_decide (there ≠ here) then Err (Throw "Cannot bind")
  else ip ← Address.ip _local_address; port ← Address.port address; Address.of_ip_port ip port.

Definition listen_config (_local_address : Address) : result FdAdapterConfig :=
  any ← Address.of_ip_port "0" 0;
  Ok (mkFdAdapterConfig _local_address any 0 0).

Section calls.
Context {K : Type} (os : MinnowSocket.system K).
Abbreviation sys := (state MinnowSocket.code (EpollEventLoop.EpollState K) (MinnowSocket.TCPMinnowSocket NetworkInterfaceAdapter)).

(** The result is the new local address. *)
Definition connect (fuel : nat) (random : Z) (_local_address address : Address) : eff sys Address :=
  '(local, cfg) ← Effects.lift (connect_config random _local_address address);
  MinnowSocket.TCPMinnowSocket.connect os fuel TCPMessages.default_config cfg ;;
  mret local.

Definition listen_and_accept (fuel : nat) (_local_address : Address) : eff sys () :=
  cfg ← Effects.lift (listen_config _local_address);
  MinnowSocket.TCPMinnowSocket.listen_and_accept os fuel TCPMessages.default_config cfg.
End calls.
End socket.
End TCPSocketEndToEnd.

(** * The network thread *)

(** What the thread holds: the router, whose interfaces' ports are the queues
    [router_to_host] and [router_to_internet]; and the number of calls of the
    system. *)
Record network : Type := mkNetwork {
  router : Router;
  host_side : nat;
  internet_side : nat;
  now : nat;
}.

(** The code of the callbacks. *)
Inductive code : Type :=
  | HostToRouter | RouterToHost | RouterToInternet | InternetToRouter
  | HostWaits | InternetWaits | Always | Nothing.

(** What the calls answer, on [frame_fd] and on [internet_socket]. *)
Record system : Type := mkSystem {
  frame_readv : nat → list Z → syscall bytes;
  frame_writev : nat → list bytes → syscall Z;
  internet_readv : nat → list Z → syscall bytes;
  internet_writev : nat → list bytes → syscall Z;
  sys_poll : nat → list pollfd → Z → syscall (Z * list Z);
  sys_getsockopt : nat → Z → syscall (Z * Z);
  exit_flag : nat → bool;
}.

Definition frame_fd : nat := 0.
Definition internet_socket : nat := 1.

Section set_up.
Context `{Resolver}.

Definition interface_at (name : string) (random : nat → Z) (ip : string) : result NetworkInterface :=
  address ← Address.of_ip_port ip 0;
  Ok (NetworkInterface.new name (random_router_ethernet_address random) address).

(** [router.add_route( Address { ip }.ipv4_numeric(), length, hop, side )]. *)
Definition add_route (ip : string) (length : Z) (hop : option string) (side : nat) (r : Router) : result Router :=
  hop ← match hop with None => Ok None | Some h => a ← Address.of_ip_port h 0; Ok (Some a) end;
  prefix ← Address.of_ip_port ip 0;
  prefix ← Address.ipv4_numeric prefix;
  Ok (Router.add_route prefix length hop side r).

(** The router of either end; [random_host] and [random_internet] are the random
    numbers for its interfaces. *)
Definition set_up_router (is_client : bool) (random_host random_internet : nat → Z) : result network :=
  host ← interface_at "host_side" random_host (if is_client then "192.168.0.1" else "172.16.0.1");
  let '(host_side, r) := Router.add_interface host Router.new in
  internet ← interface_at "internet side" random_internet (if is_client then "10.0.0.192" else "10.0.0.172");
  let '(internet_side, r) := Router.add_interface internet r in
  r ←
    (if is_client then
       r ← add_route "192.168.0.0" 16 None host_side r;
       r ← add_route "10.0.0.0" 8 None internet_side r;
       add_route "172.16.0.0" 12 (Some "10.0.0.172") internet_side r
     else
       r ← add_route "172.16.0.0" 12 None host_side r;
       r ← add_route "10.0.0.0" 8 None internet_side r;
       add_route "192.168.0.0" 16 (Some "10.0.0.192") internet_side r)%string;
  Ok (mkNetwork r host_side internet_side 0).

(** The adapter of [sock]. *)
Definition set_up_adapter (is_client : bool) (random : nat → Z) : result NetworkInterfaceAdapter :=
  ip ← Address.of_ip_port (if is_client then "192.168.0.50" else "172.16.0.100") 0;
  hop ← Address.of_ip_port (if is_client then "192.168.0.1" else "172.16.0.1") 0;
  NetworkInterfaceAdapter.new random ip hop.
End set_up.

Section thread.
Context `{Resolver}.
Context (os : system).
Abbreviation sys := (state code () network).

Definition change (f : network → network) : eff sys () := modify (λ s, with_world (f (world s)) s).
Definition call_time : eff sys nat :=
  n ← gets (λ s, now (world s));
  change (λ w, mkNetwork (router w) (host_side w) (internet_side w) (S (now w))) ;;
  mret n.
Definition update_router (m : network → Router → result Router) : eff sys () :=
  w ← gets world;
  r ← Effects.lift (m w (router w));
  change (λ w, mkNetwork r (host_side w) (internet_side w) (now w)).

(** [router.interface( n )->recv_frame( frame ); router.route();]. *)
Definition recv_and_route (frame : EthernetFrame) (n : nat) (r : Router) : result Router :=
  i ← Router.interface n r;
  i ← NetworkInterface.recv_frame frame i;
  Router.route (Router.set_interface n i r).

(** The rules of direction [In]. *)
Definition into_router (fd : nat) (readv : nat → list Z → syscall bytes) (side : network → nat) : eff sys () :=
  n ← call_time;
  frame_opt ← on_descriptor fd (maybe_receive_frame (readv n));
  match frame_opt with
  | None => mret ()
  | Some frame => update_router (λ w, recv_and_route frame (side w))
  end.

(** The frames that wait at a side of the router. *)
Definition frames (n : nat) (r : Router) : list EthernetFrame :=
  match interfaces_ r !! n with Some i => port_ i | None => [] end.
Definition pop_frame (n : nat) (r : Router) : Router :=
  match interfaces_ r !! n with
  | Some i => Router.set_interface n (NetworkInterface.with_port (tail (port_ i)) i) r
  | None => r
  end.

(** The rules of direction [Out]. *)
Definition out_of_router (fd : nat) (writev : nat → list bytes → syscall Z) (side : network → nat) : eff sys () :=
  w ← gets world;
  match frames (side w) (router w) with
  | [] => mthrow (Undefined "front of an empty queue")
  | front :: _ =>
      n ← call_time;
      on_descriptor fd (write_frame (writev n) front) ;;
      change (λ w, mkNetwork (pop_frame (side w) (router w)) (host_side w) (internet_side w) (now w))
  end.

Definition call_interest (c : code) (s : sys) : result bool :=
  let waits side := Ok (negb (bool_decide (frames (side (world s)) (router (world s)) = []))) in
  match c with
  | HostWaits => waits host_side
  | InternetWaits => waits internet_side
  | _ => Ok true
  end.

Definition call_back (c : code) : eff sys () :=
  match c with
  | HostToRouter => into_router frame_fd (frame_readv os) host_side
  | RouterToHost => out_of_router frame_fd (frame_writev os) host_side
  | RouterToInternet => out_of_router internet_socket (internet_writev os) internet_side
  | InternetToRouter => into_router internet_socket (internet_readv os) internet_side
  | _ => mret ()
  end.

Definition add_rule (name : string) (fd : nat) (direction : Direction) (callback interest : code) : eff sys nat :=
  category_id ← add_category name;
  add_fd_rule category_id fd direction callback interest Nothing Nothing.

Definition add_rules : eff sys () :=
  add_rule "frames from host to router" frame_fd In HostToRouter Always ;;
  add_rule "frames from router to host" frame_fd Out RouterToHost HostWaits ;;
  add_rule "frames from router to Internet" internet_socket Out RouterToInternet InternetWaits ;;
  add_rule "frames from Internet to router" internet_socket In InternetToRouter Always ;;
  mret ().

Definition wait_next_event : eff sys Result :=
  n ← call_time;
  rs ← gets _fd_rules;
  EventLoop.wait_next_event call_interest call_back (sys_poll os n) (sys_getsockopt os n) (S (length rs)) 10.

(** [router.interface( n )->tick( 10 )]; these interfaces have no callback for
    timeouts, so the order of the visit plays no part. *)
Definition tick_interface (n : nat) (r : Router) : result Router :=
  i ← Router.interface n r;
  i ← NetworkInterface.tick 10 (map_to_list (pending_ (arp_queue_ i))).*1 i;
  Ok (Router.set_interface n i r).

Definition read_flag : eff sys bool := n ← call_time; mret (exit_flag os n).

(** [fuel] bounds the turns of the loop. *)
Fixpoint loop (fuel : nat) : eff sys () :=
  match fuel with
  | O => mthrow OutOfFuel
  | S fuel =>
      res ← wait_next_event;
      match res with
      | Exit => mret ()
      | _ =>
          update_router (λ w, tick_interface (host_side w)) ;;
          update_router (λ w, tick_interface (internet_side w)) ;;
          b ← read_flag;
          if (b : bool) then mret () else loop fuel
      end
  end.

(** The thread; it logs an exception and ends. *)
Definition network_thread (fuel : nat) : eff sys () := swallow (add_rules ;; loop fuel).
End thread.

(** * Frames *)

Lemma frame_serialize f : ∃ bufs, serialize f = Ok bufs ∧ text bufs = frame_text f.
Proof.
  eexists. split; [done|]. rewrite finish_text.
  by destruct (frame_spell f Serializer.new ser_ok_new) as [-> _].
Qed.

(** The kernel takes these bytes, however they are cut into buffers. *)
Definition accepts (sys_writev : list bytes → syscall Z) (packet : bytes) : Prop :=
  ∀ bufs, concat bufs = packet → sys_writev bufs = Returned (zlen packet).

Lemma zlen_frame_text f :
  Ethernet.header_ok (Ethernet.header f) → zlen (frame_text f) = 14 + zlen (text (Ethernet.payload f)).
Proof.
  intros ([Hd _]&[Hs _]&_). unfold frame_text, Ethernet.header_text.
  rewrite !zlen_app, !ARPMessage.zlen_integers_text, Parser.zlen_integer_bytes. unfold zlen. lia.
Qed.

Lemma write_frame_ok sys_writev f w :
  Ethernet.header_ok (Ethernet.header f) → accepts sys_writev (frame_text f) →
  write_frame sys_writev f w = (Ok (), counted_write w).
Proof.
  intros Hh Hw. destruct (frame_serialize f) as (bufs&Hs&Ht). unfold write_frame. rewrite Hs. eff_run.
  unfold FileDescriptor.write_refs, FileDescriptor.writev. unfold accepts in Hw. rewrite Hw by done.
  cbn [FileDescriptor.CheckSystemCall]. eff_run. cbv beta iota delta [FileDescriptor.register_write modify]. eff_run.
  change (concat (Ref.get <$> bufs)) with (text bufs). rewrite Ht.
  pose proof (zlen_frame_text f Hh). pose proof (zlen_nonneg (text (Ethernet.payload f))).
  rewrite (bool_decide_false (zlen (frame_text f) = 0)) by lia. cbn [andb].
  by rewrite (bool_decide_false (_ > _)) by lia.
Qed.

Lemma read_frame_ok sys_readv f w :
  Ethernet.header_ok (Ethernet.header f) → zlen (text (Ethernet.payload f)) ≤ tun_room →
  sys_readv [14; 20; 20; 16384] = Returned (frame_text f) →
  ∃ f', maybe_receive_frame sys_readv w = (Ok (Some f'), counted_read w) ∧ wired f f'.
Proof.
  intros Hh Hl Hr. pose proof (zlen_frame_text f Hh) as Hlen. unfold tun_room in Hl.
  destruct (readv_packed sys_readv (frame_text f) frame_buffers w) as (bufs&He&Hc&Hk).
  - done.
  - by repeat constructor.
  - by replace (zlen <$> FileDescriptor.widen_back frame_buffers) with [14; 20; 20; 16384] by by vm_compute.
  - replace (zlen (concat (FileDescriptor.widen_back frame_buffers))) with 16438 by by vm_compute. lia.
  - unfold maybe_receive_frame. rewrite bind_eq, He.
    destruct (frame_parse_ok (mkEthernetFrame blank_header []) (Owned <$> bufs) (Ethernet.header f)
      (text (Ethernet.payload f))) as (out&Hp&Hout&Ho&Hpk); try done.
    + apply owned_owned.
    + rewrite text_owned, Hc. lia.
    + by rewrite text_owned, Hc.
    + change (EthernetFrame.parse) with (wire_parse (Wire := EthernetFrame_wire)) in Hp.
      unfold parse in *. rewrite Hp. eff_run. eexists. split; [done|]. by split_and!.
Qed.

(** A datagram in a frame. *)
Lemma dgram_frame_ok src m d :
  address_ok src → address_ok m → Ethernet.header_ok (Ethernet.header (dgram_frame src m d)).
Proof. by intros ??. Qed.

Lemma dgram_frame_text src m d d' : ver (IPv4.header d) = 4 → d' ≡ d → frame_text (dgram_frame src m d') = frame_text (dgram_frame src m d).
Proof.
  intros Hv [Hh Ht]. unfold frame_text, dgram_frame. cbn [NetworkInterface.make_frame Ethernet.header Ethernet.payload]. f_equal.
  destruct (bytes_of_dgram d Hv) as [_ ->]. destruct (bytes_of_dgram d') as [_ ->]; [by rewrite Hh|].
  unfold datagram_text. by rewrite Hh, Ht.
Qed.

(** A datagram off the wire. *)
Lemma wired_parse src dst d f :
  datagram_ok d → wired (dgram_frame src dst d) f →
  ∃ d', parse IPv4Datagram.new (Ethernet.payload f) = Ok (d', true) ∧ d' ≡ d ∧ owned (IPv4.payload d') ∧ packed (IPv4.payload d').
Proof.
  intros Hd ([Hh Ht]&Hw&Hn). destruct (bytes_of_dgram d) as [_ Htext]; [apply Hd|].
  destruct (parse_datagram_ok IPv4Datagram.new d (Ethernet.payload f) Hd) as (out&Hp&Hout&?&?);
    [by rewrite Ht|done|done|].
  exists (mkIPv4Datagram (IPv4.header d) out). by split_and!.
Qed.

(** * The adapter at work *)

Section adapter.
Context `{ResolverSpec}.
Context (saddr sport daddr dport : Z).
Context (Hsa : is_u32 saddr) (Hsp : is_u16 sport) (Hda : is_u32 daddr) (Hdp : is_u16 dport).

(** Nothing is held back between calls. *)
Definition idle (i : NetworkInterface) : Prop := port_ i = [] ∧ datagrams_received_ i = [].
Definition knows (i : NetworkInterface) (ip : Z) (m : EthernetAddress) : Prop :=
  mac <$> entries_ (arp_table_ i) !! ip = Some m.

Lemma interface_write_ok a ip hop m msg sys_writev w :
  iface_ok ip (_interface a) → idle (_interface a) → Address.ipv4_numeric (_next_hop a) = Ok hop →
  knows (_interface a) hop m → connects (base a) saddr sport daddr dport → message_ok msg →
  address_ok (ethernet_address_ (_interface a)) → address_ok m →
  accepts sys_writev (frame_text (dgram_frame (ethernet_address_ (_interface a)) m (wrapped saddr sport daddr dport msg))) →
  NetworkInterfaceAdapter.write sys_writev msg (w, a) = (Ok (), (counted_write w, a)).
Proof.
  intros Hi [Hp Hr] Hhop Hk Hc Hm Hself Hmac Hacc. unfold NetworkInterfaceAdapter.write. eff_run. cbn [snd].
  rewrite (wrap_ok saddr sport daddr dport Hsa Hsp Hda Hdp msg (base a) Hc Hm). eff_run.
  unfold NetworkInterfaceAdapter.on_interface. rewrite bind_eq. cbn [gets snd]. rewrite bind_eq.
  rewrite (send_datagram_ok ip _ _ hop) by done. unfold sent, knows in *. rewrite Hk. cbn [Effects.lift].
  rewrite bind_eq. cbn [modify]. unfold on_fd. cbn [port_ NetworkInterface.transmit NetworkInterface.with_port].
  rewrite Hp. cbn [app NetworkInterfaceAdapter.transmit]. rewrite bind_eq.
  rewrite write_frame_ok by done. cbn [mret eff_ret].
  do 3 f_equal. destruct a as [b [] hp]. cbn in *. by subst.
Qed.

Lemma interface_read_ok a ip src d msg sys w :
  iface_ok ip (_interface a) → idle (_interface a) → datagram_ok d → bears saddr sport daddr dport d msg → message_ok msg →
  address_ok src → address_ok (ethernet_address_ (_interface a)) → zlen (datagram_text d) ≤ tun_room →
  _listen (base a) = false → connects (base a) daddr dport saddr sport →
  sys_readv sys [14; 20; 20; 16384] = Returned (frame_text (dgram_frame src (ethernet_address_ (_interface a)) d)) →
  NetworkInterfaceAdapter.read sys (w, a) = (Ok (Some (normal_message msg)), (counted_read w, a)).
Proof.
  intros Hi [Hp Hr] Hd Hb Hm Hsrc Hself Hl Hlis Hc Hread.
  destruct (bytes_of_dgram d) as [_ Htext]; [apply Hd|].
  destruct (read_frame_ok (sys_readv sys) (dgram_frame src (ethernet_address_ (_interface a)) d) w) as (f&He&Hw); [done| |done|].
  { cbn [Ethernet.payload dgram_frame NetworkInterface.make_frame]. by rewrite Htext. }
  unfold NetworkInterfaceAdapter.read. rewrite bind_eq. unfold on_fd at 1. rewrite He.
  destruct (wired_parse _ _ _ _ Hd Hw) as (d'&Hpd&Heq&Ho&Hpk). destruct Hw as ([Hh _]&_&_).
  unfold NetworkInterfaceAdapter.on_interface. rewrite bind_eq, bind_eq. cbn [gets snd]. rewrite bind_eq.
  rewrite (recv_frame_ipv4 f (_interface a) src (ethernet_address_ (_interface a)) d' true) by (done || by left).
  cbn [Effects.lift]. rewrite bind_eq. cbn [modify]. unfold on_fd at 1. cbn [port_ NetworkInterface.with_received].
  rewrite Hp. cbn [NetworkInterfaceAdapter.transmit mret eff_ret]. rewrite bind_eq. cbn [gets snd].
  cbn [NetworkInterfaceAdapter.set_interface _interface NetworkInterface.with_port datagrams_received_ NetworkInterface.with_received].
  rewrite Hr. cbn [app]. rewrite bind_eq. cbn [modify].
  unfold NetworkInterfaceAdapter.unwrap, on_adapter. cbn [base].
  rewrite (unwrap_connected saddr sport daddr dport Hsa Hsp Hda Hdp d' msg (base a))
    by (done || by split; [eapply bears_equiv|]).
  cbn [mbind result_bind]. do 3 f_equal. destruct a as [b [] hp]. cbn in *. by subst.
Qed.
End adapter.

(** * The router at work *)

Lemma forwarded_datagram_ok d : datagram_ok d → 1 < IPv4.ttl (IPv4.header d) → datagram_ok (forwarded d).
Proof. intros [[F [Hhl _]] Hl] Ht. split; [|exact Hl]. split_and!; [by apply forwarded_fields|exact Hhl|done]. Qed.
Lemma forwarded_equiv d e : d ≡ e → forwarded d ≡ forwarded e.
Proof. intros [Hh Ht]. unfold forwarded. rewrite Hh. by split. Qed.
Lemma forwarded_bears `{Resolver} saddr sport daddr dport d msg :
  bears saddr sport daddr dport d msg → bears saddr sport daddr dport (forwarded d) msg.
Proof. by intros ((?&?&?)&?&?). Qed.

Definition idle_router (r : Router) : Prop := router_ok r ∧ Forall idle (interfaces_ r).

Lemma idle_received r : Forall idle (interfaces_ r) → Forall (λ ds, ds = []) (received r).
Proof. intros Hr. apply Forall_fmap. eapply Forall_impl; [exact Hr|]. by intros i []. Qed.

(** A frame for interface [n] that carries a datagram for elsewhere. *)
Lemma recv_and_route_ok r n m i j src d f hop t dest :
  idle_router r → interfaces_ r !! n = Some i → interfaces_ r !! m = Some j →
  datagram_ok d → wired (dgram_frame src (ethernet_address_ i) d) f →
  decision r d n = Some (m, hop) → Address.ipv4_numeric hop = Ok t → knows j t dest →
  ∃ d', d' ≡ d ∧
    recv_and_route f n r =
      Ok (Router.set_interface m (NetworkInterface.with_port [dgram_frame (ethernet_address_ j) dest (forwarded d')] j) r).
Proof.
  intros [Hr He] Hi Hj Hd Hw Hdec Ht Hk.
  destruct (wired_parse _ _ _ _ Hd Hw) as (d'&Hp&Heq&_&_). destruct Hw as ([Hh _]&_&_).
  exists d'. split; [done|]. unfold recv_and_route, Router.interface. rewrite Hi. cbn [mbind result_bind].
  rewrite (recv_frame_ipv4 f i src (ethernet_address_ i) d' true) by (done || by left). cbn [mbind result_bind].
  pose proof He as Hall. rewrite Forall_lookup in Hall. destruct (Hall _ _ Hi) as [_ ->]. cbn [app].
  assert (IPv4.fields_ok (IPv4.header d')) as F by (destruct Heq as [-> _]; apply Hd).
  rewrite (route_one r n i d') by (done || by apply idle_received).
  rewrite forward_eq by done.
  replace (decision r d' n) with (decision r d n) by (unfold decision; destruct Heq as [-> _]; done).
  rewrite Hdec, Hj. destruct Hr as [Hif _ _]. rewrite Forall_lookup in Hif. destruct (Hif _ _ Hj) as [ip Hip].
  rewrite (send_datagram_ok ip (forwarded d') hop t) by (done || apply F). unfold sent, knows in *. rewrite Hk.
  cbn [mbind result_bind]. unfold NetworkInterface.transmit. by destruct (Hall _ _ Hj) as [-> _].
Qed.

(** The frame sent is taken out again. *)
Lemma pop_sent r m j fs :
  idle_router r → interfaces_ r !! m = Some j → length fs = 1%nat →
  pop_frame m (Router.set_interface m (NetworkInterface.with_port fs j) r) = r.
Proof.
  intros [_ He] Hj Hl. pose proof (lookup_lt_Some _ _ _ Hj). rewrite Forall_lookup in He. destruct (He _ _ Hj) as [Hp _].
  unfold pop_frame, Router.set_interface. cbn [interfaces_ routes_]. rewrite list_lookup_insert_eq by done.
  destruct fs as [|x []]; [done| |done]. rewrite list_insert_insert, decide_True by done.
  rewrite list_insert_id; [by destruct r|]. rewrite Hj. f_equal. destruct j. cbn in *. by subst.
Qed.

(** ** The thread *)

Section thread.
Context `{Resolver}.
Abbreviation sys := (state code () network).
Implicit Types s : sys.

(** One rule takes a frame in, another takes the frame it causes out: the bytes
    cross the router, which ends as it was. *)
Lemma crosses s fd_in fd_out readv writev side_in side_out w_in w_out i j src d hop t dest :
  descriptors s !! fd_in = Some w_in → descriptors s !! fd_out = Some w_out → fd_in ≠ fd_out →
  (∀ r n w, side_in (mkNetwork r (host_side w) (internet_side w) n) = side_in w) →
  (∀ r n w, side_out (mkNetwork r (host_side w) (internet_side w) n) = side_out w) →
  let r := router (world s) in
  idle_router r → interfaces_ r !! side_in (world s) = Some i → interfaces_ r !! side_out (world s) = Some j →
  datagram_ok d → 1 < IPv4.ttl (IPv4.header d) → zlen (datagram_text d) ≤ tun_room →
  address_ok src → address_ok (ethernet_address_ i) → address_ok (ethernet_address_ j) → address_ok dest →
  decision r d (side_in (world s)) = Some (side_out (world s), hop) → Address.ipv4_numeric hop = Ok t → knows j t dest →
  readv (now (world s)) [14; 20; 20; 16384] = Returned (frame_text (dgram_frame src (ethernet_address_ i) d)) →
  accepts (writev (S (now (world s)))) (frame_text (dgram_frame (ethernet_address_ j) dest (forwarded d))) →
  (into_router fd_in readv side_in ;; out_of_router fd_out writev side_out) s =
    (Ok (), with_world (mkNetwork r (host_side (world s)) (internet_side (world s)) (S (S (now (world s)))))
      (with_descriptors (<[fd_out := counted_write w_out]> (<[fd_in := counted_read w_in]> (descriptors s))) s)).
Proof.
  intros Hin Hout Hne Hsi Hso r Hr Hi Hj Hd Httl Hl Hsrc Heth Heth' Hdest Hdec Ht Hk Hread Hacc.
  destruct (bytes_of_dgram d) as [_ Htext]; [apply Hd|].
  destruct (read_frame_ok (readv (now (world s))) (dgram_frame src (ethernet_address_ i) d) w_in) as (f&He&Hw); [done| |done|].
  { cbn [Ethernet.payload dgram_frame NetworkInterface.make_frame]. by rewrite Htext. }
  destruct (recv_and_route_ok r _ _ i j src d f hop t dest Hr Hi Hj Hd Hw Hdec Ht Hk) as (d'&Heq&Hroute).
  assert (IPv4.ver (IPv4.header (forwarded d)) = 4) as Hver by apply Hd.
  pose proof (dgram_frame_text (ethernet_address_ j) dest _ _ Hver (forwarded_equiv _ _ Heq)) as Hft.
  rewrite bind_eq. unfold into_router. rewrite bind_eq. unfold call_time at 1. rewrite bind_eq. cbn [gets].
  rewrite bind_eq. cbn [change modify mret eff_ret]. rewrite bind_eq. unfold on_descriptor at 1.
  cbn [descriptors with_world]. rewrite Hin, He. unfold update_router. rewrite bind_eq. cbn [gets].
  rewrite bind_eq. cbn [world with_world with_descriptors router]. rewrite Hsi. fold r. rewrite Hroute. cbn [Effects.lift].
  cbn [change modify]. unfold out_of_router. rewrite bind_eq. cbn [gets world with_world with_descriptors router].
  rewrite Hso. cbn [router host_side internet_side now]. rewrite Hso. unfold frames, Router.set_interface at 1. cbn [interfaces_].
  pose proof (lookup_lt_Some _ _ _ Hj) as Hlt.
  rewrite list_lookup_insert_eq by done. cbn [port_ NetworkInterface.with_port].
  rewrite bind_eq. unfold call_time at 1. rewrite bind_eq. cbn [gets].
  rewrite bind_eq. cbn [change modify mret eff_ret world with_world with_descriptors now router host_side internet_side].
  rewrite bind_eq. unfold on_descriptor. cbn [descriptors with_world with_descriptors].
  rewrite lookup_insert_ne, Hout by done.
  rewrite write_frame_ok; [|done|by rewrite Hft].
  unfold change, modify. cbn [world with_world with_descriptors router host_side internet_side now].
  rewrite Hso, (pop_sent r _ j) by done. reflexivity.
Qed.
End thread.

(** * The two ends *)

Lemma random_byte random : Forall (λ b, 0 ≤ b < 256) ((λ n, u8 (random n)) <$> seq 0 6).
Proof. apply Forall_fmap, Forall_true. intros n. apply u8_range. Qed.

Lemma random_router_ok random : address_ok (random_router_ethernet_address random).
Proof.
  split; [done|]. unfold random_router_ethernet_address. repeat (apply Forall_insert; [|lia]). apply random_byte.
Qed.

Lemma random_host_ok random : address_ok (random_host_ethernet_address random).
Proof.
  split; [done|].
  change (random_host_ethernet_address random) with
    (Z.land (Z.lor (u8 (random 0%nat)) 2) 254 :: ((λ n, u8 (random n)) <$> seq 1 5)).
  constructor; [|apply Forall_fmap, Forall_true; intros n; apply u8_range].
  assert (Forall (λ v, 0 ≤ Z.land (Z.lor v 2) 254 < 256) (seqZ 0 256)) as Hall by (by apply (bool_decide_unpack _); vm_compute).
  rewrite Forall_forall in Hall. apply Hall, elem_of_seqZ. pose proof (u8_range (random 0%nat)) as Hr. unfold is_u8 in Hr. lia.
Qed.

(** The addresses of the two ends: of the host, of the router on the host's side,
    and of the router on the Internet. *)
Definition host_addr (is_client : bool) : Z := if is_client then 3232235570 else 2886729828.
Definition gateway (is_client : bool) : Z := if is_client then 3232235521 else 2886729729.
Definition internet_addr (is_client : bool) : Z := if is_client then 167772352 else 167772332.

(** The routes of a router, the longest prefixes first. *)
Definition table (is_client : bool) : list RouteEntry :=
  [mkRouteEntry 3232235520 16 (if is_client then None else Some (inet (internet_addr true) 0)) (if is_client then 0 else 1)%nat;
   mkRouteEntry 2886729728 12 (if is_client then Some (inet (internet_addr false) 0) else None) (if is_client then 1 else 0)%nat;
   mkRouteEntry 167772160 8 None 1%nat].

Section ends.
Context `{ResolverSpec}.
(** inet_ntoa(3): dotted-decimal notation. *)
Hypothesis ntoa_dotted : ∀ ip, is_u32 ip → inet_ntoa ip = DottedQuad.inet_ntoa ip.

Lemma literal_ok s ip : is_u32 ip → DottedQuad.inet_ntoa ip = s → Address.of_ip_port s 0 = Ok (inet ip 0).
Proof. intros Hi <-. rewrite <- ntoa_dotted by done. by apply of_ip_port_ok. Qed.

Lemma literals s ip :
  (s, ip) ∈ [("192.168.0.1", gateway true); ("172.16.0.1", gateway false); ("10.0.0.192", internet_addr true);
             ("10.0.0.172", internet_addr false); ("192.168.0.50", host_addr true); ("172.16.0.100", host_addr false);
             ("192.168.0.0", 3232235520); ("172.16.0.0", 2886729728); ("10.0.0.0", 167772160)]%string →
  Address.of_ip_port s 0 = Ok (inet ip 0) ∧ Address.ipv4_numeric (inet ip 0) = Ok ip.
Proof.
  intros Hin. assert (is_u32 ip ∧ DottedQuad.inet_ntoa ip = s) as [Hip Hs].
  { repeat (apply elem_of_cons in Hin as [[= -> ->]|Hin]; [by split; [split|vm_compute]|]). by apply elem_of_nil in Hin. }
  split; [by apply literal_ok|by apply inet_numeric].
Qed.

Lemma set_up_router_ok b random_host random_internet :
  set_up_router b random_host random_internet =
    Ok (mkNetwork (mkRouter
      [NetworkInterface.new "host_side" (random_router_ethernet_address random_host) (inet (gateway b) 0);
       NetworkInterface.new "internet side" (random_router_ethernet_address random_internet) (inet (internet_addr b) 0)]
      (table b)) 0 1 0).
Proof.
  assert (∀ s ip, (s, ip) ∈ _ → Address.of_ip_port s 0 = Ok (inet ip 0)) as A by (intros s ip Hin; exact (proj1 (literals s ip Hin))).
  assert (∀ s ip, (s, ip) ∈ _ → Address.ipv4_numeric (inet ip 0) = Ok ip) as N by (intros s ip Hin; exact (proj2 (literals s ip Hin))).
  unfold set_up_router, interface_at, add_route. destruct b; cbv beta iota.
  - rewrite (A "192.168.0.1" (gateway true)), (A "10.0.0.192" (internet_addr true)), (A "10.0.0.172" (internet_addr false)),
      (A "192.168.0.0" 3232235520), (A "172.16.0.0" 2886729728), (A "10.0.0.0" 167772160) by by repeat constructor.
    cbn [mbind result_bind].
    rewrite (N "192.168.0.0" 3232235520), (N "172.16.0.0" 2886729728), (N "10.0.0.0" 167772160) by by repeat constructor.
    reflexivity.
  - rewrite (A "172.16.0.1" (gateway false)), (A "10.0.0.192" (internet_addr true)), (A "10.0.0.172" (internet_addr false)),
      (A "192.168.0.0" 3232235520), (A "172.16.0.0" 2886729728), (A "10.0.0.0" 167772160) by by repeat constructor.
    cbn [mbind result_bind].
    rewrite (N "192.168.0.0" 3232235520), (N "172.16.0.0" 2886729728), (N "10.0.0.0" 167772160) by by repeat constructor.
    reflexivity.
Qed.

Lemma set_up_adapter_ok b random a :
  set_up_adapter b random = Ok a →
  _next_hop a = inet (gateway b) 0 ∧
  _interface a = NetworkInterface.initialize false (NetworkInterface.new "network interface adapter"
    (random_host_ethernet_address random) (inet (host_addr b) 0)).
Proof.
  unfold set_up_adapter, NetworkInterfaceAdapter.new.
  assert (∀ s ip, (s, ip) ∈ _ → Address.of_ip_port s 0 = Ok (inet ip 0)) as A by (intros s ip Hin; exact (proj1 (literals s ip Hin))).
  destruct b.
  - rewrite (A "192.168.0.50" (host_addr true)), (A "192.168.0.1" (gateway true)) by by repeat constructor.
    destruct (Address.of_ip_port "0" 0); [|done]. by intros [= <-].
  - rewrite (A "172.16.0.100" (host_addr false)), (A "172.16.0.1" (gateway false)) by by repeat constructor.
    destruct (Address.of_ip_port "0" 0); [|done]. by intros [= <-].
Qed.
End ends.

Lemma decision_out b r d :
  routes_ r = table b → IPv4.dst (IPv4.header d) = host_addr (negb b) → 1 < IPv4.ttl (IPv4.header d) →
  decision r d 0 = Some (1%nat, inet (internet_addr (negb b)) 0).
Proof.
  intros Hr Hd Ht. unfold decision. rewrite bool_decide_false by lia. rewrite Hr, Hd.
  destruct b; reflexivity.
Qed.
Lemma decision_in b r d :
  routes_ r = table b → IPv4.dst (IPv4.header d) = host_addr b → 1 < IPv4.ttl (IPv4.header d) →
  decision r d 1 = Some (0%nat, inet (host_addr b) 0).
Proof.
  intros Hr Hd Ht. unfold decision. rewrite bool_decide_false by lia. rewrite Hr, Hd.
  destruct b; reflexivity.
Qed.

(** The network of an end that was set up as [w0], and its adapter, between calls. *)
Record follows (w0 w : network) : Prop := mkFollows {
  fo_sides : host_side w = host_side w0 ∧ internet_side w = internet_side w0;
  fo_routes : routes_ (router w) = routes_ (router w0);
  fo_config : Forall2 same_config (interfaces_ (router w0)) (interfaces_ (router w));
  fo_idle : idle_router (router w);
}.
Record adapter_follows (a0 a : NetworkInterfaceAdapter) : Prop := mkAdapterFollows {
  af_hop : _next_hop a = _next_hop a0;
  af_config : same_config (_interface a0) (_interface a);
  af_idle : idle (_interface a);
  af_ok : ∃ ip, iface_ok ip (_interface a);
}.
(** An interface of the router knows the Ethernet address of a neighbour. *)
Definition side_knows (n : nat) (ip : Z) (m : EthernetAddress) (w : network) : Prop :=
  ∃ i, interfaces_ (router w) !! n = Some i ∧ knows i ip m.

Lemma follows_interfaces `{ResolverSpec} b rh ri w0 w :
  (∀ ip, is_u32 ip → inet_ntoa ip = DottedQuad.inet_ntoa ip) →
  set_up_router b rh ri = Ok w0 → follows w0 w →
  host_side w = 0%nat ∧ internet_side w = 1%nat ∧ routes_ (router w) = table b ∧ idle_router (router w) ∧
  ∃ i j, interfaces_ (router w) !! 0%nat = Some i ∧ interfaces_ (router w) !! 1%nat = Some j ∧
    ethernet_address_ i = random_router_ethernet_address rh ∧ ethernet_address_ j = random_router_ethernet_address ri.
Proof.
  intros Hn Hs [[H1 H2] Hr Hc Hi]. rewrite (set_up_router_ok Hn) in Hs. injection Hs as <-. cbn in *.
  split_and!; [done..|]. inversion Hc as [|? i ? l Hci Hl E1 E2]; subst. inversion Hl as [|? j ? l' Hcj Hl' E3 E4]; subst.
  exists i, j. split_and!; [done|done|apply Hci|apply Hcj].
Qed.

Lemma ends_u32 c : is_u32 (host_addr c) ∧ is_u32 (gateway c) ∧ is_u32 (internet_addr c).
Proof. destruct c; by repeat split. Qed.

Lemma adapter_address `{ResolverSpec} b ra a0 a :
  (∀ ip, is_u32 ip → inet_ntoa ip = DottedQuad.inet_ntoa ip) →
  set_up_adapter b ra = Ok a0 → adapter_follows a0 a →
  ethernet_address_ (_interface a) = random_host_ethernet_address ra ∧ _next_hop a = inet (gateway b) 0.
Proof.
  intros Hn Ha [Hh (_&He&_) _ _]. destruct (set_up_adapter_ok Hn b ra a0 Ha) as [Ehop Ei]. by rewrite He, Hh, Ei, Ehop.
Qed.

(** The datagram of a message, and what the routers make of it. *)
Lemma wrapped_ok b sport dport msg :
  message_ok msg → zlen (TCPMessages.payload (sender msg)) ≤ 16384 →
  let d := wrapped (host_addr b) sport (host_addr (negb b)) dport msg in
  datagram_ok d ∧ datagram_ok (forwarded d) ∧ datagram_ok (forwarded (forwarded d)) ∧
  ∀ e, IPv4.payload e = IPv4.payload d → zlen (datagram_text e) ≤ tun_room.
Proof.
  intros Hm Hp d. destruct (ends_u32 b) as [Hb _], (ends_u32 (negb b)) as [Hb' _].
  assert (datagram_ok d) as Hd by by apply wrapped_datagram_ok.
  assert (datagram_ok (forwarded d)) as Hd1 by by apply forwarded_datagram_ok.
  assert (datagram_ok (forwarded (forwarded d))) as Hd2 by by apply forwarded_datagram_ok.
  split; [exact Hd|]. split; [exact Hd1|]. split; [exact Hd2|]. intros e He.
  assert (zlen (datagram_text d) ≤ tun_room) as Hroom.
  { destruct (bytes_of_dgram d) as [Hs Ht]; [apply Hd|]. rewrite <- Ht.
    rewrite (wrapped_length (host_addr b) sport (host_addr (negb b)) dport msg) by done. unfold tun_room. lia. }
  revert Hroom. unfold datagram_text. by rewrite !zlen_app, !zlen_header_text, He.
Qed.

(** * Properties *)

(** C5: a TCP message from one end of the application to the other.  Let the two
    ends be set up by [program_body], the networks and adapters be between two
    calls, with what they have learned since, and let every interface on the way
    know the Ethernet address of the next one.  Then there are three packets
    such that: writing the message hands the kernel the first one; the rules of
    the thread that take in a frame from the host and send one to the Internet,
    called on the first, hand over the second and leave the router as it was; the
    rules of the other end that take in a frame from the Internet and send one to
    the host, called on the second, hand over the third; and an adapter of the
    other end that is connected to this one reads the message from the third.
    It holds in both directions, and for every message whose frame fits the
    buffers of a read. *)
Theorem endtoend_delivers `{ResolverSpec} b rh ri ra rh' ri' ra' w0 w v0 v a0 a z0 z sport dport msg :
  (∀ ip, is_u32 ip → inet_ntoa ip = DottedQuad.inet_ntoa ip) →
  set_up_router b rh ri = Ok w0 → set_up_router (negb b) rh' ri' = Ok v0 →
  set_up_adapter b ra = Ok a0 → set_up_adapter (negb b) ra' = Ok z0 →
  follows w0 w → follows v0 v → adapter_follows a0 a → adapter_follows z0 z →
  knows (_interface a) (gateway b) (random_router_ethernet_address rh) →
  side_knows (internet_side w) (internet_addr (negb b)) (random_router_ethernet_address ri') w →
  side_knows (host_side v) (host_addr (negb b)) (random_host_ethernet_address ra') v →
  is_u16 sport → is_u16 dport → message_ok msg → zlen (TCPMessages.payload (sender msg)) ≤ 16384 →
  connects (base a) (host_addr b) sport (host_addr (negb b)) dport →
  connects (base z) (host_addr (negb b)) dport (host_addr b) sport → _listen (base z) = false →
  ∃ p1 p2 p3,
    (∀ sys_writev fd, accepts sys_writev p1 →
      adapter_write sys_writev msg (fd, a) = (Ok (), (counted_write fd, a))) ∧
    (∀ os (s : state code () network) f g, world s = w →
      descriptors s !! frame_fd = Some f → descriptors s !! internet_socket = Some g →
      frame_readv os (now w) [14; 20; 20; 16384] = Returned p1 → accepts (internet_writev os (S (now w))) p2 →
      ∃ s', (call_back os HostToRouter ;; call_back os RouterToInternet) s = (Ok (), s') ∧ router (world s') = router w) ∧
    (∀ os (s : state code () network) f g, world s = v →
      descriptors s !! frame_fd = Some f → descriptors s !! internet_socket = Some g →
      internet_readv os (now v) [14; 20; 20; 16384] = Returned p2 → accepts (frame_writev os (S (now v))) p3 →
      ∃ s', (call_back os InternetToRouter ;; call_back os RouterToHost) s = (Ok (), s') ∧ router (world s') = router v) ∧
    (∀ sys fd, sys_readv sys [14; 20; 20; 16384] = Returned p3 →
      adapter_read sys (fd, z) = (Ok (Some (normal_message msg)), (counted_read fd, z))).
Proof.
  intros Hn Hw0 Hv0 Ha0 Hz0 Hw Hv Ha Hz Hk1 (j&Hj&Hk2) (k&Hk&Hk3) Hsp Hdp Hm Hp Hc Hc' Hl.
  destruct (follows_interfaces b rh ri w0 w Hn Hw0 Hw) as (Hh&Hi&Hr&Hir&i&j'&Hi0&Hj0&Ei&Ej).
  rewrite Hi, Hj0 in Hj. injection Hj as ->.
  destruct (follows_interfaces (negb b) rh' ri' v0 v Hn Hv0 Hv) as (Hh'&Hi'&Hr'&Hir'&k'&l&Hk0&Hl0&Ek&El).
  rewrite Hh', Hk0 in Hk. injection Hk as ->.
  destruct (adapter_address b ra a0 a Hn Ha0 Ha) as [Ea Ehop], (adapter_address (negb b) ra' z0 z Hn Hz0 Hz) as [Ez _].
  destruct Ha as [_ _ Hia [ipa Hoa]], Hz as [_ _ Hiz [ipz Hoz]]. pose proof ends_u32 as Hu.
  destruct (wrapped_ok b sport dport msg Hm Hp) as (Hd&Hd1&Hd2&Hrooms). set (d := wrapped _ _ _ _ _) in *.
  pose proof (Hrooms d eq_refl) as Hroom.
  pose proof (random_router_ok rh). pose proof (random_router_ok ri). pose proof (random_router_ok rh').
  pose proof (random_router_ok ri'). pose proof (random_host_ok ra). pose proof (random_host_ok ra').
  exists (frame_text (dgram_frame (random_host_ethernet_address ra) (random_router_ethernet_address rh) d)),
    (frame_text (dgram_frame (random_router_ethernet_address ri) (random_router_ethernet_address ri') (forwarded d))),
    (frame_text (dgram_frame (random_router_ethernet_address rh') (random_host_ethernet_address ra') (forwarded (forwarded d)))).
  split_and!.
  - intros sys_writev fd Hacc. change (NetworkInterfaceAdapter.write sys_writev msg (fd, a) = (Ok (), (counted_write fd, a))).
    eapply (interface_write_ok _ _ _ _ (proj1 (Hu b)) Hsp (proj1 (Hu (negb b))) Hdp a ipa (gateway b)); try done.
    + rewrite Ehop. apply inet_numeric, Hu.
    + by rewrite Ea.
    + by rewrite Ea.
  - intros os s f g <- Hf Hg Hread Hacc. eexists. split.
    + apply (crosses s frame_fd internet_socket _ _ host_side internet_side f g i j
        (random_host_ethernet_address ra) d (inet (internet_addr (negb b)) 0) (internet_addr (negb b))
        (random_router_ethernet_address ri')); rewrite ?Hh, ?Hi, ?Ei, ?Ej; try assumption.
      all: first [by apply (decision_out b)|apply inet_numeric, Hu|done].
    + done.
  - intros os s f g <- Hf Hg Hread Hacc. eexists. split.
    + apply (crosses s internet_socket frame_fd _ _ internet_side host_side g f l k
        (random_router_ethernet_address ri) (forwarded d) (inet (host_addr (negb b)) 0) (host_addr (negb b))
        (random_host_ethernet_address ra')); rewrite ?Hh', ?Hi', ?Ek, ?El; try assumption.
      all: first [by apply Hrooms|by apply (decision_in (negb b))|apply inet_numeric, Hu|done].
    + done.
  - intros sys fd Hread. change (NetworkInterfaceAdapter.read sys (fd, z) = (Ok (Some (normal_message msg)), (counted_read fd, z))).
    apply (interface_read_ok (host_addr b) sport (host_addr (negb b)) dport (proj1 (Hu b)) Hsp (proj1 (Hu (negb b))) Hdp
      z ipz (random_router_ethernet_address rh') (forwarded (forwarded d))); rewrite ?Ez; try assumption.
    all: first [by apply Hrooms|done].
Qed.

(** Two ends that know their neighbours. *)
Definition with_entry (ip : Z) (m : EthernetAddress) (i : NetworkInterface) : NetworkInterface :=
  NetworkInterface.with_table (ARPTable.add_entry ip m (arp_table_ i)) i.
Definition demo_random (k : Z) (n : nat) : Z := k * 16 + Z.of_nat n.
Definition demo_network (b : bool) (rh ri : Z) (f g : NetworkInterface → NetworkInterface) : network :=
  mkNetwork (mkRouter
    [f (NetworkInterface.new "host_side" (random_router_ethernet_address (demo_random rh)) (inet (gateway b) 0));
     g (NetworkInterface.new "internet side" (random_router_ethernet_address (demo_random ri)) (inet (internet_addr b) 0))]
    (table b)) 0 1 0.
Definition demo_end (b : bool) (ra : Z) (port port' : Z) (f : NetworkInterface → NetworkInterface) : NetworkInterfaceAdapter :=
  mkNetworkInterfaceAdapter
    (mkFdAdapterBase (mkFdAdapterConfig (inet (host_addr b) port) (inet (host_addr (negb b)) port') 0 0) false)
    (f (NetworkInterface.initialize false (NetworkInterface.new "network interface adapter"
       (random_host_ethernet_address (demo_random ra)) (inet (host_addr b) 0))))
    (inet (gateway b) 0).

Lemma with_entry_ok ip k m i :
  iface_ok ip i → pending_ (arp_queue_ i) = ∅ → iface_ok ip (with_entry k m i).
Proof.
  intros [] Hp. split; try done; cbn.
  - by apply add_entry_ok.
  - intros k' _. by rewrite Hp, lookup_empty.
Qed.

Definition unchanged (i : NetworkInterface) : NetworkInterface := i.

Lemma table_hops b : Forall (λ e, ∀ hop, next_hop e = Some hop → ∃ t, Address.ipv4_numeric hop = Ok t) (table b).
Proof.
  apply Forall_forall. intros e He hop Hop.
  assert (∃ c, hop = inet (internet_addr c) 0) as [c ->].
  { unfold table in He. repeat (apply elem_of_cons in He as [->|He];
      [destruct b; cbn [next_hop] in Hop;
       lazymatch type of Hop with None = _ => done | Some (inet (internet_addr ?c) 0) = _ => exists c; congruence end|]).
    by apply elem_of_nil in He. }
  exists (internet_addr c). apply inet_numeric. by destruct c.
Qed.

Lemma demo_follows b rh ri k m k' m' :
  follows (demo_network b rh ri unchanged unchanged) (demo_network b rh ri (with_entry k m) (with_entry k' m')).
Proof.
  split; [done|done| |].
  - by repeat constructor.
  - split; [|by repeat constructor]. split.
    + repeat constructor; eexists; (apply with_entry_ok; [|done]); apply new_iface_ok, inet_numeric; by destruct b.
    + destruct b; repeat constructor.
    + apply table_hops.
Qed.

Definition demo_new (b : bool) (ra : Z) : NetworkInterfaceAdapter :=
  mkNetworkInterfaceAdapter (mkFdAdapterBase (mkFdAdapterConfig (inet 0 0) (inet 0 0) 0 0) false)
    (_interface (demo_end b ra 0 0 unchanged)) (inet (gateway b) 0).

Lemma demo_adapter_follows b ra port port' k m :
  adapter_follows (demo_new b ra) (demo_end b ra port port' (with_entry k m)).
Proof.
  split; [done|done|done|]. exists (host_addr b). apply with_entry_ok; [|done].
  apply initialize_ok, new_iface_ok, inet_numeric. by destruct b.
Qed.

Lemma endtoend_delivers_witness :
  let R := DottedQuad.resolver in
  let mac_host n := random_host_ethernet_address (demo_random n) in
  let mac_router n := random_router_ethernet_address (demo_random n) in
  let a := demo_end true 1 4000 1234 (with_entry (gateway true) (mac_router 2)) in
  let z := demo_end false 6 1234 4000 (with_entry (gateway false) (mac_router 5)) in
  ∃ p1 p3,
    (∀ sys_writev fd, accepts sys_writev p1 → adapter_write sys_writev demo_message (fd, a) = (Ok (), (counted_write fd, a))) ∧
    (∀ sys fd, sys_readv sys [14; 20; 20; 16384] = Returned p3 →
      adapter_read sys (fd, z) = (Ok (Some (normal_message demo_message)), (counted_read fd, z))).
Proof.
  intros R mac_host mac_router a z.
  assert (∀ ip, is_u32 ip → inet_ntoa ip = DottedQuad.inet_ntoa ip) as Hn by done.
  destruct (@endtoend_delivers R DottedQuad.resolver_spec true (demo_random 2) (demo_random 3) (demo_random 1)
    (demo_random 5) (demo_random 4) (demo_random 6)
    (demo_network true 2 3 unchanged unchanged)
    (demo_network true 2 3 (with_entry (host_addr true) (mac_host 1)) (with_entry (internet_addr false) (mac_router 4)))
    (demo_network false 5 4 unchanged unchanged)
    (demo_network false 5 4 (with_entry (host_addr false) (mac_host 6)) (with_entry (internet_addr true) (mac_router 3)))
    (demo_new true 1) a (demo_new false 6) z 4000 1234 demo_message)
    as (p1&p2&p3&H1&_&_&H3).
  - exact Hn.
  - exact (@set_up_router_ok R DottedQuad.resolver_spec Hn true _ _).
  - exact (@set_up_router_ok R DottedQuad.resolver_spec Hn false _ _).
  - by vm_compute.
  - by vm_compute.
  - apply demo_follows.
  - apply demo_follows.
  - exact (demo_adapter_follows true 1 4000 1234 _ _).
  - exact (demo_adapter_follows false 6 1234 4000 _ _).
  - by vm_compute.
  - eexists. split; [done|by vm_compute].
  - eexists. split; [done|by vm_compute].
  - done.
  - done.
  - by split; [..|vm_compute].
  - by vm_compute.
  - done.
  - done.
  - done.
  - exists p1, p3. split; [exact H1|exact H3].
Defined.
