(* ===== verification/EndtoendSocket.v ===== *)
(** The TCP socket of src/apps/endtoend.cc, a TCPMinnowSocket on a network
    interface: what its adapter holds stays small enough for TCP, so that the
    theorems on sockets apply to it; and what every adapter hands over from a
    device's packets. *)

From S2P Require Import Prelude WrappingIntegers ByteStream Effects Ref Parser Wire WireSize Ethernet IPv4 TCPSegment TCPMessages.
From S2P Require Import Address TCPOverIP ARPTable ARPMessageQueue NetworkInterface FileDescriptor EventRules EventLoop.
From S2P Require Import TCPPeer PeerStreams Adapter EpollEventLoop MinnowSocket Endtoend.

(** * What the interface received *)

(** A call that leaves the datagrams received alone. *)
Definition leaves_received (m : NetworkInterface → result NetworkInterface) : Prop :=
  ∀ i i', m i = Ok i' → datagrams_received_ i' = datagrams_received_ i.

Lemma send_ipv4_leaves d m : leaves_received (NetworkInterface.send_ipv4 d m).
Proof. by intros i i' (payload&_&[= <-])%bind_Ok. Qed.

Lemma send_all_leaves ds m : leaves_received (NetworkInterface.send_all ds m).
Proof.
  induction ds as [|d ds IH]; intros i i'; cbn [NetworkInterface.send_all]; [by intros [= <-]|].
  intros (i1&H1%send_ipv4_leaves&H2%IH)%bind_Ok. congruence.
Qed.

Lemma flush_leaves ip : leaves_received (NetworkInterface.flush_pending_for ip).
Proof.
  intros i i'. unfold NetworkInterface.flush_pending_for. destruct (ARPTable.lookup _ _) as [[mac|] t]; [|by intros [= <-]].
  destruct (ARPMessageQueue.pop_pending _ _) as [ds q]. by intros H%send_all_leaves.
Qed.

Lemma recv_arp_leaves msg : leaves_received (NetworkInterface.recv_arp msg).
Proof.
  intros i i' (b&_&(i1&H1&H2%flush_leaves)%bind_Ok)%bind_Ok. rewrite H2.
  destruct b; [|by injection H1 as <-]. unfold NetworkInterface.send_arp_reply in H1.
  apply bind_Ok in H1 as (sender&_&H1). by apply bind_Ok in H1 as (payload&_&[= <-]).
Qed.

Lemma send_datagram_leaves d hop : leaves_received (NetworkInterface.send_datagram d hop).
Proof.
  intros i i' (ip&_&He)%bind_Ok. destruct (ARPTable.lookup _ _) as [[mac|] t]; [by apply send_ipv4_leaves in He|].
  apply bind_Ok in He as (q&_&He). destruct (negb _); [|by injection He as <-].
  by apply bind_Ok in He as (frame&_&[= <-]).
Qed.

Lemma tick_leaves ms order : leaves_received (NetworkInterface.tick ms order).
Proof. by intros i i' ([q p]&_&[= <-])%bind_Ok. Qed.

(** * Sizes *)

Definition small (d : IPv4Datagram) : Prop := zlen (text (IPv4.payload d)) ≤ 65535.

Lemma shrinks_integers w olds : shrinks (integers w olds).
Proof.
  induction olds as [|old olds IH]; cbn [integers]; [apply shrinks_ret|].
  apply shrinks_bind; [apply shrinks_integer|]. intros v. apply shrinks_bind; [done|]. intros vs. apply shrinks_ret.
Qed.

Lemma frame_size old bufs f ok :
  run_parser (EthernetFrame.parse old) bufs = Ok (f, ok) → zlen (text (Ethernet.payload f)) ≤ zlen (text bufs).
Proof.
  intros (p&Hp&He)%bind_Ok. rewrite <- (make_held _ _ Hp).
  destruct (EthernetFrame.parse old p) as [[f' p']|] eqn:E; [|done]. injection He as -> _.
  unfold EthernetFrame.parse in E. apply bind_inv in E as (h&p1&H1&E).
  apply bind_inv in E as (out&p2&[-> Ho]%all_remaining_held&[= <- <-]). cbn. etransitivity; [exact Ho|].
  assert (shrinks (EthernetHeader.parse (Ethernet.header old))) as Hs; [|by apply Hs in H1].
  unfold EthernetHeader.parse. repeat (apply shrinks_bind; [first [apply shrinks_integers|apply shrinks_integer]|intros ?]).
  apply shrinks_ret.
Qed.

(** A frame from the descriptor. *)
Lemma received_frame_size sys_readv w f w' :
  maybe_receive_frame sys_readv w = (Ok (Some f), w') → zlen (text (Ethernet.payload f)) ≤ 65535.
Proof.
  unfold maybe_receive_frame. rewrite bind_eq.
  destruct (FileDescriptor.readv sys_readv frame_buffers w) as [[strs|e] w1] eqn:Hr; [|done].
  apply readv_room in Hr; [|done]. replace (zlen (concat (FileDescriptor.widen_back frame_buffers))) with 16438 in Hr by by vm_compute.
  rewrite bind_eq. destruct (parse (mkEthernetFrame blank_header []) (Owned <$> strs)) as [[frame ok]|e] eqn:Hp; [|done].
  cbn [Effects.lift]. destruct ok; [|done]. intros [= -> _]. apply frame_size in Hp. rewrite text_owned in Hp. lia.
Qed.

(** * The adapter *)

(** The datagrams that wait to be read are no longer than IP allows. *)
Definition holds_small (a : NetworkInterfaceAdapter) : Prop := Forall small (datagrams_received_ (_interface a)).

Lemma recv_frame_small f i i' :
  zlen (text (Ethernet.payload f)) ≤ 65535 → NetworkInterface.recv_frame f i = Ok i' →
  Forall small (datagrams_received_ i) → Forall small (datagrams_received_ i').
Proof.
  intros Hf He Hi. unfold NetworkInterface.recv_frame in He. destruct (_ && _); [by injection He as <-|].
  case_bool_decide.
  - apply bind_Ok in He as ([d ok]&Hp&He). destruct ok; injection He as <-; [|done]. cbn.
    apply Forall_app. split; [done|]. constructor; [|constructor]. apply datagram_size in Hp. unfold small. lia.
  - case_bool_decide; [|by injection He as <-]. apply bind_Ok in He as ([msg ok]&_&He).
    destruct ok; [|by injection He as <-]. apply recv_arp_leaves in He. by rewrite He.
Qed.

Section adapter.
Context `{Resolver}.
Import NetworkInterfaceAdapter.

Lemma on_fd_adapter {B} (m : eff FDWrapper B) (x : FDWrapper * NetworkInterfaceAdapter) : (on_fd m x).2.2 = x.2.
Proof. destruct x as [w a]. unfold on_fd. by destruct (m w) as [r w']. Qed.

(** A call of the interface that keeps the datagrams small. *)
Lemma on_interface_small sys_writev m w a :
  (∀ i', m (_interface a) = Ok i' → Forall small (datagrams_received_ i')) → holds_small a →
  holds_small (on_interface sys_writev m (w, a)).2.2.
Proof.
  intros Hm Ha. unfold on_interface. rewrite bind_eq. cbv beta iota delta [gets]. change ((w, a).2) with a. rewrite bind_eq.
  destruct (m (_interface a)) as [i'|e]; [|done]. cbn [Effects.lift]. rewrite bind_eq. cbn [modify].
  rewrite on_fd_adapter. exact (Hm i' eq_refl).
Qed.

Lemma unwrap_small dgram w a r x :
  unwrap dgram (w, a) = (r, x) → small dgram → holds_small a →
  holds_small x.2 ∧ ∀ m, r = Ok (Some m) → wire_message m.
Proof.
  unfold unwrap, on_adapter. destruct (TCPOverIPv4Adapter.unwrap_tcp_in_ip dgram (base a)) as [[o b]|e] eqn:Hu.
  - cbn. intros [= <- <-] Hd Ha. split; [done|]. intros m [= ->].
    apply unwrap_sound in Hu as (Hs&Hac&Hw&Hl). unfold small in Hd. split; [done|]. split; [done|]. lia.
  - cbn. intros [= <- <-] _ Ha. by split.
Qed.

Lemma read_small sys w a r x :
  read sys (w, a) = (r, x) → holds_small a →
  holds_small x.2 ∧ ∀ m, r = Ok (Some m) → wire_message m.
Proof.
  intros Hr Ha. unfold read in Hr. rewrite bind_eq in Hr. unfold on_fd at 1 in Hr.
  destruct (maybe_receive_frame (sys_readv sys) w) as [[[f|]|e] w1] eqn:Hf; [|by injection Hr as <- <-..].
  apply received_frame_size in Hf. rewrite bind_eq in Hr.
  pose proof (on_interface_small (sys_writev sys) (NetworkInterface.recv_frame f) w1 a
    (λ i' Hi, recv_frame_small f _ i' Hf Hi Ha) Ha) as Hs.
  destruct (on_interface _ _ _) as [[[]|e] [w2 a2]]; [|by injection Hr as <- <-]. cbn [snd] in Hs.
  rewrite bind_eq in Hr. cbv beta iota delta [gets] in Hr. change ((w2, a2).2) with a2 in Hr.
  unfold holds_small in Hs. destruct (datagrams_received_ (_interface a2)) as [|d rest] eqn:Hd.
  { injection Hr as <- <-. split; [|done]. unfold holds_small. cbn. by rewrite Hd. }
  apply Forall_cons in Hs as [Hsmall Hrest]. rewrite bind_eq in Hr. cbn [modify] in Hr.
  by apply (unwrap_small _ _ _ _ _ Hr Hsmall).
Qed.

Lemma interface_keeps : adapter_keeps holds_small.
Proof.
  split.
  - intros sys w a Ha. destruct (adapter_read sys (w, a)) as [r x] eqn:Hr. by apply (read_small _ _ _ _ _ Hr).
  - intros sys m w a Ha. cbn [adapter_write interface_adapter]. unfold write. rewrite bind_eq. cbv beta iota delta [gets]. change ((w, a).2) with a. rewrite bind_eq.
    destruct (TCPOverIPv4Adapter.wrap_tcp_in_ip m (base a)) as [d|e]; [|done]. cbn [Effects.lift].
    apply on_interface_small; [|done]. intros i' Hi%send_datagram_leaves. unfold holds_small in Ha. by rewrite Hi.
  - done.
  - done.
  - intros ms a Ha. cbn [adapter_tick interface_adapter]. unfold tick.
    destruct (NetworkInterface.tick _ _ _) as [i|e] eqn:Ht; [|done]. apply tick_leaves in Ht.
    unfold holds_small in *. cbn. by rewrite Ht.
Qed.

#[export] Instance interface_wire : WireAdapter NetworkInterfaceAdapter.
Proof.
  refine {| adapter_sound := holds_small; wire_keeps := interface_keeps |}.
  intros sys w a m s' Ha Hr. by apply (read_small sys w a _ _ Hr).
Defined.

Lemma set_up_adapter_sound is_client random a : set_up_adapter is_client random = Ok a → adapter_sound a.
Proof.
  unfold set_up_adapter, new. intros (ip&_&He)%bind_Ok. apply bind_Ok in He as (hop&_&He).
  apply bind_Ok in He as (any&_&[= <-]). cbn. constructor.
Qed.
End adapter.

(** * Properties *)

Section session.
Context `{Resolver} {K : Type} (os : MinnowSocket.system K).
Import TCPMinnowSocket.

(** The application's socket: it connects, or waits for a connection, and its
    thread takes so many turns. *)
Definition endtoend_session (is_client : bool) (fuel turns : nat) (random : Z) (local address : Address)
    : eff (state MinnowSocket.code (EpollState K) (MinnowSocket.TCPMinnowSocket NetworkInterfaceAdapter)) () :=
  (if is_client then _ ← TCPSocketEndToEnd.connect os fuel random local address; mret ()
   else TCPSocketEndToEnd.listen_and_accept os fuel local) ;;
  _tcp_loop os turns (mret true).

(** This is a session of a TCPMinnowSocket, once there is a configuration. *)
Lemma endtoend_session_runs (is_client : bool) fuel turns random local address cfg s :
  (if is_client then snd <$> TCPSocketEndToEnd.connect_config random local address
   else TCPSocketEndToEnd.listen_config local) = Ok cfg →
  (endtoend_session is_client fuel turns random local address s).2 =
    (session os is_client fuel turns TCPMessages.default_config cfg s).2.
Proof.
  intros Hc. unfold endtoend_session, session. rewrite !bind_eq. destruct is_client.
  - unfold TCPSocketEndToEnd.connect. rewrite !bind_eq.
    destruct (TCPSocketEndToEnd.connect_config random local address) as [[l c]|e]; [|done]. injection Hc as ->.
    cbn [Effects.lift]. rewrite bind_eq.
    by destruct (TCPMinnowSocket.connect os fuel default_config cfg s) as [[[]|e] s1].
  - unfold TCPSocketEndToEnd.listen_and_accept. rewrite bind_eq, Hc. done.
Qed.
End session.

(** C40: whatever packet a device delivers, a message that the adapter hands
    over from it, off the TUN device, off a network interface whose datagrams
    are small or through a lossy adapter over a sound one, has its fields in the ranges of their types and a
    payload of at most 65535 bytes; and a peer whose two streams are
    represented takes it without undefined behaviour or an exception, its
    streams still represented, the inbound one only longer and what the owner
    wrote unchanged. *)
Theorem device_messages_typed `{Resolver} {E A} `{WireAdapter A} (rand : E → Z * E) sys m :
  (∃ s s', TunAdapter.read (sys_readv sys) s = (Ok (Some m), s')) ∨
  (∃ s s', holds_small s.2 ∧ NetworkInterfaceAdapter.read sys s = (Ok (Some m), s')) ∨
  (∃ w (a : LossyFdAdapter E A) s', adapter_sound (_adapter a) ∧
     LossyFdAdapter.read rand sys (w, a) = (Ok (Some m), s')) →
  wire_message m ∧
  ∀ st p a base ar, streams st p a base ar → window_fits ar →
    ∃ p' sent a' base' ar', TCPPeer.receive m p = Ok (p', sent) ∧ streams st p' a' base' ar' ∧
      same_outbound a a' ∧ grown ar ar'.
Proof.
  intros Hread. assert (wire_message m) as Hm.
  { destruct Hread as [(s&s'&Hr)|[([w a]&s'&Ha&Hr)|(w&a&s'&Ha&Hr)]];
      [by eapply tun_reads|by apply (read_small sys w a _ _ Hr)|by apply (lossy_reads rand sys w a _ _ Ha Hr)]. }
  split; [done|]. intros st p a base ar P Hw.
  destruct (streams_receive P m Hm Hw) as (p'&sent&a'&base'&ar'&?&?&?&?&_). by exists p', sent, a', base', ar'.
Qed.

Lemma device_messages_typed_witness :
  let R := DottedQuad.resolver in wire_message (normal_message TCPOverIP.demo_message).
Proof.
  intros R. refine (proj1 (device_messages_typed (A := FdAdapterBase) minstd (mkFdCalls (λ _, Returned demo_packet) (λ _, Returned 0)) _ _)).
  left. eexists _, _. exact demo_packet_read.
Defined.

(** The bytes of the end-to-end application.  Its socket, on the adapter as
    the program sets it up, with a local address that is numeric: whatever the
    descriptor delivers, from the opening of the connection on and wherever the
    thread stops, the outbound stream is what was taken from the owner, in order,
    and the owner was handed exactly what was read of the inbound stream. *)
Theorem endtoend_socket_streams `{ResolverSpec} {K} (os : MinnowSocket.system K) total
    (is_client : bool) fuel turns random random' ip port address a s :
  MinnowSocket.system_ok os total → MinnowSocket.fresh s →
  set_up_adapter is_client random = Ok a → _datagram_adapter (world s) = a → is_u32 ip → is_u16 port →
  let s' := (endtoend_session os is_client fuel turns random' (inet ip port) address s).2 in
  ∃ p out in_, _tcp (world s') = Some p ∧ refines (TCPPeer.outbound p) out ∧ refines (TCPPeer.inbound p) in_ ∧
    written out = slice (owner_bytes os) 0 (taken (world s')) ∧ fin out = _outbound_shutdown (world s') ∧
    (fin out = true → taken (world s') = total ∨ told (calls s')) ∧
    given (world s') = ztake (nread in_) (written in_) ∧
    (_inbound_shutdown (world s') = true → err in_ = true ∨ fin in_ = true).
Proof.
  intros Hos Hf Ha Hw Hip Hport s'.
  assert (∃ cfg, (if is_client then snd <$> TCPSocketEndToEnd.connect_config random' (inet ip port) address
    else TCPSocketEndToEnd.listen_config (inet ip port)) = Ok cfg) as [cfg Hc].
  { destruct is_client.
    - unfold TCPSocketEndToEnd.connect_config, Address.ip. rewrite inet_ip_port by done.
      change (fst <$> Ok (inet_ntoa ip, port)) with (Ok (inet_ntoa ip)).
      rewrite bind_Ok_l, of_ip_port_ok by (done || apply u16_range). by eexists.
    - unfold set_up_adapter in Ha. apply bind_Ok in Ha as (x&_&Ha). apply bind_Ok in Ha as (y&_&Ha).
      unfold NetworkInterfaceAdapter.new in Ha. apply bind_Ok in Ha as (any&Hany&_).
      unfold TCPSocketEndToEnd.listen_config. rewrite Hany, bind_Ok_l. by eexists. }
  pose proof (endtoend_session_runs os is_client fuel turns random' (inet ip port) address cfg s Hc) as Hs.
  unfold s'. rewrite Hs. eapply (socket_inv_streams os total).
  apply wire_session; try done. rewrite Hw. by eapply set_up_adapter_sound.
Qed.

(** ** A run *)

(** The client's socket over a network that is silent. *)
Definition demo_client `{Resolver} : NetworkInterfaceAdapter :=
  match set_up_adapter true (λ n, Z.of_nat n) with Ok a => a | Err _ => demo_new true 0 end.
Definition demo_socket `{Resolver} : state MinnowSocket.code (EpollState ()) (MinnowSocket.TCPMinnowSocket NetworkInterfaceAdapter) :=
  mkState [] [] [] 0
    {[adapter_fd := mkFDWrapper 5 false false false 0 0;
      thread_data := mkFDWrapper 6 false false true 0 0;
      own_fd := mkFDWrapper 7 false false true 0 0]} []
    (mkEpollState 4 ∅ ()) (mkTCPMinnowSocket demo_client None false false false false 0 0 []).

Lemma endtoend_socket_streams_witness :
  let R := DottedQuad.resolver in
  ∃ p, _tcp (world (endtoend_session demo_os true 3 5 0 (inet (host_addr true) 0) (inet (host_addr false) 80) demo_socket).2) = Some p.
Proof.
  intros R.
  destruct (@endtoend_socket_streams R DottedQuad.resolver_spec () demo_os 4 true 3 5 (λ n, Z.of_nat n) 0 (host_addr true) 0
    (inet (host_addr false) 80) demo_client demo_socket) as (p&_&_&Hp&_).
  - exact demo_os_ok.
  - split; [done|done|by eexists|by eexists|done].
  - vm_compute. reflexivity.
  - reflexivity.
  - done.
  - done.
  - exists p. exact Hp.
Defined.
