(* ===== verification/Webget.v ===== *)
(** The program that fetches a page (src/apps/webget.cc): a request is written to
    a TCP socket and the response is printed until the end of the stream. *)

From S2P Require Import Prelude Effects FileDescriptor Pipe Address.
From S2P Require Protocol Socket.

Definition literal := Protocol.literal.
Definition crlf : bytes := [Byte.x0d; Byte.x0a].

(** The socket, the number of bytes taken from it and the bytes given to it, and
    what was printed. *)
Record fetch : Type := mkFetch {
  sock : FDWrapper;
  received : Z;
  sent : bytes;
  printed : bytes;
  calls : nat;
}.

(** The system: the stream of the response, and what the calls answer. *)
Record system : Type := mkSystem {
  response_bytes : Z → byte;
  sys_read : nat → Z → Z → syscall Z;
  sys_writev : list bytes → syscall Z;
  sys_connect : Z → bytes → Z → syscall Z;
  sys_shutdown : Z → Z → syscall Z;
}.

Section program.
Context `{Resolver} (os : system).

Definition on_socket {A} (m : eff FDWrapper A) : eff fetch A :=
  λ s, let '(r, w) := m (sock s) in (r, mkFetch w (received s) (sent s) (printed s) (calls s)).

Definition request (host path : bytes) : bytes :=
  literal "GET " ++ path ++ literal " HTTP/1.0" ++ crlf ++ literal "Host: " ++ host ++ crlf
    ++ literal "Connection: close" ++ crlf ++ crlf.

(** [tcp.read( response )]. *)
Definition read_response (response : bytes) : eff fetch bytes :=
  s ← get_state;
  response ← on_socket (FileDescriptor.read
    (source_read (response_bytes os) (received s) (sys_read os (calls s) (received s))) response);
  modify (λ s, mkFetch (sock s) (received s + zlen response) (sent s) (printed s) (S (calls s))) ;;
  mret response.

(** The loop over the response, whose buffer is used again; [fuel] bounds the
    reads. *)
Fixpoint print_response (fuel : nat) (response : bytes) : eff fetch () :=
  match fuel with
  | O => mthrow OutOfFuel
  | S fuel =>
      w ← gets sock;
      if FileDescriptor.eof w then mret ()
      else
        response ← read_response response;
        when (bool_decide (response ≠ []))
          (modify (λ s, mkFetch (sock s) (received s) (sent s) (printed s ++ response) (calls s))) ;;
        print_response fuel response
  end.

(** [tcp.write( request )], whose result is not looked at. *)
Definition write_request (data : bytes) : eff fetch () :=
  n ← on_socket (FileDescriptor.write (sys_writev os) data);
  modify (λ s, mkFetch (sock s) (received s) (sent s ++ ztake n data) (printed s) (calls s)).

(** What the handlers add to the text of an exception is left out. *)
Definition get_URL (fuel : nat) (host path : string) : eff fetch () :=
  if bool_decide (host = EmptyString) || bool_decide (path = EmptyString) then mthrow (Throw "Empty host or path")
  else
    address ← lift (Address.of_names host "http");
    on_socket (Socket.Socket.connect (sys_connect os) address) ;;
    write_request (request (literal host) (literal path)) ;;
    on_socket (Socket.Socket.shutdown (sys_shutdown os) Socket.SHUT_WR) ;;
    print_response fuel [].

(** [TCPSocket tcp;] *)
Definition start (socket : Z → Z → Z → syscall Z) (getfl : syscall Z) : result fetch :=
  w ← Socket.Socket.make socket getfl AF_INET Socket.SOCK_STREAM 0;
  Ok (mkFetch w 0 [] [] 0).
End program.

(** * The response *)

Section response.
Context `{Resolver} (os : system) (total : Z).
Implicit Types s : fetch.

Hypothesis read_ok : ∀ t pos len, 0 ≤ pos ≤ total → 0 < len →
  ∃ m, sys_read os t pos len = Returned m ∧ 0 ≤ m ≤ len ∧ pos + m ≤ total ∧ (m = 0 → pos = total).

Lemma read_response_ok response s :
  0 ≤ received s ≤ total →
  ∃ m s', read_response os response s = (Ok (slice (response_bytes os) (received s) m), s') ∧
    0 ≤ m ∧ received s + m ≤ total ∧ (m = 0 → received s = total) ∧
    received s' = received s + m ∧ sent s' = sent s ∧ printed s' = printed s ∧
    eof_ (sock s') = eof_ (sock s) || bool_decide (m = 0).
Proof.
  intros Hpos. unfold read_response. rewrite bind_eq. cbn [get_state]. rewrite bind_eq. unfold on_socket.
  set (buffer := if bool_decide (response = []) then resize FileDescriptor.kReadBufferSize [] else response).
  assert (0 < zlen buffer) as Hb.
  { unfold buffer. case_bool_decide as Hr; [by rewrite zlen_resize|]. pose proof (zlen_nonneg response).
    destruct (decide (zlen response = 0)) as [?%zlen_0|]; [done|lia]. }
  assert (∀ sys w, FileDescriptor.read sys response w = FileDescriptor.read sys buffer w) as Hread.
  { intros sys w. unfold buffer. case_bool_decide as Hr; [by subst|done]. }
  rewrite Hread. destruct (read_ok (calls s) (received s) (zlen buffer) Hpos Hb) as (m&Hm&Hr&Hle&Hend).
  destruct (source_read_eof (response_bytes os) (received s) (sys_read os (calls s) (received s)) buffer (sock s) m Hb Hm Hr)
    as (w&->&He).
  rewrite bind_eq. cbn [modify mret eff_ret]. exists m. eexists. split; [done|].
  cbn. rewrite zlen_slice. split_and!; [lia|lia|done|lia|done|done|done].
Qed.

Lemma print_response_ok fuel response s :
  0 ≤ received s ≤ total → eof_ (sock s) = false → (Z.to_nat (total - received s) + 1 < fuel)%nat →
  ∃ s', print_response os fuel response s = (Ok (), s') ∧ sent s' = sent s ∧
    printed s' = printed s ++ slice (response_bytes os) (received s) (total - received s).
Proof.
  revert response s. induction fuel as [|fuel IH]; intros response s Hpos He Hf; [lia|]. cbn [print_response].
  rewrite bind_eq. cbn [gets]. unfold FileDescriptor.eof. rewrite He, bind_eq.
  destruct (read_response_ok response s Hpos) as (m&s1&->&Hm&Hle&Hend&Hr1&Hs1&Hp1&He1). rewrite He in He1. cbn [orb] in He1.
  rewrite bind_eq. destruct (decide (m = 0)) as [->|Hne].
  - rewrite slice_nil, (bool_decide_false ([] ≠ [])) by (lia || auto). cbn [when mret eff_ret].
    destruct fuel as [|fuel]; [lia|]. cbn [print_response]. rewrite bind_eq. cbn [gets].
    unfold FileDescriptor.eof. rewrite He1, bool_decide_true by done.
    exists s1. split; [done|]. split; [done|]. rewrite Hp1, slice_nil, app_nil_r; [done|]. specialize (Hend eq_refl). lia.
  - assert (slice (response_bytes os) (received s) m ≠ []) as Hsl.
    { intros Hs. pose proof (zlen_slice (response_bytes os) (received s) m) as Hl. rewrite Hs, zlen_nil in Hl. lia. }
    rewrite bool_decide_true by done. cbn [when modify].
    edestruct (IH (slice (response_bytes os) (received s) m)) as (s'&->&Hs'&Hp').
    4: { exists s'. split; [done|]. split; [by rewrite Hs'|]. rewrite Hp'. cbn [printed received]. rewrite Hp1, Hr1, <- app_assoc. f_equal.
         rewrite slice_app' by lia. f_equal. lia. }
    + cbn. lia.
    + cbn. by rewrite He1, bool_decide_false.
    + cbn. lia.
Qed.
End response.

(** * Properties *)

(** The page is printed whole.  If the connection is made and the request is
    taken, over a socket that blocks, [get_URL] returns, it printed exactly the
    bytes of the response, although its reads ask for no more than the last one
    yielded; and what it sent is as much of the request as the one call of
    writev(2) took.  A read for each byte and one for the end is enough. *)
Theorem webget_prints `{Resolver} (os : system) total fuel host path address s n w1 w2 w3 :
  host ≠ EmptyString → path ≠ EmptyString →
  (∀ t pos len, 0 ≤ pos ≤ total → 0 < len →
    ∃ m, sys_read os t pos len = Returned m ∧ 0 ≤ m ≤ len ∧ pos + m ≤ total ∧ (m = 0 → pos = total)) →
  0 ≤ total → received s = 0 → sent s = [] → printed s = [] → eof_ (sock s) = false →
  Address.of_names host "http" = Ok address →
  Socket.Socket.connect (sys_connect os) address (sock s) = (Ok (), w1) →
  FileDescriptor.write (sys_writev os) (request (literal host) (literal path)) w1 = (Ok n, w2) →
  Socket.Socket.shutdown (sys_shutdown os) Socket.SHUT_WR w2 = (Ok (), w3) →
  (Z.to_nat total + 1 < fuel)%nat →
  ∃ s', get_URL os fuel host path s = (Ok (), s') ∧ printed s' = slice (response_bytes os) 0 total ∧
    sent s' = ztake n (request (literal host) (literal path)).
Proof.
  intros Hh Hp Hread Htot Hr Hs Hpr He Ha Hc Hw Hsd Hf.
  assert (eof_ w3 = false) as He3.
  { pose proof (same_flags_connect (sys_connect os) address (sock s)) as [E1 _]. rewrite Hc in E1.
    pose proof (same_flags_writev (sys_writev os) [request (literal host) (literal path)] w1) as [E2 _].
    unfold FileDescriptor.write in Hw. rewrite Hw in E2.
    pose proof (same_flags_shutdown (sys_shutdown os) Socket.SHUT_WR w2) as [E3 _]. rewrite Hsd in E3. cbn in *. congruence. }
  unfold get_URL. rewrite !bool_decide_false by done. cbn [orb].
  rewrite Ha, bind_eq. cbn [lift]. rewrite bind_eq. unfold on_socket at 1. rewrite Hc.
  rewrite bind_eq. unfold write_request. rewrite bind_eq. unfold on_socket at 1. cbn [sock]. rewrite Hw. cbn [modify].
  rewrite bind_eq. unfold on_socket. cbn [sock]. rewrite Hsd. set (s3 := mkFetch w3 _ _ _ _).
  destruct (print_response_ok os total Hread fuel [] s3) as (s'&->&Hs'&Hp'); [cbn; lia|done|cbn; rewrite Hr, Z.sub_0_r; lia|].
  exists s'. rewrite Hs', Hp'. cbn. by rewrite Hr, Hs, Hpr, Z.sub_0_r.
Qed.

(** A response of six bytes comes in pieces of at most four. *)
Definition demo_page : bytes := literal "<html>".
Definition demo_system : system := {|
  response_bytes k := default Byte.x00 (demo_page !! Z.to_nat k);
  sys_read _ pos len := Returned (Z.min 4 (Z.min len (zlen demo_page - pos)));
  sys_writev bufs := Returned (zlen (concat bufs));
  sys_connect _ _ _ := Returned 0;
  sys_shutdown _ _ := Returned 0;
|}.
Definition demo_fetch : fetch := mkFetch (mkFDWrapper 3 false false false 0 0) 0 [] [] 0.
Definition demo_address `{Resolver} : Address := match Address.of_names "10.0.0.1" "http" with Ok a => a | Err _ => inet 0 0 end.

Lemma webget_prints_witness :
  let R := DottedQuad.resolver in
  ∃ s', get_URL demo_system 8 "10.0.0.1" "/" demo_fetch = (Ok (), s') ∧ printed s' = demo_page ∧
    sent s' = literal "GET / HTTP/1.0" ++ crlf ++ literal "Host: 10.0.0.1" ++ crlf ++ literal "Connection: close" ++ crlf ++ crlf.
Proof.
  intros R. destruct (webget_prints demo_system 6 8 "10.0.0.1" "/" demo_address demo_fetch 53
    (sock demo_fetch) (counted_write (sock demo_fetch)) (counted_write (counted_write (sock demo_fetch))))
    as (s'&Hg&Hp&Hs).
  - discriminate.
  - discriminate.
  - intros t pos len Hp Hl. cbn [sys_read demo_system]. change (zlen demo_page) with 6. eexists. split; [reflexivity|]. lia.
  - lia.
  - reflexivity.
  - reflexivity.
  - reflexivity.
  - reflexivity.
  - vm_compute. reflexivity.
  - vm_compute. reflexivity.
  - vm_compute. reflexivity.
  - vm_compute. reflexivity.
  - vm_compute. lia.
  - exists s'. split; [exact Hg|]. split; [rewrite Hp; vm_compute; reflexivity|]. rewrite Hs. vm_compute. reflexivity.
Defined.
