(* ===== verification/Text.v ===== *)
(** Text for people: src/util/helpers.cc and the members [to_string] of
    src/util/ethernet_header.cc, ipv4_header.cc, arp_message.cc and
    tcp_segment.cc. *)

From stdpp Require Import strings pretty.
From S2P Require Import Prelude WrappingIntegers TCPMessages Ref Parser Wire WireSize Checksum.
From S2P Require Import Ethernet IPv4 TCPSegment ARPMessage Address.
Open Scope Z_scope.

(** * Numbers *)

Definition dec (n : Z) : string := pretty (Z.to_N n).

Definition hex_digit (n : Z) : Ascii.ascii := Ascii.ascii_of_nat (Z.to_nat (if bool_decide (n < 10) then 48 + n else 87 + n)).

(** [hex]: the digits of a number of at most 32 bits. *)
Fixpoint hex_loop (fuel : nat) (n : Z) (s : string) : string :=
  match fuel with
  | O => s
  | S fuel =>
      let s := String (hex_digit (n `mod` 16)) s in
      if bool_decide (n < 16) then s else hex_loop fuel (n / 16) s
  end.
Definition hex (n : Z) : string := hex_loop 8 n "".

(** [setw( 2 )] and [setfill( '0' )]. *)
Definition pad2 (s : string) : string := if bool_decide (String.length s = 1%nat) then "0" +:+ s else s.

(** * pretty_print *)

Definition ellipsis : string := "...".
Definition char_of (b : byte) : Ascii.ascii := Ascii.ascii_of_byte b.

(** [isprint( ch )], in the C locale, and not a double quote. *)
Definition quotable (b : byte) : bool :=
  let ch := byte_to_Z b in bool_decide (32 <= ch) && bool_decide (ch <= 126) && bool_decide (ch ≠ 34).

Definition escape (b : byte) : string :=
  if quotable b then String (char_of b) "" else "\x" +:+ pad2 (hex (byte_to_Z b)).

(** The loop, with what was written so far: the text and [truncated]. *)
Fixpoint pretty_loop (max_length : nat) (str : bytes) (ss : string) : string * bool :=
  match str with
  | [] => (ss, false)
  | ch :: str =>
      if bool_decide (max_length ≤ String.length ss)%nat then (ss, true)
      else pretty_loop max_length str (ss +:+ escape ch)
  end.

Definition pretty_print (str : bytes) (max_length : nat) : string :=
  let '(ret, truncated) := pretty_loop max_length str "" in
  if (truncated : bool) then
    if bool_decide (3 ≤ String.length ret)%nat then String.substring 0 (String.length ret - 3) ret +:+ ellipsis
    else ret +:+ ellipsis
  else ret.

(** Between double quotes. *)
Definition quoted (s : string) : string := String (Ascii.ascii_of_nat 34) (s +:+ String (Ascii.ascii_of_nat 34) "").

Definition DEFAULT_LENGTH : nat := 32.

(** * Headers *)

(** [to_string( EthernetAddress )]. *)
Definition ethernet_to_string (address : EthernetAddress) : string :=
  String.concat ":" ((λ b, pad2 (hex b)) <$> address).

Module EthernetText.
Definition to_string (h : EthernetHeader) : string :=
  "dst=" +:+ ethernet_to_string (Ethernet.dst h) +:+ " src=" +:+ ethernet_to_string (Ethernet.src h) +:+ " type=" +:+
  (if bool_decide (Ethernet.type h = EthernetHeader.TYPE_IPv4) then "IPv4"
   else if bool_decide (Ethernet.type h = EthernetHeader.TYPE_ARP) then "ARP"
   else "[unknown type " +:+ hex (Ethernet.type h) +:+ "!]").
End EthernetText.

Module TCPText.
Definition to_string (seg : TCPSegment) : string :=
  let snd := sender (message seg) in
  let rcv := receiver (message seg) in
  "TCP" +:+ " seqno=" +:+ dec (raw_value_ (seqno snd))
  +:+ (if SYN snd then " +SYN" else "")
  +:+ (if bool_decide (TCPMessages.payload snd = []) then ""
       else " payload=" +:+ quoted (pretty_print (TCPMessages.payload snd) DEFAULT_LENGTH))
  +:+ (if FIN snd then " +FIN" else "")
  +:+ (if RST snd || rRST rcv then " +RST" else "")
  +:+ match ackno rcv with Some ackno => " ACK<" +:+ dec (raw_value_ ackno) +:+ ">" | None => "" end
  +:+ " winsize=" +:+ dec (window_size rcv)
  +:+ " src=" +:+ dec (src_port (udinfo seg)) +:+ " dst=" +:+ dec (dst_port (udinfo seg)).
End TCPText.

Section resolver.
Context `{Resolver}.

Definition ipv4_to_string (h : IPv4Header) : string :=
  "IPv" +:+ hex (ver h) +:+ " len=" +:+ dec (len h) +:+ " proto=" +:+ dec (proto h) +:+ " ttl=" +:+ dec (ttl h)
  +:+ " src=" +:+ inet_ntoa (IPv4.src h) +:+ " dst=" +:+ inet_ntoa (IPv4.dst h).

Definition arp_to_string (m : ARPMessage) : string :=
  let opcode_str :=
    if bool_decide (opcode m = ARPMessage.OPCODE_REPLY) then "REPLY"
    else if bool_decide (opcode m = ARPMessage.OPCODE_REQUEST) then "REQUEST"
    else "(unknown type)" in
  "opcode=" +:+ opcode_str +:+ ", sender=" +:+ ethernet_to_string (sender_ethernet_address m) +:+ "/"
  +:+ inet_ntoa (sender_ip_address m) +:+ ", target=" +:+ ethernet_to_string (target_ethernet_address m) +:+ "/"
  +:+ inet_ntoa (target_ip_address m).

(** [concat( buffers )]. *)
Definition concat_buffers (buffers : list (Ref bytes)) : bytes := concat (Ref.get <$> buffers).

(** * summary *)

Definition summary_ipv4 (frame : EthernetFrame) : result string :=
  '(dgram, ok) ← parse IPv4Datagram.new (Ethernet.payload (EthernetFrame.clone frame));
  if (ok : bool) then
    let out := ipv4_to_string (header dgram) +:+ " payload=" in
    if bool_decide (proto (header dgram) = IPv4Header.PROTO_TCP) then
      '(tcp_seg, ok) ← parse_segment (IPv4Header.pseudo_checksum (header dgram)) TCPSegment.new (IPv4.payload dgram);
      Ok (out +:+ if (ok : bool) then TCPText.to_string tcp_seg else "bad TCP segment")
    else Ok (out +:+ quoted (pretty_print (concat_buffers (IPv4.payload dgram)) DEFAULT_LENGTH))
  else Ok "bad IPv4 datagram".

Definition summary_arp (frame : EthernetFrame) : result string :=
  '(arp, ok) ← parse ARPMessage.new (Ethernet.payload (EthernetFrame.clone frame));
  Ok (if (ok : bool) then arp_to_string arp else "bad ARP message").

Definition summary (frame : EthernetFrame) : result string :=
  let out := EthernetText.to_string (Ethernet.header frame) +:+ " payload: " in
  let type := Ethernet.type (Ethernet.header frame) in
  rest ←
    (if bool_decide (type = EthernetHeader.TYPE_IPv4) then summary_ipv4 frame
     else if bool_decide (type = EthernetHeader.TYPE_ARP) then summary_arp frame
     else Ok "unknown frame type");
  Ok (out +:+ rest).
End resolver.

(** * Strings *)

Definition chars : string → list Ascii.ascii := String.list_ascii_of_string.

Lemma chars_app s t : chars (s +:+ t) = chars s ++ chars t.
Proof. induction s as [|c s IH]; [done|]. exact (f_equal (cons c) IH). Qed.
Lemma length_chars s : length (chars s) = String.length s.
Proof. induction s as [|c s IH]; [done|]. exact (f_equal S IH). Qed.
Lemma string_app_nil_r s : s +:+ "" = s.
Proof. induction s as [|c s IH]; [done|]. exact (f_equal (String c) IH). Qed.
Lemma string_app_assoc s t u : (s +:+ t) +:+ u = s +:+ (t +:+ u).
Proof. induction s as [|c s IH]; [done|]. exact (f_equal (String c) IH). Qed.
Lemma string_length_app s t : String.length (s +:+ t) = (String.length s + String.length t)%nat.
Proof. by rewrite <- !length_chars, chars_app, length_app. Qed.

Lemma substring_prefix n s :
  (n ≤ String.length s)%nat →
  String.length (String.substring 0 n s) = n ∧ ∃ more, s = String.substring 0 n s +:+ more.
Proof.
  revert n. induction s as [|c s IH]; intros n Hn.
  - destruct n; [|cbn in Hn; lia]. split; [done|by exists ""].
  - destruct n as [|n]; [split; [done|by exists (String c s)]|]. destruct (IH n) as (Hl&more&Hm); [cbn in Hn; lia|].
    split; [exact (f_equal S Hl)|]. exists more. exact (f_equal (String c) Hm).
Qed.

(** * Escaping *)

(** The whole of some bytes, escaped. *)
Fixpoint escaped (str : bytes) : string :=
  match str with [] => "" | b :: str => escape b +:+ escaped str end.

(** Characters that end no quotation. *)
Definition plain (c : Ascii.ascii) : Prop := quotable (Ascii.byte_of_ascii c) = true.

Lemma escape_length b : String.length (escape b) = 1%nat ∨ String.length (escape b) = 4%nat.
Proof. destruct b; vm_compute; auto. Qed.
Lemma escape_plain b : Forall plain (chars (escape b)).
Proof.
  assert (forallb (λ c, quotable (Ascii.byte_of_ascii c)) (chars (escape b)) = true) as Hb by (by destruct b).
  apply Forall_forall. intros c Hc. rewrite List.forallb_forall in Hb. apply Hb. by apply list_elem_of_In.
Qed.
Lemma escaped_plain str : Forall plain (chars (escaped str)).
Proof.
  induction str as [|b str IH]; [constructor|]. cbn [escaped]. rewrite chars_app. apply Forall_app.
  split; [apply escape_plain|done].
Qed.
Lemma escaped_app s t : escaped (s ++ t) = escaped s +:+ escaped t.
Proof. induction s as [|b s IH]; [done|]. cbn [app escaped]. by rewrite IH, string_app_assoc. Qed.

(** The loop stops at the end or once the text is long enough, which it passes
    by three characters at most. *)
Lemma pretty_loop_ok n str ss :
  ∃ p rest, str = p ++ rest ∧ pretty_loop n str ss = (ss +:+ escaped p, bool_decide (rest ≠ [])) ∧
    (String.length (ss +:+ escaped p) ≤ (String.length ss) `max` (n + 3))%nat ∧
    (String.length (ss +:+ escaped p) ≤ String.length ss `max` n ∨ 4 ≤ String.length (ss +:+ escaped p))%nat ∧
    (rest ≠ [] → (n ≤ String.length (ss +:+ escaped p))%nat).
Proof.
  revert ss. induction str as [|b str IH]; intros ss; cbn [pretty_loop].
  - exists [], []. cbn [escaped]. rewrite string_app_nil_r. split_and!; [done|done|lia|lia|done].
  - case_bool_decide as Hn.
    + exists [], (b :: str). cbn [escaped]. rewrite string_app_nil_r. split_and!; [done|done|lia|lia|done].
    + destruct (IH (ss +:+ escape b)) as (p&rest&->&->&Hl&H4&Hr). exists (b :: p), rest. cbn [escaped].
      rewrite <- string_app_assoc. pose proof (string_length_app (ss +:+ escape b) (escaped p)) as E1.
      pose proof (string_length_app ss (escape b)) as E2. pose proof (escape_length b) as E3.
      split_and!; [done|done|lia|lia|done].
Qed.

(** * Properties *)

(** Pretty_print.  The text is at most three characters longer than the
    limit, and no character of it ends a quotation.  It is the bytes escaped, if
    they fit; if not, it is these or a beginning of these and an ellipsis, which
    is no shorter than the limit. *)
Theorem pretty_print_bounds str max_length :
  let ret := pretty_print str max_length in
  (String.length ret ≤ max_length + 3)%nat ∧ Forall plain (chars ret) ∧
  ((String.length (escaped str) ≤ max_length)%nat → ret = escaped str) ∧
  (ret = escaped str ∨
   ∃ shown more, escaped str = shown +:+ more ∧ ret = shown +:+ ellipsis ∧ (max_length ≤ String.length ret)%nat).
Proof.
  cbv zeta. unfold pretty_print. destruct (pretty_loop_ok max_length str "") as (p&rest&Hs&->&Hl&H4&Hr).
  change ("" +:+ escaped p) with (escaped p) in *. cbn [String.length] in Hl, H4. rewrite Hs, escaped_app.
  assert (Forall plain (chars ellipsis)) as Hdots by (vm_compute; repeat constructor).
  destruct (decide (rest = [])) as [->|Hne].
  { rewrite bool_decide_false by auto. cbn [escaped]. rewrite string_app_nil_r. split_and!; [lia|apply escaped_plain|done|by left]. }
  rewrite (bool_decide_true (rest ≠ [])) by done. specialize (Hr Hne).
  assert (String.length (escaped p +:+ escaped rest) ≠ String.length (escaped p)) as Hlong.
  { rewrite string_length_app. destruct rest as [|b rest]; [done|]. cbn [escaped]. rewrite string_length_app.
    destruct (escape_length b) as [-> | ->]; lia. }
  pose proof (string_length_app (escaped p) (escaped rest)) as Hpr.
  case_bool_decide as H3.
  - destruct (substring_prefix (String.length (escaped p) - 3) (escaped p)) as (Hsub&more&Hm); [lia|].
    set (shown := String.substring 0 _ _) in *. pose proof (string_length_app shown ellipsis) as Hle. cbn [ellipsis String.length] in Hle.
    split_and!; [rewrite Hle, Hsub; lia| |intros; lia|].
    + rewrite chars_app. apply Forall_app. split; [|done]. pose proof (escaped_plain p) as Hp. rewrite Hm, chars_app in Hp.
      by apply Forall_app in Hp as [Hp _].
    + right. exists shown, (more +:+ escaped rest). rewrite <- string_app_assoc, <- Hm. split_and!; [done|done|].
      rewrite Hle, Hsub. lia.
  - pose proof (string_length_app (escaped p) ellipsis) as Hle. cbn [ellipsis String.length] in Hle.
    split_and!; [rewrite Hle; lia| |intros; lia|].
    + rewrite chars_app. apply Forall_app. split; [apply escaped_plain|done].
    + right. exists (escaped p), (escaped rest). split_and!; [done|done|lia].
Qed.

(** ** Ethernet addresses *)

Definition hex_value (c : Ascii.ascii) : Z :=
  let n := Z.of_nat (Ascii.nat_of_ascii c) in if bool_decide (n < 97) then n - 48 else n - 87.

(** The numbers in pairs of digits with one character between them. *)
Fixpoint read_address (s : string) : EthernetAddress :=
  match s with
  | String c (String d rest) =>
      (16 * hex_value c + hex_value d) :: match rest with String _ rest => read_address rest | EmptyString => [] end
  | _ => []
  end.

Definition two_digits (n : Z) : bool :=
  match pad2 (hex n) with
  | String c (String d EmptyString) => bool_decide (16 * hex_value c + hex_value d = n)
  | _ => false
  end.
Lemma pad2_hex n : 0 <= n < 256 → ∃ c d, pad2 (hex n) = String c (String d "") ∧ 16 * hex_value c + hex_value d = n.
Proof.
  intros Hn. assert (forallb two_digits (Z.of_nat <$> seq 0 256) = true) as Hall by (vm_compute; reflexivity).
  rewrite List.forallb_forall in Hall. specialize (Hall n). unfold two_digits in Hall.
  destruct (pad2 (hex n)) as [|c [|d [|]]].
  3: { exists c, d. split; [done|]. apply (bool_decide_eq_true_1 _), Hall, list_elem_of_In, list_elem_of_fmap.
       exists (Z.to_nat n). rewrite elem_of_seq. lia. }
  all: exfalso; apply diff_false_true, Hall, list_elem_of_In, list_elem_of_fmap; exists (Z.to_nat n); rewrite elem_of_seq; lia.
Qed.

(** An address is read back from its text. *)
Theorem ethernet_text_roundtrip (a : EthernetAddress) :
  Forall (λ b, 0 <= b < 256) a → read_address (ethernet_to_string a) = a.
Proof.
  unfold ethernet_to_string. induction 1 as [|b a Hb Ha IH]; [done|]. rewrite fmap_cons.
  destruct (pad2_hex b Hb) as (c&d&Hp&Hv). destruct a as [|b' a].
  - cbn [fmap list_fmap String.concat]. rewrite Hp. cbn [read_address]. by rewrite Hv.
  - rewrite fmap_cons in *. change (String.concat ":" (?x :: ?y :: ?l)) with (x +:+ ":" +:+ String.concat ":" (y :: l)).
    rewrite Hp. set (rest := String.concat ":" _) in *.
    change (read_address _) with ((16 * hex_value c + hex_value d) :: read_address rest). by rewrite Hv, IH.
Qed.

(** ** Summaries *)

Lemma clone_buffers frame s :
  packed (Ethernet.payload frame) → text (Ethernet.payload frame) = s →
  let bufs := Ethernet.payload (EthernetFrame.clone frame) in owned bufs ∧ packed bufs ∧ text bufs = s.
Proof. intros Hp <-. cbn. split; [apply owned_copy|]. split; [by apply packed_copy|by apply text_copy]. Qed.

(** The summary of a frame that carries what the program sends: a datagram,
    whose payload is quoted or, with a valid checksum, described as a TCP
    segment; or an ARP message. *)
Theorem summary_describes `{Resolver} (frame : EthernetFrame) :
  packed (Ethernet.payload frame) →
  let front := EthernetText.to_string (Ethernet.header frame) +:+ " payload: " in
  (∀ d, Ethernet.type (Ethernet.header frame) = EthernetHeader.TYPE_IPv4 →
    datagram_ok d → text (Ethernet.payload frame) = datagram_text d →
    let out := front +:+ ipv4_to_string (header d) +:+ " payload=" in
    (proto (header d) ≠ IPv4Header.PROTO_TCP →
      summary frame = Ok (out +:+ quoted (pretty_print (text (IPv4.payload d)) DEFAULT_LENGTH))) ∧
    (∀ seg, let pseudo := IPv4Header.pseudo_checksum (header d) in
      let seg1 := TCPSegment.with_cksum (segment_checksum pseudo seg) seg in
      proto (header d) = IPv4Header.PROTO_TCP → TCPSegment.fields_ok seg → text (IPv4.payload d) = segment_text seg1 →
      summary frame = Ok (out +:+ TCPText.to_string (normal seg1)))) ∧
  (∀ m, Ethernet.type (Ethernet.header frame) = EthernetHeader.TYPE_ARP →
    message_ok m → text (Ethernet.payload frame) = message_text m → summary frame = Ok (front +:+ arp_to_string m)).
Proof.
  intros Hp front. split.
  - intros d Ht Hd Htext out. destruct (clone_buffers frame _ Hp Htext) as (Ho&Hpk&Hs).
    destruct (parse_datagram_ok IPv4Datagram.new d _ Hd Hs Ho Hpk) as (bufs&Hparse&Hb&Hob&Hpb).
    assert (∀ s, summary_ipv4 frame = Ok s → summary frame = Ok (front +:+ s)) as Hsum.
    { intros s Hs4. unfold summary. by rewrite bool_decide_true, Hs4 by done. }
    unfold out. split.
    + intros Hproto. rewrite string_app_assoc. apply Hsum. unfold summary_ipv4. rewrite Hparse, bind_Ok_l. cbn [header IPv4.payload].
      rewrite bool_decide_false by done. unfold concat_buffers. by rewrite <- Hb.
    + cbv zeta. intros seg Hproto F Hseg. set (pseudo := IPv4Header.pseudo_checksum (header d)) in *. rewrite string_app_assoc. apply Hsum. unfold summary_ipv4.
      rewrite Hparse, bind_Ok_l. cbn [header IPv4.payload]. rewrite bool_decide_true by done.
      destruct Hd as [(Fh&_&_) Hlen]. rewrite Hseg, zlen_segment_text in Hlen. cbn in Hlen.
      assert (0 <= pseudo <= 327930) as Hps by (apply pseudo_checksum_range; apply Fh).
      pose proof (IPv4.fo_len _ Fh).
      fold pseudo. rewrite (parse_serialized TCPSegment.new pseudo seg bufs); [done|done|lia| |by rewrite Hb|done|done].
      rewrite zlen_segment_text. word.
  - intros m Ht Hm Htext. destruct (clone_buffers frame _ Hp Htext) as (Ho&Hpk&Hs).
    unfold summary. rewrite bool_decide_false, bool_decide_true by (rewrite Ht; done). unfold summary_arp.
    rewrite (parse_serialize_ok m ARPMessage.new _); try done. cbn [wire_text ARPMessage_wire_spec]. by rewrite zlen_message_text.
Qed.

Definition demo_bytes (s : string) : bytes := String.list_byte_of_string s.

Example pretty_examples :
  (λ s, pretty_print s 8) <$> [demo_bytes "hello"; demo_bytes "hello, world"; [Byte.x0a; Byte.x22; Byte.xff]; []] =
  ["hello"; "hello..."; "\x0a\..."; ""].
Proof. vm_compute. reflexivity. Qed.

(** Both ways to shorten below three characters. *)
Example pretty_short :
  pretty_print (demo_bytes "hello") 2 = "he..." ∧ pretty_print (demo_bytes "hello") 3 = "...".
Proof. vm_compute. split; reflexivity. Qed.

Example arp_summary :
  let R := DottedQuad.resolver in
  let m := mkARPMessage 1 2048 6 4 1 [2; 0; 0; 0; 0; 171] 167772161 zero_address 167772162 in
  let frame := mkEthernetFrame (mkEthernetHeader ETHERNET_BROADCAST [2; 0; 0; 0; 0; 171] EthernetHeader.TYPE_ARP)
    match serialize m with Ok bufs => bufs | Err _ => [] end in
  summary frame = Ok ("dst=ff:ff:ff:ff:ff:ff src=02:00:00:00:00:ab type=ARP payload: " +:+
    "opcode=REQUEST, sender=02:00:00:00:00:ab/10.0.0.1, target=00:00:00:00:00:00/10.0.0.2").
Proof. vm_compute. reflexivity. Qed.

(** A frame that is padded to the least length of Ethernet has no summary. *)
Definition padded_frame : result EthernetFrame :=
  h ← IPv4Header.compute_checksum (header demo_datagram);
  bufs ← serialize (mkIPv4Datagram h (IPv4.payload demo_datagram));
  Ok (mkEthernetFrame (mkEthernetHeader ETHERNET_BROADCAST zero_address EthernetHeader.TYPE_IPv4)
    [Owned (text bufs ++ [Byte.x00])]).
Example padded_summary :
  let R := DottedQuad.resolver in (frame ← padded_frame; summary frame) = Err (Throw "out_of_range").
Proof. vm_compute. reflexivity. Qed.
