(* ===== verification/IPTest.v ===== *)
(** src/apps/iptest.cc: one TCP segment made by hand and written to a TUN
    device. *)

From S2P Require Import Prelude WrappingIntegers TCPMessages Ref Parser Wire Effects FileDescriptor.
From S2P Require Import Ethernet IPv4 TCPSegment Address Text.
Open Scope Z_scope.

(** [seg], as it is serialized. *)
Definition seg : TCPSegment :=
  mkTCPSegment
    (mkTCPMessage (mkTCPSenderMessage (Wrap32.of_raw 12345) true (demo_bytes "Hello") true false)
       (mkTCPReceiverMessage None 9987 false))
    (mkUserDatagramInfo 54321 8080 0).

(** The header before its checksum. *)
Definition dgram_header : IPv4Header :=
  let h := IPv4Header.new in
  mkIPv4Header (ver h) (hlen h) (tos h) 45 (id h) (df h) (mf h) (offset h) (ttl h) (proto h) (IPv4.cksum h)
    (Z.lor (Z.shiftl 127 24) 1) (Z.lor (Z.shiftl 198 24) (Z.lor (Z.shiftl 41 16) 4)).

(** What is written, and [seg] as it ends: its checksum is computed after it was
    serialized. *)
Definition packet : result (list (Ref bytes) * TCPSegment) :=
  header ← IPv4Header.compute_checksum dgram_header;
  let s1 := TCPSegment.serialize seg Serializer.new in
  seg ← TCPSegment.compute_checksum (IPv4Header.pseudo_checksum header) seg;
  s ← IPv4Datagram.serialize (mkIPv4Datagram header (Serializer.finish s1)) Serializer.new;
  Ok (Serializer.finish s, seg).

(** [program_body], on an open device. *)
Definition program_body (sys_writev : list bytes → syscall Z) : eff FDWrapper Z :=
  '(buffers, _) ← lift packet;
  FileDescriptor.writev sys_writev (Ref.get <$> buffers).

(** The datagram that arrives is well-formed, the segment in it is rejected: it
    carries the checksum 0 in place of the one that was computed. *)
Theorem iptest_rejected :
  ∃ buffers sent d seg',
    packet = Ok (buffers, sent) ∧
    parse IPv4Datagram.new (Ref.copy <$> buffers) = Ok (d, true) ∧
    text (IPv4.payload d) = segment_text seg ∧ TCPSegment.cksum (udinfo sent) ≠ 0 ∧
    parse_segment (IPv4Header.pseudo_checksum (header d)) TCPSegment.new (IPv4.payload d) = Ok (seg', false).
Proof.
  assert (∃ d seg' v, packet = Ok (v.1, v.2) ∧ parse IPv4Datagram.new (Ref.copy <$> v.1) = Ok (d, true) ∧
    bool_decide (text (IPv4.payload d) = segment_text seg) = true ∧ bool_decide (TCPSegment.cksum (udinfo v.2) ≠ 0) = true ∧
    parse_segment (IPv4Header.pseudo_checksum (header d)) TCPSegment.new (IPv4.payload d) = Ok (seg', false))
    as (d&seg'&[buffers sent]&Hp&Hd&Ht&Hc&Hs).
  { eexists _, _, (_, _). split; [vm_compute; reflexivity|]. split; [vm_compute; reflexivity|].
    split; [vm_compute; reflexivity|]. split; [vm_compute; reflexivity|]. vm_compute. reflexivity. }
  exists buffers, sent, d, seg'. by split_and!; try apply (bool_decide_eq_true_1 _).
Qed.
