(* ===== verification/CLibrary.v ===== *)
(** What the programs use of the C library to read their arguments: strncmp(3),
    strtol(3) in base 0 and strtof(3), in the "C" locale, with IEEE floats. *)

From Stdlib Require Import SpecFloat.
From S2P Require Import Prelude.
From stdpp Require Import strings.
Open Scope Z_scope.

(** * Characters *)

(** Whether the first [n] characters agree, up to the NUL that ends a string. *)
Fixpoint strncmp (n : nat) (s t : string) : bool :=
  match n, s, t with
  | O, _, _ => true
  | _, EmptyString, EmptyString => true
  | S n, String c s, String d t => bool_decide (c = d) && strncmp n s t
  | _, _, _ => false
  end.

Definition code (c : Ascii.ascii) : Z := Z.of_nat (Ascii.nat_of_ascii c).
Definition between (lo hi n : Z) : bool := bool_decide (lo <= n) && bool_decide (n <= hi).

Definition isspace (c : Ascii.ascii) : bool := bool_decide (code c = 32) || between 9 13 (code c).

(** The digits and letters, as values from 0 to 35. *)
Definition digit_value (c : Ascii.ascii) : option Z :=
  let n := code c in
  if between 48 57 n then Some (n - 48)
  else if between 97 122 n then Some (n - 87)
  else if between 65 90 n then Some (n - 55)
  else None.
Definition digit_in (base : Z) (c : Ascii.ascii) : option Z :=
  d ← digit_value c; if bool_decide (d < base) then Some d else None.

Fixpoint skip_spaces (s : string) : string :=
  match s with String c t => if isspace c then skip_spaces t else s | EmptyString => s end.

(** Whether there is a minus sign, and what follows the sign. *)
Definition sign (s : string) : bool * string :=
  match s with
  | String c t => if bool_decide (code c = 45) then (true, t) else if bool_decide (code c = 43) then (false, t) else (false, s)
  | EmptyString => (false, s)
  end.

(** The digits at the start of [s], their number, and what follows them. *)
Fixpoint take_digits (base acc : Z) (s : string) : Z * Z * string :=
  match s with
  | String c t =>
      match digit_in base c with
      | Some d => let '(n, k, rest) := take_digits base (base * acc + d) t in (n, k + 1, rest)
      | None => (acc, 0, s)
      end
  | EmptyString => (acc, 0, s)
  end.

(** "0x" and a hexadecimal digit, which [may_be_dotted] allows a point before. *)
Definition hex_prefix (may_be_dotted : bool) (s : string) : option string :=
  match s with
  | String z (String x (String d t as rest)) =>
      let is_hex d := bool_decide (is_Some (digit_in 16 d)) in
      if bool_decide (code z = 48) && bool_decide (digit_value x = Some 33)
        && (is_hex d || (may_be_dotted && bool_decide (code d = 46) &&
              match t with String d _ => is_hex d | EmptyString => false end))
      then Some rest else None
  | _ => None
  end.

(** * strtol(3) *)

Definition LONG_MAX : Z := 2 ^ 63 - 1.
Definition LONG_MIN : Z := - 2 ^ 63.

(** [strtol( s, nullptr, 0 )]: hexadecimal, octal or decimal by the prefix. *)
Definition strtol (s : string) : Z :=
  let '(neg, s) := sign (skip_spaces s) in
  let '(n, _, _) :=
    match hex_prefix false s with
    | Some rest => take_digits 16 0 rest
    | None =>
        match s with
        | String c _ => take_digits (if bool_decide (code c = 48) then 8 else 10) 0 s
        | EmptyString => (0, 0, s)
        end
    end in
  if (neg : bool) then Z.max LONG_MIN (- n) else Z.min LONG_MAX n.

(** * strtof(3) *)

(** The format of a [float]. *)
Definition prec : Z := 24.
Definition emax : Z := 128.

(** The float nearest to [(-1)^neg * m * base^e], for a natural number [m]. *)
Definition nearest (neg : bool) (m base e : Z) : spec_float :=
  match m with
  | Zpos p =>
      if bool_decide (0 <= e) then binary_round prec emax neg (p * Z.to_pos (base ^ e)) 0
      else
        let '(q, exponent, loc) := SFdiv_core_binary prec emax m 0 (base ^ (- e)) 0 in
        binary_round_aux prec emax neg q exponent loc
  | _ => S754_zero neg
  end.

(** Digits with a point among them: the number without the point, the digits
    after it, and all digits. *)
Definition mantissa (base : Z) (s : string) : Z * Z * Z * string :=
  let '(n, k, rest) := take_digits base 0 s in
  match rest with
  | String c t =>
      if bool_decide (code c = 46) then
        let '(n, l, rest) := take_digits base n t in (n, l, k + l, rest)
      else (n, 0, k, rest)
  | EmptyString => (n, 0, k, rest)
  end.

(** An exponent, which needs a digit to count; [letter] is [e] or [p]. *)
Definition exponent (letter : Z) (s : string) : Z :=
  match s with
  | String c t =>
      if bool_decide (digit_value c = Some letter) then
        let '(neg, t) := sign t in
        let '(n, k, _) := take_digits 10 0 t in
        if (neg : bool) then - n else n
      else 0
  | EmptyString => 0
  end.

(** Whether [s] starts with [word], in either case. *)
Fixpoint starts_with (word s : string) : bool :=
  match word, s with
  | EmptyString, _ => true
  | String c word, String d s => bool_decide (digit_value c = digit_value d) && starts_with word s
  | _, _ => false
  end.

Definition strtof (s : string) : spec_float :=
  let '(neg, s) := sign (skip_spaces s) in
  match hex_prefix true s with
  | Some rest =>
      let '(n, frac, _, rest) := mantissa 16 rest in
      nearest neg n 2 (exponent 25 rest - 4 * frac)
  | None =>
      let '(n, frac, k, rest) := mantissa 10 s in
      if bool_decide (0 < k) then nearest neg n 10 (exponent 14 rest - frac)
      else if starts_with "inf" s then S754_infinity neg
      else if starts_with "nan" s then S754_nan
      else S754_zero false
  end.

(** * Conversions *)

(** [static_cast<float>( n )] of a natural number. *)
Definition float_of_Z (n : Z) : spec_float := nearest false n 2 0.

(** The value of a float without its fraction. *)
Definition truncate (f : spec_float) : option Z :=
  match f with
  | S754_zero _ => Some 0
  | S754_finite neg m e =>
      let n := if bool_decide (0 <= e) then Zpos m * 2 ^ e else Zpos m / 2 ^ (- e) in
      Some (if (neg : bool) then - n else n)
  | S754_infinity _ | S754_nan => None
  end.

(** [static_cast<uint16_t>( f )], which is undefined out of range. *)
Definition uint16_of_float (f : spec_float) : result Z :=
  match truncate f with
  | Some n => if between 0 UINT16_MAX n then Ok n else Err (Undefined "float to uint16_t")
  | None => Err (Undefined "float to uint16_t")
  end.

(** * Examples *)

Example strtol_examples :
  strtol <$> ["64000"; " +0x10"; "-010"; "08"; "0x"; "x"; "99999999999999999999"] =
  [64000; 16; -8; 0; 0; 0; LONG_MAX].
Proof. reflexivity. Qed.

Example strtof_examples :
  strtof <$> ["1"; "0.5"; ".1"; "1e-3"; "0x1.8p1"; "-2."; "inf"; "1e39"; "rate"] =
  [S754_finite false 8388608 (-23); S754_finite false 8388608 (-24); S754_finite false 13421773 (-27);
   S754_finite false 8589935 (-33); S754_finite false 12582912 (-22); S754_finite true 8388608 (-22);
   S754_infinity false; S754_infinity false; S754_zero false].
Proof. vm_compute. reflexivity. Qed.

(** * Rounding *)

Lemma Zdigits2_spec p : 2 ^ (Zdigits2 (Zpos p) - 1) <= Zpos p < 2 ^ Zdigits2 (Zpos p).
Proof.
  cbn [Zdigits2]. induction p as [p IH|p IH|]; cbn [digits2_pos]; [| |done];
    rewrite Pos2Z.inj_succ, Z.sub_1_r, Z.pred_succ, Z.pow_succ_r by lia;
    replace (2 ^ Zpos (digits2_pos p)) with (2 * 2 ^ (Zpos (digits2_pos p) - 1)) in *
      by (rewrite <- Z.pow_succ_r by lia; f_equal; lia); lia.
Qed.

Lemma Zdigits2_le m d : 0 <= m < 2 ^ d → 0 <= d → Zdigits2 m <= d.
Proof.
  intros Hm Hd. destruct m as [|p|p]; [done| |lia]. destruct (Zdigits2_spec p) as [Hlo _].
  assert (2 ^ (Zdigits2 (Zpos p) - 1) < 2 ^ d) as Hlt by lia. apply Z.pow_lt_mono_r_iff in Hlt; lia.
Qed.

(** After [k] shifts to the right a record holds the quotient by [2^k], and
    its two bits are clear if nothing was shifted out. *)
Definition shifted (n k : Z) (r : shr_record) : Prop :=
  0 <= k ∧ shr_m r = n / 2 ^ k ∧ (n `mod` 2 ^ k = 0 → shr_r r = false ∧ shr_s r = false).

Lemma shifted_1 n k r : 0 <= n → shifted n k r → shifted n (k + 1) (shr_1 r).
Proof.
  intros Hn (Hk&Hm&He). assert (0 < 2 ^ k) by (apply Z.pow_pos_nonneg; lia).
  assert (shr_m (shr_1 r) = shr_m r / 2 ∧ shr_r (shr_1 r) = Z.odd (shr_m r) ∧
    shr_s (shr_1 r) = shr_r r || shr_s r) as (Hm1&Hr1&Hs1).
  { assert (0 <= shr_m r) by (rewrite Hm; apply Z.div_pos; lia). destruct r as [[|p|p] x y]; [done| |cbn in *; lia].
    destruct p; cbn [shr_1 shr_m shr_r shr_s Z.odd]; split_and!; try done; [|]; rewrite <- Z.div2_div; done. }
  assert (2 ^ (k + 1) = 2 ^ k * 2) as Hp by (rewrite Z.pow_add_r; lia).
  split_and!; [lia|by rewrite Hm1, Hm, Z.div_div, <- Hp by lia|]. rewrite Hp, Z.rem_mul_r by lia. intros Hz.
  pose proof (Z.mod_pos_bound n (2 ^ k) ltac:(lia)). pose proof (Z.mod_pos_bound (n / 2 ^ k) 2 ltac:(lia)).
  destruct (He ltac:(nia)) as [E1 E2]. rewrite Hr1, Hs1, E1, E2. split; [|done].
  rewrite Hm. rewrite Zmod_odd in *. destruct (Z.odd (n / 2 ^ k)); [nia|done].
Qed.

Lemma shifted_iter n p : ∀ k r, 0 <= n → shifted n k r → shifted n (k + Zpos p) (SpecFloat.iter_pos shr_1 p r).
Proof.
  induction p as [p IH|p IH|]; intros k r Hn Hr; cbn [SpecFloat.iter_pos].
  - replace (k + Zpos p~1) with (k + 1 + Zpos p + Zpos p) by lia. by apply IH, IH, shifted_1.
  - replace (k + Zpos p~0) with (k + Zpos p + Zpos p) by lia. by apply IH, IH.
  - by apply shifted_1.
Qed.

(** The first step of rounding: a quotient rounded up at most, and not at all
    if the division is exact. *)
Lemma shr_fexp_exact m e k :
  0 <= m → Z.max 0 (fexp prec emax (Zdigits2 m + e) - e) = k →
  ∃ r, shr_fexp prec emax m e loc_Exact = (r, e + k) ∧ shr_m r = m / 2 ^ k ∧
    let q := round_nearest_even (shr_m r) (loc_of_shr_record r) in
    m / 2 ^ k <= q ∧ ∀ c, m <= c * 2 ^ k → q <= c.
Proof.
  intros Hm Hk. unfold shr_fexp. set (n := fexp prec emax (Zdigits2 m + e) - e) in *.
  assert (∃ r, shr (shr_record_of_loc m loc_Exact) e n = (r, e + k) ∧ shifted m k r) as (r&->&Hr).
  { assert (shifted m 0 (shr_record_of_loc m loc_Exact)) as H0.
    { split_and!; [done|by rewrite Z.div_1_r|done]. }
    unfold shr. destruct n as [|p|p].
    - eexists. split; [f_equal; lia|]. by replace k with 0 by lia.
    - eexists. split; [f_equal; lia|]. replace k with (0 + Zpos p) by lia. by apply shifted_iter.
    - eexists. split; [f_equal; lia|]. by replace k with 0 by lia. }
  exists r. destruct Hr as (Hk0&Hq&He). split_and!; [done|done|..]; cbv zeta.
  - rewrite Hq. unfold round_nearest_even. repeat case_match; lia.
  - intros c Hc. assert (0 < 2 ^ k) by (apply Z.pow_pos_nonneg; lia).
    destruct (decide (m `mod` 2 ^ k = 0)) as [Hz|Hz].
    + destruct (He Hz) as [E1 E2]. destruct r as [q x y]; cbn in *. subst x y. cbn. rewrite Hq. apply Z.div_le_upper_bound; lia.
    + assert (m / 2 ^ k < c) as Hlt.
      { apply Z.div_lt_upper_bound; [lia|]. pose proof (Z.div_mod m (2 ^ k) ltac:(lia)). 
        destruct (decide (m = c * 2 ^ k)) as [->|]; [|lia]. by rewrite Z.mod_mul in Hz by lia. }
      rewrite Hq. unfold round_nearest_even. repeat case_match; lia.
Qed.

(** The integer part of a rounded product: not below that of the product, and
    not above the next integer. *)
Lemma binary_round_truncate m e :
  0 < m → e < -1 → Zdigits2 m + e - prec < -1 →
  ∃ n, truncate (binary_round_aux prec emax false m e loc_Exact) = Some n ∧
    m / 2 ^ (- e) <= n ∧ ∀ c, m <= c * 2 ^ (- e) → n <= c.
Proof.
  intros Hm He Hd. unfold binary_round_aux.
  set (k := Z.max 0 (fexp prec emax (Zdigits2 m + e) - e)).
  destruct (shr_fexp_exact m e k ltac:(lia) eq_refl) as (r&->&_&Hlo&Hhi). set (q := round_nearest_even _ _) in *.
  assert (0 <= k ∧ e + k < -1 ∧ Zdigits2 m <= 24 + k ∧ -149 <= e + k) as (Hk&Hek&Hdk&Hmin)
    by (unfold k, fexp, emin, prec, emax in *; lia).
  assert (0 < 2 ^ k) by (apply Z.pow_pos_nonneg; lia).
  assert (0 <= q) as Hq0. { pose proof (Z.div_pos m (2 ^ k) ltac:(lia) ltac:(lia)). lia. }
  assert (q <= 2 ^ 24) as Hq.
  { apply Hhi. rewrite <- Z.pow_add_r by lia. destruct m as [|p|p]; [lia| |lia]. destruct (Zdigits2_spec p) as [_ Hp].
    pose proof (Z.pow_le_mono_r 2 _ _ ltac:(lia) Hdk). lia. }
  assert (∃ k2, 0 <= k2 <= 1 ∧ Z.max 0 (fexp prec emax (Zdigits2 q + (e + k)) - (e + k)) = k2 ∧ q = q / 2 ^ k2 * 2 ^ k2)
    as (k2&Hk2&Hf2&Hq2).
  { destruct (decide (q = 2 ^ 24)) as [->|Hne].
    - exists 1. split; [lia|]. unfold fexp, emin, prec, emax. split; [|done]. change (Zdigits2 (2 ^ 24)) with 25. lia.
    - exists 0. rewrite Z.div_1_r, Z.mul_1_r. split_and!; [lia|lia| |done]. pose proof (Zdigits2_le q 24 ltac:(lia) ltac:(lia)).
      unfold fexp, emin, prec, emax in *. lia. }
  destruct (shr_fexp_exact q (e + k) k2 Hq0 Hf2) as (r2&->&->&_). set (q2 := q / 2 ^ k2) in *.
  exists (q2 / 2 ^ (- (e + k + k2))).
  assert (0 < 2 ^ k2) by (apply Z.pow_pos_nonneg; lia).
  assert (0 <= q2) by (by apply Z.div_pos).
  assert (q2 / 2 ^ (- (e + k + k2)) = q / 2 ^ (- (e + k))) as Hval.
  { replace (- (e + k)) with (k2 + - (e + k + k2)) by lia. rewrite Hq2, Z.pow_add_r, <- Z.div_div, Z.div_mul by lia. done. }
  split.
  - destruct q2 as [|p|p]; [by rewrite Z.div_0_l by (apply Z.pow_nonzero; lia)| |lia].
    replace (e + k + k2 <=? emax - prec) with true by (unfold emax, prec; lia). cbn [truncate].
    by rewrite bool_decide_false by lia.
  - rewrite Hval. assert (2 ^ (- e) = 2 ^ k * 2 ^ (- (e + k))) as Hpe by (rewrite <- Z.pow_add_r by lia; f_equal; lia).
    assert (0 < 2 ^ (- (e + k))) by (apply Z.pow_pos_nonneg; lia). split.
    + rewrite Hpe, <- Z.div_div by lia. apply Z.div_le_mono; lia.
    + intros c Hc. apply Z.div_le_upper_bound; [lia|]. rewrite Z.mul_comm. apply Hhi. rewrite Hpe in Hc. nia.
Qed.
