(* ===== verification/CommandLine.v ===== *)
(** The command lines of src/apps/tcp_ipv4.cc and src/apps/tcp_native.cc, and the
    sockets they ask for. *)

From stdpp Require Import strings pretty.
From Stdlib Require Import SpecFloat.
From S2P Require Import Prelude Effects FileDescriptor Address WrappingIntegers TCPMessages TCPOverIP CLibrary.
From S2P Require Socket.
Open Scope Z_scope.

(** * tcp_ipv4 *)

Definition TUN_DFLT : string := "tun144".
Definition LOCAL_ADDRESS_DFLT : string := "169.254.144.9".

(** The variables of [get_config] other than [curr]. *)
Record settings : Type := mkSettings {
  c_fsm : TCPConfig;
  loss_dn : Z;
  loss_up : Z;
  tundev : option string;
  listen : bool;
  source_address : string;
  source_port : string;
}.

Inductive outcome : Type :=
  | Configured (c_fsm : TCPConfig) (c_filt : FdAdapterConfig) (listen : bool) (tundev : option string)
  | Exited (status : Z).

(** A turn of the loop over the arguments: the next index, or [exit()]. *)
Inductive turn : Type :=
  | Goes (curr : Z) (s : settings)
  | Exits (status : Z).

(** [args[i]], unchecked. *)
Definition arg (args : list string) (i : Z) : result string :=
  match args !! Z.to_nat i with
  | Some a => if bool_decide (0 <= i) then Ok a else Err (Undefined "args[]")
  | None => Err (Undefined "args[]")
  end.

(** Whether [check_argc] returns. *)
Definition check_argc (args : list string) (curr : Z) : bool :=
  negb (bool_decide (u64 (curr + 3) >= zlen args)).

(** An option with one argument. *)
Definition with_argument (args : list string) (curr : Z) (set : string → result settings) : result turn :=
  if check_argc args curr then
    a ← arg args (u64 (curr + 1));
    s ← set a;
    Ok (Goes (u64 (curr + 2)) s)
  else Ok (Exits 1).

Definition set_recv_capacity (n : Z) (c : TCPConfig) : TCPConfig := mkTCPConfig (rt_timeout c) n (send_capacity c) (isn c).
Definition set_rt_timeout (n : Z) (c : TCPConfig) : TCPConfig := mkTCPConfig n (recv_capacity c) (send_capacity c) (isn c).
Definition set_isn (i : Wrap32) (c : TCPConfig) : TCPConfig := mkTCPConfig (rt_timeout c) (recv_capacity c) (send_capacity c) i.

(** A loss rate between 0 and 1 as a 16-bit integer. *)
Definition loss_rate (lossrate : spec_float) : result Z :=
  uint16_of_float (SFmul prec emax (float_of_Z UINT16_MAX) lossrate).

(** What each option stores. *)
Definition set_listen (s : settings) : settings :=
  mkSettings (c_fsm s) (loss_dn s) (loss_up s) (tundev s) true (source_address s) (source_port s).
Definition set_source_address (a : string) (s : settings) : settings :=
  mkSettings (c_fsm s) (loss_dn s) (loss_up s) (tundev s) (listen s) a (source_port s).
Definition set_source_port (a : string) (s : settings) : settings :=
  mkSettings (c_fsm s) (loss_dn s) (loss_up s) (tundev s) (listen s) (source_address s) a.
Definition set_fsm (f : TCPConfig → TCPConfig) (s : settings) : settings :=
  mkSettings (f (c_fsm s)) (loss_dn s) (loss_up s) (tundev s) (listen s) (source_address s) (source_port s).
Definition set_tundev (a : string) (s : settings) : settings :=
  mkSettings (c_fsm s) (loss_dn s) (loss_up s) (Some a) (listen s) (source_address s) (source_port s).
Definition set_loss_up (n : Z) (s : settings) : settings :=
  mkSettings (c_fsm s) (loss_dn s) n (tundev s) (listen s) (source_address s) (source_port s).
Definition set_loss_dn (n : Z) (s : settings) : settings :=
  mkSettings (c_fsm s) n (loss_up s) (tundev s) (listen s) (source_address s) (source_port s).

(** The body of the loop; what is printed is left out. *)
Definition next_option (args : list string) (curr : Z) (s : settings) : result turn :=
  a ← arg args curr;
  if strncmp 3 "-l" a then Ok (Goes (u64 (curr + 1)) (set_listen s))
  else if strncmp 3 "-a" a then with_argument args curr (λ a, Ok (set_source_address a s))
  else if strncmp 3 "-s" a then with_argument args curr (λ a, Ok (set_source_port a s))
  else if strncmp 3 "-w" a then with_argument args curr (λ a, Ok (set_fsm (set_recv_capacity (u64 (strtol a))) s))
  else if strncmp 3 "-t" a then with_argument args curr (λ a, Ok (set_fsm (set_rt_timeout (u16 (strtol a))) s))
  else if strncmp 3 "-d" a then with_argument args curr (λ a, Ok (set_tundev a s))
  else if strncmp 3 "-Lu" a then
    with_argument args curr (λ a, n ← loss_rate (strtof a); Ok (set_loss_up n s))
  else if strncmp 3 "-Ld" a then
    with_argument args curr (λ a, n ← loss_rate (strtof a); Ok (set_loss_dn n s))
  else if strncmp 3 "-h" a then Ok (Exits 0)
  else Ok (Exits 1).

(** [while ( argc - curr > 2 )]. *)
Fixpoint options (fuel : nat) (args : list string) (curr : Z) (s : settings) : result turn :=
  match fuel with
  | O => Err OutOfFuel
  | S fuel =>
      if bool_decide (u64 (zlen args - curr) > 2) then
        t ← next_option args curr s;
        match t with
        | Goes curr s => options fuel args curr s
        | Exits status => Ok (Exits status)
        end
      else Ok (Goes curr s)
  end.

Section config.
Context `{Resolver}.

(** The default constructor's addresses. *)
Definition default_filt : result FdAdapterConfig :=
  source ← Address.of_ip_port "0" 0;
  destination ← Address.of_ip_port "0" 0;
  Ok (mkFdAdapterConfig source destination 0 0).

(** The two arguments that are left. *)
Definition positional (args : list string) (curr : Z) (filt : FdAdapterConfig) (s : settings) : result outcome :=
  if listen s then
    service ← arg args (u64 (curr + 1));
    source ← Address.of_names "0" service;
    port ← Address.port source;
    if bool_decide (port = 0) then Ok (Exited 1)
    else Ok (Configured (c_fsm s) (mkFdAdapterConfig source (destination filt) (loss_dn s) (loss_up s)) true (tundev s))
  else
    host ← arg args curr;
    service ← arg args (u64 (curr + 1));
    destination ← Address.of_names host service;
    source ← Address.of_names (source_address s) (source_port s);
    Ok (Configured (c_fsm s) (mkFdAdapterConfig source destination (loss_dn s) (loss_up s)) false (tundev s)).

(** The settings before the first argument, given two numbers of the random
    device. *)
Definition initial (random1 random2 : Z) : settings :=
  mkSettings (set_isn (Wrap32.of_raw random1) default_config) 0 0 None false LOCAL_ADDRESS_DFLT
    (pretty (Z.to_N (u16 random2))).

Definition get_config (random1 random2 : Z) (args : list string) : result outcome :=
  filt ← default_filt;
  t ← options (length args) args 1 (initial random1 random2);
  match t with
  | Goes curr s => positional args curr filt s
  | Exits status => Ok (Exited status)
  end.

(** The start of [main]. *)
Definition configure (random1 random2 : Z) (args : list string) : result outcome :=
  if bool_decide (zlen args < 3) then Ok (Exited 1) else get_config random1 random2 args.
End config.

(** * What the loop does *)

(** The options one can write, with what follows the letters of those that are
    compared by their first three characters only. *)
Inductive opt : Type :=
  | Listen
  | SourceAddress (addr : string)
  | SourcePort (port : string)
  | Window (winsz : string)
  | Timeout (tmout : string)
  | Device (tundev : string)
  | LossUp (more loss : string)
  | LossDown (more loss : string).

Definition words (o : opt) : list string :=
  match o with
  | Listen => ["-l"]
  | SourceAddress addr => ["-a"; addr]
  | SourcePort port => ["-s"; port]
  | Window winsz => ["-w"; winsz]
  | Timeout tmout => ["-t"; tmout]
  | Device tundev => ["-d"; tundev]
  | LossUp more loss => ["-Lu" +:+ more; loss]
  | LossDown more loss => ["-Ld" +:+ more; loss]
  end.

(** What an option means. *)
Definition apply (o : opt) (s : settings) : result settings :=
  match o with
  | Listen => Ok (set_listen s)
  | SourceAddress addr => Ok (set_source_address addr s)
  | SourcePort port => Ok (set_source_port port s)
  | Window winsz => Ok (set_fsm (set_recv_capacity (u64 (strtol winsz))) s)
  | Timeout tmout => Ok (set_fsm (set_rt_timeout (u16 (strtol tmout))) s)
  | Device tundev => Ok (set_tundev tundev s)
  | LossUp _ loss => n ← loss_rate (strtof loss); Ok (set_loss_up n s)
  | LossDown _ loss => n ← loss_rate (strtof loss); Ok (set_loss_dn n s)
  end.
Fixpoint apply_all (os : list opt) (s : settings) : result settings :=
  match os with [] => Ok s | o :: os => s ← apply o s; apply_all os s end.

(** The words of some options. *)
Definition line (os : list opt) : list string := concat (words <$> os).

Lemma strncmp_cons n c d s t : strncmp (S n) (String c s) (String d t) = bool_decide (c = d) && strncmp n s t.
Proof. done. Qed.

(** A word shorter than the bound is compared whole, another by its prefix. *)
Lemma strncmp_short n s t : (String.length s < n)%nat → strncmp n s t = true ↔ t = s.
Proof.
  revert s t. induction n as [|n IH]; intros s t Hn; [lia|]. destruct s as [|c s], t as [|d t]; try done.
  cbn in Hn. rewrite strncmp_cons, andb_true_iff, bool_decide_eq_true, IH by lia. naive_solver.
Qed.

Lemma strncmp_exact s t : strncmp (String.length s) s t = true ↔ ∃ more, t = s +:+ more.
Proof.
  revert t. induction s as [|c s IH]; intros t; [split; [by exists t|done]|].
  destruct t as [|d t]; [split; [done|by intros [? ?]]|].
  cbn [String.length]. rewrite strncmp_cons, andb_true_iff, bool_decide_eq_true, IH. split.
  - intros [-> [more ->]]. by exists more.
  - intros [more [= -> ->]]. eauto.
Qed.

Lemma arg_app (pre rest : list string) k a :
  rest !! k = Some a → arg (pre ++ rest) (zlen pre + Z.of_nat k) = Ok a.
Proof.
  intros Ha. unfold arg. rewrite lookup_app_r by (unfold zlen; lia).
  replace (Z.to_nat (zlen pre + Z.of_nat k) - length pre)%nat with k by (unfold zlen; lia).
  rewrite Ha, bool_decide_true by zlen. done.
Qed.

Lemma arg_head pre a rest : arg (pre ++ a :: rest) (zlen pre) = Ok a.
Proof. rewrite <- (Z.add_0_r (zlen pre)). by apply (arg_app pre (a :: rest) 0). Qed.

(** An option with an argument, when two more words follow. *)
Lemma with_argument_ok (pre rest : list string) w a set :
  zlen (pre ++ w :: a :: rest) < 2 ^ 32 →
  with_argument (pre ++ w :: a :: rest) (zlen pre) set =
  if bool_decide (2 <= zlen rest) then s ← set a; Ok (Goes (zlen pre + 2) s) else Ok (Exits 1).
Proof.
  rewrite zlen_app, !zlen_cons. intros Hl. pose proof (zlen_nonneg pre). pose proof (zlen_nonneg rest).
  unfold with_argument, check_argc. rewrite !u64_small by word. rewrite zlen_app, !zlen_cons.
  destruct (decide (2 <= zlen rest)).
  - rewrite bool_decide_false, (bool_decide_true (2 <= _)) by lia. cbn [negb].
    change (zlen pre + 1) with (zlen pre + Z.of_nat 1). by rewrite (arg_app pre (w :: a :: rest) 1 a).
  - by rewrite bool_decide_true, bool_decide_false by lia.
Qed.

(** Without the argument it asks for, the index is not looked at. *)
Lemma with_argument_short (pre rest : list string) w set :
  zlen (pre ++ w :: rest) < 2 ^ 32 → zlen rest < 3 → with_argument (pre ++ w :: rest) (zlen pre) set = Ok (Exits 1).
Proof.
  rewrite zlen_app, !zlen_cons. intros Hl Hr. pose proof (zlen_nonneg pre). pose proof (zlen_nonneg rest).
  unfold with_argument, check_argc. rewrite !u64_small by word. rewrite zlen_app, !zlen_cons.
  by rewrite bool_decide_true by lia.
Qed.

(** Evaluates the comparisons with the flags. *)
Ltac compare_flags :=
  repeat match goal with
  | |- context [strncmp ?n ?s ?t] =>
      let v := eval vm_compute in (strncmp n s t) in change (strncmp n s t) with v
  end; cbv iota.

Lemma next_option_words pre o rest s :
  zlen (pre ++ words o ++ rest) < 2 ^ 32 → 2 <= zlen rest →
  next_option (pre ++ words o ++ rest) (zlen pre) s = (s ← apply o s; Ok (Goes (zlen pre + zlen (words o)) s)).
Proof.
  intros Hl Hr. unfold next_option.
  assert (∃ w, words o !! 0%nat = Some w ∧ arg (pre ++ words o ++ rest) (zlen pre) = Ok w) as (w&Hw&->).
  { destruct o; (eexists; split; [reflexivity|]); apply arg_head. }
  rewrite bind_Ok_l. pose proof (zlen_nonneg pre). rewrite zlen_app in Hl. pose proof (zlen_nonneg (words o ++ rest)).
  destruct o; injection Hw as <-; compare_flags; cbn [words app] in *;
    [by rewrite u64_small by word|rewrite with_argument_ok, bool_decide_true by (done || by rewrite zlen_app)..]; cbn [apply].
  6-7: by destruct (loss_rate _). all: done.
Qed.

(** A turn with three words left or more takes an option, unless the program
    exits. *)
Lemma next_option_inv pre a rest s :
  zlen (pre ++ a :: rest) < 2 ^ 32 → 2 <= zlen rest →
  (∃ o rest', a :: rest = words o ++ rest' ∧ 2 <= zlen rest') ∨
  ∃ status, next_option (pre ++ a :: rest) (zlen pre) s = Ok (Exits status) ∧ 0 <= status <= 1.
Proof.
  intros Hl Hr. unfold next_option. rewrite arg_head, bind_Ok_l.
  destruct rest as [|b rest]; [rewrite zlen_nil in Hr; lia|]. rewrite zlen_cons in Hr.
  assert (∀ o set, a :: b :: rest = words o ++ rest →
    (∃ o rest', a :: b :: rest = words o ++ rest' ∧ 2 <= zlen rest') ∨
    ∃ status, with_argument (pre ++ a :: b :: rest) (zlen pre) set = Ok (Exits status) ∧ 0 <= status <= 1) as Harg.
  { intros o set Ho. destruct (decide (2 <= zlen rest)) as [?|Hs]; [left; by exists o, rest|right].
    exists 1. split; [|lia]. rewrite with_argument_ok by done. by rewrite bool_decide_false. }
  repeat match goal with
  | |- context [if strncmp 3 "-l" a then _ else _] =>
      destruct (strncmp 3 "-l" a) eqn:E; [apply strncmp_short in E as ->; [|cbn; lia]; left; exists Listen, (b :: rest);
        split; [done|rewrite zlen_cons; lia]|clear E]
  | |- context [if strncmp 3 "-Lu" a then _ else _] =>
      destruct (strncmp 3 "-Lu" a) eqn:E; [apply (strncmp_exact "-Lu") in E as [more ->]; by apply (Harg (LossUp more b))|clear E]
  | |- context [if strncmp 3 "-Ld" a then _ else _] =>
      destruct (strncmp 3 "-Ld" a) eqn:E; [apply (strncmp_exact "-Ld") in E as [more ->]; by apply (Harg (LossDown more b))|clear E]
  | |- context [if strncmp 3 "-h" a then _ else _] => destruct (strncmp 3 "-h" a)
  | |- context [if strncmp 3 ?f a then _ else _] =>
      destruct (strncmp 3 f a) eqn:E; [apply strncmp_short in E as ->; [|cbn; lia];
        first [by apply (Harg (SourceAddress b))|by apply (Harg (SourcePort b))|by apply (Harg (Window b))
              |by apply (Harg (Timeout b))|by apply (Harg (Device b))]|clear E]
  end.
  - right. exists 0. split; [done|lia].
  - right. exists 1. split; [done|lia].
Qed.

Lemma words_nonempty o : 1 <= zlen (words o).
Proof. by destruct o. Qed.

Lemma line_cons o os : line (o :: os) = words o ++ line os.
Proof. done. Qed.

Lemma length_line os : (length os ≤ length (line os))%nat.
Proof.
  induction os as [|o os IH]; [done|]. rewrite line_cons, length_app.
  pose proof (words_nonempty o). unfold zlen in *. cbn [length]. lia.
Qed.

(** [argc - curr]. *)
Lemma words_left (pre rest : list string) : zlen (pre ++ rest) < 2 ^ 32 → u64 (zlen (pre ++ rest) - zlen pre) = zlen rest.
Proof. rewrite zlen_app. intros. pose proof (zlen_nonneg pre). pose proof (zlen_nonneg rest). rewrite u64_small; word. Qed.

(** The loop over a well-formed line stops at its last two words. *)
Lemma options_line os pre host service s fuel :
  zlen (pre ++ line os ++ [host; service]) < 2 ^ 32 → (length os < fuel)%nat →
  options fuel (pre ++ line os ++ [host; service]) (zlen pre) s =
  (s ← apply_all os s; Ok (Goes (zlen pre + zlen (line os)) s)).
Proof.
  revert pre s fuel. induction os as [|o os IH]; intros pre s fuel Hl Hf; (destruct fuel as [|fuel]; [lia|]); cbn [options].
  - rewrite words_left by done. by rewrite bool_decide_false, Z.add_0_r.
  - cbn [length] in Hf. rewrite line_cons, <- !app_assoc in *.
    pose proof (words_nonempty o). pose proof (zlen_nonneg pre). pose proof (zlen_nonneg (line os)).
    rewrite words_left, bool_decide_true by (done || rewrite !zlen_app, !zlen_cons, zlen_nil; lia).
    rewrite next_option_words by (done || rewrite ?zlen_app, ?zlen_cons, ?zlen_nil; lia).
    cbn [apply_all]. destruct (apply o s) as [s'|e]; [|done]. rewrite !bind_Ok_l.
    specialize (IH (pre ++ words o) s' fuel). rewrite <- app_assoc, (zlen_app pre (words o)) in IH. rewrite IH by (done || lia).
    destruct (apply_all os s'); [|done]. rewrite !bind_Ok_l. do 2 f_equal. rewrite zlen_app. lia.
Qed.

(** A line that comes, after options, to a loss rate that cannot be converted. *)
Definition bad_rate (rest : list string) : Prop :=
  ∃ os more loss tail, (rest = line os ++ words (LossUp more loss) ++ tail ∨ rest = line os ++ words (LossDown more loss) ++ tail) ∧
    loss_rate (strtof loss) = Err (Undefined "float to uint16_t").

Lemma bad_rate_cons o rest : bad_rate rest → bad_rate (words o ++ rest).
Proof.
  intros (os&more&loss&tail&Hr&Hl). exists (o :: os), more, loss, tail. split; [|done].
  rewrite line_cons, <- !app_assoc. destruct Hr as [->| ->]; [by left|by right].
Qed.

(** What the loop does with any line that has two words left: it meets such a
    line, exits, or converts a loss rate that is out of range. *)
Lemma options_inv fuel pre rest s :
  zlen (pre ++ rest) < 2 ^ 32 → 2 <= zlen rest → zlen rest < Z.of_nat fuel →
  (∃ os host service, rest = line os ++ [host; service]) ∨
  (∃ status, options fuel (pre ++ rest) (zlen pre) s = Ok (Exits status) ∧ 0 <= status <= 1) ∨
  options fuel (pre ++ rest) (zlen pre) s = Err (Undefined "float to uint16_t") ∧ bad_rate rest.
Proof.
  revert pre rest s. induction fuel as [|fuel IH]; intros pre rest s Hl Hr Hf; [lia|]. cbn [options].
  rewrite words_left by done. case_bool_decide as H2.
  2: { left. destruct rest as [|a [|b [|c rest]]]; rewrite ?zlen_cons, ?zlen_nil in *; [lia|lia| |pose proof (zlen_nonneg rest); lia].
       by exists [], a, b. }
  destruct rest as [|a rest]; [done|]. rewrite zlen_cons in *.
  destruct (next_option_inv pre a rest s Hl ltac:(lia)) as [(o&rest'&Ho&Hr')|(status&->&Hst)].
  2: { right. left. by exists status. }
  rewrite Ho in *. rewrite next_option_words by done. pose proof (words_nonempty o).
  destruct (apply o s) as [s'|e] eqn:Ha.
  - rewrite !bind_Ok_l. pose proof Hl as Hl'. rewrite app_assoc, !zlen_app in Hl'.
    pose proof (f_equal zlen Ho) as Hz. rewrite zlen_cons, zlen_app in Hz.
    specialize (IH (pre ++ words o) rest' s'). rewrite <- app_assoc, (zlen_app pre (words o)) in IH.
    destruct (IH Hl Hr' ltac:(lia)) as [(os&h&sv&->)|[Hex|Hun]]; [left|by right; left|].
    { exists (o :: os), h, sv. by rewrite line_cons, <- app_assoc. }
    right. right. split; [apply Hun|]. apply bad_rate_cons, Hun.
  - right. right. 
    assert (∀ f e', loss_rate f = Err e' → e' = Undefined "float to uint16_t") as Hrate.
    { intros f e'. unfold loss_rate, uint16_of_float. destruct (truncate _) as [n|]; [destruct (between 0 UINT16_MAX n)|]; congruence. }
    destruct o as [| | | | | |more loss|more loss]; try done; cbn [apply] in Ha;
      destruct (loss_rate (strtof loss)) as [n|e'] eqn:Hn; try done; injection Ha as <-; apply Hrate in Hn as He; subst e';
      (split; [done|]); exists [], more, loss, rest'; (split; [|done]); [by left|by right].
Qed.

(** The value of a float is at least 0 and at most 1. *)
Definition is_rate (f : spec_float) : Prop :=
  match f with
  | S754_zero _ => True
  | S754_finite false m e => e <= 0 ∧ Zpos m <= 2 ^ (- e)
  | _ => False
  end.

(** A rate between 0 and 1 is scaled without leaving the 16 bits: to the
    integer below the product by 65535 or to the one above, however the
    multiplication rounds. *)
Lemma loss_rate_scales f :
  is_rate f →
  ∃ n, loss_rate f = Ok n ∧ is_u16 n ∧
    match f with
    | S754_finite _ m e => UINT16_MAX * Zpos m / 2 ^ (- e) <= n ∧ ∀ c, UINT16_MAX * Zpos m <= c * 2 ^ (- e) → n <= c
    | _ => n = 0
    end.
Proof.
  unfold loss_rate. replace (float_of_Z UINT16_MAX) with (S754_finite false 16776960 (-8)) by (by vm_compute).
  destruct f as [[] | | |[] m e]; cbn [is_rate]; try done; try (by exists 0).
  intros [He Hm]. cbn [SFmul xorb]. change (-8 + e) with (-8 + e).
  assert (0 < 2 ^ (- e)) by (apply Z.pow_pos_nonneg; lia).
  assert (2 ^ (- (-8 + e)) = 256 * 2 ^ (- e)) as Hp.
  { replace (- (-8 + e)) with (8 + - e) by lia. by rewrite Z.pow_add_r by lia. }
  destruct (binary_round_truncate (Zpos (16776960 * m)) (-8 + e)) as (n&Hn&Hlo&Hhi); [lia|lia|..].
  { enough (Zdigits2 (Zpos (16776960 * m)) <= 24 + - e) by (unfold prec; lia). apply Zdigits2_le; [|lia].
    rewrite Z.pow_add_r by lia. lia. }
  rewrite Hp in *. exists n. unfold uint16_of_float. rewrite Hn.
  assert (n <= UINT16_MAX) as Hmax by (apply Hhi; unfold UINT16_MAX; lia).
  assert (UINT16_MAX * Zpos m / 2 ^ (- e) <= n) as Hlo'.
  { rewrite <- (Z.div_mul_cancel_l _ _ 256) by lia. replace (256 * (UINT16_MAX * Zpos m)) with (Zpos (16776960 * m)); [done|].
    unfold UINT16_MAX. lia. }
  assert (0 <= n) as H0. { pose proof (Z.div_pos (UINT16_MAX * Zpos m) (2 ^ (- e)) ltac:(unfold UINT16_MAX; lia) ltac:(lia)). lia. }
  unfold between. rewrite !bool_decide_true by done. split_and!; [done|unfold is_u16, UINT16_MAX in *; lia|done|].
  intros c Hc. apply Hhi. unfold UINT16_MAX in *. lia.
Qed.

(** * Properties *)

(** The addresses and the configuration that some settings stand for. *)
Definition chosen `{Resolver} (host service : string) (filt : FdAdapterConfig) (s : settings) : result outcome :=
  if listen s then
    source ← Address.of_names "0" service;
    port ← Address.port source;
    if bool_decide (port = 0) then Ok (Exited 1)
    else Ok (Configured (c_fsm s) (mkFdAdapterConfig source (destination filt) (loss_dn s) (loss_up s)) true (tundev s))
  else
    destination ← Address.of_names host service;
    source ← Address.of_names (source_address s) (source_port s);
    Ok (Configured (c_fsm s) (mkFdAdapterConfig source destination (loss_dn s) (loss_up s)) false (tundev s)).

Lemma positional_ok `{Resolver} pre host service filt s :
  zlen (pre ++ [host; service]) < 2 ^ 32 →
  positional (pre ++ [host; service]) (zlen pre) filt s = chosen host service filt s.
Proof.
  rewrite zlen_app. intros Hl. pose proof (zlen_nonneg pre). change (zlen [host; service]) with 2 in Hl.
  unfold positional. rewrite u64_small by word. change (zlen pre + 1) with (zlen pre + Z.of_nat 1).
  by rewrite (arg_app pre [host; service] 1 service), arg_head.
Qed.

(** C38: the command line of tcp_ipv4.  Any options, in any order and with any
    repetitions, followed by a host and a port, are read as what they say: later
    ones override earlier ones, whatever a host or an argument looks like.  A
    line of fewer than three words makes the program exit with a failure.  Any
    other line makes it exit once the default address is resolved, or brings it,
    after options, to a loss rate that does not fit 16 bits, whose conversion is
    undefined; no line makes it look past the end of its arguments, or runs it
    out of turns.  Loss rates between 0 and 1 fit. *)
Theorem command_line `{Resolver} random1 random2 prog :
  (∀ os host service, zlen (prog :: line os ++ [host; service]) < 2 ^ 31 →
    configure random1 random2 (prog :: line os ++ [host; service]) =
    (filt ← default_filt; s ← apply_all os (initial random1 random2); chosen host service filt s)) ∧
  (∀ args, 2 <= zlen args → zlen (prog :: args) < 2 ^ 31 →
    (∃ os host service, args = line os ++ [host; service]) ∨
    (∃ status, configure random1 random2 (prog :: args) = (_ ← default_filt; Ok (Exited status)) ∧ 0 <= status <= 1) ∨
    configure random1 random2 (prog :: args) = (_ ← default_filt; Err (Undefined "float to uint16_t")) ∧ bad_rate args) ∧
  (∀ args, zlen args < 2 → configure random1 random2 (prog :: args) = Ok (Exited 1)) ∧
  (∀ os s, (∀ more loss, LossUp more loss ∈ os ∨ LossDown more loss ∈ os → is_rate (strtof loss)) →
    ∃ s', apply_all os s = Ok s').
Proof.
  split_and!.
  - intros os host service Hl. unfold configure, get_config.
    rewrite bool_decide_false by (rewrite zlen_cons, zlen_app, !zlen_cons, zlen_nil; pose proof (zlen_nonneg (line os)); lia).
    destruct default_filt as [filt|e]; [|done]. rewrite !bind_Ok_l.
    change 1 with (zlen [prog]) at 1.
    rewrite (options_line os [prog] host service (initial random1 random2))
      by (cbn [length app]; first [lia|rewrite length_app; pose proof (length_line os); lia]).
    destruct (apply_all os (initial random1 random2)) as [s|e]; [|done]. rewrite !bind_Ok_l.
    change (prog :: line os ++ [host; service]) with (([prog] ++ line os) ++ [host; service]) in *.
    rewrite <- zlen_app. apply positional_ok. lia.
  - intros args H2 Hl. unfold configure, get_config. rewrite bool_decide_false by (rewrite zlen_cons; lia).
    destruct (options_inv (length (prog :: args)) [prog] args (initial random1 random2)) as [Hc|[(st&Hex&Hst)|[Hun Hbad]]];
      [cbn [app]; lia|done|unfold zlen; cbn [length]; lia|by left|right; left; exists st|right; right].
    all: change (zlen [prog]) with 1 in *; cbn [app] in *; rewrite ?Hex, ?Hun; done.
  - intros args Hl. unfold configure. by rewrite bool_decide_true by (rewrite zlen_cons; lia).
  - intros os. induction os as [|o os IH]; intros s Hr; [by exists s|]. cbn [apply_all].
    assert (∃ s', apply o s = Ok s') as [s' ->].
    { destruct o as [| | | | | |more loss|more loss]; cbn [apply]; try by eexists.
      all: destruct (loss_rate_scales (strtof loss)) as (n&->&_); [by apply (Hr more); set_solver|by eexists]. }
    rewrite bind_Ok_l. apply IH. intros more loss Hin. apply (Hr more). set_solver.
Qed.

(** A server with a window of 256 bytes that loses half of what it sends; a
    client from a port of its own. *)
Example server_line :
  let R := DottedQuad.resolver in
  configure 1 2 ["tcp_ipv4"; "-l"; "-w"; "0x100"; "-Lu"; ".5"; "0"; "4000"] =
  (source ← Address.of_names "0" "4000"; destination ← Address.of_ip_port "0" 0;
   Ok (Configured (mkTCPConfig 1000 256 64000 (mkWrap32 1)) (mkFdAdapterConfig source destination 0 32767) true None)).
Proof. vm_compute. reflexivity. Qed.

(** Arguments that are missing, unknown options, and a rate of 2. *)
Example other_lines :
  let R := DottedQuad.resolver in
  configure 1 2 ["tcp_ipv4"; "10.0.0.1"] = Ok (Exited 1) ∧
  configure 1 2 ["tcp_ipv4"; "-a"; "10.0.0.1"; "4000"] = Ok (Exited 1) ∧
  configure 1 2 ["tcp_ipv4"; "-x"; "10.0.0.1"; "4000"] = Ok (Exited 1) ∧
  configure 1 2 ["tcp_ipv4"; "-h"; "10.0.0.1"; "4000"] = Ok (Exited 0) ∧
  configure 1 2 ["tcp_ipv4"; "-Lu"; "2"; "10.0.0.1"; "4000"] = Err (Undefined "float to uint16_t").
Proof. vm_compute. split_and!; reflexivity. Qed.

Definition demo_options : list opt := [Device "-l"; LossDown "own" "1"; Timeout "250"].

Lemma command_line_witness :
  let R := DottedQuad.resolver in
  configure 1 2 ("tcp_ipv4" :: line demo_options ++ ["10.0.0.1"; "4000"]) =
  (destination ← Address.of_names "10.0.0.1" "4000"; source ← Address.of_names LOCAL_ADDRESS_DFLT "2";
   Ok (Configured (mkTCPConfig 250 64000 64000 (mkWrap32 1)) (mkFdAdapterConfig source destination UINT16_MAX 0) false
     (Some "-l"))).
Proof.
  intros R. destruct (command_line 1 2 "tcp_ipv4") as (H&_).
  refine (eq_trans (H demo_options "10.0.0.1" "4000" _) _); vm_compute; reflexivity.
Defined.
