(* ===== verification/TcpNative.v ===== *)
(** src/apps/tcp_native.cc: a TCP socket of the kernel, connected or accepted as
    the command line says, and the copying over it. *)

From stdpp Require Import strings.
From S2P Require Import Prelude ByteStream Effects FileDescriptor EventRules EventLoop Address Pipe CLibrary CommandLine StreamCopy.
From S2P Require Socket.
Open Scope Z_scope.

Definition EXIT_SUCCESS : Z := 0.
Definition EXIT_FAILURE : Z := 1.

(** What the command line asks for. *)
Inductive mode : Type :=
  | Usage
  | Server (host service : string)
  | Client (host service : string).

Definition mode_of (args : list string) : result mode :=
  if bool_decide (zlen args < 3) then Ok Usage
  else
    option ← arg args 1;
    let server_mode := strncmp 3 "-l" option in
    if server_mode && bool_decide (zlen args < 4) then Ok Usage
    else
      let at_ := if server_mode then 2 else 1 in
      host ← arg args at_;
      service ← arg args (at_ + 1);
      Ok (if server_mode then Server host service else Client host service).

(** The calls made while the socket is opened. *)
Record opening_calls : Type := mkOpeningCalls {
  on_socket : Z → Z → Z → syscall Z;
  on_getfl : Z → syscall Z;
  on_setsockopt : Z → Z → Z → bytes → syscall Z;
  on_bind : Z → bytes → Z → syscall Z;
  on_listen : Z → Z → syscall Z;
  on_accept : Z → syscall Z;
  on_getsockopt : Z → Z → Z → syscall (Z * Z);
  on_connect : Z → bytes → Z → syscall Z;
  on_getpeername : Z → Z → syscall (bytes * Z);
}.

Section program.
Context `{Resolver} (calls : opening_calls).

(** [TCPSocket()]. *)
Definition new_socket : result FDWrapper :=
  match on_socket calls AF_INET Socket.SOCK_STREAM 0 with
  | Returned fd => Socket.Socket.make (on_socket calls) (on_getfl calls fd) AF_INET Socket.SOCK_STREAM 0
  | Failed errno => Err (unix_error "socket")
  end.

(** The operations of a scope, whose socket is forgotten or kept. *)
Definition returned {A} (m : eff FDWrapper A) (w : FDWrapper) : result A := (m w).1.
Definition left {A} (m : eff FDWrapper A) (w : FDWrapper) : result FDWrapper :=
  let '(r, w) := m w in _ ← r; Ok w.

(** [socket.peer_address().to_string()]. *)
Definition peer_name : eff FDWrapper string :=
  address ← Socket.Socket.peer_address (on_getpeername calls);
  lift (Address.to_string address).

Definition accept_one (host service : string) : eff FDWrapper FDWrapper :=
  Socket.Socket.set_reuseaddr (on_setsockopt calls) ;;
  address ← lift (Address.of_names host service);
  Socket.Socket.bind (on_bind calls) address ;;
  Socket.TCPSocket.listen (on_listen calls) 16 ;;
  Socket.TCPSocket.accept (on_accept calls) (on_getfl calls) (on_getsockopt calls).

Definition connect_to (peer : Address) : eff FDWrapper string :=
  lift (Address.to_string peer) ;;
  Socket.Socket.connect (on_connect calls) peer ;;
  peer_name.

(** The initializer of [socket]. *)
Definition open_socket (host service : string) (server_mode : bool) : result FDWrapper :=
  w ← new_socket;
  if server_mode then
    connected_socket ← returned (accept_one host service) w;
    left peer_name connected_socket
  else
    peer ← Address.of_names host service;
    left (connect_to peer) w.

(** [main], with the state it leaves: an exception is reported and makes it
    fail.  What is printed is left out. *)
Definition main (os : system) (fuel : nat) (setfl : Z → Z → syscall Z) (args : list string)
    : result Z * option (state code () copy) :=
  let opened :=
    m ← mode_of args;
    match m with
    | Usage => Ok None
    | Server host service => Some <$> open_socket host service true
    | Client host service => Some <$> open_socket host service false
    end in
  let caught (e : exn) : result Z := match e with Throw _ => Ok EXIT_FAILURE | _ => Err e end in
  match opened with
  | Err e => (caught e, None)
  | Ok None => (Ok EXIT_FAILURE, None)
  | Ok (Some socket) =>
      match (socket ← left peer_name socket; start (on_getfl calls) socket) with
      | Err e => (caught e, None)
      | Ok s =>
          match bidirectional_stream_copy os fuel (on_getfl calls) setfl s with
          | (Ok _, s) => (Ok EXIT_SUCCESS, Some s)
          | (Err e, s) => (caught e, Some s)
          end
      end
  end.
End program.

(** * The socket is fresh *)

Definition fresh_socket (w : FDWrapper) : Prop := eof_ w = false ∧ closed_ w = false.

Lemma same_flags_fresh w w' : same_flags w w' → fresh_socket w → fresh_socket w'.
Proof. intros [E1 E2] [F1 F2]. split; congruence. Qed.

Section opening.
Context `{Resolver} (calls : opening_calls).

Lemma left_fresh {A} (m : eff FDWrapper A) w w' : keeps same_flags m → left m w = Ok w' → fresh_socket w → fresh_socket w'.
Proof.
  intros Hm Hl. unfold left in Hl. specialize (Hm w). destruct (m w) as [r w1]. apply bind_Ok in Hl as (a&_&[= <-]).
  by apply same_flags_fresh.
Qed.

Lemma same_flags_getsockopt sys level option old : keeps same_flags (Socket.Socket.getsockopt sys level option old).
Proof.
  unfold Socket.Socket.getsockopt. apply keeps_bind; [apply _|by intros w|]. intros n.
  destruct (sys n level option); [by intros w|]. apply keeps_bind; [apply _|by intros w|]. by intros [].
Qed.

Lemma same_flags_verify sys option expected v what : keeps same_flags (Socket.Socket.verify sys option expected v what).
Proof.
  unfold Socket.Socket.verify. apply keeps_bind; [apply _|apply same_flags_getsockopt|]. intros [x len].
  by destruct (_ || _).
Qed.

Lemma same_flags_of_descriptor sys domain type protocol :
  keeps same_flags (Socket.Socket.of_descriptor sys domain type protocol).
Proof.
  unfold Socket.Socket.of_descriptor. repeat (apply keeps_bind; [apply _|apply same_flags_verify|intros ?]). by intros w.
Qed.

Lemma same_flags_get_address name f : keeps same_flags (Socket.Socket.get_address name f).
Proof.
  unfold Socket.Socket.get_address. apply keeps_bind; [apply _|by intros w|]. intros n.
  apply keeps_bind; [apply _| |by intros [address size] w].
  destruct (f n _); [by intros w|]. apply keeps_bind; [apply _|by intros w|]. by intros [].
Qed.

Lemma same_flags_peer_name : keeps same_flags (peer_name calls).
Proof.
  unfold peer_name. apply keeps_bind; [apply _|apply same_flags_get_address|]. by intros a w.
Qed.

Lemma same_flags_connect_to peer : keeps same_flags (connect_to calls peer).
Proof.
  unfold connect_to. apply keeps_bind; [apply _|by intros w|]. intros _.
  apply keeps_bind; [apply _|apply same_flags_connect|]. intros _. apply same_flags_peer_name.
Qed.

(** What a call may return, whatever the state. *)
Definition may_return {A} (P : A → Prop) (m : eff FDWrapper A) : Prop := ∀ w a w', m w = (Ok a, w') → P a.

Lemma may_return_bind {A B} (P : B → Prop) (m : eff FDWrapper A) f : (∀ a, may_return P (f a)) → may_return P (m ≫= f).
Proof. intros Hf w b w'. rewrite bind_eq. destruct (m w) as [[a|e] w1]; [apply Hf|done]. Qed.

Lemma of_number_fresh getfl getsockopt fd w : Socket.TCPSocket.of_number getfl getsockopt fd = Ok w → fresh_socket w.
Proof.
  unfold Socket.TCPSocket.of_number. intros (w0&Hw0%make_eof&Hw)%bind_Ok.
  pose proof (same_flags_of_descriptor getsockopt AF_INET Socket.SOCK_STREAM Socket.IPPROTO_TCP w0) as Hk.
  destruct (Socket.Socket.of_descriptor _ _ _ _ w0) as [[|] w1]; [|done]. injection Hw as <-. by eapply same_flags_fresh.
Qed.

Lemma accept_may_return host service : may_return fresh_socket (accept_one calls host service).
Proof.
  unfold accept_one, Socket.TCPSocket.accept. repeat (apply may_return_bind; intros ?).
  intros w1 b w2 Hw. injection Hw as Hw _. by apply of_number_fresh in Hw.
Qed.

Lemma open_fresh host service server_mode w : open_socket calls host service server_mode = Ok w → fresh_socket w.
Proof.
  unfold open_socket. intros (w0&Hw0&Hw)%bind_Ok.
  assert (fresh_socket w0) as Hf0.
  { unfold new_socket in Hw0. destruct (on_socket calls _ _ _) eqn:Hs; [|done].
    unfold Socket.Socket.make in Hw0. rewrite Hs in Hw0. by apply make_eof in Hw0. }
  destruct server_mode.
  - apply bind_Ok in Hw as (w1&Hw1&Hw). eapply left_fresh; [apply same_flags_peer_name|done|].
    unfold returned in Hw1. destruct (accept_one calls host service w0) as [r w2] eqn:Ha. cbn in Hw1. subst r.
    by apply accept_may_return in Ha.
  - apply bind_Ok in Hw as (peer&_&Hw). eapply left_fresh; [apply same_flags_connect_to|done|done].
Qed.
End opening.

(** The command line is read within its bounds. *)
Lemma mode_of_ok args : ∃ m, mode_of args = Ok m.
Proof.
  unfold mode_of. case_bool_decide; [by eexists|].
  destruct args as [|a0 [|a1 [|a2 rest]]]; [done..|]. cbn [arg lookup list_lookup]. change (arg _ 1) with (Ok a1).
  rewrite bind_Ok_l. destruct (strncmp 3 "-l" a1); cbn [andb]; [|by eexists].
  case_bool_decide; [by eexists|]. destruct rest as [|a3 rest]; [done|]. by eexists.
Qed.

(** * Properties *)

(** What tcp_native copies.  However the program ends, if it came to copy
    at all then in each direction the bytes passed on are a prefix of those that
    came in, at most one buffer of them is missing, and the end is passed on only
    after all of them.  If it ends with success, and poll(2) reported no hangup,
    the other side has all that came from the standard input and the standard
    output all that came from the other side, with the ends of both. *)
Theorem native_copies `{Resolver} calls (os : system) total fuel setfl args :
  system_ok os total →
  let '(status, end_) := main calls os fuel setfl args in
  (∀ s d, end_ = Some s →
    let h := half_of d (world s) in
    given h = slice (source_bytes os d) 0 (zlen (given h)) ∧
    zlen (given h) ≤ taken h ≤ zlen (given h) + buffer_size ∧
    (is_shutdown h = true → zlen (given h) = taken h)) ∧
  (status = Ok EXIT_SUCCESS →
    ∃ s, end_ = Some s ∧
      (¬ hung os → ∀ d, given (half_of d (world s)) = slice (source_bytes os d) 0 (total d) ∧
        is_shutdown (half_of d (world s)) = true)).
Proof.
  intros Hos. unfold main. destruct (mode_of_ok args) as [m ->]. rewrite bind_Ok_l.
  assert (∀ e, match e with Throw _ => Ok EXIT_FAILURE | _ => Err e end ≠ Ok EXIT_SUCCESS) as Hcaught by (by intros []).
  assert (∃ opened, match m with Usage => Ok None | Server host service => Some <$> open_socket calls host service true
      | Client host service => Some <$> open_socket calls host service false end = opened ∧
    ∀ w, opened = Ok (Some w) → fresh_socket w) as (opened&->&Hfresh).
  { eexists. split; [done|]. intros w. destruct m as [|host service|host service]; [done| |];
      destruct (open_socket _ _ _ _) as [w'|] eqn:Ho; try done; intros [= <-]; by apply open_fresh in Ho. }
  destruct opened as [[w|]|e]; [| split; [done|by intros ?]|split; [done|by intros ?%Hcaught]].
  destruct (_ ≫= _) as [s|e] eqn:Hs; [|split; [done|by intros ?%Hcaught]].
  apply bind_Ok in Hs as (w1&Hw1&Hs).
  destruct (left_fresh _ _ _ (same_flags_peer_name calls) Hw1 (Hfresh w eq_refl)) as [He Hc].
  pose proof (copy_ok os total Hos fuel (on_getfl calls) setfl s (start_fresh _ _ _ Hs He Hc)) as [Hh Hall].
  assert (∀ s1 d, s1 = (bidirectional_stream_copy os fuel (on_getfl calls) setfl s).2 →
    let h := half_of d (world s1) in
    given h = slice (source_bytes os d) 0 (zlen (given h)) ∧
    zlen (given h) ≤ taken h ≤ zlen (given h) + buffer_size ∧
    (is_shutdown h = true → zlen (given h) = taken h)) as Hbytes.
  { intros s1 d ->. destruct (Hh d) as [a Ha]. destruct (half_ok_bytes os total d _ a Ha) as (H1&H2&_&H4). exact (conj H1 (conj H2 H4)). }
  destruct (bidirectional_stream_copy _ _ _ _ s) as [[[]|e] s1].
  - split; [intros s2 d [= <-]; by apply Hbytes|]. intros _. exists s1. split; [done|]. by apply Hall.
  - split; [intros s2 d [= <-]; by apply Hbytes|by intros ?%Hcaught].
Qed.

(** ** Runs *)

Definition demo_peer : bytes := sockaddr_in 167772162 4000.
Definition demo_calls : opening_calls := {|
  on_socket _ _ _ := Returned 4;
  on_getfl _ := Returned 2;
  on_setsockopt _ _ _ _ := Returned 0;
  on_bind _ _ _ := Returned 0;
  on_listen _ _ := Returned 0;
  on_accept _ := Returned 5;
  on_getsockopt _ _ option := Returned (if bool_decide (option = Socket.SO_DOMAIN) then AF_INET
    else if bool_decide (option = Socket.SO_TYPE) then Socket.SOCK_STREAM else Socket.IPPROTO_TCP, Socket.int_size);
  on_connect _ _ _ := Returned 0;
  on_getpeername _ _ := Returned (demo_peer, SOCKADDR_IN_SIZE);
|}.

(** A server and a client copy; a line that is too short fails. *)
Example native_runs :
  let R := DottedQuad.resolver in
  let run args := main demo_calls demo_os 12 demo_setfl args in
  let outcome r := (r.1, (λ s, (zlen (given (outbound (world s))), zlen (given (inbound (world s))))) <$> r.2) in
  outcome (run ["tcp_native"; "-l"; "0"; "4000"]) = (Ok EXIT_SUCCESS, Some (3, 2)) ∧
  outcome (run ["tcp_native"; "10.0.0.2"; "4000"]) = (Ok EXIT_SUCCESS, Some (3, 2)) ∧
  outcome (run ["tcp_native"; "-l"; "4000"]) = (Ok EXIT_FAILURE, None).
Proof. vm_compute. split_and!; reflexivity. Qed.

Lemma native_copies_witness :
  let R := DottedQuad.resolver in
  let '(status, end_) := main demo_calls demo_os 12 demo_setfl ["tcp_native"; "-l"; "0"; "4000"] in
  status = Ok EXIT_SUCCESS →
  ∃ s, end_ = Some s ∧ given (outbound (world s)) = slice demo_stream 0 3.
Proof.
  intros R. pose proof (native_copies demo_calls demo_os demo_total 12 demo_setfl ["tcp_native"; "-l"; "0"; "4000"] demo_ok) as H.
  destruct (main _ _ _ _ _) as [status end_]. destruct H as [_ H]. intros Hs. destruct (H Hs) as (s&Hend&Hall).
  exists s. split; [exact Hend|]. destruct (Hall demo_quiet Outbound) as [Hg _]. exact Hg.
Defined.
