(* ===== verification/TcpIPv4.v ===== *)
(** The program of src/apps/tcp_ipv4.cc: a TCPMinnowSocket on a lossy adapter
    over a TUN device, opened as the command line says, and the copying between
    it and the standard input and output, with the thread of the connection
    running beside it. *)

From stdpp Require Import strings.
From S2P Require Import Prelude Interfaces Effects FileDescriptor EventRules EventLoop EpollEventLoop Address WrappingIntegers TCPMessages.
From S2P Require Import ByteStream TCPOverIP Pipe Adapter PeerStreams MinnowSocket SocketCopy CLibrary CommandLine.
From S2P Require Socket TCPPeer StreamCopy SocketOwner.
Open Scope Z_scope.

(** What the program is given: numbers of the random device, the engine of the
    adapter, the calls that open the device and the socket, what the thread of
    the connection and its owner are answered, and how many turns the loops
    make. *)
Record machine (E K : Type) : Type := mkMachine {
  random : nat → Z;
  engine : E;
  on_open : string → Z → syscall Z;
  on_ioctl : Z → Z → bytes * Z → syscall Z;
  on_getfl : Z → syscall Z;
  on_setfl : Z → Z → syscall Z;
  on_socketpair : syscall (Z * Z);
  on_getsockopt : Z → Z → Z → syscall (Z * Z);
  on_epoll_create1 : syscall Z;
  kernel : K;
  thread_calls : MinnowSocket.system K;
  owner_calls : MinnowSocket.system K;
  copy_calls : StreamCopy.system;
  opening_turns : nat;
  thread_turns : nat;
  copy_turns : nat;
}.
Arguments random {E K} _ _.
Arguments engine {E K} _.
Arguments on_open {E K} _ _ _.
Arguments on_ioctl {E K} _ _ _ _.
Arguments on_getfl {E K} _ _.
Arguments on_setfl {E K} _ _ _.
Arguments on_socketpair {E K} _.
Arguments on_getsockopt {E K} _ _ _ _.
Arguments on_epoll_create1 {E K} _.
Arguments kernel {E K} _.
Arguments thread_calls {E K} _.
Arguments owner_calls {E K} _.
Arguments copy_calls {E K} _.
Arguments opening_turns {E K} _.
Arguments thread_turns {E K} _.
Arguments copy_turns {E K} _.

(** An opened socket, with what it was opened with. *)
Record configured (S : Type) : Type := mkConfigured {
  cfg : TCPConfig;
  filt : FdAdapterConfig;
  listens : bool;
  made : S;
}.
Arguments mkConfigured {S} _ _ _ _.
Arguments cfg {S} _.
Arguments filt {S} _.
Arguments listens {S} _.
Arguments made {S} _.

Section program.
Context `{Resolver} {E K : Type} (rand : E → Z * E) (m : machine E K).
#[local] Instance lossy : TCPDatagramAdapter (LossyFdAdapter E FdAdapterBase) := LossyFdAdapter.lossy_adapter rand.
Abbreviation sys := (state MinnowSocket.code (EpollState K) (TCPMinnowSocket (LossyFdAdapter E FdAdapterBase))).

(** [TunFD( ... )], and the socket on it. *)
Definition TunFD (devname : string) : result FDWrapper :=
  TunTapFD.make (on_open m) (on_getfl m) (on_ioctl m) (String.list_byte_of_string devname) true.

Definition tcp_socket (tun_dev_name : option string) : result sys :=
  device ← TunFD (default TUN_DFLT tun_dev_name);
  filt ← default_filt;
  TCPMinnowSocket.make (on_socketpair m) (on_getfl m) (on_setfl m) (on_getsockopt m) (on_epoll_create1 m) (kernel m) device
    (mkLossyFdAdapter (engine m) (mkFdAdapterBase filt false)).

(** Up to the opening of the connection; [inl] is a call of [exit]. *)
Definition prepare (args : list string) : result (Z + configured sys) :=
  o ← configure (random m 0) (random m 1) args;
  match o with
  | Exited status => Ok (inl status)
  | Configured c_fsm c_filt listen tun_dev_name =>
      s ← tcp_socket tun_dev_name;
      Ok (inr (mkConfigured c_fsm c_filt listen s))
  end.

Definition open_connection (c : configured sys) : eff sys () :=
  if listens c then TCPMinnowSocket.listen_and_accept (thread_calls m) (opening_turns m) (cfg c) (filt c)
  else TCPMinnowSocket.connect (thread_calls m) (opening_turns m) (cfg c) (filt c).

(** The copying, on the descriptor [w] that the socket [s] is, once the address
    of its peer is spelled out. *)
Definition copying (s : sys) (w : FDWrapper) : result () * option (state StreamCopy.code () StreamCopy.copy) :=
  match
    (_ ← Address.to_string (TCPMinnowSocket.peer_address s); StreamCopy.start (on_getfl m) w)
  with
  | Err e => (Err e, None)
  | Ok s =>
      let '(r, s) := StreamCopy.bidirectional_stream_copy (copy_calls m) (copy_turns m) (on_getfl m) (on_setfl m) s in
      (r, Some s)
  end.

(** What is left of [main] once the connection is open; the destructor of the
    socket waits for the thread as well. *)
Definition run_connection (s : sys) : result exit * option (state StreamCopy.code () StreamCopy.copy) :=
  let '(r, copied) := copy_and_wait (owner_calls m) (copying s) s in
  (joined (TCPMinnowSocket._tcp_main (thread_calls m) (thread_turns m) s).1
     (match r with Ok _ => Ok (Exit EXIT_SUCCESS) | Err e => caught e end), copied).

Definition main (args : list string) : result exit * option (state StreamCopy.code () StreamCopy.copy) :=
  match args with
  | [] => (Ok Terminated, None)
  | _ =>
      match prepare args with
      | Err e => (caught e, None)
      | Ok (inl status) => (Ok (Exit status), None)
      | Ok (inr c) =>
          match open_connection c (made c) with
          | (Err e, _) => (caught e, None)
          | (Ok _, s) => run_connection s
          end
      end
  end.

(** The connection at a turn of its thread, counted from its opening. *)
Definition connection (turns : nat) (c : configured sys) : sys :=
  (session (thread_calls m) (negb (listens c)) (opening_turns m) turns (cfg c) (filt c) (made c)).2.
End program.

(** * What the command line leaves *)

Lemma with_argument_inv args curr set curr' s' : with_argument args curr set = Ok (Goes curr' s') → ∃ a, set a = Ok s'.
Proof.
  unfold with_argument. destruct (check_argc args curr); [|done]. intros (a&_&Hs)%bind_Ok.
  apply bind_Ok in Hs as (s&Hs&[= _ <-]). by exists a.
Qed.

(** Every option keeps the configuration well-formed. *)
Lemma next_option_config args curr s curr' s' :
  TCPPeer.config_ok (c_fsm s) → next_option args curr s = Ok (Goes curr' s') → TCPPeer.config_ok (c_fsm s').
Proof.
  intros (Ht&Hs&Hr&Hi). unfold next_option. intros (a&_&Hn)%bind_Ok.
  repeat match type of Hn with
  | (if ?b then _ else _) = _ =>
      destruct b; [first [injection Hn as _ <-|apply with_argument_inv in Hn as [x Hx]|done]|]
  end; try done; try (by split_and!);
    first [injection Hx as <-|apply bind_Ok in Hx as (n&_&[= <-])]; split_and!; try done; apply u64_range || apply u16_range.
Qed.

Lemma options_config fuel args curr s curr' s' :
  TCPPeer.config_ok (c_fsm s) → options fuel args curr s = Ok (Goes curr' s') → TCPPeer.config_ok (c_fsm s').
Proof.
  revert curr s. induction fuel as [|fuel IH]; intros curr s Hc; [done|]. cbn [options].
  case_bool_decide; [|by intros [= _ <-]]. intros (t&Ht&Ho)%bind_Ok. destruct t as [curr1 s1|]; [|done].
  eapply IH; [|exact Ho]. by eapply next_option_config.
Qed.

Lemma configure_ok `{Resolver} random1 random2 args c f b tun :
  configure random1 random2 args = Ok (Configured c f b tun) → TCPPeer.config_ok c.
Proof.
  unfold configure, get_config. case_bool_decide; [done|]. intros (filt&_&Hg)%bind_Ok.
  apply bind_Ok in Hg as (t&Ht&Hg). destruct t as [curr s|]; [|done].
  assert (TCPPeer.config_ok (c_fsm s)) as Hs.
  { eapply options_config; [|exact Ht]. split_and!; try done; apply u32_range. }
  unfold positional in Hg. destruct (listen s).
  - apply bind_Ok in Hg as (x&_&Hg). apply bind_Ok in Hg as (y&_&Hg). apply bind_Ok in Hg as (z&_&Hg).
    case_bool_decide; [done|]. by injection Hg as <- _ _ _.
  - repeat (apply bind_Ok in Hg as (?&_&Hg)). by injection Hg as <- _ _ _.
Qed.

(** * From the opening on *)

Section bytes.
Context `{Resolver} {E K : Type} (rand : E → Z * E) (m : machine E K) (total : StreamCopy.side → Z) (mtotal : Z).
Context (Hthread : MinnowSocket.system_ok (thread_calls m) mtotal) (Hcopy : StreamCopy.system_ok (copy_calls m) total).
#[local] Hint Extern 0 (TCPDatagramAdapter (LossyFdAdapter _ _)) => exact (lossy rand) : typeclass_instances.
#[local] Hint Extern 0 (WireAdapter (LossyFdAdapter _ _)) => exact (lossy_wire rand) : typeclass_instances.

Lemma tcp_socket_ok tun s :
  tcp_socket m tun = Ok s →
  fresh s ∧ ∃ w, SocketOwner.untouched w s ∧ eof_ w = false ∧ FileDescriptor.closed_ w = false.
Proof.
  unfold tcp_socket. intros (d&_&Hs)%bind_Ok. apply bind_Ok in Hs as (f&_&Hs).
  apply socket_make_ok in Hs as (Hf&_&w&Hw&He&Hc). split; [done|]. exists w. split; [|done].
  split; [apply Hf|done].
Qed.

Lemma prepare_ok args c :
  prepare m args = Ok (inr c) →
  TCPPeer.config_ok (cfg c) ∧ fresh (made c) ∧
  ∃ w, SocketOwner.untouched w (made c) ∧ eof_ w = false ∧ FileDescriptor.closed_ w = false.
Proof.
  unfold prepare. intros (o&Ho&Hp)%bind_Ok. destruct o as [c_fsm c_filt b tun|]; [|done].
  apply bind_Ok in Hp as (s&Hs&[= <-]). split; [by eapply configure_ok|]. by eapply tcp_socket_ok.
Qed.

(** The copying begins on a socket that is not at its end. *)
Lemma owner_fresh args c s w :
  prepare m args = Ok (inr c) → open_connection rand m c (made c) = (Ok (), s) → descriptors s !! own_fd = Some w →
  eof_ w = false ∧ FileDescriptor.closed_ w = false.
Proof.
  intros (_&_&w0&Hw0&He)%prepare_ok Hs Hw.
  assert (SocketOwner.keeps_owner (open_connection rand m c)) as Hk.
  { unfold open_connection. destruct (listens c); [apply SocketOwner.owner_listen|apply SocketOwner.owner_connect]. }
  specialize (Hk w0 (made c) Hw0). rewrite Hs in Hk. destruct Hk as [_ Hk]. cbn in Hk. by replace w with w0 by congruence.
Qed.

(** What holds of the copying whenever it is looked at, and when it is over. *)
Lemma copying_ok s w r copied :
  eof_ w = false → FileDescriptor.closed_ w = false → copying rand m s w = (r, Some copied) →
  StreamCopy.outcome (copy_calls m) total r copied.
Proof.
  intros He Hc. unfold copying. destruct (Address.to_string _) as [name|e]; [|done]. rewrite bind_Ok_l.
  destruct (StreamCopy.start (on_getfl m) w) as [c|e] eqn:Hs; [|done].
  pose proof (StreamCopy.copy_ok _ _ Hcopy (copy_turns m) (on_getfl m) (on_setfl m) c) as Ho.
  unfold post in Ho. destruct (StreamCopy.bidirectional_stream_copy _ _ _ _ c) as [r' c']. intros [= <- <-]. apply Ho.
  by apply (StreamCopy.start_fresh _ _ _ Hs).
Qed.

Lemma copying_returns s w copied : copying rand m s w = (Ok (), copied) → ∃ cp, copied = Some cp.
Proof.
  unfold copying. destruct (_ ← Address.to_string _; _) as [c|e]; [|done].
  destruct (StreamCopy.bidirectional_stream_copy _ _ _ _ c) as [r' c']. intros [= _ <-]. by eexists.
Qed.

(** The thread of the connection, at any turn. *)
Lemma connection_inv c turns :
  TCPPeer.config_ok (cfg c) → recv_capacity (cfg c) <= 2 ^ 62 → fresh (made c) →
  socket_inv (claim := λ _ _, True) (sound := adapter_sound) (thread_calls m) mtotal (connection rand m turns c).
Proof. intros. by apply wire_session. Qed.

Lemma connection_genuine c turns z remote n :
  TCPPeer.config_ok (cfg c) → recv_capacity (cfg c) <= 2 ^ 62 → fresh (made c) → wf z → 0 <= n < 2 ^ 31 - 2 →
  (∀ i (x : FDWrapper * LossyFdAdapter E FdAdapterBase) msg x',
    LossyFdAdapter.read rand (net_calls (thread_calls m) i) x = (Ok (Some msg), x') → genuine z remote n (sender msg)) →
  socket_inv (claim := assembling z remote n) (sound := adapter_sound) (thread_calls m) mtotal (connection rand m turns c).
Proof. intros Hc Hl Hf Hz Hn Hg. apply genuine_session; try done. intros i w x msg x' _. apply Hg. Qed.
End bytes.

(** * Properties *)

(** C7: a run of tcp_ipv4, from its command line to its streams.  At any turn of
    the thread of the connection, and however far the copying beside it has
    come or if it has failed, and whatever the device delivers and the lossy
    adapter drops: the outbound stream of the TCP connection is the beginning of
    the standard input, and what the standard output was given is the beginning
    of the inbound stream; and if the segments that arrive are those of one
    remote stream, or resets, the standard output has the beginning of that.  The
    receive capacity asked for is at most 2^62 bytes. *)
Theorem tcp_ipv4_streams `{Resolver} {E K} (rand : E → Z * E) (m : machine E K) total mtotal args c s w r copied turns :
  MinnowSocket.system_ok (thread_calls m) mtotal → StreamCopy.system_ok (copy_calls m) total →
  prepare m args = Ok (inr c) → recv_capacity (cfg c) <= 2 ^ 62 →
  open_connection rand m c (made c) = (Ok (), s) → descriptors s !! own_fd = Some w → copying rand m s w = (r, Some copied) →
  let t := world (connection rand m turns c) in
  paired (thread_calls m) (copy_calls m) t (world copied) →
  let stdout := StreamCopy.given (StreamCopy.inbound (world copied)) in
  (∃ p a ar, _tcp t = Some p ∧ refines (TCPPeer.outbound p) a ∧ refines (TCPPeer.inbound p) ar ∧
    written a = slice (StreamCopy.source_bytes (copy_calls m) StreamCopy.Outbound) 0 (taken t) ∧
    stdout `prefix_of` written ar) ∧
  ∀ z remote n, wf z → 0 <= n < 2 ^ 31 - 2 →
    (∀ i (x : FDWrapper * LossyFdAdapter E FdAdapterBase) msg x', LossyFdAdapter.read rand (net_calls (thread_calls m) i) x = (Ok (Some msg), x') → genuine z remote n (sender msg)) →
    stdout `prefix_of` slice remote 0 n.
Proof.
  intros Hthread Hcopy Hc Hcap Hopen Hw Hrun t Hpair stdout.
  destruct (prepare_ok rand m args c Hc) as (Hcfg&Hf&_). destruct (owner_fresh rand m args c s w Hc Hopen Hw) as [He Hcl].
  destruct (copying_ok rand m total Hcopy s w r copied He Hcl Hrun) as [Hh _].
  split.
  - exact (@streams_carried _ _ (lossy rand) _ _ total mtotal _ _ _ _ (connection_inv rand m mtotal Hthread c turns Hcfg Hcap Hf) Hh Hpair).
  - intros z remote n Hz Hn Hgen.
    exact (@stdout_delivered _ _ (lossy rand) _ _ total mtotal _ z remote n _ _
      (connection_genuine rand m mtotal Hthread c turns z remote n Hcfg Hcap Hf Hz Hn Hgen) Hh Hpair).
Qed.

(** How tcp_ipv4 ends.  Without arguments it aborts.  The status is 0 only
    for a call for help, or after the connection was opened, the copying has
    returned and so has the thread; and then, if poll(2) reported no hangup, the
    whole standard input was passed on, and its end, and the standard output has
    all that came from the socket, and its end. *)
Theorem tcp_ipv4_status `{Resolver} {E K} (rand : E → Z * E) (m : machine E K) total args :
  StreamCopy.system_ok (copy_calls m) total →
  let '(r, copied) := main rand m args in
  (args = [] → r = Ok Terminated) ∧
  (r = Ok (Exit EXIT_SUCCESS) →
    prepare m args = Ok (inl 0) ∧ copied = None ∨
    ∃ c s w cp, prepare m args = Ok (inr c) ∧ open_connection rand m c (made c) = (Ok (), s) ∧
      descriptors s !! own_fd = Some w ∧ copying rand m s w = (Ok (), Some cp) ∧ copied = Some cp ∧
      (∃ s', @TCPMinnowSocket._tcp_main _ _ (lossy rand) (thread_calls m) (thread_turns m) s = (Ok (), s')) ∧
      (¬ StreamCopy.hung (copy_calls m) → ∀ d,
        StreamCopy.given (StreamCopy.half_of d (world cp)) = slice (StreamCopy.source_bytes (copy_calls m) d) 0 (total d) ∧
        StreamCopy.is_shutdown (StreamCopy.half_of d (world cp)) = true)).
Proof.
  intros Hcopy. unfold main. destruct args as [|arg args]; [split; [done|by intros [=]]|].
  destruct (prepare m (arg :: args)) as [[status|c]|e] eqn:Hp; [| |split; [done|by intros ?%caught_success]].
  { split; [done|]. intros [= ->]. by left. }
  destruct (open_connection rand m c (made c)) as [[[]|e] s] eqn:Ho; [|split; [done|by intros ?%caught_success]].
  unfold run_connection. destruct (copy_and_wait _ _ s) as [r copied] eqn:Hcw. split; [done|].
  intros [Ht Hr]%joined_exit. destruct r as [[]|e]; [|by apply caught_success in Hr].
  apply copy_and_wait_ok in Hcw as (w&Hw&Hcp). destruct (owner_fresh rand m _ c s w Hp Ho Hw) as [He Hc].
  destruct (copying_returns _ _ _ _ _ Hcp) as [cp ->]. right. exists c, s, w, cp. split_and!; try done.
  - destruct (TCPMinnowSocket._tcp_main _ _ s) as [r' s']. cbn [fst] in Ht. subst r'. by exists s'.
  - destruct (copying_ok rand m total Hcopy s w _ cp He Hc Hcp) as [_ Hall]. by apply Hall.
Qed.

(** ** A run *)

#[local] Existing Instance DottedQuad.resolver.

(** The other end, at 10.0.0.1, port 80, answers the SYN, sends five bytes and
    its FIN, and acknowledges what it is sent. *)
Definition remote_end : FdAdapterBase :=
  mkFdAdapterBase (mkFdAdapterConfig (inet 167772161 80) (inet 2852032521 4000) 0 0) false.
Definition packet_of (msg : TCPMessage) : bytes :=
  match (dgram ← TCPOverIPv4Adapter.wrap_tcp_in_ip msg remote_end; @Wire.serialize _ IPv4.IPv4Datagram_wire dgram) with
  | Ok bufs => Ref.text bufs
  | Err _ => []
  end.
Definition packets : list bytes := packet_of <$> script.

(** The engine is a constant. *)
Definition steady (e : ()) : Z * () := (0, e).
Definition demo_thread : MinnowSocket.system () := MinnowSocket.mkSystem ()
  (λ t _, Returned (default [] (packets !! Nat.min 3 (t / 8)))) (λ _ bufs, Returned (zlen (concat bufs)))
  demo_stream (λ _ pos n, Returned (Z.min n (4 - pos)))
  (λ _ pos bufs, if bool_decide (pos < 1000) then Returned (Z.min 2 (zlen (concat bufs))) else Failed EAGAIN)
  (λ _ _ _, Returned 0) (λ t, if bool_decide (t < 50)%nat then Z.of_nat t else 20000 + Z.of_nat t) (λ _, false)
  (λ _ _ _ _ k, (Returned (), k))
  (λ t _ _ _ _, Returned (if bool_decide (t `mod` 8 < 4)%nat then [(5, EPOLLIN); (6, Z.lor EPOLLIN EPOLLOUT)]
                          else [(6, Z.lor EPOLLIN EPOLLOUT); (5, EPOLLIN)]))
  (λ _ _, Failed ENOTSOCK) (λ m, (map_to_list m).*1).
Definition demo_total (d : StreamCopy.side) : Z := match d with StreamCopy.Outbound => 4 | StreamCopy.Inbound => 5 end.
Definition demo_copy : StreamCopy.system := StreamCopy.mkSystem (λ _, demo_stream)
  (λ _ d pos n, Returned (Z.min n (demo_total d - pos)))
  (λ _ d pos bufs, Returned (Z.min 2 (zlen (concat bufs))))
  (λ _ _ _, Returned 0) (λ _ _, Returned 0)
  (λ _ ps _, Returned (1, (λ p, Z.land (events p) (Z.lor POLLIN POLLOUT)) <$> ps)) (λ _ _, Failed ENOTSOCK).
Definition demo_machine : machine () () := {|
  random n := match n with O => 137 | _ => 4000 end;
  engine := ();
  on_open _ _ := Returned 5;
  on_ioctl _ _ _ := Returned 0;
  on_getfl _ := Returned 2;
  on_setfl _ _ := Returned 0;
  on_socketpair := Returned (7, 6);
  on_getsockopt _ _ option := Returned (if bool_decide (option = Socket.SO_PROTOCOL) then 0 else 1, Socket.int_size);
  on_epoll_create1 := Returned 4;
  kernel := ();
  thread_calls := demo_thread;
  owner_calls := demo_thread;
  copy_calls := demo_copy;
  opening_turns := 5;
  thread_turns := 12;
  copy_turns := 16;
|}.
Definition demo_args : list string := ["tcp_ipv4"; "10.0.0.1"; "80"].

(** The whole program: four bytes go out, five come in, and it ends well; a
    call for help, a bad line, a device that is not there. *)
Example tcp_ipv4_runs :
  let outcome r := (r.1, (λ s, (StreamCopy.given (StreamCopy.outbound (world s)), StreamCopy.given (StreamCopy.inbound (world s)))) <$> r.2) in
  outcome (main steady demo_machine demo_args) =
    (Ok (Exit EXIT_SUCCESS), Some (slice demo_stream 0 4, slice demo_stream 0 5)) ∧
  outcome (main steady demo_machine ["tcp_ipv4"; "-h"; "10.0.0.1"; "80"]) = (Ok (Exit EXIT_SUCCESS), None) ∧
  outcome (main steady demo_machine ["tcp_ipv4"; "80"]) = (Ok (Exit EXIT_FAILURE), None) ∧
  outcome (main steady demo_machine []) = (Ok Terminated, None).
Proof. vm_compute. split_and!; reflexivity. Qed.

(** The run, taken apart. *)
Definition demo_stages : bool :=
  match prepare demo_machine demo_args with
  | Ok (inr c) =>
      match open_connection steady demo_machine c (made c) with
      | (Ok _, s) =>
          match descriptors s !! own_fd with
          | Some w =>
              match copying steady demo_machine s w with
              | (Ok _, Some cp) =>
                  let t := world (connection steady demo_machine 12 c) in
                  bool_decide (recv_capacity (cfg c) <= 2 ^ 62) &&
                  bool_decide (slice demo_stream 0 (taken t) `prefix_of` StreamCopy.given (StreamCopy.outbound (world cp))) &&
                  bool_decide (slice demo_stream 0 (StreamCopy.taken (StreamCopy.inbound (world cp))) `prefix_of` given t) &&
                  bool_decide (taken t = 4)
              | _ => false
              end
          | None => false
          end
      | _ => false
      end
  | _ => false
  end.

Lemma demo_stages_inv :
  demo_stages = true →
  ∃ c s w cp, prepare demo_machine demo_args = Ok (inr c) ∧ recv_capacity (cfg c) <= 2 ^ 62 ∧
    open_connection steady demo_machine c (made c) = (Ok (), s) ∧ descriptors s !! own_fd = Some w ∧
    copying steady demo_machine s w = (Ok (), Some cp) ∧
    paired demo_thread demo_copy (world (connection steady demo_machine 12 c)) (world cp) ∧
    taken (world (connection steady demo_machine 12 c)) = 4.
Proof.
  unfold demo_stages. destruct (prepare demo_machine demo_args) as [[|c]|]; [discriminate| |discriminate].
  destruct (open_connection steady demo_machine c (made c)) as [[[]|] s] eqn:Hs; [|discriminate].
  destruct (descriptors s !! own_fd) as [w|] eqn:Hw; [|discriminate].
  destruct (copying steady demo_machine s w) as [[[]|] [cp|]] eqn:Hcp; [|discriminate..].
  rewrite !andb_true_iff, !bool_decide_eq_true. intros [[[H1 H2] H3] H4]. exists c, s, w, cp.
  repeat (split; [first [reflexivity|assumption]|]). split; [|exact H4]. split; [exact H2|exact H3].
Qed.

Lemma demo_thread_ok : MinnowSocket.system_ok demo_thread 4.
Proof.
  split; [done| |].
  - intros t pos Hpos n k Hn [= <-]. lia.
  - intros t pos bufs k. cbn. case_bool_decide; [|done]. intros [= <-]. zlen.
Qed.

Lemma demo_copy_ok : StreamCopy.system_ok demo_copy demo_total.
Proof.
  split.
  - by intros [].
  - intros n [] pos Hpos k asked Hk [= <-]; cbn in *; lia.
  - intros n d pos bufs k [= <-]. zlen.
Qed.

Lemma tcp_ipv4_streams_witness :
  ∃ (t : TCPMinnowSocket (LossyFdAdapter () FdAdapterBase)) p a,
    _tcp t = Some p ∧ refines (TCPPeer.outbound p) a ∧ written a = slice demo_stream 0 4.
Proof.
  destruct demo_stages_inv as (c&s&w&cp&Hc&Hl&Hs&Hw&Hcp&Hpair&Ht); [vm_compute; reflexivity|].
  destruct (tcp_ipv4_streams steady demo_machine demo_total 4 demo_args c s w (Ok ()) cp 12 demo_thread_ok demo_copy_ok
    Hc Hl Hs Hw Hcp Hpair) as [(p&a&ar&Hp&Ha&_&Hwr&_) _].
  exists (world (connection steady demo_machine 12 c)), p, a. split; [exact Hp|]. split; [exact Ha|].
  rewrite Hwr, Ht. reflexivity.
Defined.
