(* ===== verification/EndtoendMain.v ===== *)
(** The program of src/apps/endtoend.cc: its arguments, what it sets up, and
    its three threads: that of the network, that of the connection, and the
    one that opens it and copies. *)

From stdpp Require Import strings.
From S2P Require Import Prelude WrappingIntegers ByteStream Effects FileDescriptor EventRules EpollEventLoop Address TCPMessages TCPOverIP.
From S2P Require Import Pipe Adapter PeerStreams MinnowSocket SocketCopy Endtoend EndtoendSocket.
From S2P Require Import Ethernet NetworkInterface.
From S2P Require Socket TCPPeer StreamCopy SocketOwner TcpIPv4.
Open Scope Z_scope.

(** What the program is given: random numbers, the calls that make its sockets,
    what each thread is answered, and how many turns their loops make. *)
Record machine (K : Type) : Type := mkMachine {
  random_host : nat → Z;
  random_internet : nat → Z;
  random_adapter : nat → Z;
  random_port : Z;
  on_socket : Z → Z → Z → syscall Z;
  on_getfl : Z → syscall Z;
  on_setfl : Z → Z → syscall Z;
  on_sendto : Z → bytes → bytes → Z → syscall Z;
  on_connect : Z → bytes → Z → syscall Z;
  on_frame_pair : Z → Z → Z → syscall (Z * Z);
  on_socketpair : syscall (Z * Z);
  on_getsockopt : Z → Z → Z → syscall (Z * Z);
  on_epoll_create1 : syscall Z;
  kernel : K;
  network_calls : Endtoend.system;
  thread_calls : MinnowSocket.system K;
  owner_calls : MinnowSocket.system K;
  copy_calls : StreamCopy.system;
  network_turns : nat;
  opening_turns : nat;
  thread_turns : nat;
  copy_turns : nat;
}.
Arguments random_host {K} _ _.
Arguments random_internet {K} _ _.
Arguments random_adapter {K} _ _.
Arguments random_port {K} _.
Arguments on_socket {K} _ _ _ _.
Arguments on_getfl {K} _ _.
Arguments on_setfl {K} _ _ _.
Arguments on_sendto {K} _ _ _ _ _.
Arguments on_connect {K} _ _ _ _.
Arguments on_frame_pair {K} _ _ _ _.
Arguments on_socketpair {K} _.
Arguments on_getsockopt {K} _ _ _ _.
Arguments on_epoll_create1 {K} _.
Arguments kernel {K} _.
Arguments network_calls {K} _.
Arguments thread_calls {K} _.
Arguments owner_calls {K} _.
Arguments copy_calls {K} _.
Arguments network_turns {K} _.
Arguments opening_turns {K} _.
Arguments thread_turns {K} _.
Arguments copy_turns {K} _.

Section program.
Context `{Resolver} {K : Type} (m : machine K).
Abbreviation sys := (state MinnowSocket.code (EpollState K) (TCPMinnowSocket NetworkInterfaceAdapter)).
Abbreviation copying_state := (state StreamCopy.code () StreamCopy.copy).

(** [internet_socket], known to the bouncer and connected to it. *)
Definition open_internet (bounce_host bounce_port : string) : result FDWrapper :=
  w ← match on_socket m AF_INET Socket.SOCK_DGRAM 0 with
      | Returned fd => Socket.Socket.make (on_socket m) (on_getfl m fd) AF_INET Socket.SOCK_DGRAM 0
      | Failed _ => Err (unix_error "socket")
      end;
  bounce_address ← Address.of_names bounce_host bounce_port;
  let '(r, w) :=
    (Socket.DatagramSocket.sendto (on_sendto m) bounce_address [] ;;
     Socket.DatagramSocket.sendto (on_sendto m) bounce_address [] ;;
     Socket.DatagramSocket.sendto (on_sendto m) bounce_address [] ;;
     Socket.Socket.connect (on_connect m) bounce_address) w in
  _ ← r; Ok w.

(** [sock]: its adapter and the other end of its frames, and the socket. *)
Definition make_sock (is_client : bool) : result (FDWrapper * sys) :=
  '(adapter_end, frame_end) ← make_socket_pair (on_frame_pair m) (on_getfl m);
  a ← set_up_adapter is_client (random_adapter m);
  s ← TCPMinnowSocket.make (on_socketpair m) (on_getfl m) (on_setfl m) (on_getsockopt m) (on_epoll_create1 m) (kernel m)
        adapter_end a;
  Ok (frame_end, s).

(** The set-up: the state of the network's thread, and the socket. *)
Definition set_up (is_client : bool) (bounce_host bounce_port : string) : result (state Endtoend.code () network * sys) :=
  internet ← open_internet bounce_host bounce_port;
  net ← set_up_router is_client (random_host m) (random_internet m);
  '(frame_end, s) ← make_sock is_client;
  Ok (mkState [] [] [] 0 {[Endtoend.frame_fd := frame_end; Endtoend.internet_socket := internet]} [] () net, s).

(** The configuration of the connection: a client's, to the server's address, or
    a server's, bound to it. *)
Definition open_connection (is_client : bool) : eff sys () :=
  server ← lift (Address.of_ip_port "172.16.0.100" 1234);
  local ← lift (Address.of_ip_port (if is_client then "192.168.0.50" else "172.16.0.100") 0);
  if is_client then
    TCPSocketEndToEnd.connect (thread_calls m) (opening_turns m) (random_port m) local server ;; mret ()
  else
    local ← lift (TCPSocketEndToEnd.bind local server);
    TCPSocketEndToEnd.listen_and_accept (thread_calls m) (opening_turns m) local.

(** The copying, on the socket [w]. *)
Definition copying (w : FDWrapper) : result () * option copying_state :=
  match StreamCopy.start (on_getfl m) w with
  | Err e => (Err e, None)
  | Ok s =>
      let '(r, s) := StreamCopy.bidirectional_stream_copy (copy_calls m) (copy_turns m) (on_getfl m) (on_setfl m) s in
      (r, Some s)
  end.

(** An exception that is reported and forgotten. *)
Definition reported {A} (r : result A) (next : result exit) : result exit :=
  match r with Ok _ | Err (Throw _) => next | Err e => Err e end.

(** [program_body], once everything is set up: whatever becomes of the
    connection, the thread of the network is waited for, and then that of the
    connection, which only runs if it was opened. *)
Definition run (is_client : bool) (net : state Endtoend.code () network) (s : sys) : result exit * option copying_state :=
  let network := ((add_rules ;; Endtoend.loop (network_calls m) (network_turns m)) net).1 in
  match open_connection is_client s with
  | (Err e, _) => (reported (Err e : result ()) (reported network (Ok (Exit EXIT_SUCCESS))), None)
  | (Ok _, s) =>
      let '(r, copied) := copy_and_wait (owner_calls m) copying s in
      (joined (TCPMinnowSocket._tcp_main (thread_calls m) (thread_turns m) s).1
         (reported r (reported network (Ok (Exit EXIT_SUCCESS)))), copied)
  end.

Definition program_body (is_client : bool) (bounce_host bounce_port : string) : result exit * option copying_state :=
  match set_up is_client bounce_host bounce_port with
  | Err e => (caught e, None)
  | Ok (net, s) => run is_client net s
  end.

(** Whether to print each frame, the fifth argument, is left out. *)
Definition main (args : list string) : result exit * option copying_state :=
  match args with
  | [] => (Ok Terminated, None)
  | _ =>
      match args with
      | [_; role; host; port] | [_; role; host; port; _] =>
          if bool_decide (role ≠ "client" ∧ role ≠ "server") then (Ok (Exit EXIT_FAILURE), None)
          else program_body (bool_decide (role = "client")) host port
      | _ => (Ok (Exit EXIT_FAILURE), None)
      end
  end.

(** The connection at a turn of its thread, counted from its opening. *)
Definition connection (is_client : bool) (turns : nat) (s : sys) : sys :=
  ((open_connection is_client ;; TCPMinnowSocket._tcp_loop (thread_calls m) turns (mret true)) s).2.
End program.

(** * From the opening on *)

Section bytes.
Context `{Resolver} {K : Type} (m : machine K) (total : StreamCopy.side → Z) (mtotal : Z).
Context (Hthread : MinnowSocket.system_ok (thread_calls m) mtotal) (Hcopy : StreamCopy.system_ok (copy_calls m) total).

(** A socket as it is made. *)
Record new_sock (s : state MinnowSocket.code (EpollState K) (TCPMinnowSocket NetworkInterfaceAdapter)) : Prop := mkNewSock {
  ns_fresh : fresh s;
  ns_sound : adapter_sound (_datagram_adapter (world s));
  ns_owner : ∃ w, SocketOwner.untouched w s ∧ eof_ w = false ∧ FileDescriptor.closed_ w = false;
}.

Lemma set_up_ok is_client host port net s : set_up m is_client host port = Ok (net, s) → new_sock s.
Proof.
  unfold set_up, make_sock. intros (i&_&Hs)%bind_Ok. apply bind_Ok in Hs as (n&_&Hs).
  apply bind_Ok in Hs as ([f s']&Hm&[= _ <-]). apply bind_Ok in Hm as ([e g]&_&Hm).
  apply bind_Ok in Hm as (a&Ha&Hm). apply bind_Ok in Hm as (s2&Hs2&[= _ <-]).
  apply socket_make_ok in Hs2 as (Hf&Had&w&Hw&He&Hc). split; [done|by rewrite Had; eapply set_up_adapter_sound|].
  exists w. split; [|done]. split; [apply Hf|done].
Qed.

(** An opened connection is a session of its socket. *)
Lemma connection_session is_client s s1 :
  open_connection m is_client s = (Ok (), s1) →
  ∃ c_ad, open_connection m is_client s =
      (if is_client then TCPMinnowSocket.connect (thread_calls m) (opening_turns m) default_config c_ad
       else TCPMinnowSocket.listen_and_accept (thread_calls m) (opening_turns m) default_config c_ad) s ∧
    ∀ turns, connection m is_client turns s = (session (thread_calls m) is_client (opening_turns m) turns default_config c_ad s).2.
Proof.
  intros Ho. enough (∃ c_ad, open_connection m is_client s =
      (if is_client then TCPMinnowSocket.connect (thread_calls m) (opening_turns m) default_config c_ad
       else TCPMinnowSocket.listen_and_accept (thread_calls m) (opening_turns m) default_config c_ad) s) as [c_ad Hc].
  { exists c_ad. split; [done|]. intros turns. unfold connection, session. rewrite !bind_eq, Hc. by destruct is_client. }
  unfold open_connection in *. rewrite bind_eq in *. destruct (Address.of_ip_port "172.16.0.100" 1234) as [server|e]; [|done].
  cbn [lift] in *. rewrite bind_eq in *. destruct (Address.of_ip_port _ 0) as [local|e]; [|done]. cbn [lift] in *. destruct is_client.
  - rewrite bind_eq in *. unfold TCPSocketEndToEnd.connect in *. rewrite !bind_eq in *.
    destruct (TCPSocketEndToEnd.connect_config _ _ _) as [[l c]|e]; [|done]. cbn [lift] in *. exists c. rewrite bind_eq.
    by destruct (TCPMinnowSocket.connect _ _ _ _ s) as [[[]|e] s2].
  - rewrite bind_eq in *. destruct (TCPSocketEndToEnd.bind local server) as [l|e]; [|done]. cbn [lift] in *.
    unfold TCPSocketEndToEnd.listen_and_accept in *. rewrite bind_eq in *.
    destruct (TCPSocketEndToEnd.listen_config l) as [c|e]; [|done]. by exists c.
Qed.

Lemma sock_owner_fresh is_client s s1 w :
  new_sock s → open_connection m is_client s = (Ok (), s1) → descriptors s1 !! own_fd = Some w →
  eof_ w = false ∧ FileDescriptor.closed_ w = false.
Proof.
  intros [_ _ (w0&Hw0&He)] Ho Hw. destruct (connection_session _ _ _ Ho) as (c&Hc&_). rewrite Ho in Hc.
  assert (SocketOwner.untouched w0 s1) as [_ Hk]; [|by replace w with w0 by congruence].
  destruct is_client;
    [pose proof (SocketOwner.owner_connect (thread_calls m) (opening_turns m) default_config c w0 s Hw0) as Hk
    |pose proof (SocketOwner.owner_listen (thread_calls m) (opening_turns m) default_config c w0 s Hw0) as Hk];
    by rewrite <- Hc in Hk.
Qed.

Lemma sock_copying_ok w r copied :
  eof_ w = false → FileDescriptor.closed_ w = false → copying m w = (r, Some copied) →
  StreamCopy.outcome (copy_calls m) total r copied.
Proof.
  intros He Hc. unfold copying. destruct (StreamCopy.start (on_getfl m) w) as [s|e] eqn:Hs; [|done].
  pose proof (StreamCopy.copy_ok _ _ Hcopy (copy_turns m) (on_getfl m) (on_setfl m) s) as Ho. unfold post in Ho.
  destruct (StreamCopy.bidirectional_stream_copy _ _ _ _ s) as [r' s']. intros [= <- <-]. apply Ho.
  by apply (StreamCopy.start_fresh _ _ _ Hs).
Qed.
End bytes.

(** * Properties *)

(** C6: a run of the end-to-end application, from its set-up to its streams.  At
    any turn of the thread of the connection, however far the copying beside it
    has come or if it has failed, and whatever frames the thread of the network
    puts on the adapter's descriptor: the outbound stream of the TCP connection
    is the beginning of the standard input, and what the standard output was
    given is the beginning of the inbound stream; and if the segments that
    arrive are those of one remote stream, or resets, the standard output has
    the beginning of that. *)
Theorem endtoend_streams `{Resolver} {K} (m : machine K) total mtotal is_client host port net s s1 w r copied turns :
  MinnowSocket.system_ok (thread_calls m) mtotal → StreamCopy.system_ok (copy_calls m) total →
  set_up m is_client host port = Ok (net, s) →
  open_connection m is_client s = (Ok (), s1) → descriptors s1 !! own_fd = Some w → copying m w = (r, Some copied) →
  let t := world (connection m is_client turns s) in
  paired (thread_calls m) (copy_calls m) t (world copied) →
  let stdout := StreamCopy.given (StreamCopy.inbound (world copied)) in
  (∃ p a ar, _tcp t = Some p ∧ refines (TCPPeer.outbound p) a ∧ refines (TCPPeer.inbound p) ar ∧
    written a = slice (StreamCopy.source_bytes (copy_calls m) StreamCopy.Outbound) 0 (taken t) ∧
    stdout `prefix_of` written ar) ∧
  ∀ z remote n, wf z → 0 <= n < 2 ^ 31 - 2 →
    (∀ i x a msg x', adapter_sound a →
      NetworkInterfaceAdapter.read (net_calls (thread_calls m) i) (x, a) = (Ok (Some msg), x') → genuine z remote n (sender msg)) →
    stdout `prefix_of` slice remote 0 n.
Proof.
  intros Hthread Hcopy Hset Ho Hw Hrun t Hpair stdout. apply set_up_ok in Hset as Hn.
  destruct (sock_owner_fresh m is_client s s1 w Hn Ho Hw) as [He Hcl]. destruct (sock_copying_ok m total Hcopy w r copied He Hcl Hrun) as [Hh _].
  destruct (connection_session m is_client s s1 Ho) as (c&_&Hc). destruct Hn as [Hf Hsd _]. unfold t in *. rewrite Hc in *.
  assert (recv_capacity default_config <= 2 ^ 62) by by vm_compute. split.
  - apply (streams_carried (thread_calls m) (copy_calls m) total mtotal (sound := adapter_sound) (λ _ _, True)); try done.
    by apply wire_session; [..|apply TCPPeer.default_config_ok| | |].
  - intros z remote n Hz Hn Hgen.
    apply (stdout_delivered (thread_calls m) (copy_calls m) total mtotal (sound := adapter_sound) z remote n
      (session (thread_calls m) is_client (opening_turns m) turns default_config c s).2); try done.
    by apply genuine_session; [..|apply TCPPeer.default_config_ok| | | | | |].
Qed.

(** ** A run *)

#[local] Existing Instance DottedQuad.resolver.

(** The client, whose router answers its ARP request; the server then answers
    the SYN, sends five bytes and its FIN, and acknowledges what it is sent. *)
Definition demo_mac : EthernetAddress := random_host_ethernet_address (demo_random 1).
Definition demo_router_mac : EthernetAddress := random_router_ethernet_address (demo_random 2).
Definition demo_server : FdAdapterBase :=
  mkFdAdapterBase (mkFdAdapterConfig (inet (host_addr false) 1234) (inet (host_addr true) 4000) 0 0) false.
Definition frame_of (msg : TCPMessage) : bytes :=
  match (dgram ← TCPOverIPv4Adapter.wrap_tcp_in_ip msg demo_server; @Wire.serialize _ IPv4.IPv4Datagram_wire dgram) with
  | Ok bufs => frame_text (NetworkInterface.make_frame EthernetHeader.TYPE_IPv4 demo_router_mac demo_mac bufs)
  | Err _ => []
  end.
Definition demo_frames : list bytes :=
  frame_text (reply_frame demo_router_mac (gateway true) (request_message demo_mac (host_addr true) (gateway true)))
  :: (frame_of <$> script).

Definition thread_that_writes (writev : list bytes → syscall Z) : MinnowSocket.system () := MinnowSocket.mkSystem ()
  (λ t _, Returned (default [] (demo_frames !! Nat.min 4 (t / 8)))) (λ _, writev)
  demo_stream (λ _ pos n, Returned (Z.min n (4 - pos)))
  (λ _ pos bufs, if bool_decide (pos < 1000) then Returned (Z.min 2 (zlen (concat bufs))) else Failed EAGAIN)
  (λ _ _ _, Returned 0) (λ t, if bool_decide (t < 60)%nat then Z.of_nat t else 20000 + Z.of_nat t) (λ _, false)
  (λ _ _ _ _ k, (Returned (), k))
  (λ t _ _ _ _, Returned (if bool_decide (t `mod` 8 < 4)%nat then [(5, EPOLLIN); (6, Z.lor EPOLLIN EPOLLOUT)]
                          else [(6, Z.lor EPOLLIN EPOLLOUT); (5, EPOLLIN)]))
  (λ _ _, Failed ENOTSOCK) (λ m, (map_to_list m).*1).
Definition demo_thread : MinnowSocket.system () := thread_that_writes (λ bufs, Returned (zlen (concat bufs))).
(** The thread of the network has nothing to carry and is told to leave. *)
Definition demo_network_calls : Endtoend.system := {|
  frame_readv _ _ := Failed EAGAIN;
  frame_writev _ bufs := Returned (zlen (concat bufs));
  internet_readv _ _ := Failed EAGAIN;
  internet_writev _ bufs := Returned (zlen (concat bufs));
  Endtoend.sys_poll _ ps _ := Returned (0, (λ _, 0) <$> ps);
  Endtoend.sys_getsockopt _ _ := Failed ENOTSOCK;
  exit_flag n := bool_decide (3 < n)%nat;
|}.
Definition machine_on (thread : MinnowSocket.system ()) : machine () := {|
  random_host := demo_random 2;
  random_internet := demo_random 3;
  random_adapter := demo_random 1;
  random_port := 4000;
  on_socket _ _ _ := Returned 8;
  on_getfl _ := Returned 2;
  on_setfl _ _ := Returned 0;
  on_sendto _ _ _ _ := Returned 0;
  on_connect _ _ _ := Returned 0;
  on_frame_pair _ _ _ := Returned (5, 9);
  on_socketpair := Returned (7, 6);
  on_getsockopt _ _ option := Returned (if bool_decide (option = Socket.SO_PROTOCOL) then 0 else 1, Socket.int_size);
  on_epoll_create1 := Returned 4;
  kernel := ();
  network_calls := demo_network_calls;
  thread_calls := thread;
  owner_calls := thread;
  copy_calls := TcpIPv4.demo_copy;
  network_turns := 10;
  opening_turns := 5;
  thread_turns := 12;
  copy_turns := 16;
|}.
Definition demo_machine : machine () := machine_on demo_thread.

Definition demo_args : list string := ["endtoend"; "client"; "10.0.0.1"; "80"].

(** The whole program: four bytes go out, five come in.  An opening that fails
    is reported and forgotten: the status is that of success. *)
Example endtoend_runs :
  let outcome r := (r.1, (λ s, (StreamCopy.given (StreamCopy.outbound (world s)), StreamCopy.given (StreamCopy.inbound (world s)))) <$> r.2) in
  outcome (main demo_machine demo_args) = (Ok (Exit EXIT_SUCCESS), Some (slice demo_stream 0 4, slice demo_stream 0 5)) ∧
  outcome (main demo_machine ["endtoend"; "peer"; "10.0.0.1"; "80"]) = (Ok (Exit EXIT_FAILURE), None) ∧
  outcome (main demo_machine ["endtoend"; "client"; "10.0.0.1"]) = (Ok (Exit EXIT_FAILURE), None).
Proof. vm_compute. split_and!; reflexivity. Qed.

(** The first frame cannot be written. *)
Example failure_unreported :
  let m := machine_on (thread_that_writes (λ _, Failed EBADF)) in
  match set_up m true "10.0.0.1" "80" with
  | Ok (net, s) => (open_connection m true s).1 = Err (unix_error "writev")
  | Err _ => False
  end ∧
  main m demo_args = (Ok (Exit EXIT_SUCCESS), None).
Proof. vm_compute. split; reflexivity. Qed.

(** The run, taken apart. *)
Definition demo_stages : bool :=
  match set_up demo_machine true "10.0.0.1" "80" with
  | Ok (net, s) =>
      match open_connection demo_machine true s with
      | (Ok _, s1) =>
          match descriptors s1 !! own_fd with
          | Some w =>
              match copying demo_machine w with
              | (Ok _, Some cp) =>
                  let t := world (connection demo_machine true 12 s) in
                  bool_decide (slice demo_stream 0 (taken t) `prefix_of` StreamCopy.given (StreamCopy.outbound (world cp))) &&
                  bool_decide (slice demo_stream 0 (StreamCopy.taken (StreamCopy.inbound (world cp))) `prefix_of` given t) &&
                  bool_decide (taken t = 4)
              | _ => false
              end
          | None => false
          end
      | _ => false
      end
  | _ => false
  end.

Lemma app_stages_inv :
  demo_stages = true →
  ∃ net s s1 w cp, set_up demo_machine true "10.0.0.1" "80" = Ok (net, s) ∧
    open_connection demo_machine true s = (Ok (), s1) ∧ descriptors s1 !! own_fd = Some w ∧
    copying demo_machine w = (Ok (), Some cp) ∧
    paired demo_thread TcpIPv4.demo_copy (world (connection demo_machine true 12 s)) (world cp) ∧
    taken (world (connection demo_machine true 12 s)) = 4.
Proof.
  unfold demo_stages. destruct (set_up demo_machine true _ _) as [[net s]|]; [|discriminate].
  destruct (open_connection demo_machine true s) as [[[]|] s1] eqn:Hs; [|discriminate].
  destruct (descriptors s1 !! own_fd) as [w|] eqn:Hw; [|discriminate].
  destruct (copying demo_machine w) as [[[]|] [cp|]] eqn:Hcp; [|discriminate..].
  rewrite !andb_true_iff, !bool_decide_eq_true. intros [[H2 H3] H4]. exists net, s, s1, w, cp.
  repeat (split; [first [reflexivity|assumption]|]). split; [|exact H4]. split; [exact H2|exact H3].
Qed.

Lemma app_thread_ok : MinnowSocket.system_ok demo_thread 4.
Proof.
  split; [done| |].
  - intros t pos Hpos n k Hn [= <-]. lia.
  - intros t pos bufs k. cbn. case_bool_decide; [|done]. intros [= <-]. zlen.
Qed.

Lemma endtoend_streams_witness :
  ∃ (t : TCPMinnowSocket NetworkInterfaceAdapter) p a,
    _tcp t = Some p ∧ refines (TCPPeer.outbound p) a ∧ written a = slice demo_stream 0 4.
Proof.
  destruct app_stages_inv as (net&s&s1&w&cp&Hset&Hs&Hw&Hcp&Hpair&Ht); [vm_compute; reflexivity|].
  destruct (endtoend_streams demo_machine TcpIPv4.demo_total 4 true "10.0.0.1" "80" net s s1 w (Ok ()) cp 12 app_thread_ok
    TcpIPv4.demo_copy_ok Hset Hs Hw Hcp Hpair) as [(p&a&ar&Hp&Ha&_&Hwr&_) _].
  exists (world (connection demo_machine true 12 s)), p, a. split; [exact Hp|]. split; [exact Ha|].
  rewrite Hwr, Ht. reflexivity.
Defined.
